(* ===== verification/_CoqProject ===== *)
-Q . S2P
Prelude.v
Errors.v
Status.v
Rows.v
Database.v
TxLogic.v
Lifecycle.v
Invariants.v
Evolution.v
Policy.v
Transitions.v
Registry.v
Calendar.v
Parents.v
Store.v
StoreSteps.v
Coordinator.v
CoordinatorSteps.v
Worker.v
WorkerSteps.v
Temporal.v
TemporalSteps.v
Control.v
ControlSteps.v
Schedules.v
Misfire.v
SchedulesSteps.v
ScheduleTicks.v
Progress.v
ProgressSteps.v
ExampleCalendar.v
Recovery.v
Restart.v
Health.v
Supervisor.v
Reads.v
Protocol.v
Scenario.v
Safety.v
ScheduleSafety.v
ProgressLog.v
HealthReports.v
Fencing.v
Effects.v
Walks.v
Claims.v
Topics.v
Dispatch.v
Starts.v
Deliveries.v
Cancel.v
Links.v
LinkSteps.v
LinkRuns.v
Coupling.v
Stored.v
Flow.v
Replay.v
Adapter.v
Text.v
Keyset.v
Cursor.v
AdminTypes.v
Queries.v
Paging.v
Timeline.v
Metrics.v
AdminSchedules.v
ExampleCursor.v
Pages.v
TimelinePages.v
MetricsExact.v
KeyedPages.v
DetailPages.v
Executor.v
Executions.v
Tasks.v
Mysql.v
Macros.v
MacroChecks.v
