(* ===== verification/Prelude.v ===== *)
(** Verification of durable-workflows: the durable engine
    ([src/durable-workflows/src]), a Rust library that runs workflows and their
    activities over a SQL database.

    * The program

    All durable state is in nine tables. The actors are stateless and work
    only by transactions on them; [docs/INVARIANTS.md] names the transactions
    (T-X1 and so on) and the properties (S1 and so on) that this development
    follows.

    - The application starts, recovers and cancels workflows ([store.rs]).
    - The coordinator claims a due workflow under a lease, runs one step of
      application code outside any transaction, and commits the transition
      under the lease's token, or records the failure
      ([runtime/coordinator.rs]).
    - The activity worker claims activities within the concurrency limit of
      their topic, runs the handler in a race with the renewals of its lease,
      its timeout and the shutdown, finishes the attempt, and reconciles
      leases that expired ([runtime/activity_worker.rs]).
    - A running activity reports its progress under its lease
      ([progress.rs]).
    - The materializers deliver timers and approval expiries
      ([runtime/temporal.rs]), and start the due occurrences of schedules
      ([schedule.rs], [schedule/cursor.rs],
      [runtime/schedule_materializer.rs]).
    - An operator pauses, resumes, cancels, restarts, retries and resolves
      approvals, and pauses, resumes and runs schedules ([admin/control.rs]).
    - The admin API lists workflows, activities, schedules, their runs and
      approvals page by page, shows a workflow's timeline and the metrics of
      the topics ([admin/query.rs], [admin/metrics.rs], [admin/cursor.rs],
      [admin/types.rs]).
    - The supervisor runs these actors as tasks of a process and restarts them
      within a budget ([runtime/supervisor.rs], [runtime/restart.rs]); it
      starts only when every stored definition is registered ([readiness.rs]),
      and a scan reports what needs attention ([observability.rs]).
    - Application code may be a flow, ordinary control flow that is replayed
      over a journal of its completed steps ([flow.rs]).
    - Macros declare workflows, activities, schedules and flows, and check
      their metadata while the application is compiled
      ([durable-workflows-macros/src]).

    * The model

    A transaction is a computation [Tx A] of [Database]: it threads the tables
    and returns a value or an error of [error.rs], on which [transaction]
    leaves the tables as they were. Transactions are atomic steps, as the row
    locks and the isolation of the database make them. Each reads an
    environment [Env]: its samples of the database clock, the random UUIDs it
    draws, and the rows other open transactions hold, which [SKIP LOCKED]
    passes over. The environment is universally quantified, so clocks may
    disagree and go backwards. The seeding of the topic locks opens no
    transaction: each of its statements is one, and what the first inserted
    stays when the last fails. Integers are [Z], with the range written out
    where the code checks, converts or saturates; the monotonic instants of
    leases are nanoseconds and their database times milliseconds. Row updates set the columns
    their SQL sets; updates by primary key with a [WHERE] are
    [update_workflow] and the like, which report how many rows changed.

    The files, in order:

    - [Prelude]: machine integers, field updates, UTF-8 strings, sorting.
    - [Errors] ([error.rs], [lib.rs], [ids.rs], [clock.rs] and the classifier
      of [dialect/postgres.rs]), [Status] ([persistence/mod.rs]), [Rows]
      ([persistence/models.rs], [persistence/wait.rs]).
    - [Database]: the tables with the constraints of the migration (keys,
      unique columns, references and CHECKs, but not the lengths of VARCHAR
      columns, and the CHECK on [state_version] only of an insert), the
      transaction monad, the inserts of [dialect/postgres.rs],
      [persistence/events.rs], [persistence/activities.rs].
    - [TxLogic]: a weakest-precondition calculus for [Tx], and its tactics.
    - [Lifecycle]: the abstract specification, the documented state machines of
      workflows, activities, attempts and approvals as step relations on rows;
      [Invariants]: what those steps keep, by rule induction.
    - [Evolution]: the schema constraints [db_ok], the relation
      [tables_evolve] of what may become of the rows of each table, and the
      interface [Evolves m]: the transaction [m] keeps the one and moves the
      tables only by the other, workflows, activities, attempts and approvals
      by steps of [Lifecycle].
    - The components, each with a file of operations and one that discharges
      [Evolves] for them: [Policy] ([policy.rs]), [Transitions]
      ([transition.rs]), [Registry] ([registry.rs]), [Parents]
      ([persistence/workflows.rs], both in one), [Store] and [StoreSteps]
      ([store.rs]), [Coordinator] and [CoordinatorSteps]
      ([runtime/coordinator.rs]), [Worker] and [WorkerSteps]
      ([runtime/activity_worker.rs]), [Temporal] and [TemporalSteps]
      ([runtime/temporal.rs]), [Control] and [ControlSteps]
      ([admin/control.rs], [Operator] of [admin/types.rs]).
    - The schedules: [Calendar] ([schedule.rs], [schedule/cursor.rs]),
      [Schedules] ([schedule.rs], [runtime/schedule_materializer.rs] and the
      schedule controls of [admin/control.rs]), [Misfire] (the misfire policies
      against a reference on whole backlogs), [SchedulesSteps] (the invariant
      [sched_ok] and the relation [sched_moves], which every transaction
      keeps), [ScheduleTicks] (the rows of one tick), and the concrete calendar
      of [ExampleCalendar].
    - [Progress] and [ProgressSteps] ([progress.rs]).
    - Of the process: [Restart] ([runtime/restart.rs]), [Health]
      ([readiness.rs], [observability.rs]) and [Supervisor] (the execution
      manager and the supervision loop of [runtime/supervisor.rs] as state
      machines whose inputs are the completions and commands they receive).
      [Executor] is the execution of a claim: each turn polls the branches of
      the biased [select!] of [execute_claim], and inside it the await points
      of [heartbeat_loop], with what the environment answers; around it, the
      world of an execution runs its renewals as transactions on the tables,
      among those of others ([world_run], [execute_claim]). [Tasks] is one
      iteration of the loop of each task of [run_task], the start of a runtime
      and its shutdown.
    - Of the admin API: [Text] (decimal text and the [split] of cursors),
      [Keyset] (ordered keys and pages that continue after a key), [Cursor]
      ([admin/cursor.rs]), [AdminTypes] ([admin/types.rs]), [Queries] and
      [Timeline] ([admin/query.rs]), [Metrics] and [AdminSchedules]
      ([admin/metrics.rs]). A request runs statement by statement on a history
      of snapshots of the tables, since it opens no transaction; [Paging] has
      what a walk along its cursors gets, and [ExampleCursor] a concrete
      encoding of cursors.
    - [Flow] and [Adapter] ([flow.rs], and the typed adapter of [registry.rs]):
      flow code is a tree of awaits, a function of what its steps answer.
    - [Mysql] ([dialect/mysql.rs]): the other dialect behind the same
      interface, with its own statements.
    - [Macros] ([durable-workflows-macros/src/definition.rs] and
      [durable-workflows-macros/src/flow.rs]): an attribute is the list of its
      metadata, an expansion the constants it declares or a compile error.
    - [Reads]: the read-only operations; [Protocol]: the engine as a transition
      system, whose step is one transaction of any actor with any arguments and
      environment, with what each keeps ([engine_step]); [Scenario]: a
      concrete run on which theorems with hypotheses are instantiated.
    - The references between tables: [Links] has the invariant [coupled] (what
      a workflow waits on is there and can answer, live work is waited on, the
      open attempts are those of the leases) with the ways in which rows may
      change together, [LinkSteps] and [LinkRuns] show that every transaction
      keeps it, component by component ([Couples]; inside a transaction it
      holds but for the rows in hand, [coupled_but]), and [Coupling] that it
      holds in every reachable state.

    * The theorems

    - [Safety]: the engine refines the state machines; reachable states are
      well formed; the absorbing states; the columns that never change; the
      append-only event log (S1, S5 to S9, S11, S12, S14, S18 to S20).
    - [Fencing]: a stale claim writes nothing (S2, S10), and a pause makes
      every outstanding claim stale (S36).
    - [Effects]: what a commit of each transition does to all the tables, and
      what an activation failure and the finish of an attempt do to the rows
      (S4, S8, S15, S16, S36).
    - [Walks], [Claims], [Topics], [Starts], [Deliveries], [Cancel]: the loops
      end and find what they look for; a claim recovers the lease that ended
      first and takes the oldest due work (L1, L2); the topic caps (S17); starts and their deduplication (S18); timers
      and approvals (S20, S22); cancellation (S25).
    - [Coupling]: no live workflow waits in vain, every live activity and
      pending approval is the one its workflow waits on, and leases and open
      attempts correspond (S7, S9, S11, S12, S15, S21, S24); hence
      none of the errors of resume can occur, and a paused workflow can always
      be resumed with the status of its wait.
    - [Stored]: retry delays, stored policies, statuses and waits, and the
      topic locks.
    - [Recovery], [ScheduleSafety]: the next occurrence is the first one; a
      backlog recovered chunk by chunk is treated as the policy treats it whole
      (S28); what one tick writes (S28, S29); one run per occurrence, the
      cursor after every run, at most one queued run, and versions and cursors
      that only advance (S26, S27, S29, S30).
    - [ProgressLog]: the log of an attempt is numbered without gaps and
      bounded, and a report appends its next row or is fenced.
    - [Restart], [Supervisor], [Dispatch], [HealthReports]: the rate and delays
      of restarts; every task is supervised and a cancelled runtime ends; the
      counts of the execution manager are exact, and a sweep of the dispatcher
      with its batch claim keeps the local limits; readiness and the dead
      letters of a health scan are exact.
    - [Executions]: a handler is polled only inside a confirmed lease; the
      local deadline of a renewal is inside the persisted one, for any offset
      between the two clocks; an execution writes only the renewals of its
      claim and one finish, which needs authority, with the outcome that came
      first (N2, N5); it never panics, and ends.
    - [Tasks]: the timer, approval and coordinator tasks wait only when nothing
      is due; a runtime starts only when it is ready; what a shutdown reports.
    - [Pages], [TimelinePages], [KeyedPages], [DetailPages]: whoever follows
      the cursors of a listing, the timeline, the topics and schedules, or the
      attempts and progress of an activity gets every entry that is there
      during the walk, in order and none twice, whatever is written between the
      requests; cursors decode to the position they were made of and only in
      their own collection, when their texts are plain:
      [quoted_position_is_refused] is a position whose cursor the decoder
      refuses. [collation_loses_a_schedule] shows that the list of
      schedules needs a database that orders keys by their bytes.
    - [Mysql]: the two dialects agree on the inserts that each implements
      itself, in their results, their tables and the kinds of their errors.
    - [MacroChecks]: the macros take their metadata literally and once, and
      accept what the registries and constructors of the library accept but
      for what they leave to run time: the sign of a version
      ([negative_version_expands]), the range of a lease, and of a schedule
      its key's length, its cron expression, its time zone and its grace.
    - [MetricsExact]: the metrics of a topic are the counts over its rows.
    - [Replay], [Adapter]: a flow activated over and over from its stored
      journal issues the commands of one uninterrupted run, each once, and
      ends as it does (S31, S33); a journal that does not match the flow fails
      the activation (S31). [caught_refusal_executes_twice] shows why flow code
      has to pass definition errors on.

    * Bounds

    Five loops of the engine are not structural: the walk along restart
    generations, the walk along ancestors, the page-by-page scan for expired
    leases, and in a cancellation the walk along the generations of a child and
    the worklist of parents. Their fuel is [db_fuel], one more than the number
    of workflow rows, and a loop that exhausts it fails with an error of the
    model ([out_of_fuel]). The theorems of [Walks], [Claims] and [Cancel] show
    that this error does not occur on tables that keep the schema constraints.
    Two loops of the calendar are bounded by its own laws: the skip to an
    instant after a clock change ([SKIP_FUEL], the seconds of two days, since
    an offset changes by less than a day) and the search past gaps
    ([runnable_fuel], the span searched in seconds). Activations of a flow take
    one more than the number of its commands. An execution whose heartbeat
    must end takes at most six more turns. A walk along cursors is a sequence
    of requests, as many as the client makes.

    * Parameters

    [serde_json] and SHA-256 are outside the repository: the class [Codec] has
    their functions and [CodecLaws] what the engine relies on, that decoding
    inverts encoding and that a digest is bytes; [Scenario] has an instance.
    Cron expressions and time zones (the crates [cron], [chrono] and
    [chrono-tz]) are the class [Chrono], with their documented behaviour in
    [ChronoLaws]; [ExampleCalendar] has an instance with a daylight-saving gap.
    The texts of driver errors are the class [ErrorTexts], and whether a text
    is JSON the argument [json_value] of a progress report. The base64 and JSON
    of a cursor are the class [CursorCodec], with the laws [CursorLaws]; the
    JSON that details show is the class [JsonText], and the order of text in
    the database the class [Collation]. What a poll of a future, a timer or a
    token finds is an input of each turn of [Executor]. The parsers of [syn]
    that the macros call are the class [SynParser]. Application code
    (the step of a workflow, the handler of an activity, the checks of approval
    decisions, the code of a flow) is the functions of a registered definition.
    The handler of a schedule runs inside the transaction of a tick: it may be
    any code that reads and calls the transactional API it is given, starts,
    recoverable starts and cancellations ([Transactional],
    [registry_transactional]).

    * What is not modelled

    Of S21, that an approval has the kind and version of its workflow is what
    a resolution and an expiry check and not an invariant here: a step of the
    engine may commit a claim with any row under the token of the lease.
    Statements that fail between the snapshots of an admin
    request are not modelled, nor are the failures of the connection pool; the
    delays of idle tasks are named and not measured, and the jitter of an idle
    sweep is floating point and left out. The channels between the dispatcher
    and the execution manager are the commands the manager receives. The typed
    accessors of results and contexts ([transition.rs], [definition.rs]) are
    decoding by parameters. Tracing and the trace tool, log output, the
    typestate of [tx.rs], the schema and the migration runner have no effect
    on the tables that the model describes. *)
From stdpp Require Import base gmap strings list sorting pretty.
From Stdlib Require Import ZArith Lia.

(** * Machine integers

    A Rust integer is a [Z] whose range is written out at the operations
    that check, saturate or convert it. *)

Definition i32_min : Z := -2147483648.
Definition i32_max : Z := 2147483647.
Definition u32_max : Z := 4294967295.
Definition i64_min : Z := -9223372036854775808.
Definition i64_max : Z := 9223372036854775807.
Definition u64_max : Z := 18446744073709551615.

Definition in_i32 (z : Z) : bool := (i32_min <=? z)%Z && (z <=? i32_max)%Z.
Definition in_i64 (z : Z) : bool := (i64_min <=? z)%Z && (z <=? i64_max)%Z.
Definition in_u32 (z : Z) : bool := (0 <=? z)%Z && (z <=? u32_max)%Z.
Definition in_u64 (z : Z) : bool := (0 <=? z)%Z && (z <=? u64_max)%Z.

(** [T::try_from]: [None] is the [Err] of the conversion. *)
Definition i32_try_from (z : Z) : option Z := if in_i32 z then Some z else None.
Definition i64_try_from (z : Z) : option Z := if in_i64 z then Some z else None.
Definition u32_try_from (z : Z) : option Z := if in_u32 z then Some z else None.
Definition u64_try_from (z : Z) : option Z := if in_u64 z then Some z else None.

Definition clamp (lo hi z : Z) : Z := Z.max lo (Z.min hi z).

Definition i32_checked_add (a b : Z) : option Z := i32_try_from (a + b).
Definition i32_saturating_add (a b : Z) : Z := clamp i32_min i32_max (a + b).
Definition i64_checked_add (a b : Z) : option Z := i64_try_from (a + b).
Definition i64_saturating_add (a b : Z) : Z := clamp i64_min i64_max (a + b).
Definition i64_saturating_sub (a b : Z) : Z := clamp i64_min i64_max (a - b).
Definition u32_saturating_sub (a b : Z) : Z := clamp 0 u32_max (a - b).
Definition u64_saturating_mul (a b : Z) : Z := clamp 0 u64_max (a * b).
Definition usize_saturating_sub (a b : nat) : nat := a - b.

Create HintDb ranges.
#[export] Hint Unfold i32_min i32_max u32_max i64_min i64_max u64_max
  in_i32 in_i64 in_u32 in_u64 i32_try_from i64_try_from u32_try_from u64_try_from
  clamp i32_checked_add i32_saturating_add i64_checked_add i64_saturating_add
  i64_saturating_sub u32_saturating_sub u64_saturating_mul : ranges.

(** Unfolds the machine-integer operations, splits their range tests and
    leaves linear arithmetic. *)
Ltac ranges :=
  intros;
  autounfold with ranges in *;
  repeat match goal with
  | H : context [if ?b then _ else _] |- _ => destruct b eqn:?
  | |- context [if ?b then _ else _] => destruct b eqn:?
  end;
  rewrite ?andb_true_iff, ?andb_false_iff, ?Z.leb_le, ?Z.leb_gt in *;
  simplify_eq; try lia.

Lemma i32_try_from_Some z y : i32_try_from z = Some y → y = z ∧ (i32_min ≤ z ≤ i32_max)%Z.
Proof. ranges. Qed.

Lemma i32_checked_add_Some a b y :
  i32_checked_add a b = Some y → y = (a + b)%Z ∧ (i32_min ≤ a + b ≤ i32_max)%Z.
Proof. apply i32_try_from_Some. Qed.

Lemma u32_try_from_Some z y : u32_try_from z = Some y → y = z ∧ (0 ≤ z ≤ u32_max)%Z.
Proof. ranges. Qed.

Lemma i64_checked_add_Some a b y :
  i64_checked_add a b = Some y → y = (a + b)%Z ∧ (i64_min ≤ a + b ≤ i64_max)%Z.
Proof. ranges. Qed.

(** * Field updates of row records

    [r <| f := v |>] is the record [r] with its field [f] set to [v]: one
    column assignment of a Diesel [.set((..))]. *)
Class FieldSet {R E : Type} (proj : R → E) : Type := fset : E → R → R.
Arguments fset {R E} proj {_} v r.

Declare Scope row_scope.
Delimit Scope row_scope with row.
Notation "r <| f := v |>" := (fset f v r)
  (at level 1, f at level 8, v at level 99, left associativity,
   format "r  <|  f  :=  v  |>") : row_scope.
Open Scope row_scope.

(** * Lists *)

Fixpoint insert_sorted {A} (le : A → A → bool) (x : A) (l : list A) : list A :=
  match l with
  | [] => [x]
  | y :: ys => if le x y then x :: l else y :: insert_sorted le x ys
  end.

(** [ORDER BY]: a stable insertion sort by a boolean order. *)
Fixpoint sort_by {A} (le : A → A → bool) (l : list A) : list A :=
  match l with
  | [] => []
  | x :: xs => insert_sorted le x (sort_by le xs)
  end.

Lemma insert_sorted_perm {A} (le : A → A → bool) x l :
  insert_sorted le x l ≡ₚ x :: l.
Proof.
  induction l as [|y ys IH]; simpl; [done|].
  destruct (le x y); [done|]. rewrite IH. apply Permutation_swap.
Qed.

Lemma sort_by_perm {A} (le : A → A → bool) l : sort_by le l ≡ₚ l.
Proof.
  induction l as [|x xs IH]; simpl; [done|].
  rewrite insert_sorted_perm. by rewrite IH.
Qed.

Lemma elem_of_sort_by {A} (le : A → A → bool) l x : x ∈ sort_by le l ↔ x ∈ l.
Proof. by rewrite sort_by_perm. Qed.

Section sorted.
Context {A : Type} (le : A → A → bool).
Hypothesis le_total : ∀ x y, le x y = true ∨ le y x = true.

Lemma insert_sorted_head x l y :
  HdRel (λ a b, le a b = true) y l → le y x = true →
  HdRel (λ a b, le a b = true) y (insert_sorted le x l).
Proof. destruct l; simpl; [by constructor|]. destruct (le x a); inversion 1; by constructor. Qed.

Lemma insert_sorted_Sorted x l :
  Sorted (λ a b, le a b = true) l → Sorted (λ a b, le a b = true) (insert_sorted le x l).
Proof.
  induction 1 as [|y ys Hs IH Hhd]; simpl; [by repeat constructor|].
  destruct (le x y) eqn:E; [by repeat constructor|].
  constructor; [done|]. apply insert_sorted_head; [done|].
  destruct (le_total x y); congruence.
Qed.

Lemma sort_by_Sorted l : Sorted (λ a b, le a b = true) (sort_by le l).
Proof. induction l; simpl; [constructor|]. by apply insert_sorted_Sorted. Qed.

Hypothesis le_trans : ∀ x y z, le x y = true → le y z = true → le x z = true.

Lemma sort_by_StronglySorted l : StronglySorted (λ a b, le a b = true) (sort_by le l).
Proof. apply Sorted_StronglySorted; [|apply sort_by_Sorted]. intros x y z. apply le_trans. Qed.

(** What comes earlier in the sorted list is smaller. *)
Lemma sort_by_app l l1 l2 x y :
  sort_by le l = l1 ++ l2 → x ∈ l1 → y ∈ l2 → le x y = true.
Proof.
  intros Hl. pose proof (sort_by_StronglySorted l) as Hs. rewrite Hl in Hs. clear Hl.
  induction l1 as [|z l1 IH]; [by intros ?%elem_of_nil|]. simpl in Hs.
  apply StronglySorted_inv in Hs as [Hs Hall].
  intros [->|Hx]%elem_of_cons Hy; [|by apply IH].
  rewrite Forall_forall in Hall. apply Hall, elem_of_app. by right.
Qed.

Lemma sort_by_head l x xs y : sort_by le l = x :: xs → y ∈ l → le x y = true.
Proof.
  intros Hl Hy. rewrite <- (elem_of_sort_by le), Hl in Hy.
  apply elem_of_cons in Hy as [->|Hy]; [by destruct (le_total x x)|].
  apply (sort_by_app l [x] xs); [done|set_solver|done].
Qed.
End sorted.

Lemma elem_of_take_in {A} n (l : list A) x : x ∈ take n l → x ∈ l.
Proof. intros (i & Hi & _)%elem_of_take. by eapply list_elem_of_lookup_2. Qed.

Lemma last_take_elem {A} n (l : list A) x : last (take n l) = Some x → x ∈ take n l.
Proof. intros Hl. apply last_Some in Hl as [l' ->]. set_solver. Qed.

(** The largest of a list of integers: [MAX(column)], [None] on no row. *)
Fixpoint max_of (l : list Z) : option Z :=
  match l with
  | [] => None
  | x :: xs => match max_of xs with Some m => Some (Z.max x m) | None => Some x end
  end.

Lemma max_of_None l : max_of l = None ↔ l = [].
Proof. destruct l; simpl; [done|]. destruct (max_of l); split; congruence. Qed.

Lemma max_of_bound l m x : max_of l = Some m → x ∈ l → (x ≤ m)%Z.
Proof.
  revert m; induction l as [|y ys IH]; intros m; simpl; [done|].
  destruct (max_of ys) as [m'|] eqn:E; intros [= <-] [->|Hx]%elem_of_cons; try lia.
  - specialize (IH m' eq_refl Hx). lia.
  - apply max_of_None in E as ->. set_solver.
Qed.

Lemma max_of_elem l m : max_of l = Some m → m ∈ l.
Proof.
  revert m; induction l as [|y ys IH]; intros m; simpl; [done|].
  destruct (max_of ys) as [m'|] eqn:E; intros [= <-]; [|by left].
  specialize (IH m' eq_refl). destruct (Z.max_spec y m') as [[_ ->]|[_ ->]]; by constructor.
Qed.

(** * Sizes of filtered maps *)

Lemma size_filter_lt {V} (m : gmap Z V) (P Q : Z * V → Prop)
    `{!∀ x, Decision (P x), !∀ x, Decision (Q x)} j v :
  (∀ x, P x → Q x) → m !! j = Some v → Q (j, v) → ¬ P (j, v) →
  (size (filter P m) < size (filter Q m))%nat.
Proof.
  intros Himp Hj HQ HP. rewrite <- !size_dom.
  assert (dom (filter P m) ⊂ (dom (filter Q m) : gset Z)) as Hsub.
  { split.
    - intros i. rewrite !elem_of_dom. intros [x [Hx HPx]%map_lookup_filter_Some].
      exists x. apply map_lookup_filter_Some. auto.
    - intros Hall. assert (j ∈ (dom (filter P m) : gset Z)) as Hin.
      { apply Hall, elem_of_dom. exists v. by apply map_lookup_filter_Some. }
      apply elem_of_dom in Hin as [x [Hx HPx]%map_lookup_filter_Some]. congruence. }
  by apply subset_size.
Qed.

Lemma size_filter_mono {V} (m : gmap Z V) (P Q : Z * V → Prop)
    `{!∀ x, Decision (P x), !∀ x, Decision (Q x)} :
  (∀ x, P x → Q x) → (size (filter P m) ≤ size (filter Q m))%nat.
Proof.
  intros Himp. rewrite <- !size_dom. apply subseteq_size. intros i.
  rewrite !elem_of_dom. intros [x [Hx HP]%map_lookup_filter_Some].
  exists x. apply map_lookup_filter_Some. auto.
Qed.

Lemma size_filter_le {V} (m : gmap Z V) (P : Z * V → Prop) `{!∀ x, Decision (P x)} :
  (size (filter P m) ≤ size m)%nat.
Proof. rewrite <- !size_dom. apply subseteq_size, dom_filter_subseteq. Qed.

(** [Option::is_none]. *)
Definition is_none {A} (o : option A) : bool := match o with None => true | Some _ => false end.

(** * Strings *)

(** [str::len]: bytes. *)
Definition str_len (s : string) : nat := String.length s.

Definition starts_with (prefix s : string) : bool := String.prefix prefix s.

Lemma starts_with_app s t : starts_with s (s +:+ t) = true.
Proof.
  unfold starts_with. induction s as [|c s IH]; [by destruct t|]. simpl.
  destruct (Ascii.ascii_dec c c); [exact IH|done].
Qed.

(** [format!("{z}")] of an integer. *)
Definition fmt (z : Z) : string := pretty z.

Lemma fmt_inj x y : fmt x = fmt y → x = y.
Proof. apply (inj (R:=(=)) pretty). Qed.

(** A string between double quotes. *)
Definition quoted (s : string) : string :=
  String (Ascii.ascii_of_nat 34) (s +:+ String (Ascii.ascii_of_nat 34) EmptyString).

(** The UTF-8 bytes of the chars with the Unicode property [White_Space]. *)
Definition whitespace_chars : list (list nat) :=
  [[9]; [10]; [11]; [12]; [13]; [32]; [194; 133]; [194; 160]; [225; 154; 128];
   [226; 128; 128]; [226; 128; 129]; [226; 128; 130]; [226; 128; 131]; [226; 128; 132];
   [226; 128; 133]; [226; 128; 134]; [226; 128; 135]; [226; 128; 136]; [226; 128; 137];
   [226; 128; 138]; [226; 128; 168]; [226; 128; 169]; [226; 128; 175]; [226; 129; 159];
   [227; 128; 128]].

Fixpoint strip_bytes (pattern : list nat) (s : list Ascii.ascii) : option (list Ascii.ascii) :=
  match pattern, s with
  | [], _ => Some s
  | b :: pattern', c :: s' =>
      if (b =? Ascii.nat_of_ascii c)%nat then strip_bytes pattern' s' else None
  | _ :: _, [] => None
  end.

Fixpoint strip_first (patterns : list (list nat)) (s : list Ascii.ascii)
    : option (list Ascii.ascii) :=
  match patterns with
  | [] => None
  | p :: ps => match strip_bytes p s with Some s' => Some s' | None => strip_first ps s end
  end.

Fixpoint strip_all (fuel : nat) (patterns : list (list nat)) (s : list Ascii.ascii)
    : list Ascii.ascii :=
  match fuel with
  | O => s
  | S fuel' =>
      match strip_first patterns s with
      | Some s' => strip_all fuel' patterns s'
      | None => s
      end
  end.

(** [str::trim]: whole whitespace chars off the start, then off the end. Each
    removes a byte at least, so the length is enough fuel. *)
Definition trim (s : string) : string :=
  let start := strip_all (String.length s) whitespace_chars (String.list_ascii_of_string s) in
  let end_ := strip_all (String.length s) (reverse <$> whitespace_chars) (reverse start) in
  String.string_of_list_ascii (reverse end_).

Example trim_spaces : trim "  a b  " = "a b".
Proof. reflexivity. Qed.

#[export] Instance option_eq_none_dec {A} (x : option A) : Decision (x = None).
Proof. destruct x; [right|left]; congruence. Defined.

Tactic Notation "case_bool" "as" simple_intropattern(pat) :=
  match goal with
  | H : context [bool_decide ?P] |- _ => destruct (bool_decide_reflect P) as pat
  | |- context [bool_decide ?P] => destruct (bool_decide_reflect P) as pat
  end.
