(* ===== verification/Errors.v ===== *)
(** The error type of the engine ([error.rs]), the classification of database
    errors as transient ([DurableError::transience] with the Postgres
    classifier of [dialect/postgres.rs]), the size check and the UTF-8
    truncation, the typed ids ([ids.rs]) and the database clock values
    ([clock.rs]). *)
From stdpp Require Import base list strings.
From Stdlib Require Import ZArith Lia.
From S2P Require Import Prelude.

(** * Results *)

(** The error values of the drivers, as far as the source matches on them. *)
Inductive DatabaseErrorKind :=
  | UniqueViolation | ForeignKeyViolation | CheckViolation | NotNullViolation
  | UnableToSendCommand | SerializationFailure | ReadOnlyTransaction
  | ClosedConnection | UnknownKind.

Inductive DieselError :=
  | DatabaseError (kind : DatabaseErrorKind) (message : string)
  | DieselNotFound
  | RollbackErrorOnCommit (rollback_error commit_error : DieselError)
  | OtherDieselError.

Inductive ConnectionError :=
  | BadConnection (message : string)
  | CouldntSetupConfiguration (error : DieselError)
  | OtherConnectionError.

Inductive PoolError :=
  | PoolConnectionError (error : ConnectionError)
  | PoolQueryError (error : DieselError).

Inductive RunError :=
  | RunUser (error : PoolError)
  | RunTimedOut.

(** [DefinitionKey]: a kind and a version. *)
Abbreviation DefinitionKey := (string * Z)%type.

Inductive DurableError :=
  | Database (error : DieselError)
  | Pool (error : PoolError)
  | PoolCheckout (error : RunError)
  | Migration (source : string)
  | Serialization (message : string)
  | InvalidPayload (field message : string)
  | InvalidDefinition (message : string)
  | MissingDefinition (kind : string) (version : Z)
  | MissingCurrentDefinition (kind : string)
  | MissingDefinitions (workflows activities : list DefinitionKey) (topics : list string)
  | DuplicateDefinition (kind : string) (version : Z)
  | InvalidState (message : string)
  | FencedWrite
  | InvalidId (value : Z)
  | NotFound (resource identifier : string)
  | Conflict (message : string)
  | InvalidCursor (message : string)
  | PayloadTooLarge (field : string) (actual_bytes max_bytes : nat)
  | DefinitionMismatch (actual_kind : string) (actual_version : Z)
      (expected_kind : string) (expected_version : Z).

Inductive Result (A : Type) : Type :=
  | Ok (a : A)
  | Err (e : DurableError).
Arguments Ok {A} a.
Arguments Err {A} e.

Definition res_bind {A B} (r : Result A) (f : A → Result B) : Result B :=
  match r with Ok a => f a | Err e => Err e end.

Definition res_map {A B} (f : A → B) (r : Result A) : Result B :=
  match r with Ok a => Ok (f a) | Err e => Err e end.

(** [Option::ok_or]. *)
Definition ok_or {A} (o : option A) (e : DurableError) : Result A :=
  match o with Some a => Ok a | None => Err e end.

Definition is_ok {A} (r : Result A) : bool := match r with Ok _ => true | Err _ => false end.

Declare Scope result_scope.
Notation "'let?' x ':=' r 'in' k" := (res_bind r (λ x, k))
  (at level 10, x binder, r at level 100, k at level 200) : result_scope.
Open Scope result_scope.

Lemma ok_or_Ok {A} (o : option A) e a : ok_or o e = Ok a ↔ o = Some a.
Proof. destruct o; simpl; split; congruence. Qed.

Lemma res_bind_Ok {A B} (r : Result A) (f : A → Result B) b :
  res_bind r f = Ok b ↔ ∃ a, r = Ok a ∧ f a = Ok b.
Proof. destruct r; simpl; naive_solver. Qed.

(** [.map(f).collect::<Result<Vec<_>, _>>()]. *)
Fixpoint collect {A B} (f : A → Result B) (l : list A) : Result (list B) :=
  match l with
  | [] => Ok []
  | x :: xs => let? y := f x in let? ys := collect f xs in Ok (y :: ys)
  end.

Lemma collect_Ok {A B} (f : A → Result B) (g : A → B) l :
  (∀ x, x ∈ l → f x = Ok (g x)) → collect f l = Ok (g <$> l).
Proof.
  induction l as [|x xs IH]; intros Hf; simpl; [done|].
  rewrite Hf by (by left). rewrite IH by (intros; apply Hf; by right). done.
Qed.

Lemma collect_elem {A B} (f : A → Result B) l ys x :
  collect f l = Ok ys → x ∈ l → ∃ y, f x = Ok y ∧ y ∈ ys.
Proof.
  revert ys. induction l as [|z l IH]; intros ys; simpl; [by intros _ ?%elem_of_nil|].
  rewrite res_bind_Ok. intros (y & Hy & (ys' & Hl & [= <-])%res_bind_Ok).
  intros [->|Hx]%elem_of_cons; [exists y; split; [done|by left]|].
  destruct (IH ys' Hl Hx) as (y' & ? & ?). exists y'. split; [done|by right].
Qed.

Lemma collect_from {A B} (f : A → Result B) l ys y :
  collect f l = Ok ys → y ∈ ys → ∃ x, x ∈ l ∧ f x = Ok y.
Proof.
  revert ys. induction l as [|z l IH]; intros ys; simpl; [by intros [= <-] ?%elem_of_nil|].
  rewrite res_bind_Ok. intros (y' & Hy & (ys' & Hl & [= <-])%res_bind_Ok).
  intros [->|Hy']%elem_of_cons; [exists z; split; [by left|done]|].
  destruct (IH ys' Hl Hy') as (x & ? & ?). exists x. split; [by right|done].
Qed.

(** * Transient errors *)

Inductive Transience := RolledBack | Unavailable.

#[export] Instance Transience_eq_dec : EqDecision Transience.
Proof. solve_decision. Defined.

Definition CLIENT_UNAVAILABLE_PREFIXES : list string :=
  ["error communicating with the server"; "connection closed";
   "error connecting to server"; "timeout waiting for server"].

Definition SERVER_UNAVAILABLE_PREFIXES : list string :=
  ["terminating connection due to administrator command";
   "terminating connection because of crash of another server process";
   "the database system is"; "sorry, too many clients already";
   "remaining connection slots are reserved"].

Definition then_some {A} (b : bool) (a : A) : option A := if b then Some a else None.

Definition database_error_transience (kind : DatabaseErrorKind) (message : string)
    : option Transience :=
  match kind with
  | SerializationFailure => Some RolledBack
  | ClosedConnection | ReadOnlyTransaction => Some Unavailable
  | UnableToSendCommand =>
      then_some (existsb (λ prefix, starts_with prefix message) CLIENT_UNAVAILABLE_PREFIXES)
        Unavailable
  | _ =>
      if String.eqb message "deadlock detected"
         || String.eqb message "canceling statement due to lock timeout"
      then Some RolledBack
      else then_some
             (existsb (λ prefix, starts_with prefix message) SERVER_UNAVAILABLE_PREFIXES)
             Unavailable
  end.

Fixpoint query_error_transience (error : DieselError) : option Transience :=
  match error with
  | DatabaseError kind message => database_error_transience kind message
  | RollbackErrorOnCommit _ commit_error =>
      match query_error_transience commit_error with
      | Some _ => Some Unavailable
      | None => None
      end
  | _ => None
  end.

Definition pool_error_transience (error : PoolError) : option Transience :=
  match error with
  | PoolQueryError error => query_error_transience error
  | PoolConnectionError (BadConnection _) => Some Unavailable
  | PoolConnectionError (CouldntSetupConfiguration error) =>
      match query_error_transience error with
      | Some _ => Some Unavailable
      | None => None
      end
  | PoolConnectionError _ => None
  end.

Definition transience (self : DurableError) : option Transience :=
  match self with
  | Database error => query_error_transience error
  | Pool error => pool_error_transience error
  | PoolCheckout RunTimedOut => Some Unavailable
  | PoolCheckout (RunUser error) => pool_error_transience error
  | Migration _ | Serialization _ | InvalidPayload _ _ | InvalidDefinition _
  | MissingDefinition _ _ | MissingCurrentDefinition _ | MissingDefinitions _ _ _
  | DuplicateDefinition _ _ | InvalidState _ | FencedWrite | InvalidId _
  | NotFound _ _ | Conflict _ | InvalidCursor _ | PayloadTooLarge _ _ _
  | DefinitionMismatch _ _ _ _ => None
  end.

Definition is_transient (self : DurableError) : bool :=
  bool_decide (transience self = Some RolledBack).

(** * Sizes and truncation *)

Definition MAX_INPUT_STATE_PAYLOAD_BYTES : nat := 256 * 1024.
Definition MAX_OUTPUT_BYTES : nat := 64 * 1024.
Definition MAX_EVENT_METADATA_BYTES : nat := 16 * 1024.
Definition MAX_ERROR_REASON_BYTES : nat := 2 * 1024.

Definition ensure_size (field value : string) (max_bytes : nat) : Result unit :=
  let actual_bytes := str_len value in
  if (max_bytes <? actual_bytes)%nat
  then Err (PayloadTooLarge field actual_bytes max_bytes)
  else Ok tt.

(** [str::is_char_boundary] on the bytes of the string: the start, the end,
    or a byte that is not a UTF-8 continuation byte. *)
Definition is_char_boundary (value : string) (index : nat) : bool :=
  if (index =? 0)%nat then true
  else match String.get index value with
       | None => (index =? str_len value)%nat
       | Some byte =>
           let b := Ascii.nat_of_ascii byte in (b <? 128)%nat || (192 <=? b)%nat
       end.

(** The [while !is_char_boundary(boundary) { boundary -= 1 }] loop. *)
Fixpoint boundary_down (value : string) (boundary : nat) : nat :=
  if is_char_boundary value boundary then boundary
  else match boundary with
       | O => O
       | S boundary' => boundary_down value boundary'
       end.

Definition truncate_utf8 (value : string) (max_bytes : nat) : string :=
  if (str_len value <=? max_bytes)%nat then value
  else String.substring 0 (boundary_down value max_bytes) value.

Record WorkflowError := { we_category : string; we_message : string }.

Definition new_workflow_error (category message : string) : WorkflowError :=
  {| we_category := truncate_utf8 category 64;
     we_message := truncate_utf8 message MAX_ERROR_REASON_BYTES |}.

Inductive ActivityError :=
  | ErrRetryable (category message : string)
  | ErrPermanent (category message : string).

Definition retryable (category message : string) : ActivityError :=
  ErrRetryable (truncate_utf8 category 64) (truncate_utf8 message MAX_ERROR_REASON_BYTES).

Definition permanent (category message : string) : ActivityError :=
  ErrPermanent (truncate_utf8 category 64) (truncate_utf8 message MAX_ERROR_REASON_BYTES).

(** * Ids and clock values *)

(** [WorkflowId], [ActivityId], [ApprovalId] and [ScheduleRunId] are checked
    positive [i64]s; [new_id] is their one constructor. *)
Definition new_id (value : Z) : Result Z :=
  if (0 <? value)%Z then Ok value else Err (InvalidId value).

Lemma new_id_pos n : (0 < n)%Z → new_id n = Ok n.
Proof. intros Hn. unfold new_id. by rewrite (proj2 (Z.ltb_lt 0 n) Hn). Qed.

(** [DbMillis]: epoch milliseconds on the database clock, an [i64]. *)
Abbreviation DbMillis := Z (only parsing).

(** A [Duration] in milliseconds ([as_millis], a [u128]). *)
Abbreviation Millis := Z (only parsing).

Definition checked_plus_millis (self : DbMillis) (millis : Z) : option DbMillis :=
  i64_checked_add self millis.

Definition plus_millis (self : DbMillis) (millis : Z) : Result DbMillis :=
  ok_or (checked_plus_millis self millis) (InvalidDefinition "database timestamp overflow").

Definition db_plus (self : DbMillis) (duration : Millis) : Result DbMillis :=
  let? millis := ok_or (i64_try_from duration)
                   (InvalidDefinition "duration exceeds the database range") in
  plus_millis self millis.

Definition saturating_plus_millis (self : DbMillis) (millis : Z) : DbMillis :=
  i64_saturating_add self millis.

Definition saturating_minus_millis (self : DbMillis) (millis : Z) : DbMillis :=
  i64_saturating_sub self millis.

Definition millis_since (self earlier : DbMillis) : Z := i64_saturating_sub self earlier.

(** [duration_millis] of the coordinator, the worker and the control service. *)
Definition duration_millis (duration : Millis) : Result Z :=
  ok_or (i64_try_from duration) (InvalidDefinition "duration exceeds the database range").
