(* ===== verification/Status.v ===== *)
(** The persisted status enums of [persistence/mod.rs]: their stored text, its
    parser, and the status sets and predicates the queries use.

    Rust namespaces variants by their enum; here a short prefix does
    ([Wf] for [WorkflowStatus], [Act] for [ActivityStatus], ...). *)
From stdpp Require Import base list strings.
From Stdlib Require Import ZArith.
From S2P Require Import Prelude.
From S2P Require Import Errors.

(** What [string_status!] generates for one enum: the list of its variants,
    the stored text of each and the parser of the text. *)
Class StringStatus (T : Type) := {
  ss_name : string;
  ss_ALL : list T;
  ss_as_str : T → string;
}.

Definition as_str `{StringStatus T} (s : T) : string := ss_as_str s.

(** [TryFrom<&str>]: the variant with this text, or [InvalidState]. *)
Definition status_try_from `{StringStatus T} (value : string) : Result T :=
  match find (λ s, String.eqb (ss_as_str s) value) ss_ALL with
  | Some s => Ok s
  | None => Err (InvalidState ("unknown " +:+ ss_name +:+ " status " +:+ value))
  end.

(** [set_contains]: the status set lists the status. *)
Definition set_contains `{EqDecision T} (set : list T) (status : T) : bool :=
  existsb (λ s, bool_decide (s = status)) set.

Inductive WorkflowStatus :=
  | WfReady
  | WfRunning
  | WfWaitingActivity
  | WfWaitingChild
  | WfSleeping
  | WfWaitingApproval
  | WfPaused
  | WfBlocked
  | WfSucceeded
  | WfFailed
  | WfCancelled.

#[export] Instance WorkflowStatus_eq_dec : EqDecision WorkflowStatus.
Proof. solve_decision. Defined.

Definition WorkflowStatus_as_str (s : WorkflowStatus) : string :=
  match s with
  | WfReady => "ready"
  | WfRunning => "running"
  | WfWaitingActivity => "waiting_activity"
  | WfWaitingChild => "waiting_child"
  | WfSleeping => "sleeping"
  | WfWaitingApproval => "waiting_approval"
  | WfPaused => "paused"
  | WfBlocked => "blocked"
  | WfSucceeded => "succeeded"
  | WfFailed => "failed"
  | WfCancelled => "cancelled"
  end.

#[export] Instance WorkflowStatus_string : StringStatus WorkflowStatus := {
  ss_name := "WorkflowStatus";
  ss_ALL := [WfReady; WfRunning; WfWaitingActivity; WfWaitingChild; WfSleeping; WfWaitingApproval; WfPaused; WfBlocked; WfSucceeded; WfFailed; WfCancelled];
  ss_as_str := WorkflowStatus_as_str;
}.

Inductive ActivityStatus :=
  | ActPending
  | ActRunning
  | ActCancelling
  | ActSucceeded
  | ActDeadLettered
  | ActCancelled.

#[export] Instance ActivityStatus_eq_dec : EqDecision ActivityStatus.
Proof. solve_decision. Defined.

Definition ActivityStatus_as_str (s : ActivityStatus) : string :=
  match s with
  | ActPending => "pending"
  | ActRunning => "running"
  | ActCancelling => "cancelling"
  | ActSucceeded => "succeeded"
  | ActDeadLettered => "dead_lettered"
  | ActCancelled => "cancelled"
  end.

#[export] Instance ActivityStatus_string : StringStatus ActivityStatus := {
  ss_name := "ActivityStatus";
  ss_ALL := [ActPending; ActRunning; ActCancelling; ActSucceeded; ActDeadLettered; ActCancelled];
  ss_as_str := ActivityStatus_as_str;
}.

Inductive WaitKind :=
  | KindTimer
  | KindActivity
  | KindChild
  | KindApproval.

#[export] Instance WaitKind_eq_dec : EqDecision WaitKind.
Proof. solve_decision. Defined.

Definition WaitKind_as_str (s : WaitKind) : string :=
  match s with
  | KindTimer => "timer"
  | KindActivity => "activity"
  | KindChild => "child"
  | KindApproval => "approval"
  end.

#[export] Instance WaitKind_string : StringStatus WaitKind := {
  ss_name := "WaitKind";
  ss_ALL := [KindTimer; KindActivity; KindChild; KindApproval];
  ss_as_str := WaitKind_as_str;
}.

Inductive ApprovalStatus :=
  | ApprPending
  | ApprResolved
  | ApprExpired
  | ApprCancelled.

#[export] Instance ApprovalStatus_eq_dec : EqDecision ApprovalStatus.
Proof. solve_decision. Defined.

Definition ApprovalStatus_as_str (s : ApprovalStatus) : string :=
  match s with
  | ApprPending => "pending"
  | ApprResolved => "resolved"
  | ApprExpired => "expired"
  | ApprCancelled => "cancelled"
  end.

#[export] Instance ApprovalStatus_string : StringStatus ApprovalStatus := {
  ss_name := "ApprovalStatus";
  ss_ALL := [ApprPending; ApprResolved; ApprExpired; ApprCancelled];
  ss_as_str := ApprovalStatus_as_str;
}.

Inductive ScheduleRunStatus :=
  | RunQueued
  | RunMaterializing
  | RunStarted
  | RunSkipped
  | RunCoalesced.

#[export] Instance ScheduleRunStatus_eq_dec : EqDecision ScheduleRunStatus.
Proof. solve_decision. Defined.

Definition ScheduleRunStatus_as_str (s : ScheduleRunStatus) : string :=
  match s with
  | RunQueued => "queued"
  | RunMaterializing => "materializing"
  | RunStarted => "started"
  | RunSkipped => "skipped"
  | RunCoalesced => "coalesced"
  end.

#[export] Instance ScheduleRunStatus_string : StringStatus ScheduleRunStatus := {
  ss_name := "ScheduleRunStatus";
  ss_ALL := [RunQueued; RunMaterializing; RunStarted; RunSkipped; RunCoalesced];
  ss_as_str := ScheduleRunStatus_as_str;
}.

Inductive AttemptOutcome :=
  | OutSucceeded
  | OutRetryableFailure
  | OutDeadLettered
  | OutLeaseExpired
  | OutOperatorCancelled
  | OutApplicationCancelled
  | OutOperatorPaused.

#[export] Instance AttemptOutcome_eq_dec : EqDecision AttemptOutcome.
Proof. solve_decision. Defined.

Definition AttemptOutcome_as_str (s : AttemptOutcome) : string :=
  match s with
  | OutSucceeded => "succeeded"
  | OutRetryableFailure => "retryable_failure"
  | OutDeadLettered => "dead_lettered"
  | OutLeaseExpired => "lease_expired"
  | OutOperatorCancelled => "operator_cancelled"
  | OutApplicationCancelled => "application_cancelled"
  | OutOperatorPaused => "operator_paused"
  end.

#[export] Instance AttemptOutcome_string : StringStatus AttemptOutcome := {
  ss_name := "AttemptOutcome";
  ss_ALL := [OutSucceeded; OutRetryableFailure; OutDeadLettered; OutLeaseExpired; OutOperatorCancelled; OutApplicationCancelled; OutOperatorPaused];
  ss_as_str := AttemptOutcome_as_str;
}.

(** * Status sets and predicates *)

Definition TERMINAL : list WorkflowStatus := [WfSucceeded; WfFailed; WfCancelled].
Definition CHILD_WAITERS : list WorkflowStatus := [WfWaitingChild; WfPaused].
Definition APPROVAL_WAITERS : list WorkflowStatus := [WfWaitingApproval; WfPaused].
Definition DEAD_LETTER_WAITERS : list WorkflowStatus := [WfBlocked; WfPaused].

Definition is_terminal (s : WorkflowStatus) : bool :=
  match s with
  | WfSucceeded | WfFailed | WfCancelled => true
  | WfReady | WfRunning | WfWaitingActivity | WfWaitingChild | WfSleeping | WfWaitingApproval | WfPaused | WfBlocked => false
  end.

Definition awaits_child (s : WorkflowStatus) : bool :=
  match s with
  | WfWaitingChild | WfPaused => true
  | WfReady | WfRunning | WfWaitingActivity | WfSleeping | WfWaitingApproval | WfBlocked | WfSucceeded | WfFailed | WfCancelled => false
  end.

Definition awaits_approval (s : WorkflowStatus) : bool :=
  match s with
  | WfWaitingApproval | WfPaused => true
  | WfReady | WfRunning | WfWaitingActivity | WfWaitingChild | WfSleeping | WfBlocked | WfSucceeded | WfFailed | WfCancelled => false
  end.

Definition awaits_dead_letter (s : WorkflowStatus) : bool :=
  match s with
  | WfPaused | WfBlocked => true
  | WfReady | WfRunning | WfWaitingActivity | WfWaitingChild | WfSleeping | WfWaitingApproval | WfSucceeded | WfFailed | WfCancelled => false
  end.

Definition is_restartable (s : WorkflowStatus) : bool :=
  match s with
  | WfPaused | WfBlocked | WfSucceeded | WfFailed | WfCancelled => true
  | WfReady | WfRunning | WfWaitingActivity | WfWaitingChild | WfSleeping | WfWaitingApproval => false
  end.

Definition is_start_recoverable (s : WorkflowStatus) : bool :=
  match s with
  | WfBlocked | WfFailed => true
  | WfReady | WfRunning | WfWaitingActivity | WfWaitingChild | WfSleeping | WfWaitingApproval | WfPaused | WfSucceeded | WfCancelled => false
  end.

Definition SLOT_HOLDERS : list ActivityStatus := [ActRunning; ActCancelling].
Definition LEASE_HOLDERS : list ActivityStatus := [ActRunning; ActCancelling].
Definition NON_TERMINAL : list ActivityStatus := [ActPending; ActRunning; ActCancelling].

Definition holds_slot (s : ActivityStatus) : bool :=
  match s with
  | ActRunning | ActCancelling => true
  | ActPending | ActSucceeded | ActDeadLettered | ActCancelled => false
  end.

Definition holds_lease (s : ActivityStatus) : bool :=
  match s with
  | ActRunning | ActCancelling => true
  | ActPending | ActSucceeded | ActDeadLettered | ActCancelled => false
  end.

Definition activity_is_terminal (s : ActivityStatus) : bool :=
  match s with
  | ActSucceeded | ActDeadLettered | ActCancelled => true
  | ActPending | ActRunning | ActCancelling => false
  end.

Definition is_non_terminal (s : ActivityStatus) : bool := negb (activity_is_terminal s).

(** A parsed status has the text it was parsed from. *)
Lemma status_try_from_Ok `{StringStatus T} value (s : T) :
  status_try_from value = Ok s → as_str s = value ∧ In s ss_ALL.
Proof.
  unfold status_try_from. destruct (find _ _) as [s'|] eqn:E; [|done].
  intros [= <-]. apply find_some in E as [Hin He]. by apply String.eqb_eq in He.
Qed.
