(* ===== verification/Rows.v ===== *)
(** The rows of the durable tables ([persistence/models.rs]), with one field
    update per column that an [UPDATE] of the engine sets, and the typed wait
    of a workflow ([persistence/wait.rs]).

    The [New*Row] insert shapes have the columns of the row without its
    generated id; here an insert takes a function from the id to the row. *)
From stdpp Require Import base list strings.
From Stdlib Require Import ZArith Lia.
From S2P Require Import Prelude.
From S2P Require Import Errors.
From S2P Require Import Status.

(** The id newtypes; [new_id] checks that one is positive. *)
Abbreviation WorkflowId := Z (only parsing).
Abbreviation ActivityId := Z (only parsing).
Abbreviation ApprovalId := Z (only parsing).
Abbreviation ScheduleRunId := Z (only parsing).

Record WorkflowRow := MkWorkflowRow {
  wf_id : WorkflowId;
  wf_kind : string;
  wf_version : Z;
  wf_input_json : string;
  wf_state_json : string;
  wf_state_version : Z;
  wf_status : WorkflowStatus;
  wf_result_json : option string;
  wf_error_category : option string;
  wf_error_message : option string;
  wf_wait_kind : option WaitKind;
  wf_wait_reference_id : option Z;
  wf_available_at : DbMillis;
  wf_activation_attempts : Z;
  wf_max_activation_attempts : Z;
  wf_consecutive_continuations : Z;
  wf_lease_owner : option string;
  wf_lease_token : option string;
  wf_lease_expires_at : option DbMillis;
  wf_deduplication_key : option string;
  wf_schedule_run_id : option ScheduleRunId;
  wf_root_workflow_id : option WorkflowId;
  wf_restarted_from_workflow_id : option WorkflowId;
  wf_parent_workflow_id : option WorkflowId;
  wf_parent_command_sequence : option Z;
  wf_command_sequence : Z;
  wf_delivered_event_sequence : Z;
  wf_created_at : DbMillis;
  wf_updated_at : DbMillis;
  wf_completed_at : option DbMillis;
}.

#[export] Instance set_wf_state_json : FieldSet wf_state_json := λ v r,
  MkWorkflowRow (wf_id r) (wf_kind r) (wf_version r) (wf_input_json r) v
    (wf_state_version r) (wf_status r) (wf_result_json r) (wf_error_category r)
    (wf_error_message r) (wf_wait_kind r) (wf_wait_reference_id r) (wf_available_at r)
    (wf_activation_attempts r) (wf_max_activation_attempts r)
    (wf_consecutive_continuations r) (wf_lease_owner r) (wf_lease_token r)
    (wf_lease_expires_at r) (wf_deduplication_key r) (wf_schedule_run_id r)
    (wf_root_workflow_id r) (wf_restarted_from_workflow_id r) (wf_parent_workflow_id r)
    (wf_parent_command_sequence r) (wf_command_sequence r)
    (wf_delivered_event_sequence r) (wf_created_at r) (wf_updated_at r)
    (wf_completed_at r).
#[export] Instance set_wf_state_version : FieldSet wf_state_version := λ v r,
  MkWorkflowRow (wf_id r) (wf_kind r) (wf_version r) (wf_input_json r) (wf_state_json r)
    v (wf_status r) (wf_result_json r) (wf_error_category r) (wf_error_message r)
    (wf_wait_kind r) (wf_wait_reference_id r) (wf_available_at r)
    (wf_activation_attempts r) (wf_max_activation_attempts r)
    (wf_consecutive_continuations r) (wf_lease_owner r) (wf_lease_token r)
    (wf_lease_expires_at r) (wf_deduplication_key r) (wf_schedule_run_id r)
    (wf_root_workflow_id r) (wf_restarted_from_workflow_id r) (wf_parent_workflow_id r)
    (wf_parent_command_sequence r) (wf_command_sequence r)
    (wf_delivered_event_sequence r) (wf_created_at r) (wf_updated_at r)
    (wf_completed_at r).
#[export] Instance set_wf_status : FieldSet wf_status := λ v r,
  MkWorkflowRow (wf_id r) (wf_kind r) (wf_version r) (wf_input_json r) (wf_state_json r)
    (wf_state_version r) v (wf_result_json r) (wf_error_category r) (wf_error_message r)
    (wf_wait_kind r) (wf_wait_reference_id r) (wf_available_at r)
    (wf_activation_attempts r) (wf_max_activation_attempts r)
    (wf_consecutive_continuations r) (wf_lease_owner r) (wf_lease_token r)
    (wf_lease_expires_at r) (wf_deduplication_key r) (wf_schedule_run_id r)
    (wf_root_workflow_id r) (wf_restarted_from_workflow_id r) (wf_parent_workflow_id r)
    (wf_parent_command_sequence r) (wf_command_sequence r)
    (wf_delivered_event_sequence r) (wf_created_at r) (wf_updated_at r)
    (wf_completed_at r).
#[export] Instance set_wf_result_json : FieldSet wf_result_json := λ v r,
  MkWorkflowRow (wf_id r) (wf_kind r) (wf_version r) (wf_input_json r) (wf_state_json r)
    (wf_state_version r) (wf_status r) v (wf_error_category r) (wf_error_message r)
    (wf_wait_kind r) (wf_wait_reference_id r) (wf_available_at r)
    (wf_activation_attempts r) (wf_max_activation_attempts r)
    (wf_consecutive_continuations r) (wf_lease_owner r) (wf_lease_token r)
    (wf_lease_expires_at r) (wf_deduplication_key r) (wf_schedule_run_id r)
    (wf_root_workflow_id r) (wf_restarted_from_workflow_id r) (wf_parent_workflow_id r)
    (wf_parent_command_sequence r) (wf_command_sequence r)
    (wf_delivered_event_sequence r) (wf_created_at r) (wf_updated_at r)
    (wf_completed_at r).
#[export] Instance set_wf_error_category : FieldSet wf_error_category := λ v r,
  MkWorkflowRow (wf_id r) (wf_kind r) (wf_version r) (wf_input_json r) (wf_state_json r)
    (wf_state_version r) (wf_status r) (wf_result_json r) v (wf_error_message r)
    (wf_wait_kind r) (wf_wait_reference_id r) (wf_available_at r)
    (wf_activation_attempts r) (wf_max_activation_attempts r)
    (wf_consecutive_continuations r) (wf_lease_owner r) (wf_lease_token r)
    (wf_lease_expires_at r) (wf_deduplication_key r) (wf_schedule_run_id r)
    (wf_root_workflow_id r) (wf_restarted_from_workflow_id r) (wf_parent_workflow_id r)
    (wf_parent_command_sequence r) (wf_command_sequence r)
    (wf_delivered_event_sequence r) (wf_created_at r) (wf_updated_at r)
    (wf_completed_at r).
#[export] Instance set_wf_error_message : FieldSet wf_error_message := λ v r,
  MkWorkflowRow (wf_id r) (wf_kind r) (wf_version r) (wf_input_json r) (wf_state_json r)
    (wf_state_version r) (wf_status r) (wf_result_json r) (wf_error_category r) v
    (wf_wait_kind r) (wf_wait_reference_id r) (wf_available_at r)
    (wf_activation_attempts r) (wf_max_activation_attempts r)
    (wf_consecutive_continuations r) (wf_lease_owner r) (wf_lease_token r)
    (wf_lease_expires_at r) (wf_deduplication_key r) (wf_schedule_run_id r)
    (wf_root_workflow_id r) (wf_restarted_from_workflow_id r) (wf_parent_workflow_id r)
    (wf_parent_command_sequence r) (wf_command_sequence r)
    (wf_delivered_event_sequence r) (wf_created_at r) (wf_updated_at r)
    (wf_completed_at r).
#[export] Instance set_wf_wait_kind : FieldSet wf_wait_kind := λ v r,
  MkWorkflowRow (wf_id r) (wf_kind r) (wf_version r) (wf_input_json r) (wf_state_json r)
    (wf_state_version r) (wf_status r) (wf_result_json r) (wf_error_category r)
    (wf_error_message r) v (wf_wait_reference_id r) (wf_available_at r)
    (wf_activation_attempts r) (wf_max_activation_attempts r)
    (wf_consecutive_continuations r) (wf_lease_owner r) (wf_lease_token r)
    (wf_lease_expires_at r) (wf_deduplication_key r) (wf_schedule_run_id r)
    (wf_root_workflow_id r) (wf_restarted_from_workflow_id r) (wf_parent_workflow_id r)
    (wf_parent_command_sequence r) (wf_command_sequence r)
    (wf_delivered_event_sequence r) (wf_created_at r) (wf_updated_at r)
    (wf_completed_at r).
#[export] Instance set_wf_wait_reference_id : FieldSet wf_wait_reference_id := λ v r,
  MkWorkflowRow (wf_id r) (wf_kind r) (wf_version r) (wf_input_json r) (wf_state_json r)
    (wf_state_version r) (wf_status r) (wf_result_json r) (wf_error_category r)
    (wf_error_message r) (wf_wait_kind r) v (wf_available_at r)
    (wf_activation_attempts r) (wf_max_activation_attempts r)
    (wf_consecutive_continuations r) (wf_lease_owner r) (wf_lease_token r)
    (wf_lease_expires_at r) (wf_deduplication_key r) (wf_schedule_run_id r)
    (wf_root_workflow_id r) (wf_restarted_from_workflow_id r) (wf_parent_workflow_id r)
    (wf_parent_command_sequence r) (wf_command_sequence r)
    (wf_delivered_event_sequence r) (wf_created_at r) (wf_updated_at r)
    (wf_completed_at r).
#[export] Instance set_wf_available_at : FieldSet wf_available_at := λ v r,
  MkWorkflowRow (wf_id r) (wf_kind r) (wf_version r) (wf_input_json r) (wf_state_json r)
    (wf_state_version r) (wf_status r) (wf_result_json r) (wf_error_category r)
    (wf_error_message r) (wf_wait_kind r) (wf_wait_reference_id r) v
    (wf_activation_attempts r) (wf_max_activation_attempts r)
    (wf_consecutive_continuations r) (wf_lease_owner r) (wf_lease_token r)
    (wf_lease_expires_at r) (wf_deduplication_key r) (wf_schedule_run_id r)
    (wf_root_workflow_id r) (wf_restarted_from_workflow_id r) (wf_parent_workflow_id r)
    (wf_parent_command_sequence r) (wf_command_sequence r)
    (wf_delivered_event_sequence r) (wf_created_at r) (wf_updated_at r)
    (wf_completed_at r).
#[export] Instance set_wf_activation_attempts : FieldSet wf_activation_attempts := λ v r,
  MkWorkflowRow (wf_id r) (wf_kind r) (wf_version r) (wf_input_json r) (wf_state_json r)
    (wf_state_version r) (wf_status r) (wf_result_json r) (wf_error_category r)
    (wf_error_message r) (wf_wait_kind r) (wf_wait_reference_id r) (wf_available_at r) v
    (wf_max_activation_attempts r) (wf_consecutive_continuations r) (wf_lease_owner r)
    (wf_lease_token r) (wf_lease_expires_at r) (wf_deduplication_key r)
    (wf_schedule_run_id r) (wf_root_workflow_id r) (wf_restarted_from_workflow_id r)
    (wf_parent_workflow_id r) (wf_parent_command_sequence r) (wf_command_sequence r)
    (wf_delivered_event_sequence r) (wf_created_at r) (wf_updated_at r)
    (wf_completed_at r).
#[export] Instance set_wf_consecutive_continuations : FieldSet wf_consecutive_continuations := λ v r,
  MkWorkflowRow (wf_id r) (wf_kind r) (wf_version r) (wf_input_json r) (wf_state_json r)
    (wf_state_version r) (wf_status r) (wf_result_json r) (wf_error_category r)
    (wf_error_message r) (wf_wait_kind r) (wf_wait_reference_id r) (wf_available_at r)
    (wf_activation_attempts r) (wf_max_activation_attempts r) v (wf_lease_owner r)
    (wf_lease_token r) (wf_lease_expires_at r) (wf_deduplication_key r)
    (wf_schedule_run_id r) (wf_root_workflow_id r) (wf_restarted_from_workflow_id r)
    (wf_parent_workflow_id r) (wf_parent_command_sequence r) (wf_command_sequence r)
    (wf_delivered_event_sequence r) (wf_created_at r) (wf_updated_at r)
    (wf_completed_at r).
#[export] Instance set_wf_lease_owner : FieldSet wf_lease_owner := λ v r,
  MkWorkflowRow (wf_id r) (wf_kind r) (wf_version r) (wf_input_json r) (wf_state_json r)
    (wf_state_version r) (wf_status r) (wf_result_json r) (wf_error_category r)
    (wf_error_message r) (wf_wait_kind r) (wf_wait_reference_id r) (wf_available_at r)
    (wf_activation_attempts r) (wf_max_activation_attempts r)
    (wf_consecutive_continuations r) v (wf_lease_token r) (wf_lease_expires_at r)
    (wf_deduplication_key r) (wf_schedule_run_id r) (wf_root_workflow_id r)
    (wf_restarted_from_workflow_id r) (wf_parent_workflow_id r)
    (wf_parent_command_sequence r) (wf_command_sequence r)
    (wf_delivered_event_sequence r) (wf_created_at r) (wf_updated_at r)
    (wf_completed_at r).
#[export] Instance set_wf_lease_token : FieldSet wf_lease_token := λ v r,
  MkWorkflowRow (wf_id r) (wf_kind r) (wf_version r) (wf_input_json r) (wf_state_json r)
    (wf_state_version r) (wf_status r) (wf_result_json r) (wf_error_category r)
    (wf_error_message r) (wf_wait_kind r) (wf_wait_reference_id r) (wf_available_at r)
    (wf_activation_attempts r) (wf_max_activation_attempts r)
    (wf_consecutive_continuations r) (wf_lease_owner r) v (wf_lease_expires_at r)
    (wf_deduplication_key r) (wf_schedule_run_id r) (wf_root_workflow_id r)
    (wf_restarted_from_workflow_id r) (wf_parent_workflow_id r)
    (wf_parent_command_sequence r) (wf_command_sequence r)
    (wf_delivered_event_sequence r) (wf_created_at r) (wf_updated_at r)
    (wf_completed_at r).
#[export] Instance set_wf_lease_expires_at : FieldSet wf_lease_expires_at := λ v r,
  MkWorkflowRow (wf_id r) (wf_kind r) (wf_version r) (wf_input_json r) (wf_state_json r)
    (wf_state_version r) (wf_status r) (wf_result_json r) (wf_error_category r)
    (wf_error_message r) (wf_wait_kind r) (wf_wait_reference_id r) (wf_available_at r)
    (wf_activation_attempts r) (wf_max_activation_attempts r)
    (wf_consecutive_continuations r) (wf_lease_owner r) (wf_lease_token r) v
    (wf_deduplication_key r) (wf_schedule_run_id r) (wf_root_workflow_id r)
    (wf_restarted_from_workflow_id r) (wf_parent_workflow_id r)
    (wf_parent_command_sequence r) (wf_command_sequence r)
    (wf_delivered_event_sequence r) (wf_created_at r) (wf_updated_at r)
    (wf_completed_at r).
#[export] Instance set_wf_command_sequence : FieldSet wf_command_sequence := λ v r,
  MkWorkflowRow (wf_id r) (wf_kind r) (wf_version r) (wf_input_json r) (wf_state_json r)
    (wf_state_version r) (wf_status r) (wf_result_json r) (wf_error_category r)
    (wf_error_message r) (wf_wait_kind r) (wf_wait_reference_id r) (wf_available_at r)
    (wf_activation_attempts r) (wf_max_activation_attempts r)
    (wf_consecutive_continuations r) (wf_lease_owner r) (wf_lease_token r)
    (wf_lease_expires_at r) (wf_deduplication_key r) (wf_schedule_run_id r)
    (wf_root_workflow_id r) (wf_restarted_from_workflow_id r) (wf_parent_workflow_id r)
    (wf_parent_command_sequence r) v (wf_delivered_event_sequence r) (wf_created_at r)
    (wf_updated_at r) (wf_completed_at r).
#[export] Instance set_wf_delivered_event_sequence : FieldSet wf_delivered_event_sequence := λ v r,
  MkWorkflowRow (wf_id r) (wf_kind r) (wf_version r) (wf_input_json r) (wf_state_json r)
    (wf_state_version r) (wf_status r) (wf_result_json r) (wf_error_category r)
    (wf_error_message r) (wf_wait_kind r) (wf_wait_reference_id r) (wf_available_at r)
    (wf_activation_attempts r) (wf_max_activation_attempts r)
    (wf_consecutive_continuations r) (wf_lease_owner r) (wf_lease_token r)
    (wf_lease_expires_at r) (wf_deduplication_key r) (wf_schedule_run_id r)
    (wf_root_workflow_id r) (wf_restarted_from_workflow_id r) (wf_parent_workflow_id r)
    (wf_parent_command_sequence r) (wf_command_sequence r) v (wf_created_at r)
    (wf_updated_at r) (wf_completed_at r).
#[export] Instance set_wf_updated_at : FieldSet wf_updated_at := λ v r,
  MkWorkflowRow (wf_id r) (wf_kind r) (wf_version r) (wf_input_json r) (wf_state_json r)
    (wf_state_version r) (wf_status r) (wf_result_json r) (wf_error_category r)
    (wf_error_message r) (wf_wait_kind r) (wf_wait_reference_id r) (wf_available_at r)
    (wf_activation_attempts r) (wf_max_activation_attempts r)
    (wf_consecutive_continuations r) (wf_lease_owner r) (wf_lease_token r)
    (wf_lease_expires_at r) (wf_deduplication_key r) (wf_schedule_run_id r)
    (wf_root_workflow_id r) (wf_restarted_from_workflow_id r) (wf_parent_workflow_id r)
    (wf_parent_command_sequence r) (wf_command_sequence r)
    (wf_delivered_event_sequence r) (wf_created_at r) v (wf_completed_at r).
#[export] Instance set_wf_completed_at : FieldSet wf_completed_at := λ v r,
  MkWorkflowRow (wf_id r) (wf_kind r) (wf_version r) (wf_input_json r) (wf_state_json r)
    (wf_state_version r) (wf_status r) (wf_result_json r) (wf_error_category r)
    (wf_error_message r) (wf_wait_kind r) (wf_wait_reference_id r) (wf_available_at r)
    (wf_activation_attempts r) (wf_max_activation_attempts r)
    (wf_consecutive_continuations r) (wf_lease_owner r) (wf_lease_token r)
    (wf_lease_expires_at r) (wf_deduplication_key r) (wf_schedule_run_id r)
    (wf_root_workflow_id r) (wf_restarted_from_workflow_id r) (wf_parent_workflow_id r)
    (wf_parent_command_sequence r) (wf_command_sequence r)
    (wf_delivered_event_sequence r) (wf_created_at r) (wf_updated_at r) v.

Record WorkflowEventRow := MkWorkflowEventRow {
  ev_id : Z;
  ev_workflow_id : WorkflowId;
  ev_sequence : Z;
  ev_delivery_sequence : option Z;
  ev_event_type : string;
  ev_metadata_json : option string;
  ev_actor_type : option string;
  ev_actor_id : option string;
  ev_reason : option string;
  ev_created_at : DbMillis;
}.

Record ActivityRow := MkActivityRow {
  ac_id : ActivityId;
  ac_workflow_id : WorkflowId;
  ac_command_sequence : Z;
  ac_replacement_number : Z;
  ac_kind : string;
  ac_version : Z;
  ac_topic : string;
  ac_payload_json : string;
  ac_status : ActivityStatus;
  ac_available_at : DbMillis;
  ac_max_attempts : Z;
  ac_attempt_count : Z;
  ac_timeout_millis : Z;
  ac_lease_duration_millis : Z;
  ac_retry_policy_json : string;
  ac_operation_key : option string;
  ac_provider_result_json : option string;
  ac_last_error_category : option string;
  ac_last_error_message : option string;
  ac_lease_owner : option string;
  ac_lease_token : option string;
  ac_lease_expires_at : option DbMillis;
  ac_root_activity_id : option ActivityId;
  ac_replaces_activity_id : option ActivityId;
  ac_created_at : DbMillis;
  ac_updated_at : DbMillis;
  ac_completed_at : option DbMillis;
}.

#[export] Instance set_ac_status : FieldSet ac_status := λ v r,
  MkActivityRow (ac_id r) (ac_workflow_id r) (ac_command_sequence r)
    (ac_replacement_number r) (ac_kind r) (ac_version r) (ac_topic r)
    (ac_payload_json r) v (ac_available_at r) (ac_max_attempts r) (ac_attempt_count r)
    (ac_timeout_millis r) (ac_lease_duration_millis r) (ac_retry_policy_json r)
    (ac_operation_key r) (ac_provider_result_json r) (ac_last_error_category r)
    (ac_last_error_message r) (ac_lease_owner r) (ac_lease_token r)
    (ac_lease_expires_at r) (ac_root_activity_id r) (ac_replaces_activity_id r)
    (ac_created_at r) (ac_updated_at r) (ac_completed_at r).
#[export] Instance set_ac_available_at : FieldSet ac_available_at := λ v r,
  MkActivityRow (ac_id r) (ac_workflow_id r) (ac_command_sequence r)
    (ac_replacement_number r) (ac_kind r) (ac_version r) (ac_topic r)
    (ac_payload_json r) (ac_status r) v (ac_max_attempts r) (ac_attempt_count r)
    (ac_timeout_millis r) (ac_lease_duration_millis r) (ac_retry_policy_json r)
    (ac_operation_key r) (ac_provider_result_json r) (ac_last_error_category r)
    (ac_last_error_message r) (ac_lease_owner r) (ac_lease_token r)
    (ac_lease_expires_at r) (ac_root_activity_id r) (ac_replaces_activity_id r)
    (ac_created_at r) (ac_updated_at r) (ac_completed_at r).
#[export] Instance set_ac_max_attempts : FieldSet ac_max_attempts := λ v r,
  MkActivityRow (ac_id r) (ac_workflow_id r) (ac_command_sequence r)
    (ac_replacement_number r) (ac_kind r) (ac_version r) (ac_topic r)
    (ac_payload_json r) (ac_status r) (ac_available_at r) v (ac_attempt_count r)
    (ac_timeout_millis r) (ac_lease_duration_millis r) (ac_retry_policy_json r)
    (ac_operation_key r) (ac_provider_result_json r) (ac_last_error_category r)
    (ac_last_error_message r) (ac_lease_owner r) (ac_lease_token r)
    (ac_lease_expires_at r) (ac_root_activity_id r) (ac_replaces_activity_id r)
    (ac_created_at r) (ac_updated_at r) (ac_completed_at r).
#[export] Instance set_ac_attempt_count : FieldSet ac_attempt_count := λ v r,
  MkActivityRow (ac_id r) (ac_workflow_id r) (ac_command_sequence r)
    (ac_replacement_number r) (ac_kind r) (ac_version r) (ac_topic r)
    (ac_payload_json r) (ac_status r) (ac_available_at r) (ac_max_attempts r) v
    (ac_timeout_millis r) (ac_lease_duration_millis r) (ac_retry_policy_json r)
    (ac_operation_key r) (ac_provider_result_json r) (ac_last_error_category r)
    (ac_last_error_message r) (ac_lease_owner r) (ac_lease_token r)
    (ac_lease_expires_at r) (ac_root_activity_id r) (ac_replaces_activity_id r)
    (ac_created_at r) (ac_updated_at r) (ac_completed_at r).
#[export] Instance set_ac_provider_result_json : FieldSet ac_provider_result_json := λ v r,
  MkActivityRow (ac_id r) (ac_workflow_id r) (ac_command_sequence r)
    (ac_replacement_number r) (ac_kind r) (ac_version r) (ac_topic r)
    (ac_payload_json r) (ac_status r) (ac_available_at r) (ac_max_attempts r)
    (ac_attempt_count r) (ac_timeout_millis r) (ac_lease_duration_millis r)
    (ac_retry_policy_json r) (ac_operation_key r) v (ac_last_error_category r)
    (ac_last_error_message r) (ac_lease_owner r) (ac_lease_token r)
    (ac_lease_expires_at r) (ac_root_activity_id r) (ac_replaces_activity_id r)
    (ac_created_at r) (ac_updated_at r) (ac_completed_at r).
#[export] Instance set_ac_last_error_category : FieldSet ac_last_error_category := λ v r,
  MkActivityRow (ac_id r) (ac_workflow_id r) (ac_command_sequence r)
    (ac_replacement_number r) (ac_kind r) (ac_version r) (ac_topic r)
    (ac_payload_json r) (ac_status r) (ac_available_at r) (ac_max_attempts r)
    (ac_attempt_count r) (ac_timeout_millis r) (ac_lease_duration_millis r)
    (ac_retry_policy_json r) (ac_operation_key r) (ac_provider_result_json r) v
    (ac_last_error_message r) (ac_lease_owner r) (ac_lease_token r)
    (ac_lease_expires_at r) (ac_root_activity_id r) (ac_replaces_activity_id r)
    (ac_created_at r) (ac_updated_at r) (ac_completed_at r).
#[export] Instance set_ac_last_error_message : FieldSet ac_last_error_message := λ v r,
  MkActivityRow (ac_id r) (ac_workflow_id r) (ac_command_sequence r)
    (ac_replacement_number r) (ac_kind r) (ac_version r) (ac_topic r)
    (ac_payload_json r) (ac_status r) (ac_available_at r) (ac_max_attempts r)
    (ac_attempt_count r) (ac_timeout_millis r) (ac_lease_duration_millis r)
    (ac_retry_policy_json r) (ac_operation_key r) (ac_provider_result_json r)
    (ac_last_error_category r) v (ac_lease_owner r) (ac_lease_token r)
    (ac_lease_expires_at r) (ac_root_activity_id r) (ac_replaces_activity_id r)
    (ac_created_at r) (ac_updated_at r) (ac_completed_at r).
#[export] Instance set_ac_lease_owner : FieldSet ac_lease_owner := λ v r,
  MkActivityRow (ac_id r) (ac_workflow_id r) (ac_command_sequence r)
    (ac_replacement_number r) (ac_kind r) (ac_version r) (ac_topic r)
    (ac_payload_json r) (ac_status r) (ac_available_at r) (ac_max_attempts r)
    (ac_attempt_count r) (ac_timeout_millis r) (ac_lease_duration_millis r)
    (ac_retry_policy_json r) (ac_operation_key r) (ac_provider_result_json r)
    (ac_last_error_category r) (ac_last_error_message r) v (ac_lease_token r)
    (ac_lease_expires_at r) (ac_root_activity_id r) (ac_replaces_activity_id r)
    (ac_created_at r) (ac_updated_at r) (ac_completed_at r).
#[export] Instance set_ac_lease_token : FieldSet ac_lease_token := λ v r,
  MkActivityRow (ac_id r) (ac_workflow_id r) (ac_command_sequence r)
    (ac_replacement_number r) (ac_kind r) (ac_version r) (ac_topic r)
    (ac_payload_json r) (ac_status r) (ac_available_at r) (ac_max_attempts r)
    (ac_attempt_count r) (ac_timeout_millis r) (ac_lease_duration_millis r)
    (ac_retry_policy_json r) (ac_operation_key r) (ac_provider_result_json r)
    (ac_last_error_category r) (ac_last_error_message r) (ac_lease_owner r) v
    (ac_lease_expires_at r) (ac_root_activity_id r) (ac_replaces_activity_id r)
    (ac_created_at r) (ac_updated_at r) (ac_completed_at r).
#[export] Instance set_ac_lease_expires_at : FieldSet ac_lease_expires_at := λ v r,
  MkActivityRow (ac_id r) (ac_workflow_id r) (ac_command_sequence r)
    (ac_replacement_number r) (ac_kind r) (ac_version r) (ac_topic r)
    (ac_payload_json r) (ac_status r) (ac_available_at r) (ac_max_attempts r)
    (ac_attempt_count r) (ac_timeout_millis r) (ac_lease_duration_millis r)
    (ac_retry_policy_json r) (ac_operation_key r) (ac_provider_result_json r)
    (ac_last_error_category r) (ac_last_error_message r) (ac_lease_owner r)
    (ac_lease_token r) v (ac_root_activity_id r) (ac_replaces_activity_id r)
    (ac_created_at r) (ac_updated_at r) (ac_completed_at r).
#[export] Instance set_ac_updated_at : FieldSet ac_updated_at := λ v r,
  MkActivityRow (ac_id r) (ac_workflow_id r) (ac_command_sequence r)
    (ac_replacement_number r) (ac_kind r) (ac_version r) (ac_topic r)
    (ac_payload_json r) (ac_status r) (ac_available_at r) (ac_max_attempts r)
    (ac_attempt_count r) (ac_timeout_millis r) (ac_lease_duration_millis r)
    (ac_retry_policy_json r) (ac_operation_key r) (ac_provider_result_json r)
    (ac_last_error_category r) (ac_last_error_message r) (ac_lease_owner r)
    (ac_lease_token r) (ac_lease_expires_at r) (ac_root_activity_id r)
    (ac_replaces_activity_id r) (ac_created_at r) v (ac_completed_at r).
#[export] Instance set_ac_completed_at : FieldSet ac_completed_at := λ v r,
  MkActivityRow (ac_id r) (ac_workflow_id r) (ac_command_sequence r)
    (ac_replacement_number r) (ac_kind r) (ac_version r) (ac_topic r)
    (ac_payload_json r) (ac_status r) (ac_available_at r) (ac_max_attempts r)
    (ac_attempt_count r) (ac_timeout_millis r) (ac_lease_duration_millis r)
    (ac_retry_policy_json r) (ac_operation_key r) (ac_provider_result_json r)
    (ac_last_error_category r) (ac_last_error_message r) (ac_lease_owner r)
    (ac_lease_token r) (ac_lease_expires_at r) (ac_root_activity_id r)
    (ac_replaces_activity_id r) (ac_created_at r) (ac_updated_at r) v.

Record ActivityAttemptRow := MkActivityAttemptRow {
  att_activity_id : ActivityId;
  att_attempt_number : Z;
  att_worker_id : string;
  att_lease_token : string;
  att_started_at : DbMillis;
  att_heartbeat_at : DbMillis;
  att_finished_at : option DbMillis;
  att_outcome : option AttemptOutcome;
  att_error_category : option string;
  att_error_message : option string;
  att_provider_result_json : option string;
}.

#[export] Instance set_att_heartbeat_at : FieldSet att_heartbeat_at := λ v r,
  MkActivityAttemptRow (att_activity_id r) (att_attempt_number r) (att_worker_id r)
    (att_lease_token r) (att_started_at r) v (att_finished_at r) (att_outcome r)
    (att_error_category r) (att_error_message r) (att_provider_result_json r).
#[export] Instance set_att_finished_at : FieldSet att_finished_at := λ v r,
  MkActivityAttemptRow (att_activity_id r) (att_attempt_number r) (att_worker_id r)
    (att_lease_token r) (att_started_at r) (att_heartbeat_at r) v (att_outcome r)
    (att_error_category r) (att_error_message r) (att_provider_result_json r).
#[export] Instance set_att_outcome : FieldSet att_outcome := λ v r,
  MkActivityAttemptRow (att_activity_id r) (att_attempt_number r) (att_worker_id r)
    (att_lease_token r) (att_started_at r) (att_heartbeat_at r) (att_finished_at r) v
    (att_error_category r) (att_error_message r) (att_provider_result_json r).
#[export] Instance set_att_error_category : FieldSet att_error_category := λ v r,
  MkActivityAttemptRow (att_activity_id r) (att_attempt_number r) (att_worker_id r)
    (att_lease_token r) (att_started_at r) (att_heartbeat_at r) (att_finished_at r)
    (att_outcome r) v (att_error_message r) (att_provider_result_json r).
#[export] Instance set_att_error_message : FieldSet att_error_message := λ v r,
  MkActivityAttemptRow (att_activity_id r) (att_attempt_number r) (att_worker_id r)
    (att_lease_token r) (att_started_at r) (att_heartbeat_at r) (att_finished_at r)
    (att_outcome r) (att_error_category r) v (att_provider_result_json r).
#[export] Instance set_att_provider_result_json : FieldSet att_provider_result_json := λ v r,
  MkActivityAttemptRow (att_activity_id r) (att_attempt_number r) (att_worker_id r)
    (att_lease_token r) (att_started_at r) (att_heartbeat_at r) (att_finished_at r)
    (att_outcome r) (att_error_category r) (att_error_message r) v.

Record ProgressEventRow := MkProgressEventRow {
  pr_activity_id : ActivityId;
  pr_attempt_number : Z;
  pr_sequence : Z;
  pr_code : string;
  pr_description : string;
  pr_description_bytes : Z;
  pr_completed_units : option Z;
  pr_total_units : option Z;
  pr_severity : string;
  pr_metadata_json : option string;
  pr_created_at : DbMillis;
}.

Record ApprovalRow := MkApprovalRow {
  ap_id : ApprovalId;
  ap_workflow_id : WorkflowId;
  ap_command_sequence : Z;
  ap_kind : string;
  ap_version : Z;
  ap_prompt_metadata_json : string;
  ap_validation_schema_json : string;
  ap_validation_version : Z;
  ap_status : ApprovalStatus;
  ap_requested_at : DbMillis;
  ap_expires_at : option DbMillis;
  ap_decision_payload_json : option string;
  ap_decided_by : option Z;
  ap_operator_reason : option string;
  ap_resolved_at : option DbMillis;
}.

#[export] Instance set_ap_status : FieldSet ap_status := λ v r,
  MkApprovalRow (ap_id r) (ap_workflow_id r) (ap_command_sequence r) (ap_kind r)
    (ap_version r) (ap_prompt_metadata_json r) (ap_validation_schema_json r)
    (ap_validation_version r) v (ap_requested_at r) (ap_expires_at r)
    (ap_decision_payload_json r) (ap_decided_by r) (ap_operator_reason r)
    (ap_resolved_at r).
#[export] Instance set_ap_decision_payload_json : FieldSet ap_decision_payload_json := λ v r,
  MkApprovalRow (ap_id r) (ap_workflow_id r) (ap_command_sequence r) (ap_kind r)
    (ap_version r) (ap_prompt_metadata_json r) (ap_validation_schema_json r)
    (ap_validation_version r) (ap_status r) (ap_requested_at r) (ap_expires_at r) v
    (ap_decided_by r) (ap_operator_reason r) (ap_resolved_at r).
#[export] Instance set_ap_decided_by : FieldSet ap_decided_by := λ v r,
  MkApprovalRow (ap_id r) (ap_workflow_id r) (ap_command_sequence r) (ap_kind r)
    (ap_version r) (ap_prompt_metadata_json r) (ap_validation_schema_json r)
    (ap_validation_version r) (ap_status r) (ap_requested_at r) (ap_expires_at r)
    (ap_decision_payload_json r) v (ap_operator_reason r) (ap_resolved_at r).
#[export] Instance set_ap_operator_reason : FieldSet ap_operator_reason := λ v r,
  MkApprovalRow (ap_id r) (ap_workflow_id r) (ap_command_sequence r) (ap_kind r)
    (ap_version r) (ap_prompt_metadata_json r) (ap_validation_schema_json r)
    (ap_validation_version r) (ap_status r) (ap_requested_at r) (ap_expires_at r)
    (ap_decision_payload_json r) (ap_decided_by r) v (ap_resolved_at r).
#[export] Instance set_ap_resolved_at : FieldSet ap_resolved_at := λ v r,
  MkApprovalRow (ap_id r) (ap_workflow_id r) (ap_command_sequence r) (ap_kind r)
    (ap_version r) (ap_prompt_metadata_json r) (ap_validation_schema_json r)
    (ap_validation_version r) (ap_status r) (ap_requested_at r) (ap_expires_at r)
    (ap_decision_payload_json r) (ap_decided_by r) (ap_operator_reason r) v.

Record ScheduleStateRow := MkScheduleStateRow {
  ss_schedule_key : string;
  ss_definition_fingerprint : string;
  ss_definition_version : Z;
  ss_next_local_occurrence : string;
  ss_next_occurrence_at : DbMillis;
  ss_last_materialized_at : option DbMillis;
  ss_paused_at : option DbMillis;
  ss_paused_by : option Z;
  ss_pause_reason : option string;
  ss_created_at : DbMillis;
  ss_updated_at : DbMillis;
}.

#[export] Instance set_ss_definition_fingerprint : FieldSet ss_definition_fingerprint := λ v r,
  MkScheduleStateRow (ss_schedule_key r) v (ss_definition_version r)
    (ss_next_local_occurrence r) (ss_next_occurrence_at r) (ss_last_materialized_at r)
    (ss_paused_at r) (ss_paused_by r) (ss_pause_reason r) (ss_created_at r)
    (ss_updated_at r).
#[export] Instance set_ss_definition_version : FieldSet ss_definition_version := λ v r,
  MkScheduleStateRow (ss_schedule_key r) (ss_definition_fingerprint r) v
    (ss_next_local_occurrence r) (ss_next_occurrence_at r) (ss_last_materialized_at r)
    (ss_paused_at r) (ss_paused_by r) (ss_pause_reason r) (ss_created_at r)
    (ss_updated_at r).
#[export] Instance set_ss_next_local_occurrence : FieldSet ss_next_local_occurrence := λ v r,
  MkScheduleStateRow (ss_schedule_key r) (ss_definition_fingerprint r)
    (ss_definition_version r) v (ss_next_occurrence_at r) (ss_last_materialized_at r)
    (ss_paused_at r) (ss_paused_by r) (ss_pause_reason r) (ss_created_at r)
    (ss_updated_at r).
#[export] Instance set_ss_next_occurrence_at : FieldSet ss_next_occurrence_at := λ v r,
  MkScheduleStateRow (ss_schedule_key r) (ss_definition_fingerprint r)
    (ss_definition_version r) (ss_next_local_occurrence r) v (ss_last_materialized_at r)
    (ss_paused_at r) (ss_paused_by r) (ss_pause_reason r) (ss_created_at r)
    (ss_updated_at r).
#[export] Instance set_ss_last_materialized_at : FieldSet ss_last_materialized_at := λ v r,
  MkScheduleStateRow (ss_schedule_key r) (ss_definition_fingerprint r)
    (ss_definition_version r) (ss_next_local_occurrence r) (ss_next_occurrence_at r) v
    (ss_paused_at r) (ss_paused_by r) (ss_pause_reason r) (ss_created_at r)
    (ss_updated_at r).
#[export] Instance set_ss_paused_at : FieldSet ss_paused_at := λ v r,
  MkScheduleStateRow (ss_schedule_key r) (ss_definition_fingerprint r)
    (ss_definition_version r) (ss_next_local_occurrence r) (ss_next_occurrence_at r)
    (ss_last_materialized_at r) v (ss_paused_by r) (ss_pause_reason r) (ss_created_at r)
    (ss_updated_at r).
#[export] Instance set_ss_paused_by : FieldSet ss_paused_by := λ v r,
  MkScheduleStateRow (ss_schedule_key r) (ss_definition_fingerprint r)
    (ss_definition_version r) (ss_next_local_occurrence r) (ss_next_occurrence_at r)
    (ss_last_materialized_at r) (ss_paused_at r) v (ss_pause_reason r) (ss_created_at r)
    (ss_updated_at r).
#[export] Instance set_ss_pause_reason : FieldSet ss_pause_reason := λ v r,
  MkScheduleStateRow (ss_schedule_key r) (ss_definition_fingerprint r)
    (ss_definition_version r) (ss_next_local_occurrence r) (ss_next_occurrence_at r)
    (ss_last_materialized_at r) (ss_paused_at r) (ss_paused_by r) v (ss_created_at r)
    (ss_updated_at r).
#[export] Instance set_ss_updated_at : FieldSet ss_updated_at := λ v r,
  MkScheduleStateRow (ss_schedule_key r) (ss_definition_fingerprint r)
    (ss_definition_version r) (ss_next_local_occurrence r) (ss_next_occurrence_at r)
    (ss_last_materialized_at r) (ss_paused_at r) (ss_paused_by r) (ss_pause_reason r)
    (ss_created_at r) v.

Record ScheduleRunRow := MkScheduleRunRow {
  sr_id : ScheduleRunId;
  sr_schedule_key : string;
  sr_local_occurrence : string;
  sr_scheduled_for : DbMillis;
  sr_materialized_at : DbMillis;
  sr_status : ScheduleRunStatus;
  sr_reason : option string;
  sr_actor_id : option Z;
  sr_workflow_id : option WorkflowId;
  sr_created_at : DbMillis;
}.

#[export] Instance set_sr_status : FieldSet sr_status := λ v r,
  MkScheduleRunRow (sr_id r) (sr_schedule_key r) (sr_local_occurrence r)
    (sr_scheduled_for r) (sr_materialized_at r) v (sr_reason r) (sr_actor_id r)
    (sr_workflow_id r) (sr_created_at r).
#[export] Instance set_sr_reason : FieldSet sr_reason := λ v r,
  MkScheduleRunRow (sr_id r) (sr_schedule_key r) (sr_local_occurrence r)
    (sr_scheduled_for r) (sr_materialized_at r) (sr_status r) v (sr_actor_id r)
    (sr_workflow_id r) (sr_created_at r).
#[export] Instance set_sr_workflow_id : FieldSet sr_workflow_id := λ v r,
  MkScheduleRunRow (sr_id r) (sr_schedule_key r) (sr_local_occurrence r)
    (sr_scheduled_for r) (sr_materialized_at r) (sr_status r) (sr_reason r)
    (sr_actor_id r) v (sr_created_at r).

Record TopicLockRow := MkTopicLockRow {
  tl_topic : string;
  tl_max_concurrency : Z;
  tl_updated_at : DbMillis;
}.

#[export] Instance set_tl_max_concurrency : FieldSet tl_max_concurrency := λ v r,
  MkTopicLockRow (tl_topic r) v (tl_updated_at r).
#[export] Instance set_tl_updated_at : FieldSet tl_updated_at := λ v r,
  MkTopicLockRow (tl_topic r) (tl_max_concurrency r) v.

(** * The wait of a workflow *)

Inductive Wait :=
  | WaitTimer (command_sequence : Z)
  | WaitActivity (id : ActivityId)
  | WaitChild (id : WorkflowId)
  | WaitApproval (id : ApprovalId).

#[export] Instance Wait_eq_dec : EqDecision Wait.
Proof. solve_decision. Defined.

Definition wait_parse (workflow_id : WorkflowId) (kind : option WaitKind)
    (reference : option Z) : Result (option Wait) :=
  match kind, reference with
  | None, None => Ok None
  | Some kind, None =>
      Err (InvalidState ("workflow " +:+ fmt workflow_id +:+ " " +:+ as_str kind
                         +:+ " wait has no reference"))
  | None, Some reference =>
      Err (InvalidState ("workflow " +:+ fmt workflow_id +:+ " wait reference "
                         +:+ fmt reference +:+ " has no wait kind"))
  | Some kind, Some reference =>
      res_map Some
        match kind with
        | KindTimer =>
            res_map WaitTimer
              (ok_or (u32_try_from reference)
                 (InvalidState ("workflow " +:+ fmt workflow_id +:+ " timer reference "
                                +:+ fmt reference +:+ " is not a command sequence")))
        | KindActivity => res_map WaitActivity (new_id reference)
        | KindChild => res_map WaitChild (new_id reference)
        | KindApproval => res_map WaitApproval (new_id reference)
        end
  end.

Definition wait_kind (self : Wait) : WaitKind :=
  match self with
  | WaitTimer _ => KindTimer
  | WaitActivity _ => KindActivity
  | WaitChild _ => KindChild
  | WaitApproval _ => KindApproval
  end.

Definition reference_id (self : Wait) : Z :=
  match self with
  | WaitTimer command_sequence => command_sequence
  | WaitActivity id | WaitChild id | WaitApproval id => id
  end.

Definition wf_wait (self : WorkflowRow) : Result (option Wait) :=
  wait_parse (wf_id self) (wf_wait_kind self) (wf_wait_reference_id self).

(** [WaitColumns]: both wait columns from one [Wait], or both cleared. *)
Definition WaitColumns_on (wait : Wait) (r : WorkflowRow) : WorkflowRow :=
  r <| wf_wait_kind := Some (wait_kind wait) |>
    <| wf_wait_reference_id := Some (reference_id wait) |>.

Definition WaitColumns_cleared (r : WorkflowRow) : WorkflowRow :=
  r <| wf_wait_kind := None |> <| wf_wait_reference_id := None |>.

(** The three lease columns of a workflow set to NULL, as every workflow
    update that leaves [running] writes them. *)
Definition wf_lease_cleared (r : WorkflowRow) : WorkflowRow :=
  r <| wf_lease_owner := None |> <| wf_lease_token := None |> <| wf_lease_expires_at := None |>.

(** [LeaseCleared]: the activity's three lease columns set to NULL. *)
Definition LeaseCleared (r : ActivityRow) : ActivityRow :=
  r <| ac_lease_owner := None |> <| ac_lease_token := None |> <| ac_lease_expires_at := None |>.
