(* ===== verification/Database.v ===== *)
(** The database as the engine sees it: the durable tables with the
    constraints of the baseline migration, and a transaction as a computation
    that reads and writes them.

    [Tx A] is a computation inside one open transaction. It threads the tables
    and returns [Err e] for an error, on which the enclosing transaction rolls
    back: [transaction] then leaves the tables as they were. Transactions are
    atomic steps; a row that another open transaction holds is visible only
    through [SKIP LOCKED], as the [env_locked_*] predicates of the
    environment. The environment also supplies the samples of the database
    clock and the random UUIDs. *)
From stdpp Require Import base gmap list strings.
From Stdlib Require Import ZArith Lia.
From S2P Require Import Prelude.
From S2P Require Import Errors.
From S2P Require Import Status.
From S2P Require Import Rows.

(** * Tables *)

Record Db := MkDb {
  db_workflow : gmap Z WorkflowRow;
  db_event : list WorkflowEventRow;
  db_activity : gmap Z ActivityRow;
  db_attempt : gmap (Z * Z) ActivityAttemptRow;
  db_progress : list ProgressEventRow;
  db_approval : gmap Z ApprovalRow;
  db_schedule_state : gmap string ScheduleStateRow;
  db_schedule_run : gmap Z ScheduleRunRow;
  db_topic_lock : gmap string TopicLockRow;
  (** The next values of the identity columns. *)
  db_next_workflow : Z;
  db_next_event : Z;
  db_next_activity : Z;
  db_next_approval : Z;
  db_next_schedule_run : Z;
}.

Definition empty_db : Db := MkDb ∅ [] ∅ ∅ [] ∅ ∅ ∅ ∅ 1 1 1 1 1.

#[export] Instance set_db_workflow : FieldSet db_workflow := λ v d,
  MkDb v (db_event d) (db_activity d) (db_attempt d) (db_progress d) (db_approval d)
    (db_schedule_state d) (db_schedule_run d) (db_topic_lock d) (db_next_workflow d)
    (db_next_event d) (db_next_activity d) (db_next_approval d) (db_next_schedule_run d).
#[export] Instance set_db_event : FieldSet db_event := λ v d,
  MkDb (db_workflow d) v (db_activity d) (db_attempt d) (db_progress d) (db_approval d)
    (db_schedule_state d) (db_schedule_run d) (db_topic_lock d) (db_next_workflow d)
    (db_next_event d) (db_next_activity d) (db_next_approval d) (db_next_schedule_run d).
#[export] Instance set_db_activity : FieldSet db_activity := λ v d,
  MkDb (db_workflow d) (db_event d) v (db_attempt d) (db_progress d) (db_approval d)
    (db_schedule_state d) (db_schedule_run d) (db_topic_lock d) (db_next_workflow d)
    (db_next_event d) (db_next_activity d) (db_next_approval d) (db_next_schedule_run d).
#[export] Instance set_db_attempt : FieldSet db_attempt := λ v d,
  MkDb (db_workflow d) (db_event d) (db_activity d) v (db_progress d) (db_approval d)
    (db_schedule_state d) (db_schedule_run d) (db_topic_lock d) (db_next_workflow d)
    (db_next_event d) (db_next_activity d) (db_next_approval d) (db_next_schedule_run d).
#[export] Instance set_db_progress : FieldSet db_progress := λ v d,
  MkDb (db_workflow d) (db_event d) (db_activity d) (db_attempt d) v (db_approval d)
    (db_schedule_state d) (db_schedule_run d) (db_topic_lock d) (db_next_workflow d)
    (db_next_event d) (db_next_activity d) (db_next_approval d) (db_next_schedule_run d).
#[export] Instance set_db_approval : FieldSet db_approval := λ v d,
  MkDb (db_workflow d) (db_event d) (db_activity d) (db_attempt d) (db_progress d) v
    (db_schedule_state d) (db_schedule_run d) (db_topic_lock d) (db_next_workflow d)
    (db_next_event d) (db_next_activity d) (db_next_approval d) (db_next_schedule_run d).
#[export] Instance set_db_schedule_state : FieldSet db_schedule_state := λ v d,
  MkDb (db_workflow d) (db_event d) (db_activity d) (db_attempt d) (db_progress d)
    (db_approval d) v (db_schedule_run d) (db_topic_lock d) (db_next_workflow d)
    (db_next_event d) (db_next_activity d) (db_next_approval d) (db_next_schedule_run d).
#[export] Instance set_db_schedule_run : FieldSet db_schedule_run := λ v d,
  MkDb (db_workflow d) (db_event d) (db_activity d) (db_attempt d) (db_progress d)
    (db_approval d) (db_schedule_state d) v (db_topic_lock d) (db_next_workflow d)
    (db_next_event d) (db_next_activity d) (db_next_approval d) (db_next_schedule_run d).
#[export] Instance set_db_topic_lock : FieldSet db_topic_lock := λ v d,
  MkDb (db_workflow d) (db_event d) (db_activity d) (db_attempt d) (db_progress d)
    (db_approval d) (db_schedule_state d) (db_schedule_run d) v (db_next_workflow d)
    (db_next_event d) (db_next_activity d) (db_next_approval d) (db_next_schedule_run d).
#[export] Instance set_db_next_workflow : FieldSet db_next_workflow := λ v d,
  MkDb (db_workflow d) (db_event d) (db_activity d) (db_attempt d) (db_progress d)
    (db_approval d) (db_schedule_state d) (db_schedule_run d) (db_topic_lock d) v
    (db_next_event d) (db_next_activity d) (db_next_approval d) (db_next_schedule_run d).
#[export] Instance set_db_next_event : FieldSet db_next_event := λ v d,
  MkDb (db_workflow d) (db_event d) (db_activity d) (db_attempt d) (db_progress d)
    (db_approval d) (db_schedule_state d) (db_schedule_run d) (db_topic_lock d)
    (db_next_workflow d) v (db_next_activity d) (db_next_approval d) (db_next_schedule_run d).
#[export] Instance set_db_next_activity : FieldSet db_next_activity := λ v d,
  MkDb (db_workflow d) (db_event d) (db_activity d) (db_attempt d) (db_progress d)
    (db_approval d) (db_schedule_state d) (db_schedule_run d) (db_topic_lock d)
    (db_next_workflow d) (db_next_event d) v (db_next_approval d) (db_next_schedule_run d).
#[export] Instance set_db_next_approval : FieldSet db_next_approval := λ v d,
  MkDb (db_workflow d) (db_event d) (db_activity d) (db_attempt d) (db_progress d)
    (db_approval d) (db_schedule_state d) (db_schedule_run d) (db_topic_lock d)
    (db_next_workflow d) (db_next_event d) (db_next_activity d) v (db_next_schedule_run d).
#[export] Instance set_db_next_schedule_run : FieldSet db_next_schedule_run := λ v d,
  MkDb (db_workflow d) (db_event d) (db_activity d) (db_attempt d) (db_progress d)
    (db_approval d) (db_schedule_state d) (db_schedule_run d) (db_topic_lock d)
    (db_next_workflow d) (db_next_event d) (db_next_activity d) (db_next_approval d) v.

(** * Transactions *)

(** What one transaction observes besides the tables: its successive samples
    of the database clock, the UUIDs it draws, and the rows other open
    transactions hold, which [FOR UPDATE SKIP LOCKED] passes over. *)
Record Env := MkEnv {
  env_clock : nat → DbMillis;
  env_uuid : nat → string;
  env_locked_workflow : WorkflowId → bool;
  env_locked_activity : ActivityId → bool;
  env_locked_topic : string → bool;
}.

Record TxState := MkTxState {
  tx_db : Db;
  tx_samples : nat;
  tx_uuids : nat;
}.

Definition Tx (A : Type) : Type := Env → TxState → Result (A * TxState).

Definition tx_ret {A} (a : A) : Tx A := λ _ s, Ok (a, s).
Definition tx_bind {A B} (m : Tx A) (f : A → Tx B) : Tx B := λ e s,
  match m e s with
  | Ok (a, s') => f a e s'
  | Err err => Err err
  end.
Definition tx_fail {A} (err : DurableError) : Tx A := λ _ _, Err err.
Definition tx_lift {A} (r : Result A) : Tx A := λ _ s,
  match r with Ok a => Ok (a, s) | Err err => Err err end.
Definition tx_get : Tx Db := λ _ s, Ok (tx_db s, s).
Definition tx_env : Tx Env := λ e s, Ok (e, s).
Definition tx_put (d : Db) : Tx unit := λ _ s, Ok (tt, MkTxState d (tx_samples s) (tx_uuids s)).

Declare Scope tx_scope.
Delimit Scope tx_scope with tx.
Notation "'let!' x ':=' m 'in' k" := (tx_bind m (λ x, k))
  (at level 10, x binder, m at level 100, k at level 200) : tx_scope.
Notation "'do!' m 'in' k" := (tx_bind m (λ _, k))
  (at level 10, m at level 100, k at level 200) : tx_scope.
Open Scope tx_scope.

Fixpoint tx_for {A} (l : list A) (body : A → Tx unit) : Tx unit :=
  match l with
  | [] => tx_ret tt
  | x :: xs => do! body x in tx_for xs body
  end.

(** [dialect::transaction]: runs the callback and commits, or rolls back. *)
Definition transaction {A} (e : Env) (m : Tx A) (d : Db) : Result A * Db :=
  match m e (MkTxState d 0 0) with
  | Ok (a, s) => (Ok a, tx_db s)
  | Err err => (Err err, d)
  end.

(** [persistence::database_now_millis]: a new sample of the database clock. *)
Definition database_now_millis : Tx DbMillis := λ e s,
  Ok (env_clock e (tx_samples s), MkTxState (tx_db s) (S (tx_samples s)) (tx_uuids s)).

(** [Uuid::new_v4().to_string()]. *)
Definition new_uuid : Tx string := λ e s,
  Ok (env_uuid e (tx_uuids s), MkTxState (tx_db s) (tx_samples s) (S (tx_uuids s))).

(** [changed == 1], else the fence was lost. *)
Definition ensure_fenced (changed : nat) : Tx unit :=
  if (changed =? 1)%nat then tx_ret tt else tx_fail FencedWrite.

Definition db_fail {A} (kind : DatabaseErrorKind) (constraint : string) : Tx A :=
  tx_fail (Database (DatabaseError kind constraint)).

(** * Queries *)

(** [SELECT ... WHERE p]: the matching rows. SQL leaves the order open
    without [ORDER BY]; here it is the order of the map. *)
Definition select_workflows (p : WorkflowRow → bool) : Tx (list WorkflowRow) :=
  let! d := tx_get in
  tx_ret (filter (λ r, p r = true) (snd <$> map_to_list (db_workflow d))).

Definition select_activities (p : ActivityRow → bool) : Tx (list ActivityRow) :=
  let! d := tx_get in
  tx_ret (filter (λ r, p r = true) (snd <$> map_to_list (db_activity d))).

Definition select_approvals (p : ApprovalRow → bool) : Tx (list ApprovalRow) :=
  let! d := tx_get in
  tx_ret (filter (λ r, p r = true) (snd <$> map_to_list (db_approval d))).

Definition select_schedule_runs (p : ScheduleRunRow → bool) : Tx (list ScheduleRunRow) :=
  let! d := tx_get in
  tx_ret (filter (λ r, p r = true) (snd <$> map_to_list (db_schedule_run d))).

(** [.find(id).filter(p)....optional()]. *)
Definition find_workflow (id : WorkflowId) (p : WorkflowRow → bool) : Tx (option WorkflowRow) :=
  let! d := tx_get in
  tx_ret (match db_workflow d !! id with
          | Some r => if p r then Some r else None
          | None => None
          end).

Definition find_activity (id : ActivityId) (p : ActivityRow → bool) : Tx (option ActivityRow) :=
  let! d := tx_get in
  tx_ret (match db_activity d !! id with
          | Some r => if p r then Some r else None
          | None => None
          end).

Definition find_approval (id : ApprovalId) : Tx (option ApprovalRow) :=
  let! d := tx_get in tx_ret (db_approval d !! id).

(** [.first(connection).await?]: no row is [Error::NotFound]. *)
Definition first_or_not_found {A} (o : option A) : Tx A :=
  tx_lift (ok_or o (Database DieselNotFound)).

(** [.for_update().skip_locked()] of one workflow or activity row. *)
Definition find_workflow_skip_locked (id : WorkflowId) (p : WorkflowRow → bool)
    : Tx (option WorkflowRow) :=
  let! e := tx_env in
  if env_locked_workflow e id then tx_ret None else find_workflow id p.

Definition find_activity_skip_locked (id : ActivityId) (p : ActivityRow → bool)
    : Tx (option ActivityRow) :=
  let! e := tx_env in
  if env_locked_activity e id then tx_ret None else find_activity id p.

(** * Updates: [diesel::update(table.find(id).filter(p)).set(f).execute()],
    with the number of affected rows. *)

Definition update_workflow (id : WorkflowId) (p : WorkflowRow → bool)
    (f : WorkflowRow → WorkflowRow) : Tx nat :=
  let! d := tx_get in
  match db_workflow d !! id with
  | Some r =>
      if p r
      then do! tx_put (d <| db_workflow := <[id := f r]> (db_workflow d) |>) in tx_ret 1
      else tx_ret 0
  | None => tx_ret 0
  end.

Definition update_activity (id : ActivityId) (p : ActivityRow → bool)
    (f : ActivityRow → ActivityRow) : Tx nat :=
  let! d := tx_get in
  match db_activity d !! id with
  | Some r =>
      if p r
      then do! tx_put (d <| db_activity := <[id := f r]> (db_activity d) |>) in tx_ret 1
      else tx_ret 0
  | None => tx_ret 0
  end.

Definition update_attempt (key : ActivityId * Z) (p : ActivityAttemptRow → bool)
    (f : ActivityAttemptRow → ActivityAttemptRow) : Tx nat :=
  let! d := tx_get in
  match db_attempt d !! key with
  | Some r =>
      if p r
      then do! tx_put (d <| db_attempt := <[key := f r]> (db_attempt d) |>) in tx_ret 1
      else tx_ret 0
  | None => tx_ret 0
  end.

Definition update_approval (id : ApprovalId) (p : ApprovalRow → bool)
    (f : ApprovalRow → ApprovalRow) : Tx nat :=
  let! d := tx_get in
  match db_approval d !! id with
  | Some r =>
      if p r
      then do! tx_put (d <| db_approval := <[id := f r]> (db_approval d) |>) in tx_ret 1
      else tx_ret 0
  | None => tx_ret 0
  end.

(** A nullable foreign key to a workflow that is not there. *)
Definition references_missing (d : Db) (o : option WorkflowId) : bool :=
  match o with
  | Some id => bool_decide (db_workflow d !! id = None)
  | None => false
  end.

(** Under the foreign key to the workflow of a run. *)
Definition update_schedule_run (id : ScheduleRunId) (p : ScheduleRunRow → bool)
    (f : ScheduleRunRow → ScheduleRunRow) : Tx nat :=
  let! d := tx_get in
  match db_schedule_run d !! id with
  | Some r =>
      if p r
      then if references_missing d (sr_workflow_id (f r))
           then db_fail ForeignKeyViolation "fk_durable_schedule_run_workflow"
           else do! tx_put (d <| db_schedule_run := <[id := f r]> (db_schedule_run d) |>)
                in tx_ret 1
      else tx_ret 0
  | None => tx_ret 0
  end.

(** Under the check on the version. *)
Definition update_schedule_state (key : string) (p : ScheduleStateRow → bool)
    (f : ScheduleStateRow → ScheduleStateRow) : Tx nat :=
  let! d := tx_get in
  match db_schedule_state d !! key with
  | Some r =>
      if p r
      then if (ss_definition_version (f r) <=? 0)%Z
           then db_fail CheckViolation "durable_schedule_state_check"
           else do! tx_put (d <| db_schedule_state := <[key := f r]> (db_schedule_state d) |>)
                in tx_ret 1
      else tx_ret 0
  | None => tx_ret 0
  end.

(** A bulk [UPDATE] of the activities that match [p]. *)
Definition update_activities (p : ActivityRow → bool) (f : ActivityRow → ActivityRow)
    : Tx unit :=
  let! d := tx_get in
  tx_put (d <| db_activity := (λ r, if p r then f r else r) <$> db_activity d |>).

(** * Events ([persistence/events.rs]) *)

(** [NewWorkflowEventRow]: an event row without its id. *)
Definition NewWorkflowEventRow (workflow_id : WorkflowId) (sequence : Z)
    (delivery_sequence : option Z) (event_type : string) (metadata_json : option string)
    (actor_type actor_id reason : option string) (created_at : DbMillis)
    : Z → WorkflowEventRow := λ id,
  MkWorkflowEventRow id workflow_id sequence delivery_sequence event_type metadata_json
    actor_type actor_id reason created_at.

Definition events_of (d : Db) (workflow_id : WorkflowId) : list WorkflowEventRow :=
  filter (λ e, ev_workflow_id e = workflow_id) (db_event d).

(** [delivery_sequence > n] holds of no NULL. *)
Definition delivery_after (delivered_sequence : Z) (e : WorkflowEventRow) : bool :=
  match ev_delivery_sequence e with
  | Some n => (delivered_sequence <? n)%Z
  | None => false
  end.

Definition delivery_le (a b : WorkflowEventRow) : bool :=
  (default 0 (ev_delivery_sequence a) <=? default 0 (ev_delivery_sequence b))%Z.

Definition next_delivery_event (workflow_id : WorkflowId) (delivered_sequence : Z)
    : Tx (option WorkflowEventRow) :=
  let! d := tx_get in
  tx_ret (head (sort_by delivery_le
    (filter (λ e, delivery_after delivered_sequence e = true) (events_of d workflow_id)))).

Definition next_event_sequence (workflow_id : WorkflowId) : Tx Z :=
  let! d := tx_get in
  let current := max_of (ev_sequence <$> events_of d workflow_id) in
  tx_lift (ok_or (i32_checked_add (default 0%Z current) 1)
             (InvalidState "workflow event sequence overflow")).

(** The insert, under the unique keys on the sequence and on the delivery
    sequence of one workflow and the foreign key to it. *)
Definition append_event (event : Z → WorkflowEventRow) : Tx unit :=
  let! d := tx_get in
  let row := event (db_next_event d) in
  let siblings := events_of d (ev_workflow_id row) in
  if bool_decide (ev_sequence row ∈ ev_sequence <$> siblings)
  then db_fail UniqueViolation "uq_durable_workflow_event_sequence"
  else if bool_decide (is_Some (ev_delivery_sequence row)
                       ∧ ev_delivery_sequence row ∈ ev_delivery_sequence <$> siblings)
  then db_fail UniqueViolation "uq_durable_workflow_event_delivery"
  else if bool_decide (db_workflow d !! ev_workflow_id row = None)
  then db_fail ForeignKeyViolation "fk_durable_workflow_event_workflow"
  else tx_put (d <| db_event := db_event d ++ [row] |>
                 <| db_next_event := (db_next_event d + 1)%Z |>).

(** * Inserts ([dialect/postgres.rs]) *)

Inductive WorkflowInsert :=
  | WorkflowInserted (id : WorkflowId)
  | DeduplicationConflict.

Definition activity_missing (d : Db) (o : option ActivityId) : bool :=
  match o with
  | Some id => bool_decide (db_activity d !! id = None)
  | None => false
  end.

(** [insert_workflow_row]: [ON CONFLICT (kind, deduplication_key) DO NOTHING];
    a second row restarted from one source violates its unique key. *)
Definition insert_workflow_row (new_row : WorkflowId → WorkflowRow)
    : Tx (option WorkflowId) :=
  let! d := tx_get in
  let row := new_row (db_next_workflow d) in
  let rows := snd <$> map_to_list (db_workflow d) in
  if (wf_version row <=? 0)%Z || (wf_state_version row <=? 0)%Z
  then db_fail CheckViolation "durable_workflow_check"
  else if bool_decide (is_Some (wf_deduplication_key row))
          && existsb (λ r, bool_decide (wf_kind r = wf_kind row
                             ∧ wf_deduplication_key r = wf_deduplication_key row)) rows
  then tx_ret None
  else if bool_decide (is_Some (wf_restarted_from_workflow_id row))
          && existsb (λ r, bool_decide (wf_restarted_from_workflow_id r
                                        = wf_restarted_from_workflow_id row)) rows
  then db_fail UniqueViolation "uq_durable_workflow_restart"
  else if references_missing d (wf_root_workflow_id row)
          || references_missing d (wf_restarted_from_workflow_id row)
          || references_missing d (wf_parent_workflow_id row)
  then db_fail ForeignKeyViolation "fk_durable_workflow"
  else do! tx_put (d <| db_workflow := <[wf_id row := row]> (db_workflow d) |>
                     <| db_next_workflow := (db_next_workflow d + 1)%Z |>) in
       tx_ret (Some (wf_id row)).

Definition restart_conflict (restarted_from_workflow_id : option WorkflowId) : DurableError :=
  match restarted_from_workflow_id with
  | Some id => Conflict ("workflow " +:+ fmt id +:+ " already has a successor")
  | None => Conflict "workflow insert conflicted without a deduplication or restart key"
  end.

Definition is_unique_violation (error : DieselError) : bool :=
  match error with DatabaseError UniqueViolation _ => true | _ => false end.

(** The savepoint of the source keeps the caller's transaction usable after
    the unique violation; here the error has written nothing. *)
Definition insert_workflow (new_row : WorkflowId → WorkflowRow) : Tx WorkflowInsert := λ e s,
  match insert_workflow_row new_row e s with
  | Ok (Some id, s') => Ok (WorkflowInserted id, s')
  | Ok (None, s') => Ok (DeduplicationConflict, s')
  | Err (Database error) =>
      if is_unique_violation error
      then Err (restart_conflict (wf_restarted_from_workflow_id (new_row 0%Z)))
      else Err (Database error)
  | Err error => Err error
  end.

(** [insert_activity], under the unique command key, the checks and the
    foreign keys of [durable_activity]. *)
Definition insert_activity (new_row : ActivityId → ActivityRow) : Tx ActivityId :=
  let! d := tx_get in
  let row := new_row (db_next_activity d) in
  let rows := snd <$> map_to_list (db_activity d) in
  if (ac_version row <=? 0)%Z || (ac_max_attempts row <=? 0)%Z
  then db_fail CheckViolation "durable_activity_check"
  else if existsb (λ r, bool_decide (ac_workflow_id r = ac_workflow_id row
                          ∧ ac_command_sequence r = ac_command_sequence row
                          ∧ ac_replacement_number r = ac_replacement_number row)) rows
  then db_fail UniqueViolation "uq_durable_activity_command"
  else if bool_decide (db_workflow d !! ac_workflow_id row = None)
  then db_fail ForeignKeyViolation "fk_durable_activity_workflow"
  else if activity_missing d (ac_root_activity_id row)
          || activity_missing d (ac_replaces_activity_id row)
  then db_fail ForeignKeyViolation "fk_durable_activity"
  else do! tx_put (d <| db_activity := <[ac_id row := row]> (db_activity d) |>
                     <| db_next_activity := (db_next_activity d + 1)%Z |>) in
       tx_ret (ac_id row).

(** [insert_approval], under the unique command key and the foreign key. *)
Definition insert_approval (new_row : ApprovalId → ApprovalRow) : Tx ApprovalId :=
  let! d := tx_get in
  let row := new_row (db_next_approval d) in
  let rows := snd <$> map_to_list (db_approval d) in
  if (ap_version row <=? 0)%Z || (ap_validation_version row <=? 0)%Z
  then db_fail CheckViolation "durable_approval_check"
  else if existsb (λ r, bool_decide (ap_workflow_id r = ap_workflow_id row
                          ∧ ap_command_sequence r = ap_command_sequence row)) rows
  then db_fail UniqueViolation "uq_durable_approval_command"
  else if bool_decide (db_workflow d !! ap_workflow_id row = None)
  then db_fail ForeignKeyViolation "fk_durable_approval_workflow"
  else do! tx_put (d <| db_approval := <[ap_id row := row]> (db_approval d) |>
                     <| db_next_approval := (db_next_approval d + 1)%Z |>) in
       tx_ret (ap_id row).

(** The insert of an attempt row: its key is the activity and the number. *)
Definition insert_attempt (row : ActivityAttemptRow) : Tx unit :=
  let! d := tx_get in
  let key := (att_activity_id row, att_attempt_number row) in
  if (att_attempt_number row <=? 0)%Z
  then db_fail CheckViolation "durable_activity_attempt_check"
  else if bool_decide (is_Some (db_attempt d !! key))
  then db_fail UniqueViolation "durable_activity_attempt_pkey"
  else if bool_decide (db_activity d !! att_activity_id row = None)
  then db_fail ForeignKeyViolation "fk_durable_activity_attempt_activity"
  else tx_put (d <| db_attempt := <[key := row]> (db_attempt d) |>).

(** [insert_schedule_run], under the unique key of the occurrence and the
    foreign keys to the schedule and the workflow. *)
Definition insert_schedule_run (new_row : ScheduleRunId → ScheduleRunRow) : Tx ScheduleRunId :=
  let! d := tx_get in
  let row := new_row (db_next_schedule_run d) in
  let rows := snd <$> map_to_list (db_schedule_run d) in
  if existsb (λ r, bool_decide (sr_schedule_key r = sr_schedule_key row
                     ∧ sr_local_occurrence r = sr_local_occurrence row)) rows
  then db_fail UniqueViolation "uq_durable_schedule_run_occurrence"
  else if bool_decide (db_schedule_state d !! sr_schedule_key row = None)
  then db_fail ForeignKeyViolation "fk_durable_schedule_run_state"
  else if references_missing d (sr_workflow_id row)
  then db_fail ForeignKeyViolation "fk_durable_schedule_run_workflow"
  else do! tx_put (d <| db_schedule_run := <[sr_id row := row]> (db_schedule_run d) |>
                     <| db_next_schedule_run := (db_next_schedule_run d + 1)%Z |>) in
       tx_ret (sr_id row).
