(* ===== verification/TxLogic.v ===== *)
(** A weakest-precondition calculus for transactions: what holds of the value
    and the tables when a computation of [Database] returns [Ok], and what
    holds of the error when it does not. One rule per primitive, and a tactic
    that runs a transaction symbolically with them. *)
From stdpp Require Import base gmap list strings.
From Stdlib Require Import ZArith Lia.
From S2P Require Import Prelude.
From S2P Require Import Errors.
From S2P Require Import Status.
From S2P Require Import Rows.
From S2P Require Import Database.

(** From the tables [d], and whatever clock samples and UUIDs came before,
    [m] ends in [Φ] or fails with an error in [Ψ]. *)
Definition wp {A} (Ψ : DurableError → Prop) (m : Tx A) (e : Env) (d : Db)
    (Φ : A → Db → Prop) : Prop :=
  ∀ i j, match m e (MkTxState d i j) with
         | Ok (a, s) => Φ a (tx_db s)
         | Err err => Ψ err
         end.

(** The error condition of a partial specification. *)
Definition any_error (_ : DurableError) : Prop := True.

(** The rows a [SELECT ... WHERE p] returns. *)
Lemma elem_of_select {V} (m : gmap Z V) (p : V → bool) r :
  r ∈ filter (λ r, p r = true) (snd <$> map_to_list m) ↔
  p r = true ∧ ∃ id, m !! id = Some r.
Proof.
  rewrite list_elem_of_filter, list_elem_of_fmap.
  split; intros [Hp Hin]; (split; [done|]).
  - destruct Hin as ([id r'] & -> & Hin%elem_of_map_to_list). by exists id.
  - destruct Hin as (id & Hin). exists (id, r). by rewrite elem_of_map_to_list.
Qed.

Section rules.
Context {A : Type} (Ψ : DurableError → Prop) (e : Env) (d : Db).

Lemma wp_ret (a : A) (Φ : A → Db → Prop) : Φ a d → wp Ψ (tx_ret a) e d Φ.
Proof. by intros HΦ i j. Qed.

Lemma wp_bind {B} (m : Tx B) (f : B → Tx A) (Φ : A → Db → Prop) :
  wp Ψ m e d (λ b d', wp Ψ (f b) e d' Φ) → wp Ψ (tx_bind m f) e d Φ.
Proof.
  intros Hm i j. unfold tx_bind. specialize (Hm i j).
  destruct (m e (MkTxState d i j)) as [[b [d' i' j']]|err]; [apply Hm|done].
Qed.

Lemma wp_mono (m : Tx A) (Φ Φ' : A → Db → Prop) :
  wp Ψ m e d Φ → (∀ a d', Φ a d' → Φ' a d') → wp Ψ m e d Φ'.
Proof.
  intros Hm HΦ i j. specialize (Hm i j).
  destruct (m e (MkTxState d i j)) as [[b s]|err]; auto.
Qed.

Lemma wp_fail err (Φ : A → Db → Prop) : Ψ err → wp Ψ (tx_fail err) e d Φ.
Proof. by intros HΨ i j. Qed.

Lemma wp_lift (r : Result A) (Φ : A → Db → Prop) :
  (∀ err, r = Err err → Ψ err) → (∀ a, r = Ok a → Φ a d) → wp Ψ (tx_lift r) e d Φ.
Proof. intros HΨ HΦ i j. unfold tx_lift. destruct r; auto. Qed.

Lemma wp_get (Φ : Db → Db → Prop) : Φ d d → wp Ψ tx_get e d Φ.
Proof. by intros HΦ i j. Qed.

Lemma wp_env (Φ : Env → Db → Prop) : Φ e d → wp Ψ tx_env e d Φ.
Proof. by intros HΦ i j. Qed.

Lemma wp_put d' (Φ : unit → Db → Prop) : Φ tt d' → wp Ψ (tx_put d') e d Φ.
Proof. by intros HΦ i j. Qed.

Lemma wp_now (Φ : Z → Db → Prop) :
  (∀ i, Φ (env_clock e i) d) → wp Ψ database_now_millis e d Φ.
Proof. intros HΦ i j. apply HΦ. Qed.

Lemma wp_uuid (Φ : string → Db → Prop) :
  (∀ j, Φ (env_uuid e j) d) → wp Ψ new_uuid e d Φ.
Proof. intros HΦ i j. apply HΦ. Qed.

Lemma wp_ensure_fenced n (Φ : unit → Db → Prop) :
  (n ≠ 1 → Ψ FencedWrite) → (n = 1 → Φ tt d) → wp Ψ (ensure_fenced n) e d Φ.
Proof.
  intros HΨ HΦ i j. unfold ensure_fenced.
  destruct (Nat.eqb_spec n 1); [by apply HΦ|by apply HΨ].
Qed.

Lemma wp_first_or_not_found (o : option A) (Φ : A → Db → Prop) :
  Ψ (Database DieselNotFound) → (∀ a, o = Some a → Φ a d) →
  wp Ψ (first_or_not_found o) e d Φ.
Proof. intros HΨ HΦ. destruct o; intros i j; simpl; auto. Qed.

(** * Reads *)

Lemma wp_select_workflows p (Φ : list WorkflowRow → Db → Prop) :
  (∀ rows, (∀ r, r ∈ rows ↔ p r = true ∧ ∃ id, db_workflow d !! id = Some r) → Φ rows d) →
  wp Ψ (select_workflows p) e d Φ.
Proof.
  intros HΦ i j. apply HΦ. intros r. apply elem_of_select.
Qed.

Lemma wp_select_activities p (Φ : list ActivityRow → Db → Prop) :
  (∀ rows, (∀ r, r ∈ rows ↔ p r = true ∧ ∃ id, db_activity d !! id = Some r) → Φ rows d) →
  wp Ψ (select_activities p) e d Φ.
Proof.
  intros HΦ i j. apply HΦ. intros r. apply elem_of_select.
Qed.

Lemma wp_select_approvals p (Φ : list ApprovalRow → Db → Prop) :
  (∀ rows, (∀ r, r ∈ rows ↔ p r = true ∧ ∃ id, db_approval d !! id = Some r) → Φ rows d) →
  wp Ψ (select_approvals p) e d Φ.
Proof.
  intros HΦ i j. apply HΦ. intros r. apply elem_of_select.
Qed.

Lemma wp_find_workflow id p (Φ : option WorkflowRow → Db → Prop) :
  ((∀ r, db_workflow d !! id = Some r → p r = false) → Φ None d) →
  (∀ r, db_workflow d !! id = Some r → p r = true → Φ (Some r) d) →
  wp Ψ (find_workflow id p) e d Φ.
Proof.
  intros HN HS i j. unfold find_workflow; cbn.
  destruct (db_workflow d !! id) as [r|] eqn:E; [destruct (p r) eqn:Ep|]; auto;
    apply HN; naive_solver.
Qed.

Lemma wp_find_activity id p (Φ : option ActivityRow → Db → Prop) :
  ((∀ r, db_activity d !! id = Some r → p r = false) → Φ None d) →
  (∀ r, db_activity d !! id = Some r → p r = true → Φ (Some r) d) →
  wp Ψ (find_activity id p) e d Φ.
Proof.
  intros HN HS i j. unfold find_activity; cbn.
  destruct (db_activity d !! id) as [r|] eqn:E; [destruct (p r) eqn:Ep|]; auto;
    apply HN; naive_solver.
Qed.

Lemma wp_find_approval id (Φ : option ApprovalRow → Db → Prop) :
  (db_approval d !! id = None → Φ None d) →
  (∀ r, db_approval d !! id = Some r → Φ (Some r) d) →
  wp Ψ (find_approval id) e d Φ.
Proof.
  intros HN HS i j. unfold find_approval; cbn.
  destruct (db_approval d !! id) as [r|] eqn:E; auto.
Qed.

(** * Writes *)

Lemma wp_update_workflow id p f (Φ : nat → Db → Prop) :
  Φ 0 d →
  (∀ r, db_workflow d !! id = Some r → p r = true →
    Φ 1 (d <| db_workflow := <[id := f r]> (db_workflow d) |>)) →
  wp Ψ (update_workflow id p f) e d Φ.
Proof.
  intros H0 H1 i j. unfold update_workflow; cbn.
  destruct (db_workflow d !! id) as [r|] eqn:E; [destruct (p r) eqn:Ep|]; try exact H0.
  by apply (H1 r).
Qed.

Lemma wp_update_activity id p f (Φ : nat → Db → Prop) :
  Φ 0 d →
  (∀ r, db_activity d !! id = Some r → p r = true →
    Φ 1 (d <| db_activity := <[id := f r]> (db_activity d) |>)) →
  wp Ψ (update_activity id p f) e d Φ.
Proof.
  intros H0 H1 i j. unfold update_activity; cbn.
  destruct (db_activity d !! id) as [r|] eqn:E; [destruct (p r) eqn:Ep|]; try exact H0.
  by apply (H1 r).
Qed.

Lemma wp_update_attempt key p f (Φ : nat → Db → Prop) :
  Φ 0 d →
  (∀ r, db_attempt d !! key = Some r → p r = true →
    Φ 1 (d <| db_attempt := <[key := f r]> (db_attempt d) |>)) →
  wp Ψ (update_attempt key p f) e d Φ.
Proof.
  intros H0 H1 i j. unfold update_attempt; cbn.
  destruct (db_attempt d !! key) as [r|] eqn:E; [destruct (p r) eqn:Ep|]; try exact H0.
  by apply (H1 r).
Qed.

Lemma wp_update_approval id p f (Φ : nat → Db → Prop) :
  Φ 0 d →
  (∀ r, db_approval d !! id = Some r → p r = true →
    Φ 1 (d <| db_approval := <[id := f r]> (db_approval d) |>)) →
  wp Ψ (update_approval id p f) e d Φ.
Proof.
  intros H0 H1 i j. unfold update_approval; cbn.
  destruct (db_approval d !! id) as [r|] eqn:E; [destruct (p r) eqn:Ep|]; try exact H0.
  by apply (H1 r).
Qed.

Lemma references_present (o : option WorkflowId) w :
  references_missing d o = false → o = Some w → is_Some (db_workflow d !! w).
Proof. intros Hm ->. by apply bool_decide_eq_false, not_eq_None_Some in Hm. Qed.

Lemma wp_update_schedule_run id p f (Φ : nat → Db → Prop) :
  (∀ kind constraint, Ψ (Database (DatabaseError kind constraint))) → Φ 0 d →
  (∀ r, db_schedule_run d !! id = Some r → p r = true →
    (∀ w, sr_workflow_id (f r) = Some w → is_Some (db_workflow d !! w)) →
    Φ 1 (d <| db_schedule_run := <[id := f r]> (db_schedule_run d) |>)) →
  wp Ψ (update_schedule_run id p f) e d Φ.
Proof.
  intros HΨ H0 H1 i j. unfold update_schedule_run; cbn.
  destruct (db_schedule_run d !! id) as [r|] eqn:E; [destruct (p r) eqn:Ep|]; try exact H0.
  destruct (references_missing d _) eqn:Em; [by apply HΨ|].
  apply (H1 r); [done..|]. intros w. by apply references_present.
Qed.

Lemma wp_update_activities (p : ActivityRow → bool) f (Φ : unit → Db → Prop) :
  Φ tt (d <| db_activity := (λ r, if p r then f r else r) <$> db_activity d |>) →
  wp Ψ (update_activities p f) e d Φ.
Proof. by intros HΦ i j. Qed.
End rules.

(** * Loops *)

(** A loop keeps what its body keeps. *)
Lemma wp_for {B} Ψ e d (I : Db → Prop) (l : list B) (body : B → Tx unit)
    (Φ : unit → Db → Prop) :
  I d → (∀ x d', x ∈ l → I d' → wp Ψ (body x) e d' (λ _ d'', I d'')) →
  (∀ d', I d' → Φ tt d') → wp Ψ (tx_for l body) e d Φ.
Proof.
  intros HI Hbody HΦ. revert d HI.
  induction l as [|x xs IH]; intros d' HI; simpl; [by apply wp_ret, HΦ|].
  intros i j. unfold tx_bind.
  pose proof (Hbody x d' ltac:(set_solver) HI i j) as Hx.
  destruct (body x e (MkTxState d' i j)) as [[[] [d'' i' j']]|err]; [|done].
  apply IH; [|done]. intros y d3 Hy. apply Hbody. set_solver.
Qed.

(** A loop each round of which settles its element for good. *)
Lemma wp_for_each {B} Ψ e d (R : Db → Db → Prop) (Q : B → Db → Prop) l (body : B → Tx unit) :
  Reflexive R → Transitive R → (∀ x d d', R d d' → Q x d → Q x d') →
  (∀ x d, x ∈ l → wp Ψ (body x) e d (λ _ d', R d d' ∧ Q x d')) →
  wp Ψ (tx_for l body) e d (λ _ d', R d d' ∧ ∀ x, x ∈ l → Q x d').
Proof.
  intros Hrefl Htrans HQ. revert d. induction l as [|x l IH]; intros d Hbody; simpl.
  - apply wp_ret. split; [done|]. by intros x ?%elem_of_nil.
  - apply wp_bind. eapply wp_mono; [apply Hbody; by left|]. intros [] d1 [HR1 HQ1].
    eapply wp_mono; [apply IH; intros; apply Hbody; by right|]. intros [] d2 [HR2 HQ2].
    split; [by etrans|]. intros y [->|Hy]%elem_of_cons; [by eapply HQ|auto].
Qed.

(** Of an operation nothing need be known. *)
Lemma wp_havoc {A} (m : Tx A) e d (Φ : A → Db → Prop) :
  (∀ a d', Φ a d') → wp any_error m e d Φ.
Proof. intros HΦ i j. by destruct (m e (MkTxState d i j)) as [[a s]|err]. Qed.

Lemma wp_and {A} (m : Tx A) e d (Φ Φ' : A → Db → Prop) :
  wp any_error m e d Φ → wp any_error m e d Φ' → wp any_error m e d (λ a d', Φ a d' ∧ Φ' a d').
Proof.
  intros H H' i j. specialize (H i j). specialize (H' i j).
  by destruct (m e (MkTxState d i j)) as [[a s]|err].
Qed.

(** What [wp] says of the transaction as a whole. *)
Lemma wp_transaction {A} Ψ (m : Tx A) e d Φ :
  wp Ψ m e d Φ →
  match transaction e m d with
  | (Ok a, d') => Φ a d'
  | (Err err, d') => Ψ err ∧ d' = d
  end.
Proof.
  intros Hm. specialize (Hm 0 0). unfold transaction.
  destruct (m e (MkTxState d 0 0)) as [[a s]|err]; auto.
Qed.

(** * Automation *)

Create HintDb wp.

(** Turns the tests of a path into propositions. *)
Ltac norm_tests :=
  repeat match goal with
  | H : bool_decide _ = true |- _ => apply bool_decide_eq_true in H
  | H : bool_decide _ = false |- _ => apply bool_decide_eq_false in H
  | H : negb _ = true |- _ => apply negb_true_iff in H
  | H : negb _ = false |- _ => apply negb_false_iff in H
  | H : _ && _ = true |- _ => apply andb_true_iff in H; destruct H
  | H : _ || _ = false |- _ => apply orb_false_iff in H; destruct H
  | H : _ ∧ _ |- _ => destruct H
  | H : ¬ (_ ≠ _) |- _ => apply dec_stable in H
  | H : ok_or _ _ = Ok _ |- _ => apply ok_or_Ok in H
  | H : (_ <=? _)%Z = true |- _ => apply Z.leb_le in H
  | H : (_ <=? _)%Z = false |- _ => apply Z.leb_gt in H
  | H : (_ <? _)%Z = true |- _ => apply Z.ltb_lt in H
  | H : (_ <? _)%Z = false |- _ => apply Z.ltb_ge in H
  end.

(** Equations between constructors and of variables; it computes nothing. *)
Ltac light_eq :=
  repeat match goal with
  | H : Some _ = Some _ |- _ => injection H; clear H; intros
  | H : Ok _ = Ok _ |- _ => injection H; clear H; intros
  | H : Some _ = None |- _ => discriminate H
  | H : None = Some _ |- _ => discriminate H
  | H : Ok _ = Err _ |- _ => discriminate H
  | H : Err _ = Ok _ |- _ => discriminate H
  | H1 : ?x = Some _, H2 : ?x = Some _ |- _ => rewrite H1 in H2
  | H1 : ?x = Some _, H2 : ?x = None |- _ => rewrite H1 in H2
  | H : ?x = _ |- _ => is_var x; subst x
  | H : _ = ?x |- _ => is_var x; subst x
  end.

(** One step of the symbolic run: the rule of the primitive at the head, a
    case split on the test of a branch, or the specification of the operation
    called, which [call] finds. *)
Ltac wp_step call :=
  lazymatch goal with
  | |- wp _ ?m _ _ _ =>
      lazymatch m with
      | tx_bind _ _ => apply wp_bind
      | tx_ret _ => apply wp_ret
      | tx_fail _ => apply wp_fail; try exact I
      | db_fail _ _ => apply wp_fail; try exact I
      | tx_lift _ => apply wp_lift; [try (intros; exact I)|intros ? ?]
      | tx_get => apply wp_get
      | tx_env => apply wp_env
      | tx_put _ => apply wp_put
      | database_now_millis => apply wp_now; intros ?
      | new_uuid => apply wp_uuid; intros ?
      | ensure_fenced _ =>
          apply wp_ensure_fenced; [try (intros; exact I)|intros ?; try (exfalso; lia)]
      | first_or_not_found _ => apply wp_first_or_not_found; [try exact I|intros ? ?]
      | select_workflows _ => apply wp_select_workflows; intros ? ?
      | select_activities _ => apply wp_select_activities; intros ? ?
      | select_approvals _ => apply wp_select_approvals; intros ? ?
      | find_workflow _ _ => apply wp_find_workflow; [intros ?|intros ? ? ?]
      | find_activity _ _ => apply wp_find_activity; [intros ?|intros ? ? ?]
      | find_approval _ => apply wp_find_approval; [intros ?|intros ? ?]
      | find_workflow_skip_locked _ _ => unfold find_workflow_skip_locked
      | find_activity_skip_locked _ _ => unfold find_activity_skip_locked
      | update_workflow _ _ _ => apply wp_update_workflow; [|intros ? ? ?]
      | update_activity _ _ _ => apply wp_update_activity; [|intros ? ? ?]
      | update_attempt _ _ _ => apply wp_update_attempt; [|intros ? ? ?]
      | update_approval _ _ _ => apply wp_update_approval; [|intros ? ? ?]
      | update_schedule_run _ _ _ => apply wp_update_schedule_run; [by intros| |intros ? ? ? ?]
      | update_activities _ _ => apply wp_update_activities
      | match ?x with _ => _ end => destruct x eqn:?
      | _ => call tt
      end
  | |- (fun _ _ => _) _ _ => cbv beta
  end; light_eq; norm_tests; light_eq.
