(* ===== verification/Lifecycle.v ===== *)
(** The documented state machines of the engine's entities
    ([docs/INVARIANTS.md], sections 1.1 to 1.4), as step relations on rows: an
    abstract specification. One constructor per line of the tables, with what
    the step does to the status, the wait, the lease and the counters. The
    proof files show that every transaction moves rows by these steps only;
    the invariants of a row follow from the steps by cases. *)
From stdpp Require Import base gmap list strings relations.
From Stdlib Require Import ZArith Lia.
From S2P Require Import Prelude.
From S2P Require Import Errors.
From S2P Require Import Status.
From S2P Require Import Rows.

(** * Workflows *)

(** The columns no transition writes. *)
Definition same_workflow (r r' : WorkflowRow) : Prop :=
  wf_id r' = wf_id r ∧ wf_kind r' = wf_kind r ∧ wf_version r' = wf_version r
  ∧ wf_input_json r' = wf_input_json r
  ∧ wf_max_activation_attempts r' = wf_max_activation_attempts r
  ∧ wf_deduplication_key r' = wf_deduplication_key r
  ∧ wf_schedule_run_id r' = wf_schedule_run_id r
  ∧ wf_root_workflow_id r' = wf_root_workflow_id r
  ∧ wf_restarted_from_workflow_id r' = wf_restarted_from_workflow_id r
  ∧ wf_parent_workflow_id r' = wf_parent_workflow_id r
  ∧ wf_parent_command_sequence r' = wf_parent_command_sequence r
  ∧ wf_created_at r' = wf_created_at r.

(** The columns that only a coordinator's commit or failure writes. *)
Definition same_progress (r r' : WorkflowRow) : Prop :=
  wf_state_json r' = wf_state_json r ∧ wf_state_version r' = wf_state_version r
  ∧ wf_command_sequence r' = wf_command_sequence r
  ∧ wf_delivered_event_sequence r' = wf_delivered_event_sequence r
  ∧ wf_activation_attempts r' = wf_activation_attempts r.

Definition wf_leased (r : WorkflowRow) : Prop :=
  is_Some (wf_lease_owner r) ∧ is_Some (wf_lease_token r) ∧ is_Some (wf_lease_expires_at r).
Definition wf_unleased (r : WorkflowRow) : Prop :=
  wf_lease_owner r = None ∧ wf_lease_token r = None ∧ wf_lease_expires_at r = None.
Definition keeps_lease (r r' : WorkflowRow) : Prop :=
  wf_lease_owner r' = wf_lease_owner r ∧ wf_lease_token r' = wf_lease_token r
  ∧ wf_lease_expires_at r' = wf_lease_expires_at r.

Definition no_wait (r : WorkflowRow) : Prop :=
  wf_wait_kind r = None ∧ wf_wait_reference_id r = None.
Definition keeps_wait (r r' : WorkflowRow) : Prop :=
  wf_wait_kind r' = wf_wait_kind r ∧ wf_wait_reference_id r' = wf_wait_reference_id r.
Definition waits (r : WorkflowRow) (w : Wait) : Prop :=
  wf_wait_kind r = Some (wait_kind w) ∧ wf_wait_reference_id r = Some (reference_id w).

(** The status of a workflow suspended on a wait. *)
Definition waiting_status (w : WaitKind) : WorkflowStatus :=
  match w with
  | KindTimer => WfSleeping
  | KindActivity => WfWaitingActivity
  | KindChild => WfWaitingChild
  | KindApproval => WfWaitingApproval
  end.

(** The statuses a resume may give a row with this wait. *)
Definition resumes_to (w : option WaitKind) (s : WorkflowStatus) : Prop :=
  match w with
  | None => s = WfReady
  | Some KindTimer => s = WfSleeping
  | Some KindActivity => s = WfWaitingActivity ∨ s = WfBlocked ∨ s = WfReady
  | Some KindChild => s = WfWaitingChild
  | Some KindApproval => s = WfWaitingApproval ∨ s = WfReady
  end.

Definition suspended (s : WorkflowStatus) : Prop :=
  s = WfWaitingActivity ∨ s = WfWaitingChild ∨ s = WfSleeping ∨ s = WfWaitingApproval.

(** The lines of the table in section 1.1. *)
Inductive wf_change (r r' : WorkflowRow) : Prop :=
  | ws_claim :
      wf_status r = WfReady → wf_status r' = WfRunning → wf_leased r' → keeps_wait r r' →
      same_progress r r' → wf_change r r'
  | ws_recover :
      wf_status r = WfRunning → wf_status r' = WfReady → wf_unleased r' → keeps_wait r r' →
      same_progress r r' → wf_change r r'
  | ws_continue :
      wf_status r = WfRunning → wf_status r' = WfReady → wf_unleased r' → keeps_wait r r' →
      wf_activation_attempts r' = 0%Z →
      wf_command_sequence r' = wf_command_sequence r → wf_change r r'
  | ws_activation_failed :
      wf_status r = WfRunning → wf_status r' = WfReady → wf_unleased r' → keeps_wait r r' →
      wf_activation_attempts r' = i32_saturating_add (wf_activation_attempts r) 1 →
      (wf_activation_attempts r' < wf_max_activation_attempts r)%Z →
      wf_command_sequence r' = wf_command_sequence r →
      wf_delivered_event_sequence r' = wf_delivered_event_sequence r → wf_change r r'
  | ws_activation_exhausted :
      wf_status r = WfRunning → wf_status r' = WfFailed → wf_unleased r' → keeps_wait r r' →
      is_Some (wf_error_category r') → is_Some (wf_completed_at r') → wf_change r r'
  | ws_complete :
      wf_status r = WfRunning → wf_status r' = WfSucceeded → wf_unleased r' →
      keeps_wait r r' → is_Some (wf_result_json r') → is_Some (wf_completed_at r') →
      wf_change r r'
  | ws_suspend (w : Wait) :
      wf_status r = WfRunning → wf_status r' = waiting_status (wait_kind w) →
      wf_unleased r' → waits r' w →
      (wait_kind w = KindTimer → reference_id w = wf_command_sequence r') →
      wf_activation_attempts r' = 0%Z → wf_change r r'
  | ws_wake :
      suspended (wf_status r) → wf_status r' = WfReady → keeps_lease r r' → no_wait r' →
      same_progress r r' → wf_change r r'
  | ws_wake_paused :
      wf_status r = WfPaused → wf_status r' = WfPaused →
      wf_wait_kind r = Some KindChild ∨ wf_wait_kind r = Some KindApproval →
      keeps_lease r r' → no_wait r' → same_progress r r' → wf_change r r'
  | ws_reattach (child : WorkflowId) :
      wf_status r = WfWaitingChild ∨ wf_status r = WfPaused → wf_status r' = wf_status r →
      wf_wait_kind r = Some KindChild → waits r' (WaitChild child) → keeps_lease r r' →
      same_progress r r' → wf_change r r'
  | ws_block :
      wf_status r = WfWaitingActivity → wf_status r' = WfBlocked → keeps_lease r r' →
      keeps_wait r r' → same_progress r r' → wf_change r r'
  | ws_pause :
      is_terminal (wf_status r) = false → wf_status r ≠ WfPaused →
      wf_status r' = WfPaused → wf_unleased r' → keeps_wait r r' → same_progress r r' →
      wf_change r r'
  | ws_resume :
      wf_status r = WfPaused → resumes_to (wf_wait_kind r) (wf_status r') →
      wf_unleased r' → keeps_wait r r' → same_progress r r' → wf_change r r'
  | ws_retry (replacement : ActivityId) :
      wf_status r = WfBlocked → wf_status r' = WfWaitingActivity →
      waits r' (WaitActivity replacement) → keeps_lease r r' → same_progress r r' →
      wf_change r r'
  | ws_cancel :
      is_terminal (wf_status r) = false → wf_status r' = WfCancelled → wf_unleased r' →
      no_wait r' → is_Some (wf_completed_at r') → wf_change r r'
  | ws_supersede :
      wf_status r = WfPaused ∨ wf_status r = WfBlocked → wf_status r' = WfCancelled →
      wf_unleased r' → keeps_wait r r' → is_Some (wf_completed_at r') → wf_change r r'.

Definition wf_step (r r' : WorkflowRow) : Prop := same_workflow r r' ∧ wf_change r r'.

(** A row as the inserts write it. *)
Definition wf_new (r : WorkflowRow) : Prop :=
  wf_status r = WfReady ∧ wf_unleased r ∧ no_wait r ∧ wf_activation_attempts r = 0%Z
  ∧ (0 < wf_max_activation_attempts r)%Z ∧ wf_command_sequence r = 0%Z
  ∧ wf_delivered_event_sequence r = 0%Z ∧ wf_completed_at r = None.

(** * Activities *)

Definition same_activity (r r' : ActivityRow) : Prop :=
  ac_id r' = ac_id r ∧ ac_workflow_id r' = ac_workflow_id r
  ∧ ac_command_sequence r' = ac_command_sequence r
  ∧ ac_replacement_number r' = ac_replacement_number r ∧ ac_kind r' = ac_kind r
  ∧ ac_version r' = ac_version r ∧ ac_topic r' = ac_topic r
  ∧ ac_payload_json r' = ac_payload_json r
  ∧ ac_timeout_millis r' = ac_timeout_millis r
  ∧ ac_lease_duration_millis r' = ac_lease_duration_millis r
  ∧ ac_retry_policy_json r' = ac_retry_policy_json r
  ∧ ac_operation_key r' = ac_operation_key r
  ∧ ac_root_activity_id r' = ac_root_activity_id r
  ∧ ac_replaces_activity_id r' = ac_replaces_activity_id r
  ∧ ac_created_at r' = ac_created_at r.

Definition same_attempts (r r' : ActivityRow) : Prop :=
  ac_attempt_count r' = ac_attempt_count r ∧ ac_max_attempts r' = ac_max_attempts r.

Definition ac_leased (r : ActivityRow) : Prop :=
  is_Some (ac_lease_owner r) ∧ is_Some (ac_lease_token r) ∧ is_Some (ac_lease_expires_at r).
Definition ac_unleased (r : ActivityRow) : Prop :=
  ac_lease_owner r = None ∧ ac_lease_token r = None ∧ ac_lease_expires_at r = None.
Definition keeps_ac_lease (r r' : ActivityRow) : Prop :=
  ac_lease_owner r' = ac_lease_owner r ∧ ac_lease_token r' = ac_lease_token r
  ∧ ac_lease_expires_at r' = ac_lease_expires_at r.

(** The lines of the table in section 1.2, and the lease renewal. *)
Inductive ac_change (r r' : ActivityRow) : Prop :=
  | as_claim :
      ac_status r = ActPending → ac_status r' = ActRunning → ac_leased r' →
      ac_attempt_count r' = (ac_attempt_count r + 1)%Z →
      (ac_attempt_count r < ac_max_attempts r)%Z → ac_max_attempts r' = ac_max_attempts r →
      ac_change r r'
  | as_renew :
      holds_lease (ac_status r) = true → ac_status r' = ac_status r →
      ac_lease_owner r' = ac_lease_owner r → ac_lease_token r' = ac_lease_token r →
      is_Some (ac_lease_expires_at r') → same_attempts r r' → ac_change r r'
  | as_succeed :
      ac_status r = ActRunning → ac_status r' = ActSucceeded → ac_unleased r' →
      same_attempts r r' → is_Some (ac_provider_result_json r') →
      is_Some (ac_completed_at r') → ac_change r r'
  | as_requeue :
      ac_status r = ActRunning → ac_status r' = ActPending → ac_unleased r' →
      same_attempts r r' → ac_change r r'
  | as_dead_letter :
      ac_status r = ActRunning → ac_status r' = ActDeadLettered → ac_unleased r' →
      same_attempts r r' → is_Some (ac_completed_at r') → ac_change r r'
  | as_revoke_pause :
      ac_status r = ActRunning → ac_status r' = ActCancelling → keeps_ac_lease r r' →
      ac_attempt_count r' = ac_attempt_count r →
      ac_max_attempts r' = (ac_max_attempts r + 1)%Z → ac_change r r'
  | as_revoke_cancel :
      holds_lease (ac_status r) = true → ac_status r' = ActCancelling → keeps_ac_lease r r' →
      same_attempts r r' → ac_change r r'
  | as_settle_pending :
      ac_status r = ActCancelling → ac_status r' = ActPending → ac_unleased r' →
      same_attempts r r' → ac_change r r'
  | as_settle_cancelled :
      ac_status r = ActCancelling → ac_status r' = ActCancelled → ac_unleased r' →
      same_attempts r r' → is_Some (ac_completed_at r') → ac_change r r'
  | as_quarantine :
      ac_status r = ActPending → ac_status r' = ActDeadLettered → keeps_ac_lease r r' →
      same_attempts r r' → is_Some (ac_completed_at r') → ac_change r r'
  | as_cancel :
      ac_status r = ActPending → ac_status r' = ActCancelled → ac_unleased r' →
      same_attempts r r' → is_Some (ac_completed_at r') → ac_change r r'
  | as_recover :
      ac_status r = ActDeadLettered → ac_status r' = ActCancelled → ac_unleased r' →
      same_attempts r r' → is_Some (ac_completed_at r') → ac_change r r'.

Definition ac_step (r r' : ActivityRow) : Prop := same_activity r r' ∧ ac_change r r'.

Definition ac_new (r : ActivityRow) : Prop :=
  ac_status r = ActPending ∧ ac_unleased r ∧ ac_attempt_count r = 0%Z
  ∧ (0 < ac_max_attempts r)%Z ∧ ac_completed_at r = None.

(** * Attempts *)

Definition same_attempt (r r' : ActivityAttemptRow) : Prop :=
  att_activity_id r' = att_activity_id r ∧ att_attempt_number r' = att_attempt_number r
  ∧ att_worker_id r' = att_worker_id r ∧ att_lease_token r' = att_lease_token r
  ∧ att_started_at r' = att_started_at r.

Definition att_open (r : ActivityAttemptRow) : Prop :=
  att_finished_at r = None ∧ att_outcome r = None.

(** An open attempt beats or closes, once, with an outcome. *)
Inductive att_change (r r' : ActivityAttemptRow) : Prop :=
  | ats_heartbeat :
      att_finished_at r = None → att_finished_at r' = None →
      att_outcome r' = att_outcome r → att_change r r'
  | ats_close (outcome : AttemptOutcome) :
      att_finished_at r = None → is_Some (att_finished_at r') →
      att_outcome r' = Some outcome → att_change r r'.

Definition att_step (r r' : ActivityAttemptRow) : Prop :=
  same_attempt r r' ∧ att_change r r'.

(** * Approvals *)

Definition same_approval (r r' : ApprovalRow) : Prop :=
  ap_id r' = ap_id r ∧ ap_workflow_id r' = ap_workflow_id r
  ∧ ap_command_sequence r' = ap_command_sequence r ∧ ap_kind r' = ap_kind r
  ∧ ap_version r' = ap_version r ∧ ap_validation_version r' = ap_validation_version r
  ∧ ap_prompt_metadata_json r' = ap_prompt_metadata_json r
  ∧ ap_validation_schema_json r' = ap_validation_schema_json r
  ∧ ap_requested_at r' = ap_requested_at r
  ∧ ap_expires_at r' = ap_expires_at r.

(** The only step: a pending approval is resolved, expires or is cancelled.
    A resolution carries its decision, an expiry and a cancellation none. *)
Inductive ap_change (r r' : ApprovalRow) : Prop :=
  | aps_resolve :
      ap_status r = ApprPending → ap_status r' = ApprResolved →
      is_Some (ap_decision_payload_json r') → is_Some (ap_decided_by r') →
      is_Some (ap_resolved_at r') → ap_change r r'
  | aps_close :
      ap_status r = ApprPending → ap_status r' = ApprExpired ∨ ap_status r' = ApprCancelled →
      ap_decision_payload_json r' = ap_decision_payload_json r →
      ap_decided_by r' = ap_decided_by r → is_Some (ap_resolved_at r') → ap_change r r'.

Definition ap_step (r r' : ApprovalRow) : Prop := same_approval r r' ∧ ap_change r r'.

Definition ap_new (r : ApprovalRow) : Prop :=
  ap_status r = ApprPending ∧ ap_decision_payload_json r = None ∧ ap_decided_by r = None
  ∧ ap_resolved_at r = None.
