(* ===== verification/Invariants.v ===== *)
(** Invariants of single rows, by rule induction over the steps of
    [Lifecycle]: leases, waits and attempt budgets; the absorbing states; and
    the columns no step changes. *)
From stdpp Require Import base gmap list strings relations.
From Stdlib Require Import ZArith Lia.
From S2P Require Import Prelude.
From S2P Require Import Errors.
From S2P Require Import Status.
From S2P Require Import Rows.
From S2P Require Import Lifecycle.

Lemma rtc_invariant {R} (step : R → R → Prop) (P : R → Prop) :
  (∀ r r', P r → step r r' → P r') → ∀ r r', P r → rtc step r r' → P r'.
Proof. intros Hstep r r' HP Hs. induction Hs; eauto. Qed.

(** A reflexive and transitive relation that every step is in. *)
Lemma rtc_relation {R} (step Q : R → R → Prop) `{!PreOrder Q} :
  (∀ r r', step r r' → Q r r') → ∀ r r', rtc step r r' → Q r r'.
Proof. intros Hstep r r' Hs. induction Hs as [|x y z Hxy _ IH]; [done|]. etrans; eauto. Qed.

Lemma rtc_stuck {R} (step : R → R → Prop) r r' :
  (∀ r', ¬ step r r') → rtc step r r' → r' = r.
Proof. intros Hstuck Hs. destruct Hs as [|? ? ? Hstep]; [done|]. by destruct (Hstuck _ Hstep). Qed.

(** * Workflows *)

(** S1: the three lease columns are set in [running] and NULL elsewhere. *)
Definition wf_lease_ok (r : WorkflowRow) : Prop :=
  if decide (wf_status r = WfRunning) then wf_leased r else wf_unleased r.

(** The wait kind a status needs. *)
Definition status_wait (s : WorkflowStatus) : option WaitKind :=
  match s with
  | WfWaitingActivity | WfBlocked => Some KindActivity
  | WfWaitingChild => Some KindChild
  | WfSleeping => Some KindTimer
  | WfWaitingApproval => Some KindApproval
  | WfReady | WfRunning | WfPaused | WfSucceeded | WfFailed | WfCancelled => None
  end.

(** S7, the part one row shows: the wait columns are set together, a waiting
    status has its kind of wait, and a timer refers to its command. *)
Definition wf_wait_ok (r : WorkflowRow) : Prop :=
  (wf_wait_kind r = None ↔ wf_wait_reference_id r = None)
  ∧ (∀ k, status_wait (wf_status r) = Some k → wf_wait_kind r = Some k)
  ∧ (is_terminal (wf_status r) = false → wf_wait_kind r = Some KindTimer →
     wf_wait_reference_id r = Some (wf_command_sequence r)).

(** S8: the activation budget is not used up while the workflow lives. *)
Definition wf_budget_ok (r : WorkflowRow) : Prop :=
  is_terminal (wf_status r) = false →
  (0 ≤ wf_activation_attempts r < wf_max_activation_attempts r)%Z.

(** Opens the hypotheses of a step. *)
Ltac open_step :=
  unfold wf_leased, wf_unleased, keeps_lease, no_wait, keeps_wait, waits, same_progress,
    ac_leased, ac_unleased, keeps_ac_lease, same_attempts in *;
  repeat match goal with
  | H : _ ∧ _ |- _ => destruct H
  end.

Lemma resumes_not_running k s : resumes_to k s → s ≠ WfRunning.
Proof. destruct k as [[]|]; simpl; naive_solver. Qed.

Lemma waiting_not_running k : waiting_status k ≠ WfRunning.
Proof. by destruct k. Qed.

Lemma wf_lease_step r r' : wf_lease_ok r → wf_step r r' → wf_lease_ok r'.
Proof.
  unfold wf_lease_ok. intros Hr [_ Hs].
  destruct Hs; unfold suspended in *;
    repeat match goal with
    | H : resumes_to _ _ |- _ => apply resumes_not_running in H
    | H : wf_status r' = waiting_status _ |- _ =>
        pose proof (waiting_not_running (wait_kind w)); rewrite <- H in *; clear H
    end;
    repeat case_decide; try congruence; try done; open_step;
    try (split_and!; congruence); naive_solver congruence.
Qed.

Lemma wf_lease_new r : wf_new r → wf_lease_ok r.
Proof. intros (Hs & Hl & _). unfold wf_lease_ok. rewrite Hs. by rewrite decide_False. Qed.

Lemma resumes_status_wait w s k : resumes_to w s → status_wait s = Some k → w = Some k.
Proof. destruct w as [[]|]; simpl; intros Hs; repeat destruct Hs as [Hs|Hs]; subst; naive_solver. Qed.

Lemma wf_wait_step r r' : wf_wait_ok r → wf_step r r' → wf_wait_ok r'.
Proof.
  unfold wf_wait_ok. intros (Hpair & Hkind & Htimer) [_ Hs].
  destruct Hs; open_step; unfold suspended in *;
    repeat match goal with
    | E : wf_status _ = _ |- _ => rewrite E in *; clear E
    | E : wf_wait_kind r' = _ |- _ => rewrite E; clear E
    | E : wf_wait_reference_id r' = _ |- _ => rewrite E; clear E
    | E : wf_command_sequence r' = _ |- _ => rewrite E; clear E
    end;
    split_and!; simpl in *; try done; auto.
  all: try (destruct w; simpl in *; naive_solver congruence).
  all: try (intros; naive_solver congruence).
  eauto using resumes_status_wait.
Qed.

Lemma wf_wait_new r : wf_new r → wf_wait_ok r.
Proof.
  intros (Hs & _ & [Hk Hr] & _). unfold wf_wait_ok. rewrite Hs, Hk, Hr. by split_and!.
Qed.

(** S6. *)
Lemma wf_terminal_stuck r r' : is_terminal (wf_status r) = true → ¬ wf_step r r'.
Proof.
  intros Ht [_ Hs]. destruct Hs; unfold suspended in *;
    repeat match goal with
    | H : _ ∨ _ |- _ => destruct H
    | E : wf_status r = _ |- _ => rewrite E in Ht
    end; simpl in Ht; congruence.
Qed.

Lemma wf_budget_step r r' : wf_budget_ok r → wf_step r r' → wf_budget_ok r'.
Proof.
  intros Hr Hstep Hnt.
  assert (is_terminal (wf_status r) = false) as Hold.
  { destruct (is_terminal (wf_status r)) eqn:E; [|done]. by destruct (wf_terminal_stuck r r'). }
  specialize (Hr Hold). destruct Hstep as [(_ & _ & _ & _ & -> & _) Hs].
  destruct Hs; open_step;
    repeat match goal with E : wf_status r' = _ |- _ => rewrite E in Hnt end;
    simpl in *; try done; unfold i32_saturating_add, clamp, i32_min, i32_max in *; lia.
Qed.

Lemma wf_budget_new r : wf_new r → wf_budget_ok r.
Proof. intros (Hs & _ & _ & Ha & Hm & _) _. lia. Qed.

(** The identity of a workflow never changes. *)
#[export] Instance same_workflow_preorder : PreOrder same_workflow.
Proof.
  split.
  - intros r. repeat split.
  - intros r1 r2 r3 H12 H23. unfold same_workflow in *. naive_solver congruence.
Qed.

Lemma wf_steps_same r r' : rtc wf_step r r' → same_workflow r r'.
Proof. apply rtc_relation; [apply _|]. by intros ?? [? _]. Qed.

(** * Activities *)

(** S9: the lease columns are set in [running] and [cancelling] and NULL
    elsewhere. *)
Definition ac_lease_ok (r : ActivityRow) : Prop :=
  if holds_lease (ac_status r) then ac_leased r else ac_unleased r.

(** S12: attempts are counted from zero and never beyond the maximum, and a
    row that was leased has used one. *)
Definition ac_attempts_ok (r : ActivityRow) : Prop :=
  (0 ≤ ac_attempt_count r ≤ ac_max_attempts r)%Z ∧ (0 < ac_max_attempts r)%Z
  ∧ (holds_lease (ac_status r) = true ∨ ac_status r = ActSucceeded →
     (0 < ac_attempt_count r)%Z).

Lemma ac_lease_step r r' : ac_lease_ok r → ac_step r r' → ac_lease_ok r'.
Proof.
  unfold ac_lease_ok. intros Hr [_ Hs].
  destruct Hs;
    repeat match goal with E : ac_status _ = _ |- _ => rewrite E in *; clear E end;
    repeat match goal with E : holds_lease _ = _ |- _ => rewrite E in *; clear E end;
    simpl in *; try done; open_step; split_and!; congruence.
Qed.

Lemma ac_lease_new r : ac_new r → ac_lease_ok r.
Proof. intros (Hs & Hl & _). unfold ac_lease_ok. by rewrite Hs. Qed.

Lemma ac_attempts_step r r' : ac_attempts_ok r → ac_step r r' → ac_attempts_ok r'.
Proof.
  unfold ac_attempts_ok. intros (Hle & Hpos & Hused) [_ Hs].
  destruct Hs; open_step;
    repeat match goal with
    | E : ac_status _ = _ |- _ => rewrite E in *; clear E
    | E : ac_attempt_count _ = _ |- _ => rewrite E in *; clear E
    | E : ac_max_attempts _ = _ |- _ => rewrite E in *; clear E
    end; simpl in *; split_and!; auto; try lia; naive_solver lia.
Qed.

Lemma ac_attempts_new r : ac_new r → ac_attempts_ok r.
Proof.
  intros (Hs & _ & Hn & Hm & _). unfold ac_attempts_ok. rewrite Hs, Hn. simpl.
  split_and!; try lia. naive_solver.
Qed.

(** S14. *)
Lemma ac_terminal_stuck r r' :
  ac_status r = ActSucceeded ∨ ac_status r = ActCancelled → ¬ ac_step r r'.
Proof.
  intros Ht [_ Hs]. destruct Hs; destruct Ht as [Ht|Ht]; rewrite Ht in *; simpl in *; congruence.
Qed.

Lemma ac_dead_letter_step r r' :
  ac_status r = ActDeadLettered → ac_step r r' → ac_status r' = ActCancelled.
Proof. intros Ht [_ Hs]. destruct Hs; rewrite Ht in *; simpl in *; congruence. Qed.

Lemma ac_dead_letter_steps r r' :
  ac_status r = ActDeadLettered → rtc ac_step r r' →
  r' = r ∨ ac_status r' = ActCancelled.
Proof.
  intros Ht Hrtc. inversion Hrtc as [|? r1 ? Hstep Hs]; subst; [by left|]. right.
  pose proof (ac_dead_letter_step _ _ Ht Hstep) as E.
  by rewrite (rtc_stuck _ _ _ (λ r', ac_terminal_stuck _ r' (or_intror E)) Hs).
Qed.

(** Attempts are counted up, the identity and the command stay. *)
Definition ac_grows (r r' : ActivityRow) : Prop :=
  same_activity r r' ∧ (ac_attempt_count r ≤ ac_attempt_count r')%Z
  ∧ (ac_max_attempts r ≤ ac_max_attempts r')%Z.

#[export] Instance ac_grows_preorder : PreOrder ac_grows.
Proof.
  split.
  - intros r. split; [repeat split|lia].
  - intros r1 r2 r3 [H12 ?] [H23 ?]. split; [|lia].
    unfold same_activity in *. naive_solver congruence.
Qed.

Lemma ac_steps_grow r r' : rtc ac_step r r' → ac_grows r r'.
Proof.
  apply rtc_relation; [apply _|]. intros x y [Hsame Hs]. split; [done|].
  destruct Hs; open_step; lia.
Qed.

(** * Attempts and approvals *)

Definition att_ok (r : ActivityAttemptRow) : Prop :=
  att_finished_at r = None ↔ att_outcome r = None.

Lemma att_ok_step r r' : att_ok r → att_step r r' → att_ok r'.
Proof.
  unfold att_ok. intros Hr [_ Hs]. destruct Hs as [E1 E2 E3|o E1 [t E2] E3].
  - rewrite E2, E3. naive_solver.
  - rewrite E2, E3. naive_solver.
Qed.

Lemma att_closed_stuck r r' : is_Some (att_finished_at r) → ¬ att_step r r'.
Proof. intros [t Ht] [_ Hs]. destruct Hs; congruence. Qed.

Lemma att_steps_same r r' : rtc att_step r r' → same_attempt r r'.
Proof.
  apply rtc_relation.
  - split; [intros x; repeat split|].
    intros x y z Hxy Hyz. unfold same_attempt in *. naive_solver congruence.
  - by intros ?? [? _].
Qed.

Lemma ap_closed_stuck r r' : ap_status r ≠ ApprPending → ¬ ap_step r r'.
Proof. intros Hr [_ Hs]. by destruct Hs. Qed.

(** A decision belongs to a resolved approval. *)
Definition ap_ok (r : ApprovalRow) : Prop :=
  (ap_status r = ApprResolved ↔ is_Some (ap_decision_payload_json r))
  ∧ (ap_status r = ApprPending ↔ ap_resolved_at r = None).

Lemma ap_ok_step r r' : ap_ok r → ap_step r r' → ap_ok r'.
Proof.
  unfold ap_ok. intros [Hd Hr] [_ Hs]. destruct Hs as [E1 E2 Hp _ [t Ht]|E1 E2 Ep _ [t Ht]].
  - rewrite E2, Ht. naive_solver.
  - rewrite Ep, Ht. rewrite E1 in *. destruct E2 as [-> | ->]; naive_solver.
Qed.

Lemma ap_ok_new r : ap_new r → ap_ok r.
Proof.
  intros (Hs & Hp & _ & Hr). unfold ap_ok. rewrite Hs, Hp, Hr.
  split; [|done]. split; [done|]. by intros [].
Qed.
