(* ===== verification/Evolution.v ===== *)
(** The constraints of the baseline migration as an invariant of the tables,
    and the evolution of the tables by the steps of [Lifecycle]: what every
    transaction of the engine keeps. [Evolves m] is the interface between the
    operations: a caller's proof uses the evolution of its callees. *)
From stdpp Require Import base gmap list strings relations.
From Stdlib Require Import ZArith Lia.
From S2P Require Import Prelude.
From S2P Require Import Errors.
From S2P Require Import Status.
From S2P Require Import Rows.
From S2P Require Import Database.
From S2P Require Import TxLogic.
From S2P Require Import Lifecycle.

(** * Constraints *)

Definition delivery_key (ev : WorkflowEventRow) : option (WorkflowId * Z) :=
  pair (ev_workflow_id ev) <$> ev_delivery_sequence ev.

Definition progress_key (r : ProgressEventRow) : Z * Z * Z :=
  (pr_activity_id r, pr_attempt_number r, pr_sequence r).

(** Primary keys and identity columns, unique keys, foreign keys and checks of
    the nine tables. A workflow or an activity refers only to rows of its table
    inserted before it. Left out are the lengths of the VARCHAR columns and the
    check on [state_version], which every row has from its insert. *)
Record db_ok (d : Db) : Prop := {
  ok_workflow : ∀ id r, db_workflow d !! id = Some r → wf_id r = id ∧ (id < db_next_workflow d)%Z;
  ok_lineage : ∀ id r p, db_workflow d !! id = Some r →
    wf_restarted_from_workflow_id r = Some p ∨ wf_parent_workflow_id r = Some p
    ∨ wf_root_workflow_id r = Some p →
    (p < id)%Z ∧ is_Some (db_workflow d !! p);
  ok_dedup : ∀ i j r r' key, db_workflow d !! i = Some r → db_workflow d !! j = Some r' →
    wf_kind r = wf_kind r' → wf_deduplication_key r = Some key →
    wf_deduplication_key r' = Some key → i = j;
  ok_restart : ∀ i j r r' p, db_workflow d !! i = Some r → db_workflow d !! j = Some r' →
    wf_restarted_from_workflow_id r = Some p →
    wf_restarted_from_workflow_id r' = Some p → i = j;
  ok_activity : ∀ id r, db_activity d !! id = Some r →
    ac_id r = id ∧ (id < db_next_activity d)%Z ∧ is_Some (db_workflow d !! ac_workflow_id r);
  ok_command : ∀ i j r r', db_activity d !! i = Some r → db_activity d !! j = Some r' →
    ac_workflow_id r = ac_workflow_id r' → ac_command_sequence r = ac_command_sequence r' →
    ac_replacement_number r = ac_replacement_number r' → i = j;
  ok_approval : ∀ id r, db_approval d !! id = Some r →
    ap_id r = id ∧ (id < db_next_approval d)%Z ∧ is_Some (db_workflow d !! ap_workflow_id r);
  ok_approval_command : ∀ i j r r', db_approval d !! i = Some r → db_approval d !! j = Some r' →
    ap_workflow_id r = ap_workflow_id r' → ap_command_sequence r = ap_command_sequence r' →
    i = j;
  ok_attempt : ∀ key r, db_attempt d !! key = Some r →
    key = (att_activity_id r, att_attempt_number r) ∧ (0 < att_attempt_number r)%Z
    ∧ is_Some (db_activity d !! att_activity_id r);
  ok_event : ∀ ev, ev ∈ db_event d → is_Some (db_workflow d !! ev_workflow_id ev);
  ok_event_sequence : NoDup ((λ ev, (ev_workflow_id ev, ev_sequence ev)) <$> db_event d);
  ok_event_delivery : NoDup (omap delivery_key (db_event d));
  (** Ids are positive and ids of events unique. *)
  ok_next_ids : (0 < db_next_workflow d ∧ 0 < db_next_activity d ∧ 0 < db_next_approval d
    ∧ 0 < db_next_event d)%Z;
  ok_workflow_pos : ∀ id r, db_workflow d !! id = Some r → (0 < id)%Z;
  ok_activity_pos : ∀ id r, db_activity d !! id = Some r → (0 < id)%Z;
  ok_approval_pos : ∀ id r, db_approval d !! id = Some r → (0 < id)%Z;
  ok_event_pos : ∀ ev, ev ∈ db_event d → (0 < ev_id ev < db_next_event d)%Z;
  ok_event_id : NoDup (ev_id <$> db_event d);
  ok_progress : ∀ r, r ∈ db_progress d →
    is_Some (db_attempt d !! (pr_activity_id r, pr_attempt_number r))
    ∧ (0 < pr_sequence r ≤ 100)%Z ∧ (pr_description_bytes r ≤ 2048)%Z;
  ok_progress_key : NoDup (progress_key <$> db_progress d);
  (** The checks on versions and maxima, and the lineage of activities. *)
  ok_workflow_version : ∀ id r, db_workflow d !! id = Some r → (0 < wf_version r)%Z;
  ok_activity_check : ∀ id r, db_activity d !! id = Some r →
    (0 < ac_version r ∧ 0 < ac_max_attempts r)%Z;
  ok_activity_lineage : ∀ id r p, db_activity d !! id = Some r →
    ac_root_activity_id r = Some p ∨ ac_replaces_activity_id r = Some p →
    (p < id)%Z ∧ is_Some (db_activity d !! p);
  ok_approval_check : ∀ id r, db_approval d !! id = Some r →
    (0 < ap_version r ∧ 0 < ap_validation_version r)%Z;
  (** The schedules and the topic locks. *)
  ok_state : ∀ key s, db_schedule_state d !! key = Some s →
    ss_schedule_key s = key ∧ (0 < ss_definition_version s)%Z;
  ok_next_run : (0 < db_next_schedule_run d)%Z;
  ok_run : ∀ id r, db_schedule_run d !! id = Some r →
    sr_id r = id ∧ (0 < id < db_next_schedule_run d)%Z
    ∧ is_Some (db_schedule_state d !! sr_schedule_key r)
    ∧ ∀ w, sr_workflow_id r = Some w → is_Some (db_workflow d !! w);
  ok_run_occurrence : ∀ i j r r', db_schedule_run d !! i = Some r →
    db_schedule_run d !! j = Some r' → sr_schedule_key r = sr_schedule_key r' →
    sr_local_occurrence r = sr_local_occurrence r' → i = j;
  ok_lock : ∀ topic l, db_topic_lock d !! topic = Some l →
    tl_topic l = topic ∧ (0 < tl_max_concurrency l)%Z;
}.

(** A row found by its own id again. *)
Lemma ok_same_workflow d id r r' :
  db_ok d → db_workflow d !! id = Some r → db_workflow d !! wf_id r = Some r' → r' = r.
Proof. intros [] Hr. destruct (ok_workflow0 id r Hr) as [-> _]. congruence. Qed.

Lemma ok_same_activity d id r r' :
  db_ok d → db_activity d !! id = Some r → db_activity d !! ac_id r = Some r' → r' = r.
Proof. intros [] Hr. destruct (ok_activity0 id r Hr) as [-> _]. congruence. Qed.

(** * Evolution *)

(** A row of one table, before and after. *)
Definition row_evolves {R} (step : R → R → Prop) (fresh : R → Prop) (o o' : option R) : Prop :=
  match o, o' with
  | Some r, Some r' => rtc step r r'
  | None, Some r' => ∃ r0, fresh r0 ∧ rtc step r0 r'
  | None, None => True
  | Some _, None => False
  end.

Lemma row_evolves_refl {R} step fresh (o : option R) : row_evolves step fresh o o.
Proof. by destruct o; simpl. Qed.

Lemma row_evolves_trans {R} step fresh (o1 o2 o3 : option R) :
  row_evolves step fresh o1 o2 → row_evolves step fresh o2 o3 → row_evolves step fresh o1 o3.
Proof.
  destruct o1, o2, o3; simpl; try done.
  - intros ??. by etrans.
  - intros (x & Hf & ?) ?. exists x. split; [done|]. by etrans.
Qed.

(** ** The schedules *)

(** A run keeps its occurrence, its actor and its times; only a queued one
    changes its status, when it is promoted; a restart may move a run with a
    workflow to the new workflow. *)
Definition run_moves (r r' : ScheduleRunRow) : Prop :=
  sr_id r' = sr_id r ∧ sr_schedule_key r' = sr_schedule_key r
  ∧ sr_local_occurrence r' = sr_local_occurrence r ∧ sr_scheduled_for r' = sr_scheduled_for r
  ∧ sr_materialized_at r' = sr_materialized_at r ∧ sr_actor_id r' = sr_actor_id r
  ∧ sr_created_at r' = sr_created_at r
  ∧ (is_Some (sr_workflow_id r) → is_Some (sr_workflow_id r'))
  ∧ (sr_status r' = sr_status r ∧ sr_reason r' = sr_reason r
     ∨ sr_status r = RunQueued ∧ sr_status r' = RunStarted).

(** The version of a schedule never decreases, and under one version its
    fingerprint is fixed (S30). *)
Definition state_kept (s s' : ScheduleStateRow) : Prop :=
  ss_schedule_key s' = ss_schedule_key s ∧ ss_created_at s' = ss_created_at s
  ∧ (ss_definition_version s ≤ ss_definition_version s')%Z
  ∧ (ss_definition_version s' = ss_definition_version s →
     ss_definition_fingerprint s' = ss_definition_fingerprint s).

(** No row of the schedule tables disappears. *)
Definition schedules_kept (d d' : Db) : Prop :=
  (∀ key s, db_schedule_state d !! key = Some s →
     ∃ s', db_schedule_state d' !! key = Some s' ∧ state_kept s s')
  ∧ ∀ id r, db_schedule_run d !! id = Some r →
      ∃ r', db_schedule_run d' !! id = Some r' ∧ run_moves r r'.

#[export] Instance run_moves_preorder : PreOrder run_moves.
Proof.
  split; [by intros r; unfold run_moves; auto 20|].
  intros r1 r2 r3 (A1 & B1 & C1 & D1 & E1 & F1 & G1 & W1 & S1)
    (A2 & B2 & C2 & D2 & E2 & F2 & G2 & W2 & S2).
  split_and!; [congruence..|auto|].
  destruct S1 as [[S1 R1]|[S1 S1']], S2 as [[S2 R2]|[S2 S2']]; [left|right|right|];
    try split; congruence.
Qed.

#[export] Instance state_kept_preorder : PreOrder state_kept.
Proof.
  split; [by intros s; unfold state_kept|].
  intros s1 s2 s3 (K1 & C1 & V1 & F1) (K2 & C2 & V2 & F2). split_and!; [congruence..|lia|].
  intros E. rewrite F2, F1 by lia. done.
Qed.

#[export] Instance schedules_kept_preorder : PreOrder schedules_kept.
Proof.
  split.
  - intros d. split; intros k x Hx; exists x; (split; [done|reflexivity]).
  - intros d1 d2 d3 [S1 R1] [S2 R2]. split.
    + intros key s (s' & (s'' & ? & ?)%S2 & ?)%S1. exists s''. split; [done|by etrans].
    + intros id r (r' & (r'' & ? & ?)%R2 & ?)%R1. exists r''. split; [done|by etrans].
Qed.

(** What the operations on workflows do to the tables of the schedules and the
    progress log: nothing, but that a restart may move a run to the new
    workflow. *)
Definition run_identity (r : ScheduleRunRow) : ScheduleRunRow := r <| sr_workflow_id := None |>.

Definition run_kept (o o' : option ScheduleRunRow) : Prop :=
  match o, o' with
  | Some r, Some r' => run_identity r' = run_identity r
                       ∧ (is_Some (sr_workflow_id r) → is_Some (sr_workflow_id r'))
  | None, None => True
  | _, _ => False
  end.

Definition side_kept (d d' : Db) : Prop :=
  db_schedule_state d' = db_schedule_state d
  ∧ (∀ id, run_kept (db_schedule_run d !! id) (db_schedule_run d' !! id))
  ∧ db_next_schedule_run d' = db_next_schedule_run d
  ∧ db_progress d' = db_progress d.

#[export] Instance side_kept_refl : Reflexive side_kept.
Proof. intros d. split_and!; try done. intros id. by destruct (db_schedule_run d !! id). Qed.

#[export] Instance side_kept_trans : Transitive side_kept.
Proof.
  intros d1 d2 d3 (E1 & K1 & N1 & P1) (E2 & K2 & N2 & P2). split_and!; try congruence.
  intros id.
  specialize (K1 id). specialize (K2 id).
  destruct (db_schedule_run d1 !! id), (db_schedule_run d2 !! id), (db_schedule_run d3 !! id);
    simpl in *; try done. destruct K1, K2. split; [congruence|auto].
Qed.

Lemma side_kept_schedules d d' : side_kept d d' → schedules_kept d d'.
Proof.
  intros (Es & Hr & _). split.
  { rewrite Es. intros k x Hx. exists x. split; [done|reflexivity]. }
  intros id r Hid. specialize (Hr id).
  rewrite Hid in Hr. destruct (db_schedule_run d' !! id) as [r'|]; [|done]. exists r'.
  split; [done|]. destruct Hr as [Hi Hw]. destruct r, r'. cbv in Hi. unfold run_moves. cbn in *.
  injection Hi as -> -> -> -> -> -> -> -> ->. auto 20.
Qed.

(** What the transactions of the schedules do to them: they keep the log. *)
Definition log_kept (d d' : Db) : Prop :=
  db_progress d' = db_progress d ∧ schedules_kept d d'.

#[export] Instance log_kept_preorder : PreOrder log_kept.
Proof.
  split; [by intros d; split|]. intros d1 d2 d3 [E1 S1] [E2 S2]. split; [congruence|by etrans].
Qed.

(** No row disappears, and events and progress rows are only appended; a lock
    row never changes. *)
Record tables_evolve_by (side : relation Db) (d d' : Db) : Prop := {
  te_workflow : ∀ id, row_evolves wf_step wf_new (db_workflow d !! id) (db_workflow d' !! id);
  te_activity : ∀ id, row_evolves ac_step ac_new (db_activity d !! id) (db_activity d' !! id);
  te_attempt : ∀ key,
    row_evolves att_step att_open (db_attempt d !! key) (db_attempt d' !! key);
  te_approval : ∀ id, row_evolves ap_step ap_new (db_approval d !! id) (db_approval d' !! id);
  te_event : db_event d `prefix_of` db_event d';
  te_progress : db_progress d `prefix_of` db_progress d';
  te_lock : db_topic_lock d ⊆ db_topic_lock d';
  te_side : side d d';
}.

Abbreviation tables_evolve := (tables_evolve_by schedules_kept).

#[export] Instance tables_evolve_refl side : Reflexive side → Reflexive (tables_evolve_by side).
Proof. intros ? d. split; intros; try apply row_evolves_refl; done. Qed.

#[export] Instance tables_evolve_trans side : Transitive side → Transitive (tables_evolve_by side).
Proof.
  intros ? d1 d2 d3 [] []. split; intros; try (eapply row_evolves_trans; eauto); by etrans.
Qed.

Lemma tables_evolve_side side d d' :
  (side d d' → schedules_kept d d') → tables_evolve_by side d d' → tables_evolve d d'.
Proof. intros Hs []. split; auto. Qed.

Definition evolves (d d' : Db) : Prop := db_ok d' ∧ tables_evolve_by side_kept d d'.

(** An operation that, on tables in order, keeps them in order and moves
    their rows by the documented steps. *)
Class Evolves {A} (m : Tx A) : Prop :=
  evolves_wp : ∀ e d, db_ok d → wp any_error m e d (λ _ d', evolves d d').

Lemma evolves_refl d : db_ok d → evolves d d.
Proof. by split. Qed.

(** What every transaction of the engine that leaves the progress log alone
    does, those on schedules included. *)
Definition db_steps (d d' : Db) : Prop := db_ok d' ∧ tables_evolve_by log_kept d d'.

Lemma db_steps_refl d : db_ok d → db_steps d d.
Proof. by split. Qed.

Lemma evolves_db_steps d d' : evolves d d' → db_steps d d'.
Proof.
  intros [Hok Hd]. split; [done|]. destruct Hd as [??????? Hs]. split; try done.
  split; [by destruct Hs as (_ & _ & _ & ?)|by apply side_kept_schedules].
Qed.

#[export] Instance db_steps_trans : Transitive db_steps.
Proof. intros d1 d2 d3 [_ H1] [Hok H2]. split; [done|by etrans]. Qed.

(** The call of an operation with its [Evolves] instance. *)
Lemma wp_call {A} (m : Tx A) `{Hm : !Evolves m} e d0 d (Φ : A → Db → Prop) :
  evolves d0 d → (∀ a d', evolves d0 d' → Φ a d') → wp any_error m e d Φ.
Proof.
  intros [Hok Hd] HΦ. eapply wp_mono; [by apply Hm|].
  intros a d' [Hok' Hd']. apply HΦ. split; [done|]. by etrans.
Qed.

(** * The primitive writes *)

(** An update of one row of a table keeps the lookups of the others. *)
Lemma insert_evolves {R} step fresh (m m' : gmap Z R) id r r' :
  (∀ i, row_evolves step fresh (m !! i) (m' !! i)) → m' !! id = Some r → step r r' →
  ∀ i, row_evolves step fresh (m !! i) (<[id := r']> m' !! i).
Proof.
  intros Hm Hr Hstep i. destruct (decide (id = i)) as [<-|].
  - rewrite lookup_insert_eq. eapply row_evolves_trans; [apply Hm|].
    rewrite Hr. by apply rtc_once.
  - by rewrite lookup_insert_ne.
Qed.

Lemma db_ok_update_workflow d id r r' :
  db_ok d → db_workflow d !! id = Some r → same_workflow r r' →
  db_ok (d <| db_workflow := <[id := r']> (db_workflow d) |>).
Proof.
  intros [] Hr (E1 & E2 & E3 & E4 & E5 & E6 & E7 & E8 & E9 & E10 & _).
  assert (∀ i, is_Some (db_workflow d !! i) → is_Some (<[id := r']> (db_workflow d) !! i))
    as Hdom by (intros i; rewrite lookup_insert_is_Some'; auto).
  assert (∀ i x, <[id := r']> (db_workflow d) !! i = Some x →
    ∃ y, db_workflow d !! i = Some y ∧ wf_id x = wf_id y ∧ wf_kind x = wf_kind y
      ∧ wf_deduplication_key x = wf_deduplication_key y
      ∧ wf_root_workflow_id x = wf_root_workflow_id y
      ∧ wf_restarted_from_workflow_id x = wf_restarted_from_workflow_id y
      ∧ wf_parent_workflow_id x = wf_parent_workflow_id y
      ∧ wf_version x = wf_version y) as Hold.
  { intros i x [[-> ->]|[_ Hx]]%lookup_insert_Some; [|by exists x]. by exists r. }
  split; simpl; try done.
  - intros i x (y & Hy & -> & _)%Hold. eauto.
  - intros i x p (y & Hy & _ & _ & _ & -> & -> & -> & _)%Hold Hp.
    destruct (ok_lineage0 i y p Hy Hp); auto.
  - intros i j x x' key (y & Hy & _ & -> & -> & _)%Hold (y' & Hy' & _ & -> & -> & _)%Hold; eauto.
  - intros i j x x' p (y & Hy & _ & _ & _ & _ & -> & _)%Hold
      (y' & Hy' & _ & _ & _ & _ & -> & _)%Hold; eauto.
  - intros i x Hx. destruct (ok_activity0 i x Hx) as (?&?&?); auto.
  - intros i x Hx. destruct (ok_approval0 i x Hx) as (?&?&?); auto.
  - intros ev Hev. by apply Hdom, ok_event0.
  - intros i x (y & Hy & _)%Hold. eauto.
  - intros i x (y & Hy & _ & _ & _ & _ & _ & _ & ->)%Hold. eauto.
  - intros i x Hx. destruct (ok_run0 i x Hx) as (?&?&?&?). auto 6.
Qed.

Lemma evolves_update_workflow d0 d id r r' :
  evolves d0 d → db_workflow d !! id = Some r → wf_step r r' →
  evolves d0 (d <| db_workflow := <[id := r']> (db_workflow d) |>).
Proof.
  intros [Hok []] Hr [Hsame Hstep]. split; [by eapply db_ok_update_workflow|].
  split; simpl; try done. by eapply insert_evolves.
Qed.

Lemma db_ok_update_activities d (m : gmap Z ActivityRow) :
  db_ok d → (∀ id, is_Some (db_activity d !! id) → is_Some (m !! id)) →
  (∀ id r', m !! id = Some r' → ∃ r, db_activity d !! id = Some r ∧ same_activity r r'
     ∧ (ac_max_attempts r ≤ ac_max_attempts r')%Z) →
  db_ok (d <| db_activity := m |>).
Proof.
  intros [] Hdom Hold. split; simpl; try done.
  - intros i x (y & Hy & (-> & -> & _) & _)%Hold. by apply ok_activity0.
  - intros i j x x' (y & Hy & (_ & -> & -> & -> & _) & _)%Hold
      (y' & Hy' & (_ & -> & -> & -> & _) & _)%Hold. eauto.
  - intros key x Hx. destruct (ok_attempt0 key x Hx) as (?&?&?); auto.
  - intros i x (y & Hy & _)%Hold. eauto.
  - intros i x (y & Hy & (_ & _ & _ & _ & _ & -> & _) & ?)%Hold.
    destruct (ok_activity_check0 i y Hy). lia.
  - intros i x p (y & Hy & (_ & _ & _ & _ & _ & _ & _ & _ & _ & _ & _ & _ & -> & -> & _) & _)%Hold Hp.
    destruct (ok_activity_lineage0 i y p Hy Hp). auto.
Qed.

Lemma ac_step_max r r' : ac_step r r' → (ac_max_attempts r ≤ ac_max_attempts r')%Z.
Proof. intros [_ Hc]. destruct Hc; unfold same_attempts in *; lia. Qed.

Lemma evolves_update_activity d0 d id r r' :
  evolves d0 d → db_activity d !! id = Some r → ac_step r r' →
  evolves d0 (d <| db_activity := <[id := r']> (db_activity d) |>).
Proof.
  intros [Hok []] Hr [Hsame Hstep]. split.
  - apply db_ok_update_activities; [done| |].
    + intros i. rewrite lookup_insert_is_Some'. auto.
    + intros i x [[-> ->]|[_ Hx]]%lookup_insert_Some.
      * exists r. split_and!; [done|done|by apply ac_step_max].
      * exists x. split; [done|]. repeat split; lia.
  - split; simpl; try done. by eapply insert_evolves.
Qed.

(** The bulk update of the activities that match [p]. *)
Lemma evolves_update_activities d0 d (p : ActivityRow → bool) f :
  evolves d0 d → (∀ r, p r = true → ac_step r (f r)) →
  evolves d0 (d <| db_activity := (λ r, if p r then f r else r) <$> db_activity d |>).
Proof.
  intros [Hok []] Hf. split.
  - apply db_ok_update_activities; [done| |].
    + intros i. rewrite lookup_fmap. by destruct (db_activity d !! i).
    + intros i x. rewrite lookup_fmap, fmap_Some. intros (y & Hy & ->).
      exists y. split; [done|]. destruct (p y) eqn:E; [|repeat split; lia].
      split; [by apply Hf|by apply ac_step_max, Hf].
  - split; simpl; try done. intros i. eapply row_evolves_trans; [by apply te_activity0|].
    rewrite lookup_fmap. destruct (db_activity d !! i) as [y|]; simpl; [|done].
    destruct (p y) eqn:E; [apply rtc_once, Hf, E|done].
Qed.

Lemma evolves_update_attempt d0 d key r r' :
  evolves d0 d → db_attempt d !! key = Some r → att_step r r' →
  evolves d0 (d <| db_attempt := <[key := r']> (db_attempt d) |>).
Proof.
  intros [[] []] Hr Hstep. pose proof Hstep as [(E1 & E2 & _) _]. split; split; simpl; try done.
  - intros i x [[-> ->]|[_ Hx]]%lookup_insert_Some; [|by apply ok_attempt0].
    rewrite E1, E2. by apply ok_attempt0.
  - intros x Hx. destruct (ok_progress0 x Hx) as [??]. rewrite lookup_insert_is_Some'. auto.
  - intros i. destruct (decide (key = i)) as [<-|]; [|by rewrite lookup_insert_ne].
    rewrite lookup_insert_eq. eapply row_evolves_trans; [apply te_attempt0|].
    rewrite Hr. by apply rtc_once.
Qed.

Lemma evolves_update_approval d0 d id r r' :
  evolves d0 d → db_approval d !! id = Some r → ap_step r r' →
  evolves d0 (d <| db_approval := <[id := r']> (db_approval d) |>).
Proof.
  intros [[] []] Hr Hstep. pose proof Hstep as [(E1 & E2 & E3 & _ & E4 & E5 & _) _].
  assert (∀ i x, <[id := r']> (db_approval d) !! i = Some x →
    ∃ y, db_approval d !! i = Some y ∧ ap_id x = ap_id y
      ∧ ap_workflow_id x = ap_workflow_id y
      ∧ ap_command_sequence x = ap_command_sequence y
      ∧ ap_version x = ap_version y
      ∧ ap_validation_version x = ap_validation_version y) as Hold.
  { intros i x [[-> ->]|[_ Hx]]%lookup_insert_Some; [by exists r|by exists x]. }
  split; split; simpl; try done.
  - intros i x (y & Hy & -> & -> & _)%Hold. by apply ok_approval0.
  - intros i j x x' (y & Hy & _ & -> & -> & _)%Hold (y' & Hy' & _ & -> & -> & _)%Hold. eauto.
  - intros i x (y & Hy & _)%Hold. eauto.
  - intros i x (y & Hy & _ & _ & _ & -> & ->)%Hold. eauto.
  - by eapply insert_evolves.
Qed.

(** The schedule tables. *)
Lemma db_ok_state d key s s' :
  db_ok d → db_schedule_state d !! key = Some s → ss_schedule_key s' = ss_schedule_key s →
  (0 < ss_definition_version s')%Z →
  db_ok (d <| db_schedule_state := <[key := s']> (db_schedule_state d) |>).
Proof.
  intros [] Hs Ek Hv. split; simpl; try done.
  - intros k x [[<- <-]|[_ Hx]]%lookup_insert_Some; [|by apply ok_state0].
    rewrite Ek. by destruct (ok_state0 key s Hs).
  - intros id r Hr. destruct (ok_run0 id r Hr) as (?&?&?&?).
    split_and!; [done|lia|lia|rewrite lookup_insert_is_Some'; auto|done].
Qed.

Lemma db_ok_new_state d s :
  db_ok d → (0 < ss_definition_version s)%Z →
  db_ok (d <| db_schedule_state := <[ss_schedule_key s := s]> (db_schedule_state d) |>).
Proof.
  intros [] Hv. split; simpl; try done.
  - intros k x [[<- <-]|[_ Hx]]%lookup_insert_Some; [done|by apply ok_state0].
  - intros id r Hr. destruct (ok_run0 id r Hr) as (?&?&?&?).
    split_and!; [done|lia|lia|rewrite lookup_insert_is_Some'; auto|done].
Qed.

Lemma db_ok_run d id r r' :
  db_ok d → db_schedule_run d !! id = Some r → sr_id r' = sr_id r →
  sr_schedule_key r' = sr_schedule_key r → sr_local_occurrence r' = sr_local_occurrence r →
  (∀ w, sr_workflow_id r' = Some w → is_Some (db_workflow d !! w)) →
  db_ok (d <| db_schedule_run := <[id := r']> (db_schedule_run d) |>).
Proof.
  intros [] Hr E1 E2 E3 Hw.
  assert (∀ i x, <[id := r']> (db_schedule_run d) !! i = Some x → ∃ y,
    db_schedule_run d !! i = Some y ∧ sr_schedule_key x = sr_schedule_key y
    ∧ sr_local_occurrence x = sr_local_occurrence y) as Hold.
  { intros i x [[<- <-]|[_ Hx]]%lookup_insert_Some; [by exists r|by exists x]. }
  split; simpl; try done.
  - intros i x [[<- <-]|[_ Hx]]%lookup_insert_Some; [|by apply ok_run0].
    destruct (ok_run0 id r Hr) as (?&?&?&?). rewrite E1, E2. auto.
  - intros i j x x' (y & Hy & -> & ->)%Hold (y' & Hy' & -> & ->)%Hold. eauto.
Qed.

Definition with_run (d : Db) (row : ScheduleRunRow) : Db :=
  d <| db_schedule_run := <[sr_id row := row]> (db_schedule_run d) |>
    <| db_next_schedule_run := (db_next_schedule_run d + 1)%Z |>.

Definition run_fresh (d : Db) (row : ScheduleRunRow) : Prop :=
  sr_id row = db_next_schedule_run d
  ∧ (∀ id r, db_schedule_run d !! id = Some r → sr_schedule_key r = sr_schedule_key row →
       sr_local_occurrence r ≠ sr_local_occurrence row)
  ∧ is_Some (db_schedule_state d !! sr_schedule_key row)
  ∧ ∀ w, sr_workflow_id row = Some w → is_Some (db_workflow d !! w).

Lemma db_ok_with_run d row : db_ok d → run_fresh d row → db_ok (with_run d row).
Proof.
  intros [] (Hid & Hnew & Hstate & Hw). split; simpl; try done; [lia|..].
  - intros i x [[<- <-]|[_ Hx]]%lookup_insert_Some; [split_and!; [done|lia|lia|done|done]|].
    destruct (ok_run0 i x Hx) as (?&?&?&?). split_and!; [done|lia|lia|done|done].
  - intros i j x x' [[<- <-]|[_ Hi]]%lookup_insert_Some [[<- <-]|[_ Hj]]%lookup_insert_Some Ek Eo;
      [done| | |by eauto]; exfalso; eapply Hnew; eauto.
Qed.

Lemma evolves_update_schedule_run d0 d id r workflow_id :
  evolves d0 d → db_schedule_run d !! id = Some r → is_Some (db_workflow d !! workflow_id) →
  evolves d0 (d <| db_schedule_run :=
    <[id := r <| sr_workflow_id := Some workflow_id |>]> (db_schedule_run d) |>).
Proof.
  intros [Hok []] Hr Hw. split.
  { eapply db_ok_run; [done|exact Hr|done..|]. by intros w [= <-]. }
  split; simpl; try done. etrans; [exact te_side0|].
  split_and!; simpl; try done. intros i. destruct (decide (id = i)) as [<-|].
  - rewrite lookup_insert_eq, Hr. simpl. split; [done|by eexists].
  - rewrite lookup_insert_ne by done. by destruct (db_schedule_run d !! i).
Qed.

Lemma evolves_new_topic_lock d0 d row :
  evolves d0 d → db_topic_lock d !! tl_topic row = None → (0 < tl_max_concurrency row)%Z →
  evolves d0 (d <| db_topic_lock := <[tl_topic row := row]> (db_topic_lock d) |>).
Proof.
  intros [[] []] Hnone Hpos. split; split; simpl; try done.
  - intros t l [[<- <-]|[_ Hl]]%lookup_insert_Some; [done|by apply ok_lock0].
  - etrans; [exact te_lock0|]. by apply insert_subseteq.
Qed.

(** * The inserts *)

(** The tables after an insert, the identity column moved on. *)
Definition with_event (d : Db) (row : WorkflowEventRow) : Db :=
  d <| db_event := db_event d ++ [row] |> <| db_next_event := (db_next_event d + 1)%Z |>.
Definition with_workflow (d : Db) (row : WorkflowRow) : Db :=
  d <| db_workflow := <[wf_id row := row]> (db_workflow d) |>
    <| db_next_workflow := (db_next_workflow d + 1)%Z |>.
Definition with_activity (d : Db) (row : ActivityRow) : Db :=
  d <| db_activity := <[ac_id row := row]> (db_activity d) |>
    <| db_next_activity := (db_next_activity d + 1)%Z |>.
Definition with_approval (d : Db) (row : ApprovalRow) : Db :=
  d <| db_approval := <[ap_id row := row]> (db_approval d) |>
    <| db_next_approval := (db_next_approval d + 1)%Z |>.
Definition with_attempt (d : Db) (row : ActivityAttemptRow) : Db :=
  d <| db_attempt := <[(att_activity_id row, att_attempt_number row) := row]> (db_attempt d) |>.

(** The history row of an engine's own event. *)
Definition history_of (id : WorkflowId) (event_type : string) (now : DbMillis)
    (ev : WorkflowEventRow) : Prop :=
  ev_workflow_id ev = id ∧ ev_event_type ev = event_type ∧ ev_delivery_sequence ev = None
  ∧ ev_created_at ev = now.

(** What the constraints let an insert assume. *)
Definition event_fresh (d : Db) (row : WorkflowEventRow) : Prop :=
  ((ev_workflow_id row, ev_sequence row)
     ∉ (λ ev, (ev_workflow_id ev, ev_sequence ev)) <$> db_event d)
  ∧ (∀ k, delivery_key row = Some k → k ∉ omap delivery_key (db_event d))
  ∧ is_Some (db_workflow d !! ev_workflow_id row).

Definition workflow_fresh (d : Db) (row : WorkflowRow) : Prop :=
  (∀ id r key, db_workflow d !! id = Some r → wf_kind r = wf_kind row →
     wf_deduplication_key r = Some key → wf_deduplication_key row = Some key → False)
  ∧ (∀ id r p, db_workflow d !! id = Some r → wf_restarted_from_workflow_id r = Some p →
     wf_restarted_from_workflow_id row = Some p → False)
  ∧ (∀ p, wf_restarted_from_workflow_id row = Some p ∨ wf_parent_workflow_id row = Some p
          ∨ wf_root_workflow_id row = Some p → is_Some (db_workflow d !! p))
  ∧ (0 < wf_version row)%Z.

Definition activity_fresh (d : Db) (row : ActivityRow) : Prop :=
  (0 < ac_max_attempts row)%Z
  ∧ (∀ id r, db_activity d !! id = Some r → ac_workflow_id r = ac_workflow_id row →
     ac_command_sequence r = ac_command_sequence row →
     ac_replacement_number r = ac_replacement_number row → False)
  ∧ is_Some (db_workflow d !! ac_workflow_id row)
  ∧ (0 < ac_version row)%Z
  ∧ (∀ p, ac_root_activity_id row = Some p ∨ ac_replaces_activity_id row = Some p →
       is_Some (db_activity d !! p)).

Definition approval_fresh (d : Db) (row : ApprovalRow) : Prop :=
  (∀ id r, db_approval d !! id = Some r → ap_workflow_id r = ap_workflow_id row →
     ap_command_sequence r = ap_command_sequence row → False)
  ∧ is_Some (db_workflow d !! ap_workflow_id row)
  ∧ (0 < ap_version row ∧ 0 < ap_validation_version row)%Z.

Definition attempt_fresh (d : Db) (row : ActivityAttemptRow) : Prop :=
  (0 < att_attempt_number row)%Z
  ∧ db_attempt d !! (att_activity_id row, att_attempt_number row) = None
  ∧ is_Some (db_activity d !! att_activity_id row).

(** A test over all rows of a table that finds none. *)
Lemma existsb_rows_false {V} (m : gmap Z V) (p : V → bool) :
  existsb p (snd <$> map_to_list m) = false → ∀ id r, m !! id = Some r → p r = false.
Proof.
  intros Hn id r Hr. destruct (p r) eqn:Ep; [|done]. exfalso.
  assert (existsb p (snd <$> map_to_list m) = true) as Ht; [|congruence].
  apply existsb_exists. exists r. split; [|done].
  apply list_elem_of_In, list_elem_of_fmap. exists (id, r).
  by rewrite elem_of_map_to_list.
Qed.

Lemma not_None_is_Some' {A} (o : option A) : ¬ (o = None) → is_Some o.
Proof. destruct o; by eauto. Qed.

Lemma wp_next_event_sequence Ψ e d id (Φ : Z → Db → Prop) :
  Ψ (InvalidState "workflow event sequence overflow") → (∀ n, Φ n d) →
  wp Ψ (next_event_sequence id) e d Φ.
Proof.
  intros HΨ HΦ. unfold next_event_sequence. apply wp_bind, wp_get, wp_lift; [|auto].
  intros err. destruct (i32_checked_add _ _); simpl; by intros [= <-].
Qed.

Lemma wp_append_event e d event (Φ : unit → Db → Prop) :
  (event_fresh d (event (db_next_event d)) → Φ tt (with_event d (event (db_next_event d)))) →
  wp any_error (append_event event) e d Φ.
Proof.
  intros HΦ. unfold append_event. set (row := event (db_next_event d)) in *.
  apply wp_bind, wp_get. fold row.
  case_bool as [|Hseq]; [by apply wp_fail|]. case_bool as [|Hdel]; [by apply wp_fail|].
  case_bool as [|Hwf]; [by apply wp_fail|]. apply wp_put, HΦ. split_and!.
  - rewrite list_elem_of_fmap. intros (ev & [= E1 E2] & Hin). apply Hseq.
    rewrite E2. apply list_elem_of_fmap_2, list_elem_of_filter. by rewrite E1.
  - unfold delivery_key. intros k (n & En & ->)%fmap_Some. rewrite list_elem_of_omap.
    intros (ev & Hin & (m & Em & [= Hid ->])%fmap_Some). apply Hdel.
    split; [by eexists|]. rewrite En, <- Em.
    apply list_elem_of_fmap_2, list_elem_of_filter. by rewrite Hid.
  - by apply not_eq_None_Some.
Qed.

Lemma evolves_with_event d0 d row :
  evolves d0 d → event_fresh d row → ev_id row = db_next_event d →
  evolves d0 (with_event d row).
Proof.
  intros [[] []] (Hseq & Hdel & Hwf) Hid. split; split; simpl; try done.
  - intros ev [Hev| ->%list_elem_of_singleton]%elem_of_app; auto.
  - rewrite fmap_app, NoDup_app. split_and!; [done| |by apply NoDup_singleton].
    intros k Hk ->%list_elem_of_singleton. by apply Hseq.
  - rewrite omap_app. destruct (delivery_key row) as [k|] eqn:Ek; simpl; rewrite Ek;
      rewrite ?app_nil_r; [|done].
    apply NoDup_app. split_and!; [done| |by apply NoDup_singleton].
    intros k' Hk' ->%list_elem_of_singleton. by eapply Hdel.
  - lia.
  - intros ev [Hev%ok_event_pos0| ->%list_elem_of_singleton]%elem_of_app; lia.
  - rewrite fmap_app, NoDup_app. split_and!; [done| |by apply NoDup_singleton].
    intros i (ev & -> & Hev%ok_event_pos0)%list_elem_of_fmap Hin%list_elem_of_singleton. lia.
  - by apply prefix_app_r.
Qed.

Lemma insert_new_evolves {R} step (fresh : R → Prop) (m m' : gmap Z R) id r :
  (∀ i, row_evolves step fresh (m !! i) (m' !! i)) → m' !! id = None → fresh r →
  ∀ i, row_evolves step fresh (m !! i) (<[id := r]> m' !! i).
Proof.
  intros Hm Hid Hr i. destruct (decide (id = i)) as [<-|].
  - rewrite lookup_insert_eq. specialize (Hm id). rewrite Hid in Hm.
    destruct (m !! id); [done|]. by exists r.
  - by rewrite lookup_insert_ne.
Qed.

Lemma wp_insert_workflow e d new_row (Φ : WorkflowInsert → Db → Prop) :
  Φ DeduplicationConflict d →
  (workflow_fresh d (new_row (db_next_workflow d)) →
   Φ (WorkflowInserted (wf_id (new_row (db_next_workflow d))))
     (with_workflow d (new_row (db_next_workflow d)))) →
  wp any_error (insert_workflow new_row) e d Φ.
Proof.
  intros HN HS i j. unfold insert_workflow, insert_workflow_row.
  set (row := new_row (db_next_workflow d)) in *. cbn -[fmt]. fold row.
  destruct (_ || _) eqn:Ev; [done|].
  destruct (bool_decide (is_Some (wf_deduplication_key row)) && _) eqn:Ed; [done|].
  destruct (bool_decide (is_Some (wf_restarted_from_workflow_id row)) && _) eqn:Er; [done|].
  destruct (references_missing d (wf_root_workflow_id row) || _ || _) eqn:Ef; [done|].
  apply HS. norm_tests. split_and!.
  - intros id r key Hr Hkind Hk Hk'. rewrite Hk' in Ed. simpl in Ed.
    apply (existsb_rows_false _ _ Ed) in Hr. rewrite bool_decide_eq_false in Hr. by apply Hr.
  - intros id r p Hr Hp Hp'. rewrite Hp' in Er. simpl in Er.
    apply (existsb_rows_false _ _ Er) in Hr. rewrite bool_decide_eq_false in Hr. by apply Hr.
  - intros p Hp. apply not_eq_None_Some. unfold references_missing in *.
    destruct Hp as [E|[E|E]]; rewrite E in *; by norm_tests.
  - done.
Qed.

Lemma evolves_with_workflow d0 d row :
  evolves d0 d → workflow_fresh d row → wf_id row = db_next_workflow d → wf_new row →
  evolves d0 (with_workflow d row).
Proof.
  intros [[] []] (Hdedup & Hrestart & Hrefs & Hpos) Hid Hnew. unfold with_workflow. rewrite Hid.
  assert (∀ i, is_Some (db_workflow d !! i) → (i < db_next_workflow d)%Z) as Hlt.
  { intros i [r Hr]. by destruct (ok_workflow0 i r Hr). }
  assert (db_workflow d !! db_next_workflow d = None) as Hnone.
  { apply eq_None_not_Some. intros ?%Hlt. lia. }
  assert (∀ i, is_Some (db_workflow d !! i) →
    is_Some (<[db_next_workflow d := row]> (db_workflow d) !! i)) as Hdom
    by (intros i; rewrite lookup_insert_is_Some'; auto).
  split; split; simpl; try done.
  - intros i r [[<- <-]|[_ Hr]]%lookup_insert_Some; [lia|].
    destruct (ok_workflow0 i r Hr). lia.
  - intros i r p [[<- <-]|[_ Hr]]%lookup_insert_Some Hp; [by auto|].
    destruct (ok_lineage0 i r p Hr Hp); auto.
  - intros i j r r' key [[<- <-]|[_ Hr]]%lookup_insert_Some
      [[<- <-]|[_ Hr']]%lookup_insert_Some ???; [done| | |by eauto]; exfalso; by eapply Hdedup.
  - intros i j r r' p [[<- <-]|[_ Hr]]%lookup_insert_Some
      [[<- <-]|[_ Hr']]%lookup_insert_Some ??; [done| | |by eauto]; exfalso; by eapply Hrestart.
  - intros i r Hr. destruct (ok_activity0 i r Hr) as (?&?&?); auto.
  - intros i r Hr. destruct (ok_approval0 i r Hr) as (?&?&?); auto.
  - intros ev Hev. by apply Hdom, ok_event0.
  - lia.
  - intros i r [[<- _]|[_ Hr]]%lookup_insert_Some; [lia|eauto].
  - intros i r [[<- <-]|[_ Hr]]%lookup_insert_Some; [done|eauto].
  - intros i r Hr. destruct (ok_run0 i r Hr) as (?&?&?&?). auto 6.
  - by apply insert_new_evolves.
Qed.

Lemma wp_insert_activity e d new_row (Φ : ActivityId → Db → Prop) :
  (activity_fresh d (new_row (db_next_activity d)) →
   Φ (ac_id (new_row (db_next_activity d)))
     (with_activity d (new_row (db_next_activity d)))) →
  wp any_error (insert_activity new_row) e d Φ.
Proof.
  intros HΦ i j. unfold insert_activity.
  set (row := new_row (db_next_activity d)) in *. cbn -[fmt]. fold row.
  destruct (_ || _) eqn:Ev; [done|]. destruct (existsb _ _) eqn:Ex; [done|].
  case_bool as [|Hwf]; [done|]. destruct (activity_missing _ _ || _) eqn:Em; [done|].
  apply HΦ. norm_tests. split_and!; [done| | |done|].
  - intros id r Hr ???. apply (existsb_rows_false _ _ Ex) in Hr. norm_tests. by apply Hr.
  - by apply not_eq_None_Some.
  - intros p Hp. apply not_eq_None_Some. unfold activity_missing in *.
    destruct Hp as [E|E]; rewrite E in *; by norm_tests.
Qed.

Lemma evolves_with_activity d0 d row :
  evolves d0 d → activity_fresh d row → ac_id row = db_next_activity d → ac_new row →
  evolves d0 (with_activity d row).
Proof.
  intros [[] []] (Hmax & Hcommand & Hwf & Hver & Hrefs) Hid Hnew. unfold with_activity. rewrite Hid.
  assert (db_activity d !! db_next_activity d = None) as Hnone.
  { apply eq_None_not_Some. intros [r Hr]. destruct (ok_activity0 _ r Hr) as (?&?&?). lia. }
  split; split; simpl; try done.
  - intros i r [[<- <-]|[_ Hr]]%lookup_insert_Some; [split_and!; [done|lia|done]|].
    destruct (ok_activity0 i r Hr) as (?&?&?). split_and!; [done|lia|done].
  - intros i j r r' [[<- <-]|[_ Hr]]%lookup_insert_Some
      [[<- <-]|[_ Hr']]%lookup_insert_Some ???; [done| | |by eauto]; exfalso; by eapply Hcommand.
  - intros key r Hr. destruct (ok_attempt0 key r Hr) as (?&?&?).
    rewrite lookup_insert_is_Some'. auto.
  - lia.
  - intros i r [[<- _]|[_ Hr]]%lookup_insert_Some; [lia|eauto].
  - intros i r [[<- <-]|[_ Hr]]%lookup_insert_Some; [done|eauto].
  - intros i r p [[<- <-]|[_ Hr]]%lookup_insert_Some Hp; rewrite lookup_insert_is_Some'.
    + destruct (Hrefs p Hp) as [x Hx]. destruct (ok_activity0 p x Hx) as (?&?&?). eauto.
    + destruct (ok_activity_lineage0 i r p Hr Hp). auto.
  - by apply insert_new_evolves.
Qed.

Lemma wp_insert_approval e d new_row (Φ : ApprovalId → Db → Prop) :
  (approval_fresh d (new_row (db_next_approval d)) →
   Φ (ap_id (new_row (db_next_approval d)))
     (with_approval d (new_row (db_next_approval d)))) →
  wp any_error (insert_approval new_row) e d Φ.
Proof.
  intros HΦ i j. unfold insert_approval.
  set (row := new_row (db_next_approval d)) in *. cbn -[fmt]. fold row.
  destruct (_ || _) eqn:Ev; [done|]. destruct (existsb _ _) eqn:Ex; [done|].
  case_bool as [|Hwf]; [done|]. apply HΦ. norm_tests. refine (conj _ (conj _ _)); [| |done].
  - intros id r Hr ??. apply (existsb_rows_false _ _ Ex) in Hr. norm_tests. by apply Hr.
  - by apply not_eq_None_Some.
Qed.

Lemma evolves_with_approval d0 d row :
  evolves d0 d → approval_fresh d row → ap_id row = db_next_approval d → ap_new row →
  evolves d0 (with_approval d row).
Proof.
  intros [[] []] (Hcommand & Hwf & Hpos) Hid Hnew. unfold with_approval. rewrite Hid.
  assert (db_approval d !! db_next_approval d = None) as Hnone.
  { apply eq_None_not_Some. intros [r Hr]. destruct (ok_approval0 _ r Hr) as (?&?&?). lia. }
  split; split; simpl; try done.
  - intros i r [[<- <-]|[_ Hr]]%lookup_insert_Some; [split_and!; [done|lia|done]|].
    destruct (ok_approval0 i r Hr) as (?&?&?). split_and!; [done|lia|done].
  - intros i j r r' [[<- <-]|[_ Hr]]%lookup_insert_Some
      [[<- <-]|[_ Hr']]%lookup_insert_Some ??; [done| | |by eauto]; exfalso; by eapply Hcommand.
  - lia.
  - intros i r [[<- _]|[_ Hr]]%lookup_insert_Some; [lia|eauto].
  - intros i r [[<- <-]|[_ Hr]]%lookup_insert_Some; [done|eauto].
  - by apply insert_new_evolves.
Qed.

Lemma wp_insert_attempt e d row (Φ : unit → Db → Prop) :
  (attempt_fresh d row → Φ tt (with_attempt d row)) →
  wp any_error (insert_attempt row) e d Φ.
Proof.
  intros HΦ i j. unfold insert_attempt. cbn -[fmt].
  destruct (_ <=? _)%Z eqn:Ev; [done|]. case_bool as [|Hkey]; [done|].
  case_bool as [|Hac]; [done|]. apply HΦ. norm_tests.
  split_and!; [done|by apply eq_None_not_Some|by apply not_eq_None_Some].
Qed.

Lemma evolves_with_attempt d0 d row :
  evolves d0 d → attempt_fresh d row → att_open row → evolves d0 (with_attempt d row).
Proof.
  intros [[] []] (Hpos & Hkey & Hac) Hopen. split; split; simpl; try done.
  - intros key r [[<- <-]|[_ Hr]]%lookup_insert_Some; [done|by apply ok_attempt0].
  - intros x Hx. destruct (ok_progress0 x Hx) as [??]. rewrite lookup_insert_is_Some'. auto.
  - intros key. destruct (decide ((att_activity_id row, att_attempt_number row) = key))
      as [<-|]; [|by rewrite lookup_insert_ne].
    rewrite lookup_insert_eq. specialize (te_attempt0 (att_activity_id row, att_attempt_number row)).
    rewrite Hkey in te_attempt0. destruct (db_attempt d0 !! _); [done|]. by exists row.
Qed.

(** What a caller promises of a workflow row it inserts. *)
Class NewWorkflow (new_row : WorkflowId → WorkflowRow) : Prop := {
  new_workflow_id : ∀ id, wf_id (new_row id) = id;
  new_workflow : ∀ id, wf_new (new_row id);
}.

(** * Automation *)

(** The changesets of the operations as documented steps. *)
Create HintDb steps discriminated.
#[export] Hint Constants Opaque : steps.
#[export] Hint Variables Opaque : steps.

(** Splits the conjunctions of a row step and computes the columns. *)
Ltac columns :=
  repeat match goal with
  | |- _ ∧ _ => split
  | |- wf_step _ _ => split
  | |- ac_step _ _ => split
  | |- att_step _ _ => split
  | |- ap_step _ _ => split
  | |- same_workflow _ _ => split
  | |- same_progress _ _ => split
  | |- same_activity _ _ => split
  | |- same_attempts _ _ => split
  | |- same_attempt _ _ => split
  | |- same_approval _ _ => split
  | |- keeps_wait _ _ => split
  | |- keeps_lease _ _ => split
  | |- keeps_ac_lease _ _ => split
  | |- wf_leased _ => split
  | |- wf_unleased _ => split
  | |- ac_leased _ => split
  | |- ac_unleased _ => split
  | |- no_wait _ => split
  | |- waits _ _ => split
  | |- wf_new _ => split
  | |- ac_new _ => split
  | |- ap_new _ => split
  | |- att_open _ => split
  end; simpl; eauto.

(** The evolution of the tables so far, read off their term. *)
Ltac evolve :=
  lazymatch goal with
  | H : evolves ?d0 ?d |- evolves ?d0 ?d => exact H
  | H : db_ok ?d |- evolves ?d ?d => exact (evolves_refl d H)
  | |- evolves _ (fset db_workflow _ _) =>
      eapply evolves_update_workflow; [evolve|eassumption|eauto with steps]
  | |- evolves _ (fset db_activity (<[_ := _]> _) _) =>
      eapply evolves_update_activity; [evolve|eassumption|eauto with steps]
  | |- evolves _ (fset db_activity (_ <$> _) _) =>
      eapply evolves_update_activities; [evolve|intros ? ?; norm_tests; eauto with steps]
  | |- evolves _ (fset db_attempt _ _) =>
      eapply evolves_update_attempt; [evolve|eassumption|eauto with steps]
  | |- evolves _ (fset db_approval _ _) =>
      eapply evolves_update_approval; [evolve|eassumption|eauto with steps]
  | |- evolves _ (fset db_schedule_run _ _) =>
      eapply evolves_update_schedule_run; [evolve|eassumption|auto]
  | |- evolves _ (fset db_topic_lock _ _) =>
      apply evolves_new_topic_lock; [evolve|assumption|assumption]
  | |- evolves _ (with_event _ _) => apply evolves_with_event; [evolve|assumption|reflexivity]
  | |- evolves _ (with_workflow _ _) =>
      apply evolves_with_workflow; [evolve|assumption|apply new_workflow_id|apply new_workflow]
  | |- evolves _ (with_activity _ _) =>
      apply evolves_with_activity; [evolve|assumption|reflexivity|eauto with steps]
  | |- evolves _ (with_approval _ _) =>
      apply evolves_with_approval; [evolve|assumption|reflexivity|eauto with steps]
  | |- evolves _ (with_attempt _ _) =>
      apply evolves_with_attempt; [evolve|assumption|eauto with steps]
  end.

(** What the query that selected a row tested. *)
Ltac selected :=
  try match goal with
  | H : ∀ r, r ∈ ?rows ↔ _, Hx : _ ∈ ?rows |- _ => apply H in Hx; destruct Hx as [? _]
  end.

(** Identifies a row that was read, and read again by its own id from a table
    that was not written since. *)
Ltac same_rows :=
  repeat match goal with
  | Hok : db_ok ?d, H1 : db_workflow ?d !! _ = Some ?a,
    H2 : db_workflow _ !! wf_id ?a = Some ?b |- _ =>
      pose proof (ok_same_workflow _ _ _ _ Hok H1 H2); subst b; clear H2
  | Hok : db_ok ?d, H1 : db_activity ?d !! _ = Some ?a,
    H2 : db_activity _ !! ac_id ?a = Some ?b |- _ =>
      pose proof (ok_same_activity _ _ _ _ Hok H1 H2); subst b; clear H2
  end.

(** The specification of the operation at the head. *)
Ltac evolve_call :=
  lazymatch goal with
  | |- wp _ ?m _ _ _ =>
      lazymatch m with
      | next_event_sequence _ => apply wp_next_event_sequence; [exact I|intros ?]
      | append_event _ => apply wp_append_event; intros ?
      | insert_workflow _ => apply wp_insert_workflow; [|intros ?]
      | insert_activity _ => apply wp_insert_activity; intros ?
      | insert_approval _ => apply wp_insert_approval; intros ?
      | insert_attempt _ => apply wp_insert_attempt; intros ?
      | tx_for _ _ =>
          match goal with
          | |- context [evolves ?d0 _] =>
              eapply (wp_for _ _ _ (evolves d0)); [evolve|intros ? ? ? ?|intros ? ?];
              selected
          end
      | _ =>
          match goal with
          | |- context [evolves ?d0 _] => apply (wp_call _ _ d0); [evolve|intros ? ? ?]
          end
      end
  end.

Ltac evolve_step := wp_step ltac:(fun _ => evolve_call).

(** Runs an operation to the end; what is left are row steps. *)
Ltac evolve_run := repeat evolve_step; try evolve.

(** The same for a goal [Evolves m]. *)
Ltac evolves := intros ? ? ?; cbv zeta; evolve_run.
