(* ===== verification/Transitions.v ===== *)
(** The data of workflow transitions ([transition.rs]): the commands a step
    emits, the events it receives, and the checks of their constructors; and
    the codecs of that data, which are code outside the repository. *)
From stdpp Require Import base list strings.
From Stdlib Require Import ZArith Lia.
From S2P Require Import Prelude.
From S2P Require Import Errors.
From S2P Require Import Rows.
From S2P Require Import Policy.

Definition MAX_OPERATION_KEY_CHARS : nat := 191.
Definition CONTINUATION_READY_AT_MILLIS : Z := 0.

(** [str::chars().count()] of a UTF-8 string: its bytes that start a char. *)
Fixpoint chars_count (s : string) : nat :=
  match s with
  | EmptyString => 0
  | String c s' =>
      let b := Ascii.nat_of_ascii c in
      (if (b <? 128)%nat || (192 <=? b)%nat then 1 else 0) + chars_count s'
  end.

Record ActivityCommand := MkActivityCommand {
  cmd_kind : string;
  cmd_version : Z;
  cmd_topic : string;
  cmd_payload_json : string;
  cmd_operation_key : option string;
  cmd_max_attempts : Z;
  cmd_timeout_millis : Z;
  cmd_lease_duration_millis : Z;
  cmd_retry_policy : RetryPolicy;
  cmd_continuation_priority : bool;
}.

(** What [#[derive(DurableActivity)]] fixes for an activity type. *)
Record ActivityType := MkActivityType {
  aty_kind : string;
  aty_version : Z;
  aty_topic : string;
  aty_max_attempts : Z;
  aty_timeout : Millis;
  aty_lease_duration : Millis;
  aty_retry_policy : RetryPolicy;
}.

Definition duration_millis_u64 (duration : Millis) : Result Z :=
  ok_or (u64_try_from duration)
    (InvalidDefinition "duration exceeds the durable storage range").

(** [ActivityCommand::new]; [payload_json] is the serialized activity. *)
Definition new_activity_command (A : ActivityType) (payload_json : string)
    (operation_key : option string) : Result ActivityCommand :=
  let? _ := ensure_size "activity payload" payload_json MAX_INPUT_STATE_PAYLOAD_BYTES in
  let? timeout_millis := duration_millis_u64 (aty_timeout A) in
  let? lease_duration_millis := duration_millis_u64 (aty_lease_duration A) in
  if (lease_duration_millis <=? timeout_millis)%Z
  then Err (InvalidDefinition "activity lease duration must be greater than its timeout")
  else if (aty_max_attempts A =? 0)%Z
  then Err (InvalidDefinition "activity max attempts must be greater than zero")
  else if match operation_key with
          | Some key => (chars_count key =? 0)%nat || (MAX_OPERATION_KEY_CHARS <? chars_count key)%nat
          | None => false
          end
  then Err (InvalidDefinition "activity operation key must contain 1 to 191 characters")
  else Ok {| cmd_kind := aty_kind A;
             cmd_version := aty_version A;
             cmd_topic := aty_topic A;
             cmd_payload_json := payload_json;
             cmd_operation_key := operation_key;
             cmd_max_attempts := aty_max_attempts A;
             cmd_timeout_millis := timeout_millis;
             cmd_lease_duration_millis := lease_duration_millis;
             cmd_retry_policy := aty_retry_policy A;
             cmd_continuation_priority := false |}.

Definition with_continuation_priority (self : ActivityCommand) (enabled : bool)
    : ActivityCommand :=
  {| cmd_kind := cmd_kind self;
     cmd_version := cmd_version self;
     cmd_topic := cmd_topic self;
     cmd_payload_json := cmd_payload_json self;
     cmd_operation_key := cmd_operation_key self;
     cmd_max_attempts := cmd_max_attempts self;
     cmd_timeout_millis := cmd_timeout_millis self;
     cmd_lease_duration_millis := cmd_lease_duration_millis self;
     cmd_retry_policy := cmd_retry_policy self;
     cmd_continuation_priority := enabled |}.

Record ActivityResult := MkActivityResult {
  ar_kind : string; ar_version : Z; ar_output_json : string }.

Definition new_activity_result (kind : string) (version : Z) (output_json : string)
    : Result ActivityResult :=
  let? _ := ensure_size "activity output" output_json MAX_OUTPUT_BYTES in
  Ok (MkActivityResult kind version output_json).

(** The definition check of [ActivityResult::decode_for]. *)
Definition ensure_definition (expected_kind : string) (expected_version : Z)
    (kind : string) (version : Z) : Result unit :=
  if String.eqb kind expected_kind && (version =? expected_version)%Z then Ok tt
  else Err (DefinitionMismatch kind version expected_kind expected_version).

Record ChildWorkflowCommand := MkChildWorkflowCommand {
  ch_kind : string;
  ch_version : Z;
  ch_input_json : string;
  ch_state_json : string;
  ch_deduplication_key : option string;
}.

(** [ChildWorkflowCommand::new] on the child's serialized input and state. *)
Definition new_child_command (kind : string) (version : Z) (input_json state_json : string)
    : Result ChildWorkflowCommand :=
  if (str_len kind =? 0)%nat || (version <=? 0)%Z
  then Err (InvalidDefinition
              "child workflow kind must be non-empty and version must be positive")
  else
    let? _ := ensure_size "child workflow input" input_json MAX_INPUT_STATE_PAYLOAD_BYTES in
    let? _ := ensure_size "child workflow state" state_json MAX_INPUT_STATE_PAYLOAD_BYTES in
    Ok (MkChildWorkflowCommand kind version input_json state_json None).

Definition with_deduplication_key (self : ChildWorkflowCommand) (key : string)
    : ChildWorkflowCommand :=
  MkChildWorkflowCommand (ch_kind self) (ch_version self) (ch_input_json self)
    (ch_state_json self) (Some key).

Record ChildResult := MkChildResult {
  cr_kind : string; cr_version : Z; cr_output_json : string }.

Definition new_child_result (kind : string) (version : Z) (output_json : string)
    : Result ChildResult :=
  let? _ := ensure_size "child workflow output" output_json MAX_OUTPUT_BYTES in
  Ok (MkChildResult kind version output_json).

Record ApprovalResult := MkApprovalResult {
  apr_kind : string; apr_version : Z; apr_payload_json : string }.

Inductive WorkflowEvent :=
  | Started
  | ActivitySucceeded (command_sequence : Z) (result : ActivityResult)
  | ChildSucceeded (command_sequence : Z) (result : ChildResult)
  | ChildFailed (command_sequence : Z) (kind : string) (version : Z) (category message : string)
  | TimerFired (command_sequence : Z)
  | ApprovalResolved (command_sequence : Z) (result : ApprovalResult)
  | ApprovalExpired (command_sequence : Z)
  | Continued.

(** The transitions a step returns, with state and output serialized
    ([StoredTransition], [registry.rs]). *)
Inductive StoredTransition :=
  | StRunActivity (state_json : string) (activity : ActivityCommand)
  | StRunChild (state_json : string) (child : ChildWorkflowCommand)
  | StSleepUntil (state_json : string) (wake_at_millis : Z)
  | StWaitForApproval (state_json approval_json : string) (expires_at_millis : option Z)
  | StContinue (state_json : string)
  | StComplete (output_json : string).

(** * Codecs

    [serde_json] and SHA-256 are libraries outside the repository; the model
    takes their functions as parameters. *)
Class Codec := {
  event_to_json : WorkflowEvent → string;
  event_of_json : string → option WorkflowEvent;
  policy_to_json : RetryPolicy → string;
  (** [serde_json] into the unchecked [StoredRetryPolicy]. *)
  stored_policy_of_json : string → option BackoffPolicy;
  (** The text of the error [serde_json] reports for a retry policy. *)
  policy_error_text : string → string;
  sha256 : string → list Z;
}.

(** What the engine relies on: decoding inverts encoding, and a digest is
    a list of bytes. *)
Class CodecLaws `{Codec} := {
  event_json_roundtrip : ∀ event, event_of_json (event_to_json event) = Some event;
  policy_json_roundtrip : ∀ p, stored_policy_of_json (policy_to_json p) = Some (backoff p);
  sha256_bytes : ∀ seed, Forall (λ b, 0 ≤ b < 256)%Z (sha256 seed);
}.

Section codec.
Context `{Codec}.

(** [serde_json::from_str::<RetryPolicy>]: the shape, then its bounds
    ([#[serde(try_from = "StoredRetryPolicy")]]). *)
Definition decode_retry_policy (json : string) : Result RetryPolicy :=
  let? stored := ok_or (stored_policy_of_json json) (Serialization "retry policy") in
  validated stored.

Definition jitter_percentile (seed : string) : Z :=
  deterministic_jitter_percentile sha256 seed.
End codec.

Lemma nth_byte (l : list Z) n :
  Forall (λ b, 0 ≤ b < 256)%Z l → (0 ≤ nth n l 0 < 256)%Z.
Proof.
  intros Hl. destruct (nth_in_or_default n l 0%Z) as [Hin| ->]; [|lia].
  rewrite List.Forall_forall in Hl. by apply Hl.
Qed.

Lemma jitter_percentile_bound `{CodecLaws} seed : (0 ≤ jitter_percentile seed ≤ 100)%Z.
Proof.
  unfold jitter_percentile, deterministic_jitter_percentile.
  pose proof (Z.mod_pos_bound
    (nth 0 (sha256 seed) 0 + 256 * nth 1 (sha256 seed) 0)%Z 101%Z ltac:(lia)) as Hb.
  rewrite (Z.mod_small _ 256) by lia. lia.
Qed.
