(* ===== verification/Registry.v ===== *)
(** The definition registries ([registry.rs]): what the process can run.
    A handler is application code, here the functions of its definition. *)
From stdpp Require Import base gmap list strings.
From Stdlib Require Import ZArith Lia Ascii String.
From S2P Require Import Prelude.
From S2P Require Import Errors.
From S2P Require Import Status.
From S2P Require Import Rows.
From S2P Require Import Database.
From S2P Require Import Policy.
From S2P Require Import Transitions.

Record PreparedWorkflowStart := MkPreparedWorkflowStart {
  ps_kind : string; ps_version : Z; ps_input_json : string; ps_state_json : string }.

(** How a step of application code ends: its stored transition, its error
    message, a panic with its message, or running past [step_timeout]. *)
Inductive StepOutcome :=
  | Stepped (transition : StoredTransition)
  | StepFailed (message : string)
  | StepPanicked (message : string)
  | StepTimedOut.

(** [ErasedWorkflowHandler] of one registered workflow type. *)
Record WorkflowDefinition := MkWorkflowDefinition {
  wd_kind : string;
  wd_version : Z;
  wd_step : option WorkflowId → string → string → WorkflowEvent → StepOutcome;
  wd_prepare_start : string → Result PreparedWorkflowStart;
  wd_validate_approval : string → Result string;
}.

Abbreviation WorkflowRegistry := (gmap DefinitionKey WorkflowDefinition).

Definition validate_definition (kind : string) (version : Z) : Result unit :=
  if (str_len kind =? 0)%nat
  then Err (InvalidDefinition "durable definition kind cannot be empty")
  else if (version <=? 0)%Z
  then Err (InvalidDefinition
              ("durable definition " +:+ kind +:+ " version must be greater than zero"))
  else Ok tt.

Definition register_workflow (self : WorkflowRegistry) (W : WorkflowDefinition)
    : Result WorkflowRegistry :=
  let? _ := validate_definition (wd_kind W) (wd_version W) in
  let key := (wd_kind W, wd_version W) in
  if bool_decide (is_Some (self !! key))
  then Err (DuplicateDefinition (wd_kind W) (wd_version W))
  else Ok (<[key := W]> self).

Definition contains {D} (self : gmap DefinitionKey D) (kind : string) (version : Z) : bool :=
  bool_decide (is_Some (self !! (kind, version))).

(** The order of [Vec<(String, i32)>::sort]. *)
Definition key_le (a b : DefinitionKey) : bool :=
  match String.compare a.1 b.1 with
  | Lt => true
  | Eq => (a.2 <=? b.2)%Z
  | Gt => false
  end.

Definition definition_keys {D} (self : gmap DefinitionKey D) : list DefinitionKey :=
  sort_by key_le (fst <$> map_to_list self).

Definition current_version {D} (self : gmap DefinitionKey D) (kind : string) : option Z :=
  max_of (snd <$> filter (λ key, key.1 = kind) (fst <$> map_to_list self)).

(** The lookup of [step_stored]; a missing definition is the step's error. *)
Definition step_stored (self : WorkflowRegistry) (kind : string) (version : Z)
    (workflow_id : option WorkflowId) (input_json state_json : string)
    (event : WorkflowEvent) : StepOutcome :=
  match self !! (kind, version) with
  | None => StepFailed ("workflow dispatch serialization failed: missing durable definition "
                        +:+ kind +:+ " v" +:+ fmt version)
  | Some definition => wd_step definition workflow_id input_json state_json event
  end.

Definition prepare_start_exact (self : WorkflowRegistry) (kind : string) (version : Z)
    (input_json : string) : Result PreparedWorkflowStart :=
  let? definition := ok_or (self !! (kind, version)) (MissingDefinition kind version) in
  wd_prepare_start definition input_json.

Definition prepare_start_current (self : WorkflowRegistry) (kind input_json : string)
    : Result PreparedWorkflowStart :=
  let? version := ok_or (current_version self kind) (MissingCurrentDefinition kind) in
  prepare_start_exact self kind version input_json.

Definition validate_approval_exact (self : WorkflowRegistry) (kind : string) (version : Z)
    (decision_json : string) : Result string :=
  let? definition := ok_or (self !! (kind, version)) (MissingDefinition kind version) in
  wd_validate_approval definition decision_json.

(** [ErasedActivityHandler] of one registered activity type. *)
Record ActivityDefinition := MkActivityDefinition {
  ad_type : ActivityType;
  ad_prepare_command : string → option string → Result ActivityCommand;
}.

(** [ActivityRegistry]: the definitions and the topic of each. *)
Record ActivityRegistry := MkActivityRegistry {
  areg_definitions : gmap DefinitionKey ActivityDefinition;
  areg_topics : gmap DefinitionKey string;
}.

Definition register_activity (self : ActivityRegistry) (A : ActivityDefinition)
    : Result ActivityRegistry :=
  let kind := aty_kind (ad_type A) in
  let version := aty_version (ad_type A) in
  let? _ := validate_definition kind version in
  if bool_decide (is_Some (areg_definitions self !! (kind, version)))
  then Err (DuplicateDefinition kind version)
  else Ok {| areg_topics := <[(kind, version) := aty_topic (ad_type A)]> (areg_topics self);
             areg_definitions := <[(kind, version) := A]> (areg_definitions self) |}.

Definition topic_for (self : ActivityRegistry) (kind : string) (version : Z) : option string :=
  areg_topics self !! (kind, version).

Definition prepare_command_exact (self : ActivityRegistry) (kind : string) (version : Z)
    (payload_json : string) (operation_key : option string) : Result ActivityCommand :=
  let? definition := ok_or (areg_definitions self !! (kind, version))
                       (MissingDefinition kind version) in
  ad_prepare_command definition payload_json operation_key.

Definition prepare_command_current (self : ActivityRegistry) (kind payload_json : string)
    (operation_key : option string) : Result ActivityCommand :=
  let? version := ok_or (current_version (areg_definitions self) kind)
                    (MissingCurrentDefinition kind) in
  prepare_command_exact self kind version payload_json operation_key.

(** * Topics *)

Record TopicDefinition := MkTopicDefinition { td_key : string; td_max_concurrency : Z }.

Abbreviation TopicRegistry := (gmap string TopicDefinition).

Definition is_lower_or_digit (c : Ascii.ascii) : bool :=
  let b := Ascii.nat_of_ascii c in
  ((97 <=? b)%nat && (b <=? 122)%nat) || ((48 <=? b)%nat && (b <=? 57)%nat).

Definition is_topic_char (c : Ascii.ascii) : bool :=
  is_lower_or_digit c || Ascii.eqb c "."%char || Ascii.eqb c "_"%char || Ascii.eqb c "-"%char.

Definition is_canonical_topic_key (key : string) : bool :=
  match list_ascii_of_string key with
  | c :: rest => is_lower_or_digit c && forallb is_topic_char rest
  | [] => false
  end.

Definition register_topic (self : TopicRegistry) (key : string) (max_concurrency : Z)
    : Result TopicRegistry :=
  if (str_len key =? 0)%nat
  then Err (InvalidDefinition "activity topic key cannot be empty")
  else if negb (is_canonical_topic_key key)
  then Err (InvalidDefinition
              ("activity topic " +:+ key +:+ " must match [a-z0-9][a-z0-9._-]*"))
  else if (max_concurrency =? 0)%Z
  then Err (InvalidDefinition
              ("activity topic " +:+ key +:+ " must allow at least one concurrent activity"))
  else match self !! key with
       | Some existing =>
           if (td_max_concurrency existing =? max_concurrency)%Z then Ok self
           else Err (InvalidDefinition
                       ("activity topic " +:+ key +:+ " has conflicting concurrency limits "
                        +:+ fmt (td_max_concurrency existing) +:+ " and "
                        +:+ fmt max_concurrency))
       | None => Ok (<[key := MkTopicDefinition key max_concurrency]> self)
       end.

Definition topic_definitions (self : TopicRegistry) : list TopicDefinition :=
  sort_by (λ a b, String.leb (td_key a) (td_key b)) (snd <$> map_to_list self).

(** One row of [insert_topic_locks_if_absent]: [ON CONFLICT (topic) DO NOTHING]. *)
Definition insert_topic_lock_if_absent (row : TopicLockRow) : Tx unit :=
  let! d := tx_get in
  match db_topic_lock d !! tl_topic row with
  | Some _ => tx_ret tt
  | None =>
      if (tl_max_concurrency row <=? 0)%Z
      then db_fail CheckViolation "durable_topic_lock_check"
      else tx_put (d <| db_topic_lock := <[tl_topic row := row]> (db_topic_lock d) |>)
  end.

(** The statement, which inserts all its rows or none. *)
Definition insert_topic_locks_if_absent (rows : list TopicLockRow) : Tx unit :=
  tx_for rows insert_topic_lock_if_absent.

(** The rows of [seed_locks_once], in the order of their topics. *)
Definition topic_lock_rows (self : TopicRegistry) (timestamp : DbMillis)
    : Result (list TopicLockRow) :=
  collect (λ definition,
    let? max_concurrency := ok_or (i32_try_from (td_max_concurrency definition))
        (InvalidDefinition
           ("activity topic " +:+ td_key definition +:+ " concurrency limit "
            +:+ fmt (td_max_concurrency definition) +:+ " exceeds " +:+ fmt i32_max)) in
    Ok (MkTopicLockRow (td_key definition) max_concurrency timestamp))
    (topic_definitions self).

(** The select of the persisted rows and the comparison of their limits with
    the registered ones. *)
Definition compare_topic_locks (self : TopicRegistry) : Tx unit :=
  let! d := tx_get in
  tx_for (topic_definitions self) (λ definition,
    match db_topic_lock d !! td_key definition with
    | None => tx_ret tt
    | Some row =>
        let! persisted_limit := tx_lift (ok_or (u32_try_from (tl_max_concurrency row))
              (InvalidState ("activity topic " +:+ tl_topic row
                 +:+ " has invalid persisted concurrency limit "
                 +:+ fmt (tl_max_concurrency row)))) in
        if (persisted_limit =? td_max_concurrency definition)%Z then tx_ret tt
        else tx_fail (InvalidDefinition ("activity topic " +:+ tl_topic row
                 +:+ " persisted concurrency limit " +:+ fmt (tl_max_concurrency row)
                 +:+ " does not match registered limit "
                 +:+ fmt (td_max_concurrency definition)))
    end).

(** [seed_locks_once]: the clock, the insert and the select are statements of
    their own on the connection, outside a transaction: rows that were inserted
    stay when a limit disagrees. *)
Definition seed_locks_once (self : TopicRegistry) (e1 e2 e3 : Env) (d : Db) : Result unit * Db :=
  match transaction e1 database_now_millis d with
  | (Err error, d) => (Err error, d)
  | (Ok timestamp, d) =>
      match topic_lock_rows self timestamp with
      | Err error => (Err error, d)
      | Ok [] => (Ok tt, d)
      | Ok rows =>
          match transaction e2 (insert_topic_locks_if_absent rows) d with
          | (Err error, d) => (Err error, d)
          | (Ok _, d) => transaction e3 (compare_topic_locks self) d
          end
      end
  end.
