(* ===== verification/Calendar.v ===== *)
(** The calendar of a schedule ([schedule.rs], [schedule/cursor.rs]): the
    occurrences of a cron expression in a time zone, their local-time keys and
    the schedule cursor; and the registry of schedules.

    The crates [cron], [chrono] and [chrono-tz] are outside the repository. The
    class [Chrono] has the functions the code calls, and [ChronoLaws] what it
    relies on. A [NaiveDateTime] is a wall-clock time in milliseconds, an
    instant is UTC milliseconds; both are [Z]. *)
From stdpp Require Import base gmap list strings.
From Stdlib Require Import ZArith Lia Ascii.
From S2P Require Import Prelude.
From S2P Require Import Errors.
From S2P Require Import Status.
From S2P Require Import Rows.
From S2P Require Import Database.
From S2P Require Import Registry.

Abbreviation NaiveDateTime := Z (only parsing).
Abbreviation UtcMillis := Z (only parsing).

Definition MAX_SCHEDULE_KEY_BYTES : nat := 191.
Definition MAX_GAP_SCAN_SECONDS : Z := 86400.
Definition MAX_CATCH_UP_OCCURRENCES : Z := 100.
Definition MANUAL_OCCURRENCE_PREFIX : string := "manual:".

Inductive MisfirePolicy :=
  | MisfireSkip
  | RunLatest
  | CatchUp (max_occurrences : Z).

Inductive OverlapPolicy := Allow | SkipIfActive | QueueOne.

#[export] Instance OverlapPolicy_eq_dec : EqDecision OverlapPolicy.
Proof. solve_decision. Defined.

(** The associated constants of a [DurableSchedule]; the grace is a
    [Duration] in nanoseconds. *)
Record DurableSchedule := MkDurableSchedule {
  ds_key : string;
  ds_version : Z;
  ds_cron : string;
  ds_timezone : string;
  ds_misfire : MisfirePolicy;
  ds_overlap : OverlapPolicy;
  ds_misfire_grace : Z;
}.

Inductive LocalTimeDisposition := Exact | Gap | AmbiguousEarlier.

#[export] Instance LocalTimeDisposition_eq_dec : EqDecision LocalTimeDisposition.
Proof. solve_decision. Defined.

Record ScheduleOccurrence := MkScheduleOccurrence {
  oc_local_datetime : NaiveDateTime;
  oc_local_occurrence : string;
  oc_scheduled_for : UtcMillis;
  oc_due_at : UtcMillis;
  oc_disposition : LocalTimeDisposition;
}.

(** [chrono::LocalResult] of an instant. *)
Inductive LocalResult :=
  | Single (instant : UtcMillis)
  | Ambiguous (first second : UtcMillis)
  | NoLocal.

(** * The crates *)

Class Chrono := {
  CronSchedule : Type;
  Tz : Type;
  (** [Schedule::from_str] and [Tz::from_str]; the first has an error text. *)
  cron_from_str : string → CronSchedule + string;
  tz_from_str : string → option Tz;
  tz_name : Tz → string;
  (** [schedule.after(&t).next()], on wall-clock time read as UTC. *)
  cron_after : CronSchedule → NaiveDateTime → option NaiveDateTime;
  (** [tz.from_local_datetime(&t)]. *)
  from_local_datetime : Tz → NaiveDateTime → LocalResult;
  (** [instant.with_timezone(&tz).naive_local()]. *)
  naive_local : Tz → UtcMillis → NaiveDateTime;
  (** The range of [chrono] dates, outside of which its checked arithmetic
      and [from_timestamp_millis] return [None]. *)
  chrono_range : Z → bool;
  (** [format("%Y-%m-%dT%H:%M:%S")], and [parse_from_str] with its error. *)
  format_local : NaiveDateTime → string;
  parse_local : string → NaiveDateTime + string;
  (** The SHA-256 of the canonical JSON of a definition, in hex. *)
  schedule_fingerprint : DurableSchedule → Z → string;
}.

(** A key of [format_local] for a year of four digits: fixed width, digits
    and separators in their places, and a second below 60. ([parse_from_str]
    also reads a leap second [:60], which no key of a whole second has.) *)
Definition is_digit (base : nat) (c : Ascii.ascii) : bool :=
  let b := Ascii.nat_of_ascii c in (48 <=? b)%nat && (b <? 48 + base)%nat.

(** The digits a place of a shape holds: ten, or six for the tens of a second. *)
Definition shape_base (s : Ascii.ascii) : option nat :=
  if Ascii.eqb s "d"%char then Some 10%nat
  else if Ascii.eqb s "s"%char then Some 6%nat else None.

Fixpoint matches_shape (shape key : string) : bool :=
  match shape, key with
  | EmptyString, EmptyString => true
  | String s shape', String k key' =>
      match shape_base s with
      | Some base => is_digit base k
      | None => Ascii.eqb s k
      end && matches_shape shape' key'
  | _, _ => false
  end.

Definition is_local_key (key : string) : bool := matches_shape "dddd-dd-ddTdd:dd:sd" key.

(** The wall-clock times of the years 0 to 9999. *)
Definition four_digit_year (t : NaiveDateTime) : Prop :=
  (-62167219200000 ≤ t < 253402300800000)%Z.

Definition whole_second (t : NaiveDateTime) : Prop := (t mod 1000 = 0)%Z.

Definition DAY_MILLIS : Z := 86400000.

(** The order of stored keys: text, compared by bytes. *)
Definition key_lt (a b : string) : Prop := String.le a b ∧ a ≠ b.

(** The second [n] seconds later. *)
Definition seconds_later (t : NaiveDateTime) (n : Z) : NaiveDateTime := (t + 1000 * n)%Z.

(** What the code relies on: [cron] yields the first firing after a time, at a
    whole second of a four-digit year; an offset of a time zone is less than a
    day, and a unique local time converts back; a local time in a gap is
    followed by gap times up to a unique one; dates range beyond four-digit
    years; and a key prints and reads back in the order of its time. *)
Class ChronoLaws `{Chrono} := {
  cron_after_spec : ∀ s t t', cron_after s t = Some t' →
    (t < t')%Z ∧ whole_second t' ∧ four_digit_year t';
  cron_after_first : ∀ s t t' u, cron_after s t = Some t' → (t ≤ u < t')%Z →
    cron_after s u = Some t';
  single_offset : ∀ tz t i, from_local_datetime tz t = Single i →
    (Z.abs (i - t) < DAY_MILLIS)%Z ∧ naive_local tz i = t;
  ambiguous_offset : ∀ tz t i j, from_local_datetime tz t = Ambiguous i j →
    (Z.abs (i - t) < DAY_MILLIS)%Z ∧ (Z.abs (j - t) < DAY_MILLIS)%Z;
  naive_local_offset : ∀ tz i, (Z.abs (naive_local tz i - i) < DAY_MILLIS)%Z;
  gap_is_contiguous : ∀ tz t n m i, from_local_datetime tz t = NoLocal →
    from_local_datetime tz (seconds_later t n) = Single i → (0 < m < n)%Z →
    (∀ k j, (0 < k < n)%Z → from_local_datetime tz (seconds_later t k) ≠ Single j) →
    from_local_datetime tz (seconds_later t m) = NoLocal;
  chrono_range_years : ∀ t, (-62167219200000 - 3 * DAY_MILLIS ≤ t
    ≤ 253402300800000 + 3 * DAY_MILLIS)%Z → chrono_range t = true;
  format_local_key : ∀ t, whole_second t → four_digit_year t →
    is_local_key (format_local t) = true ∧ parse_local (format_local t) = inl t;
  parse_local_key : ∀ key t, is_local_key key = true → parse_local key = inl t →
    format_local t = key ∧ whole_second t ∧ four_digit_year t;
  format_local_order : ∀ t u, whole_second t → whole_second u →
    four_digit_year t → four_digit_year u → (t < u)%Z →
    key_lt (format_local t) (format_local u);
}.

Section calendar.
Context `{Chrono}.

(** * Local occurrences and the calendar *)

(** [LocalOccurrence::new]: [trunc_subsecs(0)]. *)
Definition local_occurrence_new (local : NaiveDateTime) : NaiveDateTime :=
  (local - local mod 1000)%Z.

Record ScheduleCalendar := MkScheduleCalendar {
  cal_schedule : CronSchedule;
  cal_timezone : Tz;
}.

Definition calendar_new (cron timezone : string) : Result ScheduleCalendar :=
  match cron_from_str cron with
  | inr error => Err (InvalidDefinition ("invalid schedule cron `" +:+ cron +:+ "`: "
                                         +:+ error))
  | inl schedule =>
      match tz_from_str timezone with
      | None => Err (InvalidDefinition ("invalid schedule IANA timezone `" +:+ timezone
                                        +:+ "`"))
      | Some tz => Ok (MkScheduleCalendar schedule tz)
      end
  end.

Definition occurrence (local_datetime : NaiveDateTime) (local_occurrence : string)
    (scheduled_for : UtcMillis) (disposition : LocalTimeDisposition) : ScheduleOccurrence :=
  MkScheduleOccurrence local_datetime local_occurrence scheduled_for scheduled_for disposition.

(** The [for offset in 1..=MAX_GAP_SCAN_SECONDS] loop: the instant of the
    first unique local time; [remaining] counts the offsets left. *)
Fixpoint gap_scan (tz : Tz) (local_datetime : NaiveDateTime) (remaining : nat) (offset : Z)
    : option UtcMillis :=
  match remaining with
  | O => None
  | S remaining' =>
      let probe := seconds_later local_datetime offset in
      if negb (chrono_range probe) then None
      else match from_local_datetime tz probe with
           | Single instant => Some instant
           | Ambiguous _ _ | NoLocal => gap_scan tz local_datetime remaining' (offset + 1)
           end
  end.

Definition resolve (self : ScheduleCalendar) (local_datetime : NaiveDateTime)
    : Result ScheduleOccurrence :=
  let local_occurrence := format_local (local_occurrence_new local_datetime) in
  match from_local_datetime (cal_timezone self) local_datetime with
  | Single instant => Ok (occurrence local_datetime local_occurrence instant Exact)
  | Ambiguous first second =>
      Ok (occurrence local_datetime local_occurrence (Z.min first second) AmbiguousEarlier)
  | NoLocal =>
      match gap_scan (cal_timezone self) local_datetime (Z.to_nat MAX_GAP_SCAN_SECONDS) 1 with
      | Some instant => Ok (occurrence local_datetime local_occurrence instant Gap)
      | None => Err (InvalidDefinition ("timezone " +:+ tz_name (cal_timezone self)
                       +:+ " has a local-time gap longer than the supported bound"))
      end
  end.

Definition next_after_local (self : ScheduleCalendar) (after : NaiveDateTime)
    : Result ScheduleOccurrence :=
  let? candidate := ok_or (cron_after (cal_schedule self) after)
                      (InvalidDefinition "schedule has no next occurrence") in
  resolve self candidate.

(** A loop of the model that ran out of fuel. *)
Definition FUEL_EXHAUSTED : DurableError := InvalidState "model fuel exhausted".

(** The [while next.scheduled_for <= after_millis] loop. *)
Fixpoint skip_through (fuel : nat) (self : ScheduleCalendar) (after_millis : UtcMillis)
    (next : ScheduleOccurrence) : Result ScheduleOccurrence :=
  if (oc_scheduled_for next <=? after_millis)%Z
  then match fuel with
       | O => Err FUEL_EXHAUSTED
       | S fuel' =>
           let? next := next_after_local self (oc_local_datetime next) in
           skip_through fuel' self after_millis next
       end
  else Ok next.

(** Two days of seconds: local times differ from instants by less than a day
    on either side. *)
Definition SKIP_FUEL : Z := 172801.

Definition next_after (self : ScheduleCalendar) (after : UtcMillis)
    : Result ScheduleOccurrence :=
  let? next := next_after_local self (naive_local (cal_timezone self) after) in
  skip_through (Z.to_nat SKIP_FUEL) self after next.

(** The loop of [next_runnable_through]. *)
Fixpoint runnable_from (fuel : nat) (self : ScheduleCalendar) (through : UtcMillis)
    (next : ScheduleOccurrence) : Result (option ScheduleOccurrence) :=
  if (oc_due_at next <=? through)%Z
  then
    if bool_decide (oc_disposition next ≠ Gap) then Ok (Some next)
    else match fuel with
         | O => Err FUEL_EXHAUSTED
         | S fuel' =>
             if negb (chrono_range (oc_due_at next))
             then Err (InvalidState "invalid gap timestamp")
             else
               let gap_end := naive_local (cal_timezone self) (oc_due_at next) in
               let before_gap_end := seconds_later gap_end (-1) in
               if negb (chrono_range before_gap_end)
               then Err (InvalidState "gap timestamp underflow")
               else
                 let? next := next_after_local self before_gap_end in
                 runnable_from fuel' self through next
         end
  else Ok None.

(** The seconds from [after] to a day past [through], and the slot itself. *)
Definition runnable_fuel (after : NaiveDateTime) (through : UtcMillis) : nat :=
  Z.to_nat ((through + DAY_MILLIS - after) / 1000 + 2).

Definition next_runnable_through (self : ScheduleCalendar) (after : NaiveDateTime)
    (through : UtcMillis) : Result (option ScheduleOccurrence) :=
  let? next := next_after_local self after in
  runnable_from (runnable_fuel after through) self through next.

Definition occurrence_at_local (self : ScheduleCalendar) (local_datetime : NaiveDateTime)
    : Result ScheduleOccurrence :=
  resolve self local_datetime.

(** [ScheduleOccurrence::local]. *)
Definition oc_local (self : ScheduleOccurrence) : NaiveDateTime :=
  local_occurrence_new (oc_local_datetime self).

(** * The cursor *)

Definition is_manual (r : ScheduleRunRow) : bool :=
  starts_with MANUAL_OCCURRENCE_PREFIX (sr_local_occurrence r).

(** [MAX(local_occurrence)]. *)
Fixpoint max_key (l : list string) : option string :=
  match l with
  | [] => None
  | k :: l' => match max_key l' with
               | Some m => Some (if bool_decide (String.le k m) then m else k)
               | None => Some k
               end
  end.

(** [MaterializedFloor::load] for the schedule of the locked state row. *)
Definition materialized_floor (state : ScheduleStateRow) : Tx (option NaiveDateTime) :=
  let! runs := select_schedule_runs (λ r,
      bool_decide (sr_schedule_key r = ss_schedule_key state) && negb (is_manual r)) in
  match max_key (sr_local_occurrence <$> runs) with
  | None => tx_ret None
  | Some text =>
      match parse_local text with
      | inl floor => tx_ret (Some floor)
      | inr error => tx_fail (InvalidState ("schedule " +:+ ss_schedule_key state
                       +:+ " has an invalid run occurrence " +:+ text +:+ ": " +:+ error))
      end
  end.

(** [ScheduleCursor::upgrade]: the occurrence; the cursor is its local time. *)
Definition cursor_upgrade (calendar : ScheduleCalendar) (now : UtcMillis)
    (floor : option NaiveDateTime) : Result ScheduleOccurrence :=
  let? next := next_after calendar now in
  match floor with
  | Some floor =>
      if (oc_local next <=? floor)%Z then next_after_local calendar floor else Ok next
  | None => Ok next
  end.

(** [ScheduleCursor::load]. *)
Definition cursor_load (schedule_key persisted : string) : Result NaiveDateTime :=
  match parse_local persisted with
  | inl local => Ok local
  | inr error => Err (InvalidState ("schedule " +:+ schedule_key
                   +:+ " has invalid persisted local occurrence: " +:+ error))
  end.

(** [ScheduleCursor::advance_to]. *)
Definition advance_to (self next : NaiveDateTime) : Result NaiveDateTime :=
  if (self <? next)%Z then Ok next
  else Err (InvalidState ("schedule cursor must advance: " +:+ format_local next
              +:+ " is not after " +:+ format_local self)).
End calendar.
