(* ===== verification/Parents.v ===== *)
(** Lookups and inserts of workflows, and the delivery of a child's terminal
    outcome to the parents that wait on it ([persistence/workflows.rs]), with
    what they keep. *)
From stdpp Require Import base gmap list strings relations.
From Stdlib Require Import ZArith Lia.
From S2P Require Import Prelude.
From S2P Require Import Errors.
From S2P Require Import Status.
From S2P Require Import Rows.
From S2P Require Import Database.
From S2P Require Import TxLogic.
From S2P Require Import Lifecycle.
From S2P Require Import Evolution.
From S2P Require Import Policy.
From S2P Require Import Transitions.

Definition has_deduplication_key (kind key : string) (r : WorkflowRow) : bool :=
  bool_decide (wf_kind r = kind ∧ wf_deduplication_key r = Some key).

Definition find_by_deduplication_key (kind key : string) : Tx (option WorkflowRow) :=
  let! rows := select_workflows (has_deduplication_key kind key) in
  tx_ret (head rows).

Definition find_by_deduplication_key_for_update (kind key : string) : Tx (option WorkflowRow) :=
  find_by_deduplication_key kind key.

Inductive StartedInsert :=
  | StartInserted (id : WorkflowId)
  | StartExisting (row : WorkflowRow).

Definition insert_started (workflow : WorkflowId → WorkflowRow) : Tx StartedInsert :=
  let kind := wf_kind (workflow 0%Z) in
  let deduplication_key := wf_deduplication_key (workflow 0%Z) in
  let! inserted := insert_workflow workflow in
  match inserted with
  | WorkflowInserted id =>
      let! created_at := database_now_millis in
      do! append_event (NewWorkflowEventRow id 1 (Some 1%Z) "started" None
                          (Some "system") None None created_at) in
      tx_ret (StartInserted id)
  | DeduplicationConflict =>
      let! key := tx_lift (ok_or deduplication_key
                    (InvalidState
                       "workflow deduplication conflict without a deduplication key")) in
      let! row := find_by_deduplication_key_for_update kind key in
      match row with
      | Some row => tx_ret (StartExisting row)
      | None => tx_fail (Conflict
          "duplicate start raced with an uncommitted insert outside READ COMMITTED; retry")
      end
  end.

Definition lock_workflow_by_id (workflow_id : WorkflowId) : Tx WorkflowRow :=
  let! row := find_workflow workflow_id (λ _, true) in
  first_or_not_found row.

Definition waits_on_child (child_workflow_id : WorkflowId) (r : WorkflowRow) : bool :=
  bool_decide (wf_wait_kind r = Some KindChild
               ∧ wf_wait_reference_id r = Some child_workflow_id)
  && set_contains CHILD_WAITERS (wf_status r).

(** [paused] stays paused; every other waiter becomes ready. *)
Definition woken_status (status : WorkflowStatus) : WorkflowStatus :=
  if bool_decide (status = WfPaused) then WfPaused else WfReady.

(** The fence on the status and both wait columns of the row as loaded. *)
Definition same_wait (row : WorkflowRow) (r : WorkflowRow) : bool :=
  bool_decide (wf_status r = wf_status row ∧ wf_wait_kind r = wf_wait_kind row
               ∧ wf_wait_reference_id r = wf_wait_reference_id row).

(** The wake's changeset: status, both wait columns, [available_at] and
    [updated_at]. *)
Definition woken (next_status : WorkflowStatus) (now : DbMillis) (r : WorkflowRow)
    : WorkflowRow :=
  WaitColumns_cleared (r <| wf_status := next_status |>)
    <| wf_available_at := now |> <| wf_updated_at := now |>.

Section parents.
Context `{Codec}.

Definition child_event (command_sequence : Z) (child_kind : string) (child_version : Z)
    (outcome : string + string * string) : Result (string * WorkflowEvent) :=
  match outcome with
  | inl output_json =>
      let? result := new_child_result child_kind child_version output_json in
      Ok ("child_succeeded", ChildSucceeded command_sequence result)
  | inr (category, message) =>
      Ok ("child_failed",
          ChildFailed command_sequence child_kind child_version category message)
  end.

Definition wake_loaded_parent_on_child_terminal (parent : WorkflowRow)
    (child_workflow_id : WorkflowId) (child_kind : string) (child_version : Z)
    (outcome : string + string * string) (now : DbMillis) : Tx unit :=
  if negb (awaits_child (wf_status parent)) then tx_ret tt
  else
    let! wait := tx_lift (wf_wait parent) in
    if bool_decide (wait ≠ Some (WaitChild child_workflow_id)) then tx_ret tt
    else
      let! command_sequence := tx_lift (ok_or (u32_try_from (wf_command_sequence parent))
            (InvalidState ("workflow " +:+ fmt (wf_id parent)
                           +:+ " has a negative command sequence"))) in
      let! typed := tx_lift (child_event command_sequence child_kind child_version outcome) in
      let! delivery_sequence :=
        tx_lift (ok_or (i32_checked_add (wf_delivered_event_sequence parent) 1)
          (InvalidState "workflow delivery sequence overflow")) in
      let! sequence := next_event_sequence (wf_id parent) in
      do! append_event (NewWorkflowEventRow (wf_id parent) sequence
            (Some delivery_sequence) typed.1 (Some (event_to_json typed.2))
            (Some "system") None None now) in
      let! changed := update_workflow (wf_id parent) (same_wait parent)
                        (woken (woken_status (wf_status parent)) now) in
      ensure_fenced changed.

Definition wake_waiting_parents_on_child_terminal (child : WorkflowRow)
    (outcome : string + string * string) (now : DbMillis) : Tx unit :=
  let! parents := select_workflows (waits_on_child (wf_id child)) in
  tx_for parents (λ parent,
    wake_loaded_parent_on_child_terminal parent (wf_id child) (wf_kind child)
      (wf_version child) outcome now).
End parents.

(** * What they keep *)

(** Instance search does not look into the operations. *)
#[export] Hint Opaque find_by_deduplication_key find_by_deduplication_key_for_update
  insert_started lock_workflow_by_id wake_loaded_parent_on_child_terminal
  wake_waiting_parents_on_child_terminal : typeclass_instances.

(** A parsed wait is the pair of wait columns. *)
Lemma wait_parse_Some id kind reference w :
  wait_parse id kind reference = Ok (Some w) →
  kind = Some (wait_kind w) ∧ reference = Some (reference_id w).
Proof.
  destruct kind as [[]|], reference as [n|]; simpl; try done; unfold u32_try_from, new_id;
    repeat case_match; simpl in *; by intros [= <-].
Qed.

Lemma wait_parse_None id kind reference :
  wait_parse id kind reference = Ok None → kind = None ∧ reference = None.
Proof.
  destruct kind as [[]|], reference as [n|]; simpl; try done; unfold u32_try_from, new_id;
    repeat case_match; simpl in *; done.
Qed.

Lemma wf_wait_Some r w : wf_wait r = Ok (Some w) → waits r w.
Proof. apply wait_parse_Some. Qed.

Lemma wf_wait_None r : wf_wait r = Ok None → no_wait r.
Proof. apply wait_parse_None. Qed.

Lemma same_wait_spec row r :
  same_wait row r = true →
  wf_status r = wf_status row ∧ wf_wait_kind r = wf_wait_kind row
  ∧ wf_wait_reference_id r = wf_wait_reference_id row.
Proof. unfold same_wait. by rewrite bool_decide_eq_true. Qed.

Lemma same_wait_refl r : same_wait r r = true.
Proof. by apply bool_decide_eq_true. Qed.

(** A wake under the fence of the row as loaded: the row was suspended, or
    paused on a child or an approval. *)
Lemma woken_step row r now w :
  same_wait row r = true → wf_wait row = Ok (Some w) →
  suspended (wf_status row)
  ∨ wf_status row = WfPaused ∧ (wait_kind w = KindChild ∨ wait_kind w = KindApproval) →
  wf_step r (woken (woken_status (wf_status row)) now r).
Proof.
  intros (Es & Ek & Er)%same_wait_spec [Hk Hr]%wf_wait_Some Hs. columns.
  destruct Hs as [Hs|[Hs Hw]].
  - apply ws_wake; columns; [by rewrite Es|]. by destruct Hs as [->|[->|[->| ->]]].
  - apply ws_wake_paused; columns; [by rewrite Es|by rewrite Hs|].
    rewrite Ek, Hk. destruct Hw as [->| ->]; auto.
Qed.

Lemma woken_by_child_step row r now c :
  same_wait row r = true → wf_wait row = Ok (Some (WaitChild c)) →
  awaits_child (wf_status row) = true →
  wf_step r (woken (woken_status (wf_status row)) now r).
Proof.
  intros Hsame Hw Ha. eapply woken_step; [done..|]. unfold suspended.
  destruct (wf_status row); simpl in *; naive_solver.
Qed.
#[export] Hint Resolve woken_by_child_step same_wait_refl : steps.

#[export] Instance find_by_deduplication_key_evolves kind key :
  Evolves (find_by_deduplication_key kind key).
Proof. unfold find_by_deduplication_key. evolves. Qed.

#[export] Instance find_by_deduplication_key_for_update_evolves kind key :
  Evolves (find_by_deduplication_key_for_update kind key).
Proof. apply find_by_deduplication_key_evolves. Qed.

#[export] Instance insert_started_evolves workflow `{!NewWorkflow workflow} :
  Evolves (insert_started workflow).
Proof. unfold insert_started. evolves. Qed.

#[export] Instance lock_workflow_by_id_evolves id : Evolves (lock_workflow_by_id id).
Proof. unfold lock_workflow_by_id. evolves. Qed.

Section parents.
Context `{Codec}.

#[export] Instance wake_loaded_parent_evolves parent child kind version outcome now :
  Evolves (wake_loaded_parent_on_child_terminal parent child kind version outcome now).
Proof. unfold wake_loaded_parent_on_child_terminal. evolves. Qed.

#[export] Instance wake_waiting_parents_evolves child outcome now :
  Evolves (wake_waiting_parents_on_child_terminal child outcome now).
Proof. unfold wake_waiting_parents_on_child_terminal. evolves. Qed.
End parents.
