(* ===== verification/Store.v ===== *)
(** The application API ([store.rs]): start (T-X1), recoverable start (T-X2),
    cancel (T-X3) with its cascade to owned children, and the child insert of
    a parent's commit. *)
From stdpp Require Import base gmap list strings.
From Stdlib Require Import ZArith Lia.
From S2P Require Import Prelude.
From S2P Require Import Errors.
From S2P Require Import Status.
From S2P Require Import Rows.
From S2P Require Import Database.
From S2P Require Import Policy.
From S2P Require Import Transitions.
From S2P Require Import Registry.
From S2P Require Import Parents.

Definition DEFAULT_MAX_ACTIVATION_ATTEMPTS : Z := 8.
Definition MAX_DEDUPLICATION_KEY_CHARS : nat := 191.

Inductive StartLineage :=
  | Fresh
  | Deduplicated (key : string)
  | Restart (root from : WorkflowId).

Record StartOptions := MkStartOptions {
  so_available_at : option DbMillis;
  so_schedule_run_id : option ScheduleRunId;
  so_lineage : StartLineage;
}.

Definition default_options : StartOptions := MkStartOptions None None Fresh.

Definition with_dedup_key (self : StartOptions) (key : string) : StartOptions :=
  MkStartOptions (so_available_at self) (so_schedule_run_id self) (Deduplicated key).

Definition deduplication_key (self : StartOptions) : option string :=
  match so_lineage self with Deduplicated key => Some key | _ => None end.

Definition restarted (self : StartOptions) (root from : WorkflowId) : StartOptions :=
  MkStartOptions (so_available_at self) (so_schedule_run_id self) (Restart root from).

Definition root_workflow_id (self : StartOptions) : option WorkflowId :=
  match so_lineage self with Restart root _ => Some root | _ => None end.

Definition restarted_from_workflow_id (self : StartOptions) : option WorkflowId :=
  match so_lineage self with Restart _ from => Some from | _ => None end.

Record StartOutcome := MkStartOutcome { started_id : WorkflowId; started_inserted : bool }.

Definition key_length_ok (key : string) : bool :=
  (0 <? chars_count key)%nat && (chars_count key <=? MAX_DEDUPLICATION_KEY_CHARS)%nat.

Definition validate_options (options : StartOptions) : Result unit :=
  match deduplication_key options with
  | Some key =>
      if key_length_ok key then Ok tt
      else Err (InvalidDefinition
                  "workflow deduplication key must contain 1 to 191 characters")
  | None => Ok tt
  end.

Definition validate_workflow_definition (kind : string) (version : Z) : Result unit :=
  if (str_len kind =? 0)%nat || (version <=? 0)%Z
  then Err (InvalidDefinition "workflow kind must be non-empty and version must be positive")
  else Ok tt.

(** [prepare_start] on the serialized input and initial state. *)
Definition prepare_start (kind : string) (version : Z) (input_json state_json : string)
    (options : StartOptions) : Result (string * string) :=
  let? _ := validate_workflow_definition kind version in
  let? _ := validate_options options in
  let? _ := ensure_size "workflow input" input_json MAX_INPUT_STATE_PAYLOAD_BYTES in
  let? _ := ensure_size "workflow state" state_json MAX_INPUT_STATE_PAYLOAD_BYTES in
  Ok (input_json, state_json).

Definition check_prepared_start (prepared : PreparedWorkflowStart) (options : StartOptions)
    : Result unit :=
  let? _ := validate_options options in
  let? _ := ensure_size "workflow input" (ps_input_json prepared)
              MAX_INPUT_STATE_PAYLOAD_BYTES in
  ensure_size "workflow state" (ps_state_json prepared) MAX_INPUT_STATE_PAYLOAD_BYTES.

(** * T-X1 *)

(** The [NewWorkflowRow] of a start. *)
Definition new_started_row (kind : string) (version : Z) (input_json state_json : string)
    (options : StartOptions) (now : DbMillis) : WorkflowId → WorkflowRow := λ id,
  {| wf_id := id; wf_kind := kind; wf_version := version;
     wf_input_json := input_json; wf_state_json := state_json; wf_state_version := 1;
     wf_status := WfReady; wf_result_json := None;
     wf_error_category := None; wf_error_message := None;
     wf_wait_kind := None; wf_wait_reference_id := None;
     wf_available_at := default now (so_available_at options);
     wf_activation_attempts := 0;
     wf_max_activation_attempts := DEFAULT_MAX_ACTIVATION_ATTEMPTS;
     wf_consecutive_continuations := 0;
     wf_lease_owner := None; wf_lease_token := None; wf_lease_expires_at := None;
     wf_deduplication_key := deduplication_key options;
     wf_schedule_run_id := so_schedule_run_id options;
     wf_root_workflow_id := root_workflow_id options;
     wf_restarted_from_workflow_id := restarted_from_workflow_id options;
     wf_parent_workflow_id := None; wf_parent_command_sequence := None;
     wf_command_sequence := 0; wf_delivered_event_sequence := 0;
     wf_created_at := now; wf_updated_at := now; wf_completed_at := None |}.

Definition insert_prepared_untraced (kind : string) (version : Z)
    (input_json state_json : string) (options : StartOptions) : Tx StartOutcome :=
  let! found := match deduplication_key options with
                | Some key => find_by_deduplication_key kind key
                | None => tx_ret None
                end in
  match found with
  | Some existing => tx_ret (MkStartOutcome (wf_id existing) false)
  | None =>
      let! now := database_now_millis in
      let! inserted := insert_started
                         (new_started_row kind version input_json state_json options now) in
      tx_ret (match inserted with
              | StartInserted id => MkStartOutcome id true
              | StartExisting existing => MkStartOutcome (wf_id existing) false
              end)
  end.

(** [insert_prepared] adds only the trace record. *)
Definition insert_prepared := insert_prepared_untraced.

Definition start (kind : string) (version : Z) (input_json state_json : string)
    (options : StartOptions) : Tx StartOutcome :=
  let! prepared := tx_lift (prepare_start kind version input_json state_json options) in
  insert_prepared kind version prepared.1 prepared.2 options.

Definition start_prepared_in (prepared : PreparedWorkflowStart) (options : StartOptions)
    : Tx StartOutcome :=
  insert_prepared (ps_kind prepared) (ps_version prepared) (ps_input_json prepared)
    (ps_state_json prepared) options.

Definition start_prepared_with_conn (prepared : PreparedWorkflowStart)
    (options : StartOptions) : Tx StartOutcome :=
  do! tx_lift (check_prepared_start prepared options) in
  start_prepared_in prepared options.

Definition find_by_deduplication_key_with_conn (kind : string) (version : Z) (key : string)
    : Tx (option WorkflowId) :=
  do! tx_lift (validate_workflow_definition kind version) in
  do! tx_lift (validate_options (with_dedup_key default_options key)) in
  let! existing := find_by_deduplication_key kind key in
  tx_ret (wf_id <$> existing).

(** * Generations

    The restart chain is walked along the unique restart key. [fuel] bounds
    the walk; [db_fuel] is the number of rows plus one, and a chain without
    a cycle is shorter. *)
Definition lock_successor (row : WorkflowRow) : Tx (option WorkflowRow) :=
  let! rows := select_workflows (λ r,
      bool_decide (wf_restarted_from_workflow_id r = Some (wf_id row))) in
  tx_ret (head rows).

Definition out_of_fuel {A} : Tx A := tx_fail (InvalidState "model fuel exhausted").

Fixpoint lock_newest_generation (fuel : nat) (row : WorkflowRow) : Tx WorkflowRow :=
  match fuel with
  | O => out_of_fuel
  | S fuel' =>
      let! successor := lock_successor row in
      match successor with
      | Some successor => lock_newest_generation fuel' successor
      | None => tx_ret row
      end
  end.

Definition db_fuel : Tx nat :=
  let! d := tx_get in tx_ret (S (size (db_workflow d))).

(** * T-X3: cancel *)

(** The reason is [operator_id]'s or the application's. *)
Definition cancelled_activity_running (attempt_outcome : AttemptOutcome) (reason : string)
    (now : DbMillis) (r : ActivityRow) : ActivityRow :=
  r <| ac_status := ActCancelling |>
    <| ac_last_error_category := Some (as_str attempt_outcome) |>
    <| ac_last_error_message := Some reason |>
    <| ac_updated_at := now |>.

Definition cancelled_activity_pending (now : DbMillis) (r : ActivityRow) : ActivityRow :=
  LeaseCleared (r <| ac_status := ActCancelled |>)
    <| ac_updated_at := now |> <| ac_completed_at := Some now |>.

Definition cancel_activity (activity : ActivityRow) (reason : string)
    (attempt_outcome : AttemptOutcome) (now : DbMillis) : Tx unit :=
  let! changed :=
    match ac_status activity with
    | ActRunning | ActCancelling =>
        let! lease_token := tx_lift (ok_or (ac_lease_token activity)
              (InvalidState (as_str (ac_status activity) +:+ " activity "
                 +:+ fmt (ac_id activity) +:+ " has no lease token"))) in
        update_activity (ac_id activity)
          (λ r, bool_decide (ac_status r = ac_status activity
                             ∧ ac_attempt_count r = ac_attempt_count activity
                             ∧ ac_lease_token r = Some lease_token))
          (cancelled_activity_running attempt_outcome reason now)
    | ActPending =>
        update_activity (ac_id activity)
          (λ r, bool_decide (ac_status r = ActPending))
          (cancelled_activity_pending now)
    | ActSucceeded | ActDeadLettered | ActCancelled =>
        tx_fail (InvalidState ("cancel loaded activity " +:+ fmt (ac_id activity)
                 +:+ " in terminal status " +:+ as_str (ac_status activity)))
    end in
  ensure_fenced changed.

Definition cancel_activities (workflow_id : WorkflowId) (reason : string)
    (attempt_outcome : AttemptOutcome) (now : DbMillis) : Tx unit :=
  let! activities := select_activities (λ r,
      bool_decide (ac_workflow_id r = workflow_id) && set_contains NON_TERMINAL (ac_status r)) in
  tx_for activities (λ activity, cancel_activity activity reason attempt_outcome now).

Definition attempt_open (lease_token : string) (r : ActivityAttemptRow) : bool :=
  bool_decide (att_lease_token r = lease_token ∧ att_finished_at r = None).

Definition close_attempt (activity : ActivityRow) (outcome : AttemptOutcome) (reason : string)
    (now : DbMillis) : Tx unit :=
  let! lease_token := tx_lift (ok_or (ac_lease_token activity)
        (InvalidState ("running activity " +:+ fmt (ac_id activity)
                       +:+ " has no lease token"))) in
  let! changed := update_attempt (ac_id activity, ac_attempt_count activity)
    (attempt_open lease_token)
    (λ r, r <| att_finished_at := Some now |> <| att_outcome := Some outcome |>
            <| att_error_category := Some (as_str outcome) |>
            <| att_error_message := Some reason |>) in
  ensure_fenced changed.

Definition cancel_approvals (workflow_id : WorkflowId) (reason : string) (now : DbMillis)
    : Tx unit :=
  let! approvals := select_approvals (λ r,
      bool_decide (ap_workflow_id r = workflow_id ∧ ap_status r = ApprPending)) in
  tx_for approvals (λ approval,
    let! changed := update_approval (ap_id approval)
      (λ r, bool_decide (ap_status r = ApprPending))
      (λ r, r <| ap_status := ApprCancelled |> <| ap_operator_reason := Some reason |>
              <| ap_resolved_at := Some now |>) in
    ensure_fenced changed).

(** The children the engine keyed for this parent. The [LIKE] prefix of the
    source only narrows the read; the exact key decides. *)
Definition child_key (parent_id : WorkflowId) (command : Z) : string :=
  "child:" +:+ fmt parent_id +:+ ":" +:+ fmt command.

Definition workflow_id_le (a b : WorkflowRow) : bool := (wf_id a <=? wf_id b)%Z.

Definition owned_child (parent_id : WorkflowId) (r : WorkflowRow) : bool :=
  match wf_parent_command_sequence r with
  | Some command => bool_decide (wf_deduplication_key r = Some (child_key parent_id command))
  | None => false
  end.

Definition owned_children (parent_id : WorkflowId) : Tx (list WorkflowId) :=
  let! children := select_workflows (λ r,
      bool_decide (wf_parent_workflow_id r = Some parent_id)
      && match wf_deduplication_key r with
         | Some key => starts_with ("child:" +:+ fmt parent_id +:+ ":") key
         | None => false
         end) in
  tx_ret (wf_id <$> filter (λ r, owned_child parent_id r = true)
            (sort_by workflow_id_le children)).

(** The changeset of a cancelled workflow. *)
Definition cancelled_row (now : DbMillis) (r : WorkflowRow) : WorkflowRow :=
  wf_lease_cleared (WaitColumns_cleared (r <| wf_status := WfCancelled |>))
    <| wf_updated_at := now |> <| wf_completed_at := Some now |>.

(** The changeset of a superseded workflow: it keeps its wait columns. *)
Definition superseded_row (now : DbMillis) (r : WorkflowRow) : WorkflowRow :=
  wf_lease_cleared (r <| wf_status := WfCancelled |>)
    <| wf_updated_at := now |> <| wf_completed_at := Some now |>.

Definition SUPERSEDED_BY_RECOVERY : string := "a successor recovery generation was started".

Section store.
Context `{Codec}.

Definition cancel_one_workflow (workflow : WorkflowRow) (reason : string)
    (operator_id : option string) (now : DbMillis) : Tx unit :=
  let attempt_outcome :=
    if bool_decide (is_Some operator_id)
    then OutOperatorCancelled else OutApplicationCancelled in
  do! cancel_activities (wf_id workflow) reason attempt_outcome now in
  do! cancel_approvals (wf_id workflow) reason now in
  let! changed := update_workflow (wf_id workflow)
      (λ r, bool_decide (wf_status r = wf_status workflow)) (cancelled_row now) in
  do! ensure_fenced changed in
  let! sequence := next_event_sequence (wf_id workflow) in
  do! append_event (NewWorkflowEventRow (wf_id workflow) sequence None
        "workflow_cancelled" None
        (Some (if bool_decide (is_Some operator_id) then "operator" else "system"))
        operator_id (Some reason) now) in
  wake_waiting_parents_on_child_terminal workflow (inr ("child_cancelled", reason)) now.

(** The inner [loop] over the generations of one owned child; returns the
    generations it cancelled, oldest first. *)
Fixpoint cancel_generations (fuel : nat) (generation : WorkflowRow) (reason : string)
    (operator_id : option string) (now : DbMillis) : Tx (list WorkflowId) :=
  match fuel with
  | O => out_of_fuel
  | S fuel' =>
      let! cancelled :=
        if is_terminal (wf_status generation) then tx_ret []
        else do! cancel_one_workflow generation reason operator_id now in
             tx_ret [wf_id generation] in
      let! successor := lock_successor generation in
      match successor with
      | None => tx_ret cancelled
      | Some successor =>
          let! rest := cancel_generations fuel' successor reason operator_id now in
          tx_ret (cancelled ++ rest)
      end
  end.

(** The [for child_id in owned_children] loop: the work it pushes. *)
Fixpoint cancel_children (children : list WorkflowId) (reason : string)
    (operator_id : option string) (now : DbMillis) : Tx (list (WorkflowId * string)) :=
  match children with
  | [] => tx_ret []
  | child_id :: rest =>
      let! generation := lock_workflow_by_id child_id in
      let! fuel := db_fuel in
      let! cancelled := cancel_generations fuel generation reason operator_id now in
      let! more := cancel_children rest reason operator_id now in
      tx_ret (((λ id, (id, reason)) <$> cancelled) ++ more)
  end.

(** The work list: [pop] takes the last element, pushes go to the end. Here
    the list is kept reversed, so the next element is its head. *)
Fixpoint cancel_worklist (fuel : nat) (parents : list (WorkflowId * string))
    (operator_id : option string) (now : DbMillis) : Tx unit :=
  match parents with
  | [] => tx_ret tt
  | (parent_id, parent_reason) :: parents' =>
      match fuel with
      | O => out_of_fuel
      | S fuel' =>
          let reason := truncate_utf8
            ("parent workflow " +:+ fmt parent_id +:+ " cancelled: " +:+ parent_reason)
            MAX_ERROR_REASON_BYTES in
          let! children := owned_children parent_id in
          let! pushed := cancel_children children reason operator_id now in
          cancel_worklist fuel' (reverse pushed ++ parents') operator_id now
      end
  end.

Definition cancel_owned_descendants (parent : WorkflowRow) (reason : string)
    (operator_id : option string) (now : DbMillis) : Tx unit :=
  let! fuel := db_fuel in
  cancel_worklist fuel [(wf_id parent, reason)] operator_id now.

Definition cancel_locked_workflow (workflow : WorkflowRow) (reason : string)
    (operator_id : option string) (now : DbMillis) : Tx unit :=
  do! cancel_one_workflow workflow reason operator_id now in
  cancel_owned_descendants workflow reason operator_id now.

Definition cancel_with_conn (workflow_id : WorkflowId) (reason : string) : Tx unit :=
  let reason := trim reason in
  if (str_len reason =? 0)%nat || (MAX_ERROR_REASON_BYTES <? str_len reason)%nat
  then tx_fail (InvalidDefinition "cancellation reason must contain 1 to 2048 bytes")
  else
    let! workflow := find_workflow workflow_id (λ _, true) in
    let! workflow := tx_lift (ok_or workflow (NotFound "workflow" (fmt workflow_id))) in
    if is_terminal (wf_status workflow) then tx_ret tt
    else
      let! now := database_now_millis in
      cancel_locked_workflow workflow reason None now.

(** * T-X2 *)

(** [json!({"from": from, "to": to}).to_string()]. *)
Definition reattach_metadata (from to : WorkflowId) : string :=
  "{" +:+ quoted "from" +:+ ":" +:+ fmt from +:+ "," +:+ quoted "to" +:+ ":" +:+ fmt to
  +:+ "}".

Definition hand_waiting_parents_to_successor (superseded : WorkflowRow)
    (successor : WorkflowId) (successor_version : Z) (now : DbMillis) : Tx unit :=
  if bool_decide (successor_version ≠ wf_version superseded)
  then wake_waiting_parents_on_child_terminal superseded
         (inr ("child_superseded",
               "child workflow " +:+ fmt (wf_id superseded)
               +:+ " was superseded by recovery generation " +:+ fmt successor
               +:+ " at version " +:+ fmt successor_version)) now
  else
    let! parents := select_workflows (waits_on_child (wf_id superseded)) in
    tx_for parents (λ parent,
      let! changed := update_workflow (wf_id parent)
        (λ r, bool_decide (wf_status r = wf_status parent
                           ∧ wf_wait_kind r = Some KindChild
                           ∧ wf_wait_reference_id r = Some (wf_id superseded)))
        (λ r, WaitColumns_on (WaitChild successor) r <| wf_updated_at := now |>) in
      do! ensure_fenced changed in
      let! sequence := next_event_sequence (wf_id parent) in
      append_event (NewWorkflowEventRow (wf_id parent) sequence None
        "child_wait_reattached"
        (Some (reattach_metadata (wf_id superseded) successor))
        (Some "system") None
        (Some ("child workflow " +:+ fmt (wf_id superseded)
               +:+ " was superseded by recovery generation " +:+ fmt successor)) now)).

Definition recoverable_start_in (kind : string) (version : Z)
    (input_json state_json : string) (options : StartOptions) : Tx StartOutcome :=
  match deduplication_key options with
  | None => insert_prepared kind version input_json state_json options
  | Some key =>
      let! original := find_by_deduplication_key kind key in
      match original with
      | None => insert_prepared_untraced kind version input_json state_json options
      | Some original =>
          let root_id := default (wf_id original) (wf_root_workflow_id original) in
          let! fuel := db_fuel in
          let! latest := lock_newest_generation fuel original in
          if negb (is_start_recoverable (wf_status latest))
          then tx_ret (MkStartOutcome (wf_id latest) false)
          else
            let! successor := insert_prepared_untraced kind version input_json state_json
                                (restarted options root_id (wf_id latest)) in
            let! now := database_now_millis in
            do! update_activities
                  (λ r, bool_decide (ac_workflow_id r = wf_id latest
                                     ∧ ac_status r = ActDeadLettered))
                  (cancelled_activity_pending now) in
            do! (if bool_decide (wf_status latest = WfBlocked) then
                   let! changed := update_workflow (wf_id latest)
                       (λ r, bool_decide (wf_status r = WfBlocked)) (superseded_row now) in
                   do! ensure_fenced changed in
                   let! sequence := next_event_sequence (wf_id latest) in
                   do! append_event (NewWorkflowEventRow (wf_id latest) sequence None
                         "workflow_superseded_by_recovery" None (Some "system") None
                         (Some SUPERSEDED_BY_RECOVERY) now) in
                   do! hand_waiting_parents_to_successor latest (started_id successor)
                         version now in
                   cancel_owned_descendants latest SUPERSEDED_BY_RECOVERY None now
                 else tx_ret tt) in
            tx_ret successor
      end
  end.

Definition start_or_restart_recoverable (kind : string) (version : Z)
    (input_json state_json : string) (options : StartOptions) : Tx StartOutcome :=
  let! prepared := tx_lift (prepare_start kind version input_json state_json options) in
  recoverable_start_in kind version prepared.1 prepared.2 options.

(** * Child inserts *)

(** The [NewWorkflowRow] of a child. *)
Definition new_child_row (child : ChildWorkflowCommand) (key : string)
    (parent_workflow_id : WorkflowId) (parent_command_sequence : Z)
    (root : WorkflowId) (now : DbMillis) : WorkflowId → WorkflowRow := λ id,
  {| wf_id := id; wf_kind := ch_kind child; wf_version := ch_version child;
     wf_input_json := ch_input_json child; wf_state_json := ch_state_json child;
     wf_state_version := 1; wf_status := WfReady; wf_result_json := None;
     wf_error_category := None; wf_error_message := None;
     wf_wait_kind := None; wf_wait_reference_id := None; wf_available_at := now;
     wf_activation_attempts := 0;
     wf_max_activation_attempts := DEFAULT_MAX_ACTIVATION_ATTEMPTS;
     wf_consecutive_continuations := 0;
     wf_lease_owner := None; wf_lease_token := None; wf_lease_expires_at := None;
     wf_deduplication_key := Some key; wf_schedule_run_id := None;
     wf_root_workflow_id := Some root; wf_restarted_from_workflow_id := None;
     wf_parent_workflow_id := Some parent_workflow_id;
     wf_parent_command_sequence := Some parent_command_sequence;
     wf_command_sequence := 0; wf_delivered_event_sequence := 0;
     wf_created_at := now; wf_updated_at := now; wf_completed_at := None |}.

Definition insert_new_child (child : ChildWorkflowCommand) (key : string)
    (parent_workflow_id : WorkflowId) (parent_command_sequence : Z) (root : WorkflowId)
    : Tx StartedInsert :=
  let! now := database_now_millis in
  insert_started (new_child_row child key parent_workflow_id parent_command_sequence root now).

Inductive ChildStart :=
  | ChildInserted (id : WorkflowId)
  | ChildExisting (row : WorkflowRow).

Definition child_start_id (self : ChildStart) : WorkflowId :=
  match self with ChildInserted id => id | ChildExisting row => wf_id row end.

Definition child_start_inserted (self : ChildStart) : bool :=
  match self with ChildInserted _ => true | ChildExisting _ => false end.

(** The tail of [insert_child] on the locked keyed row. *)
Definition resolve_existing_child (child : ChildWorkflowCommand) (keyed : WorkflowRow)
    : Tx ChildStart :=
  let! fuel := db_fuel in
  let! existing := lock_newest_generation fuel keyed in
  if bool_decide (wf_version existing ≠ ch_version child)
  then tx_fail (DefinitionMismatch (wf_kind existing) (wf_version existing)
                  (ch_kind child) (ch_version child))
  else tx_ret (ChildExisting existing).

Definition insert_child (child : ChildWorkflowCommand) (key : string)
    (parent_workflow_id : WorkflowId) (parent_command_sequence : Z) (root : WorkflowId)
    : Tx ChildStart :=
  if negb (key_length_ok key)
  then tx_fail (InvalidDefinition
         "child workflow deduplication key must contain 1 to 191 characters")
  else
    let! found := find_by_deduplication_key (ch_kind child) key in
    match found with
    | Some keyed =>
        let! keyed := lock_workflow_by_id (wf_id keyed) in
        resolve_existing_child child keyed
    | None =>
        let! inserted := insert_new_child child key parent_workflow_id
                           parent_command_sequence root in
        match inserted with
        | StartInserted id => tx_ret (ChildInserted id)
        | StartExisting keyed => resolve_existing_child child keyed
        end
    end.
End store.
