(* ===== verification/StoreSteps.v ===== *)
(** The operations of [Store] move rows by the documented steps. *)
From stdpp Require Import base gmap list strings relations.
From Stdlib Require Import ZArith Lia.
From S2P Require Import Prelude.
From S2P Require Import Errors.
From S2P Require Import Status.
From S2P Require Import Rows.
From S2P Require Import Database.
From S2P Require Import TxLogic.
From S2P Require Import Lifecycle.
From S2P Require Import Evolution.
From S2P Require Import Policy.
From S2P Require Import Transitions.
From S2P Require Import Registry.
From S2P Require Import Parents.
From S2P Require Import Store.

(** Instance search does not look into the operations. *)
#[export] Hint Opaque insert_prepared_untraced start start_prepared_in
  start_prepared_with_conn find_by_deduplication_key_with_conn lock_successor out_of_fuel
  lock_newest_generation db_fuel cancel_activity cancel_activities close_attempt
  cancel_approvals owned_children cancel_one_workflow cancel_generations cancel_children
  cancel_worklist cancel_owned_descendants cancel_locked_workflow cancel_with_conn
  hand_waiting_parents_to_successor recoverable_start_in start_or_restart_recoverable
  insert_new_child resolve_existing_child insert_child : typeclass_instances.

(** * The changesets *)

#[export] Instance new_started_row_new kind version input state options now :
  NewWorkflow (new_started_row kind version input state options now).
Proof. split; intros; columns. done. Qed.

#[export] Instance new_child_row_new child key parent command root now :
  NewWorkflow (new_child_row child key parent command root now).
Proof. split; intros; columns. done. Qed.

Lemma cancelled_row_step now r :
  is_terminal (wf_status r) = false → wf_step r (cancelled_row now r).
Proof. intros Hr. columns. apply ws_cancel; columns. Qed.

Lemma cancelled_row_fenced_step now row r :
  wf_status r = wf_status row → is_terminal (wf_status row) = false →
  wf_step r (cancelled_row now r).
Proof. intros <-. apply cancelled_row_step. Qed.

Lemma superseded_row_step now r :
  wf_status r = WfPaused ∨ wf_status r = WfBlocked → wf_step r (superseded_row now r).
Proof. intros Hr. columns. apply ws_supersede; columns. Qed.

Lemma superseded_blocked_step now r :
  wf_status r = WfBlocked → wf_step r (superseded_row now r).
Proof. auto using superseded_row_step. Qed.

Lemma cancelled_activity_running_step outcome reason now r :
  ac_status r = ActRunning ∨ ac_status r = ActCancelling →
  ac_step r (cancelled_activity_running outcome reason now r).
Proof. intros [Hr|Hr]; columns; apply as_revoke_cancel; columns; by rewrite Hr. Qed.

Lemma cancelled_activity_pending_step now r :
  ac_status r = ActPending ∨ ac_status r = ActDeadLettered →
  ac_step r (cancelled_activity_pending now r).
Proof. intros [Hr|Hr]; columns; [apply as_cancel|apply as_recover]; columns. Qed.

Lemma closed_attempt_step token r now outcome category message :
  attempt_open token r = true →
  att_step r (r <| att_finished_at := Some now |> <| att_outcome := Some outcome |>
                <| att_error_category := category |> <| att_error_message := message |>).
Proof.
  unfold attempt_open. rewrite bool_decide_eq_true. intros [_ Hr].
  columns. eapply ats_close; columns.
Qed.

Lemma cancelled_approval_step reason now r :
  ap_status r = ApprPending →
  ap_step r (r <| ap_status := ApprCancelled |> <| ap_operator_reason := reason |>
               <| ap_resolved_at := Some now |>).
Proof. intros Hr. columns. apply aps_close; columns. Qed.

Lemma reattached_step (parent r : WorkflowRow) (source successor : WorkflowId) (now : DbMillis) :
  wf_status r = wf_status parent → wf_wait_kind r = Some KindChild →
  waits_on_child source parent = true →
  wf_step r (WaitColumns_on (WaitChild successor) r <| wf_updated_at := now |>).
Proof.
  unfold waits_on_child. intros Es Ek [_ Hp]%andb_true_iff. columns.
  eapply (ws_reattach _ _ successor); columns. rewrite Es.
  destruct (wf_status parent); simpl in Hp; naive_solver.
Qed.
#[export] Hint Resolve cancelled_row_fenced_step superseded_blocked_step
  cancelled_activity_running_step
  cancelled_activity_pending_step closed_attempt_step cancelled_approval_step
  reattached_step : steps.
#[export] Hint Extern 0 (is_terminal _ = false) => assumption : typeclass_instances.

(** * Starts *)

#[export] Instance insert_prepared_untraced_evolves kind version input state options :
  Evolves (insert_prepared_untraced kind version input state options).
Proof. unfold insert_prepared_untraced. evolves. Qed.

#[export] Instance insert_prepared_evolves kind version input state options :
  Evolves (insert_prepared kind version input state options).
Proof. apply insert_prepared_untraced_evolves. Qed.

#[export] Instance start_evolves kind version input state options :
  Evolves (start kind version input state options).
Proof. unfold start. evolves. Qed.

#[export] Instance start_prepared_in_evolves prepared options :
  Evolves (start_prepared_in prepared options).
Proof. apply insert_prepared_evolves. Qed.

#[export] Instance start_prepared_with_conn_evolves prepared options :
  Evolves (start_prepared_with_conn prepared options).
Proof. unfold start_prepared_with_conn. evolves. Qed.

(** * Cancellation *)

#[export] Instance lock_successor_evolves row : Evolves (lock_successor row).
Proof. unfold lock_successor. evolves. Qed.

#[export] Instance db_fuel_evolves : Evolves db_fuel.
Proof. unfold db_fuel. evolves. Qed.

#[export] Instance out_of_fuel_evolves {A} : Evolves (@out_of_fuel A).
Proof. unfold out_of_fuel. evolves. Qed.

#[export] Instance lock_newest_generation_evolves fuel row :
  Evolves (lock_newest_generation fuel row).
Proof. revert row. induction fuel; intros row; simpl; evolves. Qed.

#[export] Instance cancel_activity_evolves activity reason outcome now :
  Evolves (cancel_activity activity reason outcome now).
Proof. unfold cancel_activity. evolves. Qed.

#[export] Instance cancel_activities_evolves id reason outcome now :
  Evolves (cancel_activities id reason outcome now).
Proof. unfold cancel_activities. evolves. Qed.

#[export] Instance close_attempt_evolves activity outcome reason now :
  Evolves (close_attempt activity outcome reason now).
Proof. unfold close_attempt. evolves. Qed.

#[export] Instance cancel_approvals_evolves id reason now :
  Evolves (cancel_approvals id reason now).
Proof. unfold cancel_approvals. evolves. Qed.

#[export] Instance owned_children_evolves id : Evolves (owned_children id).
Proof. unfold owned_children. evolves. Qed.

Section store.
Context `{Codec}.

#[export] Instance cancel_one_workflow_evolves workflow reason operator now :
  is_terminal (wf_status workflow) = false →
  Evolves (cancel_one_workflow workflow reason operator now).
Proof. intros Hnt. unfold cancel_one_workflow. evolves. Qed.

#[export] Instance cancel_generations_evolves fuel generation reason operator now :
  Evolves (cancel_generations fuel generation reason operator now).
Proof. revert generation. induction fuel; intros generation; simpl; evolves. Qed.

#[export] Instance cancel_children_evolves children reason operator now :
  Evolves (cancel_children children reason operator now).
Proof. induction children; simpl; evolves. Qed.

#[export] Instance cancel_worklist_evolves fuel parents operator now :
  Evolves (cancel_worklist fuel parents operator now).
Proof. revert parents. induction fuel; intros [|[]]; simpl; evolves. Qed.

#[export] Instance cancel_owned_descendants_evolves parent reason operator now :
  Evolves (cancel_owned_descendants parent reason operator now).
Proof. unfold cancel_owned_descendants. evolves. Qed.

#[export] Instance cancel_locked_workflow_evolves workflow reason operator now :
  is_terminal (wf_status workflow) = false →
  Evolves (cancel_locked_workflow workflow reason operator now).
Proof. intros Hnt. unfold cancel_locked_workflow. evolves. Qed.

#[export] Instance cancel_with_conn_evolves id reason : Evolves (cancel_with_conn id reason).
Proof. unfold cancel_with_conn. evolves. Qed.

(** * Recovery and children *)

#[export] Instance hand_waiting_parents_evolves superseded successor version now :
  Evolves (hand_waiting_parents_to_successor superseded successor version now).
Proof. unfold hand_waiting_parents_to_successor. evolves. Qed.

#[export] Instance recoverable_start_in_evolves kind version input state options :
  Evolves (recoverable_start_in kind version input state options).
Proof. unfold recoverable_start_in. evolves. Qed.

#[export] Instance start_or_restart_recoverable_evolves kind version input state options :
  Evolves (start_or_restart_recoverable kind version input state options).
Proof. unfold start_or_restart_recoverable. evolves. Qed.

#[export] Instance insert_new_child_evolves child key parent command root :
  Evolves (insert_new_child child key parent command root).
Proof. unfold insert_new_child. evolves. Qed.

#[export] Instance resolve_existing_child_evolves child keyed :
  Evolves (resolve_existing_child child keyed).
Proof. unfold resolve_existing_child. evolves. Qed.

#[export] Instance insert_child_evolves child key parent command root :
  Evolves (insert_child child key parent command root).
Proof. unfold insert_child. evolves. Qed.
End store.
