(* ===== verification/Coordinator.v ===== *)
(** The workflow coordinator ([runtime/coordinator.rs]): the claim (T-C1), the
    commit of a step's transition (T-C2), the recording of an activation
    failure (T-C3), and the activation that composes them. *)
From stdpp Require Import base gmap list strings.
From Stdlib Require Import ZArith Lia.
From S2P Require Import Prelude.
From S2P Require Import Errors.
From S2P Require Import Status.
From S2P Require Import Rows.
From S2P Require Import Database.
From S2P Require Import Policy.
From S2P Require Import Transitions.
From S2P Require Import Registry.
From S2P Require Import Parents.
From S2P Require Import Store.

Record CoordinatorConfig := MkCoordinatorConfig {
  cfg_lease_duration : Millis;
  cfg_max_activation_attempts : Z;
  cfg_activation_retry_policy : RetryPolicy;
  cfg_max_consecutive_continuations : Z;
  cfg_continuation_delay : Millis;
  cfg_step_timeout : Millis;
}.

Definition default_coordinator_config : CoordinatorConfig :=
  {| cfg_lease_duration := 30000;
     cfg_max_activation_attempts := 8;
     cfg_activation_retry_policy := {| backoff := Exponential 1 60 20 |};
     cfg_max_consecutive_continuations := 16;
     cfg_continuation_delay := 100;
     cfg_step_timeout := 20000 |}.

Definition validate_config (self : CoordinatorConfig) : Result unit :=
  if (cfg_lease_duration self =? 0)%Z || (cfg_max_activation_attempts self =? 0)%Z
     || (cfg_max_consecutive_continuations self =? 0)%Z
     || (cfg_continuation_delay self =? 0)%Z || (cfg_step_timeout self =? 0)%Z
  then Err (InvalidDefinition "coordinator bounds must be non-zero")
  else if (cfg_lease_duration self <=? cfg_step_timeout self)%Z
  then Err (InvalidDefinition "step_timeout must be shorter than lease_duration")
  else Ok tt.

(** [i32::try_from(n).unwrap_or(i32::MAX)]. *)
Definition i32_or_max (n : Z) : Z := default i32_max (i32_try_from n).

Record ClaimedRow := MkClaimedRow { cl_row : WorkflowRow; cl_lease_token : string }.

(** [fenced_workflow!]: [status = running AND lease_token = token]. *)
Definition fenced (lease_token : string) (r : WorkflowRow) : bool :=
  bool_decide (wf_status r = WfRunning ∧ wf_lease_token r = Some lease_token).

Definition append_history (workflow_id : WorkflowId) (event_type : string)
    (created_at : DbMillis) : Tx unit :=
  let! sequence := next_event_sequence workflow_id in
  append_event (NewWorkflowEventRow workflow_id sequence None event_type None
                  (Some "system") None None created_at).

(** * T-C1: claim *)

Definition PAGE : nat := 32.

Definition expired_lease (now : DbMillis) (r : WorkflowRow) : bool :=
  bool_decide (wf_status r = WfRunning)
  && match wf_lease_expires_at r with Some expiry => (expiry <=? now)%Z | None => false end.

(** [(lease_expires_at, id)] order of the scan. *)
Definition expiry_le (a b : WorkflowRow) : bool :=
  let ea := default 0%Z (wf_lease_expires_at a) in
  let eb := default 0%Z (wf_lease_expires_at b) in
  (ea <? eb)%Z || ((ea =? eb)%Z && (wf_id a <=? wf_id b)%Z).

Definition after_cursor (cursor : option (DbMillis * WorkflowId)) (r : WorkflowRow) : bool :=
  match cursor with
  | None => true
  | Some (expiry, id) =>
      match wf_lease_expires_at r with
      | None => false
      | Some e => (expiry <? e)%Z || ((e =? expiry)%Z && (id <? wf_id r)%Z)
      end
  end.

(** The per-row relock of the page: the first row that is free and still
    expired. *)
Fixpoint relock_expired (now : DbMillis) (page : list WorkflowId) : Tx (option WorkflowRow) :=
  match page with
  | [] => tx_ret None
  | expired_id :: rest =>
      let! candidate := find_workflow_skip_locked expired_id (λ _, true) in
      match candidate with
      | Some candidate =>
          if expired_lease now candidate then tx_ret (Some candidate)
          else relock_expired now rest
      | None => relock_expired now rest
      end
  end.

(** The ['expired] loop over pages of 32 expired leases. *)
Fixpoint scan_expired (fuel : nat) (now : DbMillis) (cursor : option (DbMillis * WorkflowId))
    : Tx (option WorkflowRow) :=
  match fuel with
  | O => out_of_fuel
  | S fuel' =>
      let! rows := select_workflows (λ r, expired_lease now r && after_cursor cursor r) in
      let page := take PAGE (sort_by expiry_le rows) in
      match last page with
      | None => tx_ret None
      | Some last_candidate =>
          let! found := relock_expired now (wf_id <$> page) in
          match found with
          | Some candidate => tx_ret (Some candidate)
          | None =>
              if (length page <? PAGE)%nat then tx_ret None
              else scan_expired fuel' now
                     (Some (default 0%Z (wf_lease_expires_at last_candidate),
                            wf_id last_candidate))
          end
      end
  end.

(** The changeset of a recovered lease. *)
Definition recovered_row (now : DbMillis) (r : WorkflowRow) : WorkflowRow :=
  wf_lease_cleared (r <| wf_status := WfReady |> <| wf_available_at := now |>)
    <| wf_updated_at := now |>.

Definition recover_expired (now : DbMillis) (expired : WorkflowRow) : Tx unit :=
  let! changed := update_workflow (wf_id expired)
      (λ r, bool_decide (wf_status r = WfRunning
                         ∧ wf_lease_token r = wf_lease_token expired
                         ∧ is_Some (wf_lease_token expired)))
      (recovered_row now) in
  do! ensure_fenced changed in
  append_history (wf_id expired) "lease_recovered" now.

Definition local_definition (local_definitions : list DefinitionKey) (kind : string)
    (version : Z) : bool :=
  bool_decide ((kind, version) ∈ local_definitions).

Definition due (now : DbMillis) (r : WorkflowRow) : bool :=
  bool_decide (wf_status r = WfReady) && (wf_available_at r <=? now)%Z.

(** [(available_at, id)] order. *)
Definition available_le (a b : WorkflowRow) : bool :=
  (wf_available_at a <? wf_available_at b)%Z
  || ((wf_available_at a =? wf_available_at b)%Z && (wf_id a <=? wf_id b)%Z).

Fixpoint lock_first_due (now : DbMillis) (candidates : list WorkflowId)
    : Tx (option WorkflowRow) :=
  match candidates with
  | [] => tx_ret None
  | candidate_id :: rest =>
      let! row := find_workflow_skip_locked candidate_id (due now) in
      match row with
      | Some row => tx_ret (Some row)
      | None => lock_first_due now rest
      end
  end.

(** The changeset of a claim. *)
Definition claimed_row (worker_id lease_token : string) (lease_expires_at now : DbMillis)
    (r : WorkflowRow) : WorkflowRow :=
  r <| wf_status := WfRunning |> <| wf_lease_owner := Some worker_id |>
    <| wf_lease_token := Some lease_token |>
    <| wf_lease_expires_at := Some lease_expires_at |> <| wf_updated_at := now |>.

(** [claim_row] for the worker [worker_id] with the definitions it can run. *)
Definition claim_row (config : CoordinatorConfig) (worker_id : string)
    (local_definitions : list DefinitionKey) : Tx (option ClaimedRow) :=
  let! lease_duration_millis := tx_lift (duration_millis (cfg_lease_duration config)) in
  let! now := database_now_millis in
  let! lease_expires_at := tx_lift (ok_or (checked_plus_millis now lease_duration_millis)
        (InvalidDefinition "workflow lease timestamp overflow")) in
  let! fuel := db_fuel in
  let! expired := scan_expired fuel now None in
  do! (match expired with
       | Some expired => recover_expired now expired
       | None => tx_ret tt
       end) in
  match local_definitions with
  | [] => tx_ret None
  | _ :: _ =>
      let! rows := select_workflows (λ r,
          local_definition local_definitions (wf_kind r) (wf_version r) && due now r) in
      let candidate_ids := wf_id <$> take PAGE (sort_by available_le rows) in
      let! claimed := lock_first_due now candidate_ids in
      match claimed with
      | None => tx_ret None
      | Some row =>
          let! lease_token := new_uuid in
          let! changed := update_workflow (wf_id row)
              (λ r, bool_decide (wf_status r = WfReady))
              (claimed_row worker_id lease_token lease_expires_at now) in
          do! ensure_fenced changed in
          tx_ret (Some (MkClaimedRow
            (row <| wf_status := WfRunning |> <| wf_lease_token := Some lease_token |>
                 <| wf_lease_expires_at := Some lease_expires_at |>) lease_token))
      end
  end.

(** * T-C2: commit of a transition *)

Definition lock_fence (claim : ClaimedRow) : Tx unit :=
  let! row := find_workflow (wf_id (cl_row claim)) (fenced (cl_lease_token claim)) in
  do! tx_lift (ok_or row FencedWrite) in tx_ret tt.

(** The columns every successful commit resets: the error, the attempts, the
    lease and [updated_at]. *)
Definition commit_columns (delivered : Z) (now : DbMillis) (r : WorkflowRow) : WorkflowRow :=
  wf_lease_cleared
    (r <| wf_delivered_event_sequence := delivered |> <| wf_activation_attempts := 0%Z |>
       <| wf_error_category := None |> <| wf_error_message := None |>)
    <| wf_updated_at := now |>.

Definition continue_streak (config : CoordinatorConfig) (claim : ClaimedRow) : Z * bool :=
  let streak := i32_saturating_add (wf_consecutive_continuations (cl_row claim)) 1 in
  (streak, (i32_or_max (cfg_max_consecutive_continuations config) <=? streak)%Z).

Definition continued_row (claim : ClaimedRow) (state_json : string) (available_at : DbMillis)
    (delivered streak : Z) (fairness : bool) (now : DbMillis) (r : WorkflowRow) : WorkflowRow :=
  commit_columns delivered now
    (r <| wf_state_json := state_json |>
       <| wf_state_version := i32_saturating_add (wf_state_version (cl_row claim)) 1 |>
       <| wf_status := WfReady |> <| wf_available_at := available_at |>
       <| wf_consecutive_continuations := (if fairness then 0 else streak)%Z |>).

Definition completed_row (output_json : string) (delivered : Z) (now : DbMillis)
    (r : WorkflowRow) : WorkflowRow :=
  commit_columns delivered now
    (r <| wf_status := WfSucceeded |> <| wf_result_json := Some output_json |>
       <| wf_consecutive_continuations := 0%Z |>)
    <| wf_completed_at := Some now |>.

(** The changeset of the four waiting transitions. *)
Definition waiting_row (claim : ClaimedRow) (status : WorkflowStatus) (wait : Wait)
    (state_json : string) (command delivered : Z) (now : DbMillis) (r : WorkflowRow)
    : WorkflowRow :=
  commit_columns delivered now
    (WaitColumns_on wait
       (r <| wf_state_json := state_json |>
          <| wf_state_version := i32_saturating_add (wf_state_version (cl_row claim)) 1 |>
          <| wf_status := status |>)
       <| wf_command_sequence := command |> <| wf_consecutive_continuations := 0%Z |>).

Definition new_approval_row (claim : ClaimedRow) (command : Z) (approval_json : string)
    (expires_at_millis : option Z) (now : DbMillis) : ApprovalId → ApprovalRow := λ id,
  {| ap_id := id; ap_workflow_id := wf_id (cl_row claim); ap_command_sequence := command;
     ap_kind := wf_kind (cl_row claim); ap_version := wf_version (cl_row claim);
     ap_prompt_metadata_json := approval_json; ap_validation_schema_json := "{}";
     ap_validation_version := 1; ap_status := ApprPending; ap_requested_at := now;
     ap_expires_at := expires_at_millis; ap_decision_payload_json := None;
     ap_decided_by := None; ap_operator_reason := None; ap_resolved_at := None |}.

Section coordinator.
Context `{Codec}.

(** The [NewActivityRow] of a [RunActivity] command. *)
Definition new_activity_row (workflow_id : WorkflowId) (command : Z)
    (activity : ActivityCommand) (available_at : DbMillis)
    (max_attempts timeout_millis lease_duration_millis : Z) (now : DbMillis)
    : ActivityId → ActivityRow := λ id,
  {| ac_id := id; ac_workflow_id := workflow_id; ac_command_sequence := command;
     ac_replacement_number := 0; ac_kind := cmd_kind activity;
     ac_version := cmd_version activity; ac_topic := cmd_topic activity;
     ac_payload_json := cmd_payload_json activity; ac_status := ActPending;
     ac_available_at := available_at; ac_max_attempts := max_attempts;
     ac_attempt_count := 0; ac_timeout_millis := timeout_millis;
     ac_lease_duration_millis := lease_duration_millis;
     ac_retry_policy_json := policy_to_json (cmd_retry_policy activity);
     ac_operation_key := cmd_operation_key activity; ac_provider_result_json := None;
     ac_last_error_category := None; ac_last_error_message := None;
     ac_lease_owner := None; ac_lease_token := None; ac_lease_expires_at := None;
     ac_root_activity_id := None; ac_replaces_activity_id := None;
     ac_created_at := now; ac_updated_at := now; ac_completed_at := None |}.

Definition commit_activity (claim : ClaimedRow) (delivered command : Z)
    (state_json : string) (activity : ActivityCommand) (now : DbMillis) : Tx unit :=
  let available_at :=
    if cmd_continuation_priority activity then CONTINUATION_READY_AT_MILLIS else now in
  do! lock_fence claim in
  let! max_attempts := tx_lift (ok_or (i32_try_from (cmd_max_attempts activity))
        (InvalidDefinition "activity attempts exceed the database integer range")) in
  let! timeout := tx_lift (duration_millis (cmd_timeout_millis activity)) in
  let! lease_duration := tx_lift (duration_millis (cmd_lease_duration_millis activity)) in
  let! activity_id := insert_activity (new_activity_row (wf_id (cl_row claim)) command
        activity available_at max_attempts timeout lease_duration now) in
  let! changed := update_workflow (wf_id (cl_row claim)) (fenced (cl_lease_token claim))
        (waiting_row claim WfWaitingActivity (WaitActivity activity_id) state_json command
           delivered now) in
  do! ensure_fenced changed in
  append_history (wf_id (cl_row claim)) "activity_scheduled" now.

Definition set_child_wait (claim : ClaimedRow) (child : ChildStart) (state_json : string)
    (command delivered : Z) (now : DbMillis) : Tx unit :=
  let! changed := update_workflow (wf_id (cl_row claim)) (fenced (cl_lease_token claim))
        (waiting_row claim WfWaitingChild (WaitChild (child_start_id child)) state_json
           command delivered now) in
  ensure_fenced changed.

(** The walk of [is_caller_or_ancestor]: the parent, or from a row without
    one the generation it was restarted from. *)
Fixpoint ancestor_walk (fuel : nat) (claim : ClaimedRow) (target : WorkflowId)
    (current : option WorkflowId) : Tx bool :=
  match current with
  | None => tx_ret false
  | Some id =>
      match fuel with
      | O => out_of_fuel
      | S fuel' =>
          if bool_decide (id = target) then tx_ret true
          else
            let! row := if bool_decide (id = wf_id (cl_row claim))
                        then tx_ret (cl_row claim)
                        else lock_workflow_by_id id in
            ancestor_walk fuel' claim target
              (match wf_parent_workflow_id row with
               | Some parent => Some parent
               | None => wf_restarted_from_workflow_id row
               end)
      end
  end.

Definition is_caller_or_ancestor (claim : ClaimedRow) (target : WorkflowId) : Tx bool :=
  let! fuel := db_fuel in
  ancestor_walk fuel claim target (Some (wf_id (cl_row claim))).

(** The outcome of a child that is already terminal. *)
Definition terminal_outcome (existing : WorkflowRow) : option (string + string * string) :=
  match wf_status existing with
  | WfSucceeded => Some (inl (default "null" (wf_result_json existing)))
  | WfFailed =>
      Some (inr (default "failed" (wf_error_category existing),
                 default "child workflow failed" (wf_error_message existing)))
  | WfCancelled => Some (inr ("child_cancelled", "child workflow was cancelled"))
  | WfReady | WfRunning | WfWaitingActivity | WfWaitingChild | WfSleeping
  | WfWaitingApproval | WfPaused | WfBlocked => None
  end.

Definition commit_child (claim : ClaimedRow) (delivered command : Z) (state_json : string)
    (child : ChildWorkflowCommand) (now : DbMillis) : Tx unit :=
  let parent_id := wf_id (cl_row claim) in
  let key := default (child_key parent_id command) (ch_deduplication_key child) in
  let root := default parent_id (wf_root_workflow_id (cl_row claim)) in
  let! outcome := insert_child child key parent_id command root in
  let child_id := child_start_id outcome in
  let! cyclic := if child_start_inserted outcome then tx_ret false
                 else is_caller_or_ancestor claim child_id in
  if cyclic
  then tx_fail (InvalidDefinition ("child key " +:+ key +:+ " resolves to workflow "
         +:+ fmt child_id +:+ ", which is the caller or an ancestor"))
  else
    do! set_child_wait claim outcome state_json command delivered now in
    do! append_history parent_id "child_workflow_scheduled" now in
    match outcome with
    | ChildExisting existing =>
        match terminal_outcome existing with
        | Some terminal => wake_waiting_parents_on_child_terminal existing terminal now
        | None => tx_ret tt
        end
    | ChildInserted _ => tx_ret tt
    end.

(** The transitions that leave the workflow waiting. *)
Inductive WaitTransition :=
  | WtSleepUntil (state_json : string) (wake_at_millis : Z)
  | WtWaitForApproval (state_json approval_json : string) (expires_at_millis : option Z)
  | WtRunActivity (state_json : string) (activity : ActivityCommand)
  | WtRunChild (state_json : string) (child : ChildWorkflowCommand).

Definition commit_wait_transition (claim : ClaimedRow) (delivered : Z)
    (transition : WaitTransition) (now : DbMillis) : Tx unit :=
  let workflow_id := wf_id (cl_row claim) in
  let command := i32_saturating_add (wf_command_sequence (cl_row claim)) 1 in
  match transition with
  | WtSleepUntil state_json wake_at_millis =>
      let! command_sequence := tx_lift (ok_or (u32_try_from command)
            (InvalidState "negative workflow command sequence")) in
      let! changed := update_workflow workflow_id (fenced (cl_lease_token claim))
            (λ r, waiting_row claim WfSleeping (WaitTimer command_sequence) state_json
                    command delivered now r <| wf_available_at := wake_at_millis |>) in
      do! ensure_fenced changed in
      append_history workflow_id "timer_scheduled" now
  | WtWaitForApproval state_json approval_json expires_at_millis =>
      do! lock_fence claim in
      let! approval_id := insert_approval
            (new_approval_row claim command approval_json expires_at_millis now) in
      let! changed := update_workflow workflow_id (fenced (cl_lease_token claim))
            (waiting_row claim WfWaitingApproval (WaitApproval approval_id) state_json
               command delivered now) in
      do! ensure_fenced changed in
      append_history workflow_id "approval_requested" now
  | WtRunActivity state_json activity =>
      commit_activity claim delivered command state_json activity now
  | WtRunChild state_json child =>
      commit_child claim delivered command state_json child now
  end.

Definition commit_on_connection (config : CoordinatorConfig) (claim : ClaimedRow)
    (event : WorkflowEventRow) (transition : StoredTransition) : Tx unit :=
  let workflow_id := wf_id (cl_row claim) in
  let! delivered := tx_lift (ok_or (ev_delivery_sequence event)
        (InvalidState "workflow received non-deliverable history")) in
  let! now := database_now_millis in
  match transition with
  | StContinue state_json =>
      let streak := (continue_streak config claim).1 in
      let fairness := (continue_streak config claim).2 in
      let! available_at :=
        if fairness
        then let! delay := tx_lift (duration_millis (cfg_continuation_delay config)) in
             tx_ret (saturating_plus_millis now delay)
        else tx_ret now in
      let! changed := update_workflow workflow_id (fenced (cl_lease_token claim))
            (continued_row claim state_json available_at delivered streak fairness now) in
      do! ensure_fenced changed in
      let! sequence := next_event_sequence workflow_id in
      append_event (NewWorkflowEventRow workflow_id sequence
        (Some (i32_saturating_add delivered 1)) "continued" None (Some "system") None None now)
  | StComplete output_json =>
      let! changed := update_workflow workflow_id (fenced (cl_lease_token claim))
            (completed_row output_json delivered now) in
      do! ensure_fenced changed in
      do! append_history workflow_id "workflow_succeeded" now in
      wake_waiting_parents_on_child_terminal (cl_row claim) (inl output_json) now
  | StSleepUntil state_json wake_at_millis =>
      commit_wait_transition claim delivered (WtSleepUntil state_json wake_at_millis) now
  | StWaitForApproval state_json approval_json expires_at_millis =>
      commit_wait_transition claim delivered
        (WtWaitForApproval state_json approval_json expires_at_millis) now
  | StRunActivity state_json activity =>
      commit_wait_transition claim delivered (WtRunActivity state_json activity) now
  | StRunChild state_json child =>
      commit_wait_transition claim delivered (WtRunChild state_json child) now
  end.

(** * T-C3: activation failure *)

Definition failed_activation_row (exhausted : bool) (attempt : Z) (available_at : DbMillis)
    (error : WorkflowError) (now : DbMillis) (r : WorkflowRow) : WorkflowRow :=
  wf_lease_cleared
    (r <| wf_status := (if exhausted then WfFailed else WfReady) |>
       <| wf_activation_attempts := attempt |> <| wf_available_at := available_at |>
       <| wf_error_category := Some (we_category error) |>
       <| wf_error_message := Some (we_message error) |>)
    <| wf_updated_at := now |> <| wf_completed_at := (if exhausted then Some now else None) |>.

Definition record_activation_failure (config : CoordinatorConfig) (claim : ClaimedRow)
    (message : string) : Tx unit :=
  let! current := find_workflow (wf_id (cl_row claim)) (fenced (cl_lease_token claim)) in
  let! current := tx_lift (ok_or current FencedWrite) in
  let attempt := i32_saturating_add (wf_activation_attempts current) 1 in
  let max_activation := Z.min (wf_max_activation_attempts current)
                          (i32_or_max (cfg_max_activation_attempts config)) in
  let exhausted := (max_activation <=? attempt)%Z in
  let! now := database_now_millis in
  let attempt_number := default u32_max (u32_try_from attempt) in
  let percentile := jitter_percentile ("workflow:" +:+ fmt (wf_id current) +:+ ":activation:"
                                       +:+ fmt attempt_number) in
  let! delay := tx_lift (delay_for_attempt (cfg_activation_retry_policy config)
                           attempt_number percentile) in
  let! delay_millis := tx_lift (duration_millis (delay * 1000)%Z) in
  let available_at := saturating_plus_millis now delay_millis in
  let error := new_workflow_error "activation" message in
  let! changed := update_workflow (wf_id current) (fenced (cl_lease_token claim))
        (failed_activation_row exhausted attempt available_at error now) in
  do! ensure_fenced changed in
  do! append_history (wf_id current)
        (if exhausted then "activation_exhausted" else "activation_failed") now in
  if exhausted
  then wake_waiting_parents_on_child_terminal current
         (inr (we_category error, we_message error)) now
  else tx_ret tt.

(** * The activation (L-C1) *)

Definition decode_event (event : WorkflowEventRow) : Result WorkflowEvent :=
  if String.eqb (ev_event_type event) "started" then Ok Started
  else if String.eqb (ev_event_type event) "continued" then Ok Continued
  else
    let? json := ok_or (ev_metadata_json event)
                   (InvalidState ("deliverable event " +:+ ev_event_type event
                                  +:+ " has no metadata")) in
    ok_or (event_of_json json) (Serialization "workflow event").

(** [error.to_string()] of the two errors the activation records. *)
Definition closed_error_message (error : DurableError) : option string :=
  match error with
  | DefinitionMismatch actual_kind actual_version expected_kind expected_version =>
      Some ("stored result definition " +:+ actual_kind +:+ " v" +:+ fmt actual_version
            +:+ " does not match expected " +:+ expected_kind +:+ " v"
            +:+ fmt expected_version)
  | InvalidDefinition message => Some ("invalid durable definition: " +:+ message)
  | _ => None
  end.

(** What the activation does after the step: commit a transition, or record
    a failure with this message. *)
Inductive Activation :=
  | Commit (transition : StoredTransition)
  | Fail (message : string).

Definition debug_topic (topic : option string) : string :=
  match topic with Some t => "Some(" +:+ quoted t +:+ ")" | None => "None" end.

(** The registration checks on the step's outcome. *)
Definition activation (registry : WorkflowRegistry) (activities : ActivityRegistry)
    (stepped : StepOutcome) : Activation :=
  match stepped with
  | StepPanicked message => Fail ("step panicked: " +:+ message)
  | StepTimedOut => Fail "step exceeded step_timeout"
  | StepFailed message => Fail message
  | Stepped transition =>
      match transition with
      | StRunChild _ child =>
          if contains registry (ch_kind child) (ch_version child) then Commit transition
          else Fail ("child workflow " +:+ ch_kind child +:+ " v" +:+ fmt (ch_version child)
                     +:+ " is not registered")
      | StRunActivity _ activity =>
          if negb (contains (areg_definitions activities) (cmd_kind activity)
                     (cmd_version activity))
          then Fail ("activity " +:+ cmd_kind activity +:+ " v" +:+ fmt (cmd_version activity)
                     +:+ " is not registered")
          else
            let registered_topic :=
              topic_for activities (cmd_kind activity) (cmd_version activity) in
            if bool_decide (registered_topic ≠ Some (cmd_topic activity))
            then Fail ("activity " +:+ cmd_kind activity +:+ " v"
                       +:+ fmt (cmd_version activity) +:+ " topic mismatch: command has "
                       +:+ quoted (cmd_topic activity) +:+ ", registry has "
                       +:+ debug_topic registered_topic)
            else Commit transition
      | StSleepUntil _ _ | StWaitForApproval _ _ _ | StContinue _ | StComplete _ =>
          Commit transition
      end
  end.

(** [activate_claim_inner]: the event is read and the step runs outside the
    transactions; the commit and the failure record are one each. The
    environments are those of the commit and of a failure record after it. *)
Definition activate_claim_inner (registry : WorkflowRegistry)
    (activities : ActivityRegistry) (config : CoordinatorConfig) (claim : ClaimedRow)
    (e1 e2 : Env) (d : Db) : Result WorkflowId * Db :=
  let workflow_id := wf_id (cl_row claim) in
  let fail (e : Env) (message : string) :=
    match transaction e (record_activation_failure config claim message) d with
    | (Ok _, d') => (Ok workflow_id, d')
    | (Err error, d') => (Err error, d')
    end in
  match (transaction e1 (next_delivery_event workflow_id
           (wf_delivered_event_sequence (cl_row claim))) d).1 with
  | Err error => (Err error, d)
  | Ok None => (Err (InvalidState ("claimed workflow " +:+ fmt workflow_id
                                   +:+ " has no deliverable event")), d)
  | Ok (Some event) =>
      match decode_event event with
      | Err error => (Err error, d)
      | Ok event_input =>
          match activation registry activities
                  (step_stored registry (wf_kind (cl_row claim)) (wf_version (cl_row claim))
                     (Some workflow_id) (wf_input_json (cl_row claim))
                     (wf_state_json (cl_row claim)) event_input) with
          | Fail message => fail e1 message
          | Commit transition =>
              match transaction e1 (commit_on_connection config claim event transition) d with
              | (Ok _, d') => (Ok workflow_id, d')
              | (Err error, _) =>
                  match closed_error_message error with
                  | Some message => fail e2 message
                  | None => (Err error, d)
                  end
              end
          end
      end
  end.

Inductive BenignActivationKind := FenceMiss | Transient.

Definition benign_activation_kind (error : DurableError) : option BenignActivationKind :=
  match error with
  | FencedWrite => Some FenceMiss
  | error => if is_transient error then Some Transient else None
  end.

(** [activate_one]: claim, activate, and skip a benign error. *)
Definition activate_one (registry : WorkflowRegistry) (activities : ActivityRegistry)
    (config : CoordinatorConfig) (worker_id : string) (e0 e1 e2 : Env) (d : Db)
    : Result (option WorkflowId) * Db :=
  match transaction e0 (claim_row config worker_id (definition_keys registry)) d with
  | (Err error, d') => (Err error, d')
  | (Ok None, d') => (Ok None, d')
  | (Ok (Some claim), d') =>
      match activate_claim_inner registry activities config claim e1 e2 d' with
      | (Ok workflow_id, d'') => (Ok (Some workflow_id), d'')
      | (Err error, d'') =>
          match benign_activation_kind error with
          | Some _ => (Ok (Some (wf_id (cl_row claim))), d'')
          | None => (Err error, d'')
          end
      end
  end.
End coordinator.
