(* ===== verification/CoordinatorSteps.v ===== *)
(** The operations of [Coordinator] move rows by the documented steps. *)
From stdpp Require Import base gmap list strings relations.
From Stdlib Require Import ZArith Lia.
From S2P Require Import Prelude.
From S2P Require Import Errors.
From S2P Require Import Status.
From S2P Require Import Rows.
From S2P Require Import Database.
From S2P Require Import TxLogic.
From S2P Require Import Lifecycle.
From S2P Require Import Evolution.
From S2P Require Import Policy.
From S2P Require Import Transitions.
From S2P Require Import Registry.
From S2P Require Import Parents.
From S2P Require Import Store.
From S2P Require Import StoreSteps.
From S2P Require Import Coordinator.

(** Instance search does not look into the operations. *)
#[export] Hint Opaque append_history relock_expired scan_expired recover_expired
  lock_first_due claim_row lock_fence commit_activity set_child_wait ancestor_walk
  is_caller_or_ancestor commit_child commit_wait_transition commit_on_connection record_activation_failure : typeclass_instances.

(** * The changesets *)

Lemma fenced_spec token r :
  fenced token r = true ↔ wf_status r = WfRunning ∧ wf_lease_token r = Some token.
Proof. apply bool_decide_eq_true. Qed.

Lemma recovered_row_step now r : wf_status r = WfRunning → wf_step r (recovered_row now r).
Proof. intros Hr. columns. apply ws_recover; columns. Qed.

Lemma claimed_row_step worker token expires now r :
  wf_status r = WfReady → wf_step r (claimed_row worker token expires now r).
Proof. intros Hr. columns. apply ws_claim; columns. Qed.

Lemma continued_row_step token claim state at_ delivered streak fairness now r :
  fenced token r = true →
  wf_step r (continued_row claim state at_ delivered streak fairness now r).
Proof. intros [Hr _]%fenced_spec. columns. apply ws_continue; columns. Qed.

Lemma completed_row_step token output delivered now r :
  fenced token r = true → wf_step r (completed_row output delivered now r).
Proof. intros [Hr _]%fenced_spec. columns. apply ws_complete; columns. Qed.

Lemma waiting_row_step token claim w state command delivered now r :
  fenced token r = true → (wait_kind w = KindTimer → reference_id w = command) →
  wf_step r (waiting_row claim (waiting_status (wait_kind w)) w state command delivered now r).
Proof. intros [Hr _]%fenced_spec Hw. columns. eapply (ws_suspend _ _ w); columns. Qed.

Lemma waiting_activity_step token claim activity state command delivered now r :
  fenced token r = true →
  wf_step r (waiting_row claim WfWaitingActivity (WaitActivity activity) state command
               delivered now r).
Proof. intros Hf. by apply (waiting_row_step token _ (WaitActivity activity)). Qed.

Lemma waiting_child_step token claim child state command delivered now r :
  fenced token r = true →
  wf_step r (waiting_row claim WfWaitingChild (WaitChild child) state command delivered now r).
Proof. intros Hf. by apply (waiting_row_step token _ (WaitChild child)). Qed.

Lemma waiting_approval_step token claim approval state command delivered now r :
  fenced token r = true →
  wf_step r (waiting_row claim WfWaitingApproval (WaitApproval approval) state command
               delivered now r).
Proof. intros Hf. by apply (waiting_row_step token _ (WaitApproval approval)). Qed.

Lemma sleeping_step token claim timer state command delivered now wake_at r :
  fenced token r = true → u32_try_from command = Some timer →
  wf_step r (waiting_row claim WfSleeping (WaitTimer timer) state command delivered now r
               <| wf_available_at := wake_at |>).
Proof.
  intros [Hr _]%fenced_spec [-> _]%u32_try_from_Some. columns.
  eapply (ws_suspend _ _ (WaitTimer command)); columns.
Qed.

Lemma failed_activation_step token attempt max limit at_ error now r :
  fenced token r = true → attempt = i32_saturating_add (wf_activation_attempts r) 1 →
  max = Z.min (wf_max_activation_attempts r) limit →
  wf_step r (failed_activation_row (max <=? attempt)%Z attempt at_ error now r).
Proof.
  intros [Hr _]%fenced_spec Ha Hm. columns. destruct (Z.leb_spec max attempt).
  - apply ws_activation_exhausted; columns.
  - apply ws_activation_failed; columns. lia.
Qed.

Lemma new_approval_row_new claim command approval expires now id :
  ap_new (new_approval_row claim command approval expires now id).
Proof. columns. Qed.
#[export] Hint Resolve recovered_row_step claimed_row_step continued_row_step
  completed_row_step waiting_activity_step waiting_child_step waiting_approval_step
  sleeping_step new_approval_row_new : steps.

(** * The operations *)

#[export] Instance append_history_evolves id type at_ : Evolves (append_history id type at_).
Proof. unfold append_history. evolves. Qed.

#[export] Instance relock_expired_evolves now page : Evolves (relock_expired now page).
Proof. induction page; simpl; evolves. Qed.

#[export] Instance scan_expired_evolves fuel now cursor : Evolves (scan_expired fuel now cursor).
Proof. revert cursor. induction fuel; intros cursor; simpl; evolves. Qed.

#[export] Instance recover_expired_evolves now expired : Evolves (recover_expired now expired).
Proof. unfold recover_expired. evolves. Qed.

#[export] Instance lock_first_due_evolves now candidates :
  Evolves (lock_first_due now candidates).
Proof. induction candidates; simpl; evolves. Qed.

#[export] Instance claim_row_evolves config worker definitions :
  Evolves (claim_row config worker definitions).
Proof. unfold claim_row. evolves. Qed.

#[export] Instance lock_fence_evolves claim : Evolves (lock_fence claim).
Proof. unfold lock_fence. evolves. Qed.

Section coordinator.
Context `{Codec}.

Lemma new_activity_row_new workflow command activity at_ attempts timeout lease now id d :
  activity_fresh d (new_activity_row workflow command activity at_ attempts timeout lease
                      now id) →
  ac_new (new_activity_row workflow command activity at_ attempts timeout lease now id).
Proof. intros (Hpos & _). columns. Qed.
Hint Resolve new_activity_row_new : steps.

#[export] Instance commit_activity_evolves claim delivered command state activity now :
  Evolves (commit_activity claim delivered command state activity now).
Proof. unfold commit_activity. evolves. Qed.

#[export] Instance set_child_wait_evolves claim child state command delivered now :
  Evolves (set_child_wait claim child state command delivered now).
Proof. unfold set_child_wait. evolves. Qed.

#[export] Instance ancestor_walk_evolves fuel claim target current :
  Evolves (ancestor_walk fuel claim target current).
Proof. revert current. induction fuel; intros [?|]; simpl; evolves. Qed.

#[export] Instance is_caller_or_ancestor_evolves claim target :
  Evolves (is_caller_or_ancestor claim target).
Proof. unfold is_caller_or_ancestor. evolves. Qed.

#[export] Instance commit_child_evolves claim delivered command state child now :
  Evolves (commit_child claim delivered command state child now).
Proof. unfold commit_child. evolves. Qed.

#[export] Instance commit_wait_transition_evolves claim delivered transition now :
  Evolves (commit_wait_transition claim delivered transition now).
Proof. unfold commit_wait_transition. evolves. Qed.

#[export] Instance commit_on_connection_evolves config claim event transition :
  Evolves (commit_on_connection config claim event transition).
Proof. unfold commit_on_connection. evolves. Qed.

#[export] Instance record_activation_failure_evolves config claim message :
  Evolves (record_activation_failure config claim message).
Proof.
  unfold record_activation_failure.
  evolves; same_rows; by eapply failed_activation_step.
Qed.
End coordinator.
#[export] Hint Resolve new_activity_row_new : steps.
