(* ===== verification/Worker.v ===== *)
(** The activity worker ([runtime/activity_worker.rs]): the claim under the
    topic locks with its lease reconciliation (T-W1), the heartbeat (T-W2) and
    the finish of an attempt (T-W3). *)
From stdpp Require Import base gmap list strings.
From Stdlib Require Import ZArith Lia.
From S2P Require Import Prelude.
From S2P Require Import Errors.
From S2P Require Import Status.
From S2P Require Import Rows.
From S2P Require Import Database.
From S2P Require Import Policy.
From S2P Require Import Transitions.
From S2P Require Import Registry.
From S2P Require Import Parents.
From S2P Require Import Store.

Definition CLAIM_CANDIDATE_SCAN_LIMIT : nat := 32.
Definition INVALID_ROW_CATEGORY : string := "invalid_row".

(** A process-local [Instant], in nanoseconds of the monotonic clock; its
    seconds are an [i64]. *)
Abbreviation Instant := Z (only parsing).

Record ActivityClaim := MkActivityClaim {
  acl_row : ActivityRow;
  acl_schedule_run_id : option ScheduleRunId;
  acl_attempt_number : Z;
  acl_lease_token : string;
  acl_lease_deadline : Instant;
  acl_retry_policy : RetryPolicy;
}.

Inductive ExecutionOutcome :=
  | ExSucceeded (output : string)
  | ExRetryable (error : ActivityError)
  | ExPermanent (error : ActivityError)
  | ExRevoked.

Definition activity_error_parts (error : ActivityError) : string * string :=
  match error with
  | ErrRetryable category message | ErrPermanent category message => (category, message)
  end.

(** What the dispatch of a handler returns: its output, its own error, or
    another dispatch error with its text. *)
Inductive ActivityDispatchError :=
  | DispatchHandler (error : ActivityError)
  | DispatchDurable (message : string).

Definition dispatch_outcome (result : string + ActivityDispatchError) : ExecutionOutcome :=
  match result with
  | inl output => ExSucceeded output
  | inr (DispatchHandler (ErrRetryable category message)) =>
      ExRetryable (retryable category message)
  | inr (DispatchHandler (ErrPermanent category message)) =>
      ExPermanent (permanent category message)
  | inr (DispatchDurable message) => ExPermanent (permanent "dispatch" message)
  end.

(** [fenced_activity!] and [leased_activity!]. *)
Definition fenced_activity (claim : ActivityClaim) (r : ActivityRow) : bool :=
  bool_decide (ac_status r = ActRunning ∧ ac_attempt_count r = acl_attempt_number claim
               ∧ ac_lease_token r = Some (acl_lease_token claim)).

Definition leased_activity (claim : ActivityClaim) (r : ActivityRow) : bool :=
  set_contains LEASE_HOLDERS (ac_status r)
  && bool_decide (ac_attempt_count r = acl_attempt_number claim
                  ∧ ac_lease_token r = Some (acl_lease_token claim)).

Definition duration_from_millis (millis : Z) : Result Millis :=
  ok_or (u64_try_from millis) (InvalidState "stored duration cannot be negative").

Definition NANOS_PER_MILLI : Z := 1000000.

(** [Instant::checked_add]. *)
Definition INSTANT_LIMIT : Z := (i64_max + 1) * 1000000000.
Definition instant_checked_add (started : Instant) (nanos : Z) : option Instant :=
  if (started + nanos <? INSTANT_LIMIT)%Z then Some (started + nanos)%Z else None.

(** [saturating_sub(1 ms)]: authority is never rounded upward. *)
Definition lease_deadline_from_sample (started : Instant) (lease_duration_millis : Z)
    : Result Instant :=
  let? duration := duration_from_millis lease_duration_millis in
  ok_or (instant_checked_add started
           (Z.max 0 (duration * NANOS_PER_MILLI - NANOS_PER_MILLI)))
    (InvalidState "activity monotonic lease deadline overflow").

Definition append_activity_history (row : ActivityRow) (event_type : string)
    (reason : option string) (now : DbMillis) : Tx unit :=
  let! sequence := next_event_sequence (ac_workflow_id row) in
  append_event (NewWorkflowEventRow (ac_workflow_id row) sequence None event_type None
                  (Some "system") None reason now).

(** The workflow waits on this activity. *)
Definition waits_on_activity (activity_id : ActivityId) (r : WorkflowRow) : bool :=
  bool_decide (wf_status r = WfWaitingActivity ∧ wf_wait_reference_id r = Some activity_id).

Definition blocked_row (category message : string) (now : DbMillis) (r : WorkflowRow)
    : WorkflowRow :=
  r <| wf_status := WfBlocked |> <| wf_error_category := Some category |>
    <| wf_error_message := Some message |> <| wf_updated_at := now |>.

Definition block_workflow (row : ActivityRow) (category message : string) (now : DbMillis)
    : Tx unit :=
  let! changed := update_workflow (ac_workflow_id row) (waits_on_activity (ac_id row))
                    (blocked_row category message now) in
  do! ensure_fenced changed in
  let! sequence := next_event_sequence (ac_workflow_id row) in
  append_event (NewWorkflowEventRow (ac_workflow_id row) sequence None
    "activity_dead_lettered" None (Some "system") None (Some message) now).

(** * Settling a revoked attempt *)

Definition settled_row (workflow_terminal : bool) (available_at now : DbMillis)
    (r : ActivityRow) : ActivityRow :=
  LeaseCleared (r <| ac_status := (if workflow_terminal then ActCancelled else ActPending) |>
                  <| ac_available_at := available_at |>)
    <| ac_updated_at := now |>
    <| ac_completed_at := (if workflow_terminal then Some now else None) |>.

Definition settle_revoked (row : ActivityRow) (attempt_outcome : AttemptOutcome)
    (message : string) (now : DbMillis) : Tx DbMillis :=
  let! lease_token := tx_lift (ok_or (ac_lease_token row)
        (InvalidState ("cancelling activity " +:+ fmt (ac_id row) +:+ " has no lease token"))) in
  let! workflow := find_workflow (ac_workflow_id row) (λ _, true) in
  let! workflow := first_or_not_found workflow in
  let workflow_terminal := is_terminal (wf_status workflow) in
  do! close_attempt row attempt_outcome message now in
  let available_at := if workflow_terminal then ac_available_at row else now in
  let! changed := update_activity (ac_id row)
      (λ r, bool_decide (ac_status r = ActCancelling
                         ∧ ac_attempt_count r = ac_attempt_count row
                         ∧ ac_lease_token r = Some lease_token))
      (settled_row workflow_terminal available_at now) in
  do! ensure_fenced changed in
  do! append_activity_history row "activity_revoke_settled" (Some message) now in
  tx_ret available_at.

(** * T-W2 *)

Inductive Renewed :=
  | Held (lease_deadline : Instant)
  | Revoked (lease_deadline : Instant).

Definition renewed_row (lease_expires_at now : DbMillis) (r : ActivityRow) : ActivityRow :=
  r <| ac_lease_expires_at := Some lease_expires_at |> <| ac_updated_at := now |>.

(** The transaction of [heartbeat_once]; [lease_sample_started] is the local
    instant read before the database clock. *)
Definition heartbeat_once (claim : ActivityClaim) (lease_sample_started : Instant)
    : Tx Renewed :=
  let! now := database_now_millis in
  let! lease_expires_at :=
    tx_lift (ok_or (checked_plus_millis now (ac_lease_duration_millis (acl_row claim)))
      (InvalidState "activity lease overflow")) in
  let! row := find_activity (ac_id (acl_row claim)) (leased_activity claim) in
  let! row := tx_lift (ok_or row FencedWrite) in
  let! changed := update_activity (ac_id (acl_row claim)) (leased_activity claim)
                    (renewed_row lease_expires_at now) in
  do! ensure_fenced changed in
  let! changed := update_attempt (ac_id (acl_row claim), acl_attempt_number claim)
      (attempt_open (acl_lease_token claim)) (λ r, r <| att_heartbeat_at := now |>) in
  do! ensure_fenced changed in
  let! deadline := tx_lift (lease_deadline_from_sample lease_sample_started
                              (ac_lease_duration_millis (acl_row claim))) in
  match ac_status row with
  | ActRunning => tx_ret (Held deadline)
  | ActCancelling => tx_ret (Revoked deadline)
  | ActPending | ActSucceeded | ActDeadLettered | ActCancelled =>
      tx_fail (InvalidState ("lease renewal fenced activity " +:+ fmt (ac_id (acl_row claim))
        +:+ " in status " +:+ as_str (ac_status row) +:+ ", which holds no lease"))
  end.

(** * T-W3 *)

Definition finish_attempt (claim : ActivityClaim) (outcome : AttemptOutcome)
    (category message provider_result : option string) (now : DbMillis) : Tx unit :=
  let! changed := update_attempt (ac_id (acl_row claim), acl_attempt_number claim)
      (attempt_open (acl_lease_token claim))
      (λ r, r <| att_finished_at := Some now |> <| att_outcome := Some outcome |>
              <| att_error_category := category |> <| att_error_message := message |>
              <| att_provider_result_json := provider_result |>) in
  ensure_fenced changed.

Definition succeeded_row (output : string) (now : DbMillis) (r : ActivityRow) : ActivityRow :=
  LeaseCleared (r <| ac_status := ActSucceeded |> <| ac_provider_result_json := Some output |>
                  <| ac_last_error_category := None |> <| ac_last_error_message := None |>)
    <| ac_updated_at := now |> <| ac_completed_at := Some now |>.

Definition retried_row (available_at : DbMillis) (category message : string) (now : DbMillis)
    (r : ActivityRow) : ActivityRow :=
  LeaseCleared (r <| ac_status := ActPending |> <| ac_available_at := available_at |>
                  <| ac_last_error_category := Some category |>
                  <| ac_last_error_message := Some message |>)
    <| ac_updated_at := now |>.

Definition dead_lettered_row (category message : string) (now : DbMillis) (r : ActivityRow)
    : ActivityRow :=
  LeaseCleared (r <| ac_status := ActDeadLettered |>
                  <| ac_last_error_category := Some category |>
                  <| ac_last_error_message := Some message |>)
    <| ac_updated_at := now |> <| ac_completed_at := Some now |>.

Definition dead_letter (claim : ActivityClaim) (row : ActivityRow)
    (category message : string) (now : DbMillis) : Tx unit :=
  let! changed := update_activity (ac_id (acl_row claim)) (fenced_activity claim)
                    (dead_lettered_row category message now) in
  do! ensure_fenced changed in
  do! finish_attempt claim OutDeadLettered (Some category) (Some message) None now in
  block_workflow row category message now.

Section worker.
Context `{Codec}.

Definition wake_workflow (claim : ActivityClaim) (output : string) (now : DbMillis)
    : Tx unit :=
  let workflow_id := ac_workflow_id (acl_row claim) in
  let activity_id := ac_id (acl_row claim) in
  let! workflow := find_workflow workflow_id (λ _, true) in
  let! workflow := first_or_not_found workflow in
  if negb (waits_on_activity activity_id workflow) then tx_fail FencedWrite
  else
    let! sequence := next_event_sequence workflow_id in
    let! command_sequence :=
      tx_lift (ok_or (u32_try_from (ac_command_sequence (acl_row claim)))
        (InvalidState "negative activity command sequence")) in
    let! result := tx_lift (new_activity_result (ac_kind (acl_row claim))
                              (ac_version (acl_row claim)) output) in
    do! append_event (NewWorkflowEventRow workflow_id sequence
          (Some (i32_saturating_add (wf_delivered_event_sequence workflow) 1))
          "activity_succeeded"
          (Some (event_to_json (ActivitySucceeded command_sequence result)))
          (Some "system") None None now) in
    let! changed := update_workflow workflow_id (waits_on_activity activity_id)
                      (woken WfReady now) in
    ensure_fenced changed.

Definition finish_on_connection (claim : ActivityClaim) (outcome : ExecutionOutcome)
    : Tx unit :=
  let! workflow := find_workflow (ac_workflow_id (acl_row claim)) (λ _, true) in
  do! first_or_not_found workflow in
  let! now := database_now_millis in
  let! row := find_activity (ac_id (acl_row claim)) (leased_activity claim) in
  let! row := tx_lift (ok_or row FencedWrite) in
  match ac_status row, outcome with
  | ActCancelling, _ =>
      let! category := tx_lift (ok_or (ac_last_error_category row)
            (InvalidState ("cancelling activity " +:+ fmt (ac_id row)
                           +:+ " records no revoke outcome"))) in
      let! attempt_outcome := tx_lift (status_try_from category) in
      do! settle_revoked row attempt_outcome (default "" (ac_last_error_message row)) now in
      tx_ret tt
  | ActRunning, ExRevoked =>
      tx_fail (InvalidState ("activity " +:+ fmt (ac_id row) +:+ " attempt "
        +:+ fmt (acl_attempt_number claim) +:+ " finished as revoked but is still running"))
  | (ActPending | ActSucceeded | ActDeadLettered | ActCancelled), _ =>
      tx_fail (InvalidState ("finish fenced activity " +:+ fmt (ac_id row) +:+ " in status "
        +:+ as_str (ac_status row) +:+ ", which holds no lease"))
  | ActRunning, ExSucceeded output =>
      let! changed := update_activity (ac_id (acl_row claim)) (fenced_activity claim)
                        (succeeded_row output now) in
      do! ensure_fenced changed in
      do! finish_attempt claim OutSucceeded None None (Some output) now in
      wake_workflow claim output now
  | ActRunning, ExRetryable error =>
      let category := (activity_error_parts error).1 in
      let message := (activity_error_parts error).2 in
      if (ac_max_attempts (acl_row claim) <=? acl_attempt_number claim)%Z
      then dead_letter claim row category message now
      else
        let! attempt := tx_lift (ok_or (u32_try_from (acl_attempt_number claim))
              (InvalidState "negative activity attempt")) in
        let percentile := jitter_percentile ("activity:" +:+ fmt (ac_id (acl_row claim))
                                             +:+ ":retry:" +:+ fmt attempt) in
        let! delay := tx_lift (delay_for_attempt (acl_retry_policy claim) attempt
                                 percentile) in
        let! delay_millis := tx_lift (duration_millis (delay * 1000)%Z) in
        let available_at := saturating_plus_millis now delay_millis in
        let! changed := update_activity (ac_id (acl_row claim)) (fenced_activity claim)
                          (retried_row available_at category message now) in
        do! ensure_fenced changed in
        do! finish_attempt claim OutRetryableFailure (Some category) (Some message) None
              now in
        append_activity_history (acl_row claim) "activity_retry_scheduled" (Some message)
          now
  | ActRunning, ExPermanent error =>
      dead_letter claim row (activity_error_parts error).1 (activity_error_parts error).2 now
  end.

(** [finish_claim]: a revoked attempt that reconciliation already settled
    is not an error. *)
Definition finish_claim (e : Env) (claim : ActivityClaim) (outcome : ExecutionOutcome)
    (d : Db) : Result unit * Db :=
  match transaction e (finish_on_connection claim outcome) d, outcome with
  | (Err FencedWrite, d'), ExRevoked => (Ok tt, d')
  | result, _ => result
  end.

(** * T-W1: lease reconciliation *)

Definition lease_expired (now : DbMillis) (r : ActivityRow) : bool :=
  match ac_lease_expires_at r with Some expiry => (expiry <=? now)%Z | None => true end.

Definition expired_holder (topic : string) (now : DbMillis) (r : ActivityRow) : bool :=
  bool_decide (ac_topic r = topic) && set_contains LEASE_HOLDERS (ac_status r)
  && lease_expired now r.

Definition reconciled_row (exhausted : bool) (available_at now : DbMillis)
    (r : ActivityRow) : ActivityRow :=
  LeaseCleared (r <| ac_status := (if exhausted then ActDeadLettered else ActPending) |>
                  <| ac_available_at := available_at |>
                  <| ac_last_error_category := Some "lease_expired" |>
                  <| ac_last_error_message := Some "activity lease expired" |>)
    <| ac_updated_at := now |>
    <| ac_completed_at := (if exhausted then Some now else None) |>.

(** When the recovered attempt may run again. *)
Definition recovery_available_at (row : ActivityRow) (exhausted : bool) (now : DbMillis)
    : Result DbMillis :=
  if exhausted then Ok now
  else match decode_retry_policy (ac_retry_policy_json row) with
       | Err _ => Ok now
       | Ok retry_policy =>
           let? attempt := ok_or (u32_try_from (ac_attempt_count row))
                             (InvalidState "negative activity attempt") in
           let percentile := jitter_percentile ("activity:" +:+ fmt (ac_id row)
                               +:+ ":lease_recovery:" +:+ fmt attempt) in
           let? delay := delay_for_attempt retry_policy attempt percentile in
           let? delay_millis := duration_millis (delay * 1000)%Z in
           Ok (saturating_plus_millis now delay_millis)
       end.

(** One expired running row, its workflow locked as [workflow]. *)
Definition reconcile_running (workflow : WorkflowRow) (row : ActivityRow) (now : DbMillis)
    : Tx unit :=
  let! lease_token := tx_lift (ok_or (ac_lease_token row)
        (InvalidState ("running activity " +:+ fmt (ac_id row) +:+ " has no lease token"))) in
  let exhausted := (ac_max_attempts row <=? ac_attempt_count row)%Z in
  let! available_at := tx_lift (recovery_available_at row exhausted now) in
  let! changed := update_activity (ac_id row)
      (λ r, bool_decide (ac_status r = ActRunning
                         ∧ ac_attempt_count r = ac_attempt_count row
                         ∧ ac_lease_token r = Some lease_token))
      (reconciled_row exhausted available_at now) in
  do! ensure_fenced changed in
  let! changed := update_attempt (ac_id row, ac_attempt_count row)
      (attempt_open lease_token)
      (λ r, r <| att_finished_at := Some now |> <| att_outcome := Some OutLeaseExpired |>
              <| att_error_category := Some (as_str OutLeaseExpired) |>
              <| att_error_message := Some "activity lease expired" |>) in
  do! ensure_fenced changed in
  do! append_activity_history row "activity_lease_expired" (Some "activity lease expired")
        now in
  if exhausted && waits_on_activity (ac_id row) workflow
  then block_workflow row "lease_expired" "activity lease expired" now
  else tx_ret tt.

(** One candidate; [true] when it stays unsettled because its workflow row
    is held by another transaction. *)
Definition reconcile_candidate (topic : string) (now : DbMillis) (candidate : ActivityRow)
    : Tx bool :=
  let! workflow := find_workflow_skip_locked (ac_workflow_id candidate) (λ _, true) in
  match workflow with
  | None => tx_ret true
  | Some workflow =>
      let! row := find_activity (ac_id candidate) (expired_holder topic now) in
      match row with
      | None => tx_ret false
      | Some row =>
          match ac_status row with
          | ActRunning => do! reconcile_running workflow row now in tx_ret false
          | ActCancelling =>
              do! settle_revoked row OutLeaseExpired "activity lease expired" now in
              tx_ret false
          | ActPending | ActSucceeded | ActDeadLettered | ActCancelled =>
              tx_fail (InvalidState ("lease reconciliation loaded activity "
                +:+ fmt (ac_id row) +:+ " in status " +:+ as_str (ac_status row)
                +:+ ", which holds no lease"))
          end
      end
  end.

Fixpoint reconcile_candidates (topic : string) (now : DbMillis)
    (candidates : list ActivityRow) : Tx (list ActivityId) :=
  match candidates with
  | [] => tx_ret []
  | candidate :: rest =>
      let! unsettled := reconcile_candidate topic now candidate in
      let! more := reconcile_candidates topic now rest in
      tx_ret (if unsettled : bool then ac_id candidate :: more else more)
  end.

(** [reconcile_expired]: the ids left unsettled. *)
Definition reconcile_expired (topic : string) (now : DbMillis) : Tx (list ActivityId) :=
  let! candidates := select_activities (expired_holder topic now) in
  reconcile_candidates topic now candidates.

Definition slot_counted (topic : string) (unsettled : list ActivityId) (now : DbMillis)
    (r : ActivityRow) : bool :=
  bool_decide (ac_topic r = topic) && set_contains SLOT_HOLDERS (ac_status r)
  && (match ac_lease_expires_at r with Some expiry => (now <? expiry)%Z | None => false end
      || bool_decide (ac_id r ∈ unsettled)).

(** [TopicReconciled::in_flight]. *)
Definition in_flight (topic : string) (unsettled : list ActivityId) (now : DbMillis)
    : Tx Z :=
  let! rows := select_activities (slot_counted topic unsettled now) in
  tx_ret (Z.of_nat (length rows)).

(** * T-W1: claims *)

Definition quarantined_row (message : string) (now : DbMillis) (r : ActivityRow)
    : ActivityRow :=
  r <| ac_status := ActDeadLettered |>
    <| ac_last_error_category := Some INVALID_ROW_CATEGORY |>
    <| ac_last_error_message := Some message |>
    <| ac_updated_at := now |> <| ac_completed_at := Some now |>.

Definition quarantine_candidate (row : ActivityRow) (reason message : string)
    (now : DbMillis) : Tx unit :=
  let message := reason +:+ ": " +:+ message in
  let! changed := update_activity (ac_id row)
      (λ r, bool_decide (ac_status r = ActPending
                         ∧ ac_attempt_count r = ac_attempt_count row))
      (quarantined_row message now) in
  do! ensure_fenced changed in
  do! append_activity_history row "activity_quarantined" (Some message) now in
  block_workflow row INVALID_ROW_CATEGORY message now.

Definition claimed_activity_row (worker_id lease_token : string) (attempt_number : Z)
    (lease_expires_at now : DbMillis) (r : ActivityRow) : ActivityRow :=
  r <| ac_status := ActRunning |> <| ac_attempt_count := attempt_number |>
    <| ac_lease_owner := Some worker_id |> <| ac_lease_token := Some lease_token |>
    <| ac_lease_expires_at := Some lease_expires_at |> <| ac_updated_at := now |>.

Definition new_attempt_row (activity_id : ActivityId) (attempt_number : Z)
    (worker_id lease_token : string) (now : DbMillis) : ActivityAttemptRow :=
  {| att_activity_id := activity_id; att_attempt_number := attempt_number;
     att_worker_id := worker_id; att_lease_token := lease_token;
     att_started_at := now; att_heartbeat_at := now; att_finished_at := None;
     att_outcome := None; att_error_category := None; att_error_message := None;
     att_provider_result_json := None |}.

Definition claimable (now : DbMillis) (workflow_id : WorkflowId) (r : ActivityRow) : bool :=
  bool_decide (ac_workflow_id r = workflow_id ∧ ac_status r = ActPending)
  && (ac_available_at r <=? now)%Z.

(** The claim of the locked row. *)
Definition claim_row_locked (row : ActivityRow) (schedule_run_id : option ScheduleRunId)
    (retry_policy : RetryPolicy) (now : DbMillis) (lease_sample_started : Instant)
    (worker_id : string) : Tx ActivityClaim :=
  let! attempt_number := tx_lift (ok_or (i32_checked_add (ac_attempt_count row) 1)
        (InvalidState "activity attempt overflow")) in
  let! lease_token := new_uuid in
  let! lease_expires_at :=
    tx_lift (ok_or (checked_plus_millis now (ac_lease_duration_millis row))
      (InvalidState "activity lease timestamp overflow")) in
  let! changed := update_activity (ac_id row)
      (λ r, bool_decide (ac_status r = ActPending
                         ∧ ac_attempt_count r = ac_attempt_count row))
      (claimed_activity_row worker_id lease_token attempt_number lease_expires_at now) in
  do! ensure_fenced changed in
  do! insert_attempt (new_attempt_row (ac_id row) attempt_number worker_id lease_token now) in
  let! lease_deadline := tx_lift (lease_deadline_from_sample lease_sample_started
                                    (ac_lease_duration_millis row)) in
  tx_ret {| acl_row := row <| ac_status := ActRunning |>
                         <| ac_attempt_count := attempt_number |>
                         <| ac_lease_token := Some lease_token |>
                         <| ac_lease_owner := Some worker_id |>
                         <| ac_lease_expires_at := Some lease_expires_at |>;
            acl_schedule_run_id := schedule_run_id;
            acl_attempt_number := attempt_number;
            acl_lease_token := lease_token;
            acl_lease_deadline := lease_deadline;
            acl_retry_policy := retry_policy |}.

Definition claim_locked_candidate (activities : ActivityRegistry)
    (candidate_id : ActivityId) (workflow_id : WorkflowId) (now : DbMillis)
    (lease_sample_started : Instant) (worker_id : string) : Tx (option ActivityClaim) :=
  let! locked_workflow := find_workflow_skip_locked workflow_id
                            (waits_on_activity candidate_id) in
  match locked_workflow with
  | None => tx_ret None
  | Some workflow =>
      let! row := find_activity_skip_locked candidate_id (claimable now workflow_id) in
      match row with
      | None => tx_ret None
      | Some row =>
          if negb (contains (areg_definitions activities) (ac_kind row) (ac_version row))
          then tx_ret None
          else if (ac_max_attempts row <=? ac_attempt_count row)%Z
          then do! quarantine_candidate row "attempt_cap"
                     ("pending activity " +:+ fmt (ac_id row)
                      +:+ " has exhausted its attempt cap") now in
               tx_ret None
          else if (ac_timeout_millis row <=? 0)%Z
                  || (ac_lease_duration_millis row <=? ac_timeout_millis row)%Z
          then do! quarantine_candidate row "invalid_bounds"
                     ("activity " +:+ fmt (ac_id row)
                      +:+ " has invalid timeout or lease bounds") now in
               tx_ret None
          else match decode_retry_policy (ac_retry_policy_json row) with
               | Err _ =>
                   do! quarantine_candidate row "invalid_bounds"
                         ("activity " +:+ fmt (ac_id row)
                          +:+ " has an invalid retry policy: "
                          +:+ policy_error_text (ac_retry_policy_json row)) now in
                   tx_ret None
               | Ok retry_policy =>
                   let! claim := claim_row_locked row (wf_schedule_run_id workflow)
                                   retry_policy now lease_sample_started worker_id in
                   tx_ret (Some claim)
               end
      end
  end.

(** The candidate order: due time, then the workflow for a continuation and
    the activity otherwise, then the activity. *)
Definition candidate_tie (r : ActivityRow) : Z :=
  if (ac_available_at r =? CONTINUATION_READY_AT_MILLIS)%Z
  then ac_workflow_id r else ac_id r.

Definition candidate_le (a b : ActivityRow) : bool :=
  (ac_available_at a <? ac_available_at b)%Z
  || ((ac_available_at a =? ac_available_at b)%Z
      && ((candidate_tie a <? candidate_tie b)%Z
          || ((candidate_tie a =? candidate_tie b)%Z && (ac_id a <=? ac_id b)%Z))).

Definition candidate (d : Db) (local_definitions : list DefinitionKey) (topic : string)
    (now : DbMillis) (r : ActivityRow) : bool :=
  bool_decide ((ac_kind r, ac_version r) ∈ local_definitions
               ∧ ac_topic r = topic ∧ ac_status r = ActPending)
  && (ac_available_at r <=? now)%Z
  && match db_workflow d !! ac_workflow_id r with
     | Some workflow => waits_on_activity (ac_id r) workflow
     | None => false
     end.

Definition select_candidates (local_definitions : list DefinitionKey) (topic : string)
    (now : DbMillis) : Tx (list (ActivityId * WorkflowId)) :=
  let! d := tx_get in
  let! rows := select_activities (candidate d local_definitions topic now) in
  tx_ret ((λ r, (ac_id r, ac_workflow_id r)) <$>
            take CLAIM_CANDIDATE_SCAN_LIMIT (sort_by candidate_le rows)).

(** The candidate loop of [claim_one]: stops at the first claim. *)
Fixpoint claim_first (activities : ActivityRegistry)
    (candidates : list (ActivityId * WorkflowId)) (now : DbMillis)
    (lease_sample_started : Instant) (worker_id : string) : Tx (option ActivityClaim) :=
  match candidates with
  | [] => tx_ret None
  | (candidate_id, workflow_id) :: rest =>
      let! claim := claim_locked_candidate activities candidate_id workflow_id now
                      lease_sample_started worker_id in
      match claim with
      | Some claim => tx_ret (Some claim)
      | None => claim_first activities rest now lease_sample_started worker_id
      end
  end.

(** The transaction of [claim_one]; the topic locks are seeded before it. *)
Definition claim_one (activities : ActivityRegistry) (topics : TopicRegistry)
    (worker_id topic : string) (lease_sample_started : Instant)
    : Tx (option ActivityClaim) :=
  do! tx_lift (ok_or (topics !! topic)
        (InvalidDefinition ("unregistered activity topic " +:+ topic))) in
  let! now := database_now_millis in
  let! d := tx_get in
  let! lock := first_or_not_found (db_topic_lock d !! topic) in
  let! unsettled := reconcile_expired topic now in
  let! in_flight := in_flight topic unsettled now in
  if (tl_max_concurrency lock <=? in_flight)%Z then tx_ret None
  else match definition_keys (areg_definitions activities) with
       | [] => tx_ret None
       | local_definitions =>
           let! candidates := select_candidates local_definitions topic now in
           claim_first activities candidates now lease_sample_started worker_id
       end.

(** The candidate loop of [claim_batch] for one topic: stops at [limit]
    claims in all or [wanted] of the topic. *)
Fixpoint claim_candidates (activities : ActivityRegistry) (topic : string)
    (limit wanted : nat) (candidates : list (ActivityId * WorkflowId)) (now : DbMillis)
    (lease_sample_started : Instant) (worker_id : string) (claims : list ActivityClaim)
    : Tx (list ActivityClaim) :=
  match candidates with
  | [] => tx_ret claims
  | (candidate_id, workflow_id) :: rest =>
      if (limit <=? length claims)%nat
         || (wanted <=? length (filter (λ c, ac_topic (acl_row c) = topic) claims))%nat
      then tx_ret claims
      else
        let! claim := claim_locked_candidate activities candidate_id workflow_id now
                        lease_sample_started worker_id in
        claim_candidates activities topic limit wanted rest now lease_sample_started
          worker_id (match claim with Some c => claims ++ [c] | None => claims end)
  end.

(** [global_available.min(local capacity).min(limit - claimed)]. *)
Definition wanted_of (persisted_limit in_flight : Z) (local_capacity limit claimed : nat)
    : nat :=
  let global_available :=
    Z.to_nat (Z.max 0 (i64_saturating_sub persisted_limit in_flight)) in
  Nat.min (Nat.min global_available local_capacity) (usize_saturating_sub limit claimed).

(** The topic loop of [claim_batch]. *)
Fixpoint claim_topics (activities : ActivityRegistry)
    (locked_topics : list (string * Z)) (local_topic_capacity : gmap string nat)
    (limit : nat) (now : DbMillis) (lease_sample_started : Instant) (worker_id : string)
    (claims : list ActivityClaim) : Tx (list ActivityClaim) :=
  match locked_topics with
  | [] => tx_ret claims
  | (topic, persisted_limit) :: rest =>
      let! unsettled := reconcile_expired topic now in
      let! in_flight := in_flight topic unsettled now in
      let wanted := wanted_of persisted_limit in_flight
                      (default 0%nat (local_topic_capacity !! topic)) limit
                      (length claims) in
      if (wanted =? 0)%nat
      then claim_topics activities rest local_topic_capacity limit now lease_sample_started
             worker_id claims
      else match definition_keys (areg_definitions activities) with
           | [] => tx_ret claims
           | local_definitions =>
               let! candidates := select_candidates local_definitions topic now in
               let! claims := claim_candidates activities topic limit wanted candidates now
                                lease_sample_started worker_id claims in
               claim_topics activities rest local_topic_capacity limit now
                 lease_sample_started worker_id claims
           end
  end.

(** The locked topic rows: [SKIP LOCKED], in topic order. *)
Definition lock_topics (registered_topics : list string) : Tx (list (string * Z)) :=
  let! d := tx_get in
  let! e := tx_env in
  tx_ret (omap (λ topic,
    if env_locked_topic e topic then None
    else (λ r, (topic, tl_max_concurrency r)) <$> db_topic_lock d !! topic)
    registered_topics).

Definition claim_batch (activities : ActivityRegistry) (topics : TopicRegistry)
    (worker_id : string) (limit : nat) (local_topic_capacity : gmap string nat)
    (lease_sample_started : Instant) : Tx (list ActivityClaim) :=
  if (limit =? 0)%nat
     || forallb (λ capacity, capacity =? 0)%nat (snd <$> map_to_list local_topic_capacity)
  then tx_ret []
  else
    let registered_topics := td_key <$> topic_definitions topics in
    let! locked_topics := lock_topics registered_topics in
    if negb (length locked_topics =? length registered_topics)%nat then tx_ret []
    else
      let! now := database_now_millis in
      claim_topics activities locked_topics local_topic_capacity limit now
        lease_sample_started worker_id [].
End worker.
