(* ===== verification/WorkerSteps.v ===== *)
(** The operations of [Worker] move rows by the documented steps. *)
From stdpp Require Import base gmap list strings relations.
From Stdlib Require Import ZArith Lia.
From S2P Require Import Prelude.
From S2P Require Import Errors.
From S2P Require Import Status.
From S2P Require Import Rows.
From S2P Require Import Database.
From S2P Require Import TxLogic.
From S2P Require Import Lifecycle.
From S2P Require Import Evolution.
From S2P Require Import Policy.
From S2P Require Import Transitions.
From S2P Require Import Registry.
From S2P Require Import Parents.
From S2P Require Import Store.
From S2P Require Import StoreSteps.
From S2P Require Import Worker.

(** Instance search does not look into the operations. *)
#[export] Hint Opaque append_activity_history block_workflow settle_revoked heartbeat_once
  finish_attempt dead_letter wake_workflow finish_on_connection reconcile_running
  reconcile_candidate reconcile_candidates reconcile_expired in_flight quarantine_candidate
  claim_row_locked claim_locked_candidate select_candidates claim_first claim_one
  claim_candidates claim_topics lock_topics claim_batch : typeclass_instances.

(** * The changesets *)

Lemma fenced_activity_spec claim r :
  fenced_activity claim r = true ↔
  ac_status r = ActRunning ∧ ac_attempt_count r = acl_attempt_number claim
  ∧ ac_lease_token r = Some (acl_lease_token claim).
Proof. apply bool_decide_eq_true. Qed.

Lemma lease_holders_spec s : set_contains LEASE_HOLDERS s = holds_lease s.
Proof. by destruct s. Qed.

Lemma leased_activity_spec claim r :
  leased_activity claim r = true ↔
  holds_lease (ac_status r) = true ∧ ac_attempt_count r = acl_attempt_number claim
  ∧ ac_lease_token r = Some (acl_lease_token claim).
Proof.
  unfold leased_activity. by rewrite lease_holders_spec, andb_true_iff, bool_decide_eq_true.
Qed.

Lemma waits_on_activity_spec id r :
  waits_on_activity id r = true ↔
  wf_status r = WfWaitingActivity ∧ wf_wait_reference_id r = Some id.
Proof. apply bool_decide_eq_true. Qed.

Lemma blocked_row_step id category message now r :
  waits_on_activity id r = true → wf_step r (blocked_row category message now r).
Proof. intros [Hr _]%waits_on_activity_spec. columns. apply ws_block; columns. Qed.

Lemma woken_by_activity_step id now r :
  waits_on_activity id r = true → wf_step r (woken WfReady now r).
Proof.
  intros [Hr _]%waits_on_activity_spec. columns. apply ws_wake; columns. by left.
Qed.

Lemma settled_row_step terminal at_ now r :
  ac_status r = ActCancelling → ac_step r (settled_row terminal at_ now r).
Proof.
  intros Hr. destruct terminal; columns.
  - apply as_settle_cancelled; columns.
  - apply as_settle_pending; columns.
Qed.

Lemma renewed_row_step claim expires now r :
  leased_activity claim r = true → ac_step r (renewed_row expires now r).
Proof. intros (Hr & _)%leased_activity_spec. columns. apply as_renew; columns. Qed.

Lemma heartbeat_step token now r :
  attempt_open token r = true → att_step r (r <| att_heartbeat_at := now |>).
Proof.
  unfold attempt_open. rewrite bool_decide_eq_true. intros [_ Hr].
  columns. apply ats_heartbeat; columns.
Qed.

Lemma finished_attempt_step token now outcome category message result r :
  attempt_open token r = true →
  att_step r (r <| att_finished_at := Some now |> <| att_outcome := Some outcome |>
                <| att_error_category := category |> <| att_error_message := message |>
                <| att_provider_result_json := result |>).
Proof.
  unfold attempt_open. rewrite bool_decide_eq_true. intros [_ Hr].
  columns. eapply ats_close; columns.
Qed.

Lemma succeeded_row_step claim output now r :
  fenced_activity claim r = true → ac_step r (succeeded_row output now r).
Proof. intros (Hr & _)%fenced_activity_spec. columns. apply as_succeed; columns. Qed.

Lemma retried_row_step claim at_ category message now r :
  fenced_activity claim r = true → ac_step r (retried_row at_ category message now r).
Proof. intros (Hr & _)%fenced_activity_spec. columns. apply as_requeue; columns. Qed.

Lemma dead_lettered_row_step claim category message now r :
  fenced_activity claim r = true → ac_step r (dead_lettered_row category message now r).
Proof. intros (Hr & _)%fenced_activity_spec. columns. apply as_dead_letter; columns. Qed.

Lemma reconciled_row_step exhausted at_ now r :
  ac_status r = ActRunning → ac_step r (reconciled_row exhausted at_ now r).
Proof.
  intros Hr. destruct exhausted; columns.
  - apply as_dead_letter; columns.
  - apply as_requeue; columns.
Qed.

Lemma quarantined_row_step message now r :
  ac_status r = ActPending → ac_step r (quarantined_row message now r).
Proof. intros Hr. columns. apply as_quarantine; columns. Qed.

Lemma claimed_activity_row_step worker token expires now n r :
  ac_status r = ActPending → (ac_attempt_count r < ac_max_attempts r)%Z →
  i32_checked_add (ac_attempt_count r) 1 = Some n →
  ac_step r (claimed_activity_row worker token n expires now r).
Proof. intros Hr Hlt [-> _]%i32_checked_add_Some. columns. apply as_claim; columns. Qed.

Lemma new_attempt_row_open activity n worker token now :
  att_open (new_attempt_row activity n worker token now).
Proof. columns. Qed.
#[export] Hint Resolve blocked_row_step woken_by_activity_step settled_row_step
  renewed_row_step heartbeat_step finished_attempt_step succeeded_row_step retried_row_step
  dead_lettered_row_step reconciled_row_step quarantined_row_step
  claimed_activity_row_step new_attempt_row_open : steps.

(** * The operations *)

#[export] Instance append_activity_history_evolves row type reason now :
  Evolves (append_activity_history row type reason now).
Proof. unfold append_activity_history. evolves. Qed.

#[export] Instance block_workflow_evolves row category message now :
  Evolves (block_workflow row category message now).
Proof. unfold block_workflow. evolves. Qed.

#[export] Instance settle_revoked_evolves row outcome message now :
  Evolves (settle_revoked row outcome message now).
Proof. unfold settle_revoked. evolves. Qed.

#[export] Instance heartbeat_once_evolves claim started : Evolves (heartbeat_once claim started).
Proof. unfold heartbeat_once. evolves. Qed.

#[export] Instance finish_attempt_evolves claim outcome category message result now :
  Evolves (finish_attempt claim outcome category message result now).
Proof. unfold finish_attempt. evolves. Qed.

#[export] Instance dead_letter_evolves claim row category message now :
  Evolves (dead_letter claim row category message now).
Proof. unfold dead_letter. evolves. Qed.

Section worker.
Context `{Codec}.

#[export] Instance wake_workflow_evolves claim output now :
  Evolves (wake_workflow claim output now).
Proof. unfold wake_workflow. evolves. Qed.

#[export] Instance finish_on_connection_evolves claim outcome :
  Evolves (finish_on_connection claim outcome).
Proof. unfold finish_on_connection. evolves. Qed.

#[export] Instance reconcile_running_evolves workflow row now :
  Evolves (reconcile_running workflow row now).
Proof. unfold reconcile_running. evolves. Qed.

#[export] Instance reconcile_candidate_evolves topic now candidate :
  Evolves (reconcile_candidate topic now candidate).
Proof. unfold reconcile_candidate. evolves. Qed.

#[export] Instance reconcile_candidates_evolves topic now candidates :
  Evolves (reconcile_candidates topic now candidates).
Proof. induction candidates; simpl; evolves. Qed.

#[export] Instance reconcile_expired_evolves topic now :
  Evolves (reconcile_expired topic now).
Proof. unfold reconcile_expired. evolves. Qed.

#[export] Instance in_flight_evolves topic unsettled now :
  Evolves (in_flight topic unsettled now).
Proof. unfold in_flight. evolves. Qed.

#[export] Instance quarantine_candidate_evolves row reason message now :
  Evolves (quarantine_candidate row reason message now).
Proof. unfold quarantine_candidate. evolves. Qed.

#[export] Instance claim_locked_candidate_evolves activities id workflow now started worker :
  Evolves (claim_locked_candidate activities id workflow now started worker).
Proof. unfold claim_locked_candidate, claim_row_locked. evolves; same_rows; eauto with steps. Qed.

#[export] Instance select_candidates_evolves definitions topic now :
  Evolves (select_candidates definitions topic now).
Proof. unfold select_candidates. evolves. Qed.

#[export] Instance claim_first_evolves activities candidates now started worker :
  Evolves (claim_first activities candidates now started worker).
Proof. induction candidates as [|[]]; simpl; evolves. Qed.

#[export] Instance claim_one_evolves activities topics worker topic started :
  Evolves (claim_one activities topics worker topic started).
Proof. unfold claim_one. evolves. Qed.

#[export] Instance claim_candidates_evolves activities topic limit wanted candidates now
    started worker claims :
  Evolves (claim_candidates activities topic limit wanted candidates now started worker claims).
Proof. revert claims. induction candidates as [|[]]; intros; simpl; evolves. Qed.

#[export] Instance claim_topics_evolves activities topics capacity limit now started worker
    claims :
  Evolves (claim_topics activities topics capacity limit now started worker claims).
Proof. revert claims. induction topics as [|[]]; intros; simpl; evolves. Qed.

#[export] Instance lock_topics_evolves topics : Evolves (lock_topics topics).
Proof. unfold lock_topics. evolves. Qed.

#[export] Instance claim_batch_evolves activities topics worker limit capacity started :
  Evolves (claim_batch activities topics worker limit capacity started).
Proof. unfold claim_batch. evolves. Qed.
End worker.
