(* ===== verification/Temporal.v ===== *)
(** The timer (T-T1) and approval-expiry (T-A1) materializers
    ([runtime/temporal.rs]). *)
From stdpp Require Import base gmap list strings.
From Stdlib Require Import ZArith Lia.
From S2P Require Import Prelude.
From S2P Require Import Errors.
From S2P Require Import Status.
From S2P Require Import Rows.
From S2P Require Import Database.
From S2P Require Import Policy.
From S2P Require Import Transitions.
From S2P Require Import Parents.
From S2P Require Import Coordinator.

(** The command sequence that the wake event of a timer or approval wait
    answers. *)
Definition wait_command_sequence (workflow : WorkflowRow) : Result Z :=
  let? wait := wf_wait workflow in
  let? _ :=
    match wait with
    | Some (WaitTimer command_sequence) =>
        if (command_sequence =? wf_command_sequence workflow)%Z then Ok tt
        else Err (InvalidState ("workflow " +:+ fmt (wf_id workflow)
               +:+ " timer reference does not match its command sequence"))
    | Some (WaitApproval _) => Ok tt
    | Some (WaitActivity _) | Some (WaitChild _) | None =>
        Err (InvalidState ("workflow " +:+ fmt (wf_id workflow)
               +:+ " has no timer or approval wait"))
    end in
  ok_or (u32_try_from (wf_command_sequence workflow))
    (InvalidState ("workflow " +:+ fmt (wf_id workflow) +:+ " has a negative command sequence")).

Definition clear_wait (workflow : WorkflowRow) (now : DbMillis) : Tx unit :=
  let! changed := update_workflow (wf_id workflow) (same_wait workflow)
                    (woken (woken_status (wf_status workflow)) now) in
  ensure_fenced changed.

Definition due_timer (now : DbMillis) (r : WorkflowRow) : bool :=
  bool_decide (wf_status r = WfSleeping ∧ wf_wait_kind r = Some KindTimer)
  && (wf_available_at r <=? now)%Z.

Definition expiring_approval (now : DbMillis) (r : ApprovalRow) : bool :=
  bool_decide (ap_status r = ApprPending)
  && match ap_expires_at r with Some expires_at => (expires_at <=? now)%Z | None => false end.

Definition approval_expiry_le (a b : ApprovalRow) : bool :=
  let ea := default 0%Z (ap_expires_at a) in
  let eb := default 0%Z (ap_expires_at b) in
  (ea <? eb)%Z || ((ea =? eb)%Z && (ap_id a <=? ap_id b)%Z).

Section temporal.
Context `{Codec}.

Definition append_delivery_event (workflow : WorkflowRow) (event_type : string)
    (event : WorkflowEvent) (now : DbMillis) : Tx unit :=
  let metadata_json := event_to_json event in
  do! tx_lift (ensure_size "temporal workflow event" metadata_json
                 MAX_EVENT_METADATA_BYTES) in
  let! delivery_sequence :=
    tx_lift (ok_or (i32_checked_add (wf_delivered_event_sequence workflow) 1)
      (InvalidState "workflow delivery sequence overflow")) in
  let! sequence := next_event_sequence (wf_id workflow) in
  append_event (NewWorkflowEventRow (wf_id workflow) sequence (Some delivery_sequence)
    event_type (Some metadata_json) (Some "system") None None now).

(** [TimerMaterializer::materialize_one]: the first due sleeping row no
    other transaction holds. *)
Definition materialize_timer (now : DbMillis) : Tx (option WorkflowId) :=
  let! e := tx_env in
  let! rows := select_workflows (λ r,
      due_timer now r && negb (env_locked_workflow e (wf_id r))) in
  match sort_by available_le rows with
  | [] => tx_ret None
  | workflow :: _ =>
      let! command_sequence := tx_lift (wait_command_sequence workflow) in
      do! append_delivery_event workflow "timer_fired" (TimerFired command_sequence) now in
      do! clear_wait workflow now in
      tx_ret (Some (wf_id workflow))
  end.

Definition expired_approval_row (now : DbMillis) (r : ApprovalRow) : ApprovalRow :=
  r <| ap_status := ApprExpired |> <| ap_resolved_at := Some now |>.

(** The transaction of [ApprovalExpiryMaterializer::materialize_one] on the
    candidate it read before. *)
Definition expire_candidate (now : DbMillis) (approval_id : ApprovalId)
    (workflow_id : WorkflowId) : Tx (option ApprovalId) :=
  let! workflow := lock_workflow_by_id workflow_id in
  let! approval := find_approval approval_id in
  let! approval := first_or_not_found approval in
  if negb (expiring_approval now approval) then tx_ret None
  else
    let! wait := if negb (awaits_approval (wf_status workflow)) then tx_ret None
                 else tx_lift (wf_wait workflow) in
    if negb (awaits_approval (wf_status workflow))
       || bool_decide (wait ≠ Some (WaitApproval (ap_id approval)))
       || bool_decide (wf_kind workflow ≠ ap_kind approval)
       || bool_decide (wf_version workflow ≠ ap_version approval)
    then tx_fail (InvalidState ("expired approval " +:+ fmt (ap_id approval)
           +:+ " no longer matches workflow " +:+ fmt (wf_id workflow)))
    else
      let! command_sequence := tx_lift (wait_command_sequence workflow) in
      if bool_decide (command_sequence ≠ ap_command_sequence approval)
      then tx_fail (InvalidState ("approval " +:+ fmt (ap_id approval)
             +:+ " command sequence does not match workflow " +:+ fmt (wf_id workflow)))
      else
        do! append_delivery_event workflow "approval_expired"
              (ApprovalExpired command_sequence) now in
        let! changed := update_approval (ap_id approval)
            (λ r, bool_decide (ap_status r = ApprPending)) (expired_approval_row now) in
        do! ensure_fenced changed in
        do! clear_wait workflow now in
        tx_ret (Some (ap_id approval)).

(** The candidate read and the transaction; the read is outside it. *)
Definition materialize_approval_expiry (now : DbMillis) (e : Env) (d : Db)
    : Result (option ApprovalId) * Db :=
  match head (sort_by approval_expiry_le
                (filter (λ r, expiring_approval now r = true)
                   (snd <$> map_to_list (db_approval d)))) with
  | None => (Ok None, d)
  | Some approval =>
      transaction e (expire_candidate now (ap_id approval) (ap_workflow_id approval)) d
  end.
End temporal.
