(* ===== verification/TemporalSteps.v ===== *)
(** The operations of [Temporal] move rows by the documented steps. *)
From stdpp Require Import base gmap list strings relations.
From Stdlib Require Import ZArith Lia.
From S2P Require Import Prelude.
From S2P Require Import Errors.
From S2P Require Import Status.
From S2P Require Import Rows.
From S2P Require Import Database.
From S2P Require Import TxLogic.
From S2P Require Import Lifecycle.
From S2P Require Import Evolution.
From S2P Require Import Policy.
From S2P Require Import Transitions.
From S2P Require Import Registry.
From S2P Require Import Parents.
From S2P Require Import Store.
From S2P Require Import StoreSteps.
From S2P Require Import Coordinator.
From S2P Require Import CoordinatorSteps.
From S2P Require Import Temporal.

(** Instance search does not look into the operations. *)
#[export] Hint Opaque clear_wait append_delivery_event materialize_timer expire_candidate : typeclass_instances.

(** The wait that the answered command implies. *)
Lemma wait_command_sequence_Ok workflow n :
  wait_command_sequence workflow = Ok n →
  n = wf_command_sequence workflow
  ∧ (wf_wait workflow = Ok (Some (WaitTimer n))
     ∨ ∃ id, wf_wait workflow = Ok (Some (WaitApproval id))).
Proof.
  unfold wait_command_sequence. intros (w & Hw & H)%res_bind_Ok.
  apply res_bind_Ok in H as ([] & Hok & [-> _]%ok_or_Ok%u32_try_from_Some).
  split; [done|]. rewrite Hw.
  destruct w as [[c| | |id]|]; try done; [|by eauto].
  destruct (Z.eqb_spec c (wf_command_sequence workflow)) as [->|]; [by left|done].
Qed.

Lemma woken_by_timer_step now now' workflow r n :
  due_timer now workflow = true → wait_command_sequence workflow = Ok n →
  same_wait workflow r = true →
  wf_step r (woken (woken_status (wf_status workflow)) now' r).
Proof.
  unfold due_timer. intros [[Hs Hk]%bool_decide_eq_true _]%andb_true_iff
    [_ Hw]%wait_command_sequence_Ok Hsame.
  destruct Hw as [Hw|[id Hw]]; eapply woken_step; try done; left; unfold suspended; auto.
Qed.

Lemma woken_by_approval_step workflow r id now :
  awaits_approval (wf_status workflow) = true →
  wf_wait workflow = Ok (Some (WaitApproval id)) → same_wait workflow r = true →
  wf_step r (woken (woken_status (wf_status workflow)) now r).
Proof.
  intros Ha Hw Hsame. eapply woken_step; [done..|]. unfold suspended.
  destruct (wf_status workflow); simpl in *; naive_solver.
Qed.

Lemma expired_approval_row_step now r :
  ap_status r = ApprPending → ap_step r (expired_approval_row now r).
Proof. intros Hr. columns. apply aps_close; columns. Qed.
#[export] Hint Resolve woken_by_timer_step woken_by_approval_step expired_approval_row_step
  : steps.

Section temporal.
Context `{Codec}.

#[export] Instance append_delivery_event_evolves workflow type event now :
  Evolves (append_delivery_event workflow type event now).
Proof. unfold append_delivery_event. evolves. Qed.

#[export] Instance materialize_timer_evolves now : Evolves (materialize_timer now).
Proof.
  unfold materialize_timer, clear_wait. evolves.
  assert (w ∈ sort_by available_le rows) as Hw%elem_of_sort_by by (rewrite Heql; set_solver).
  selected. norm_tests. eauto with steps.
Qed.

#[export] Instance expire_candidate_evolves now approval workflow :
  Evolves (expire_candidate now approval workflow).
Proof. unfold expire_candidate, clear_wait. evolves. Qed.
End temporal.
