(* ===== verification/Control.v ===== *)
(** The operator controls ([admin/control.rs]): pause (T-A2), resume (T-A3),
    cancel (T-A4), restart (T-A5), retry of a dead-lettered activity (T-A6) and
    the resolution of an approval (T-A7). *)
From stdpp Require Import base gmap list strings.
From Stdlib Require Import ZArith Lia.
From S2P Require Import Prelude.
From S2P Require Import Errors.
From S2P Require Import Status.
From S2P Require Import Rows.
From S2P Require Import Database.
From S2P Require Import Policy.
From S2P Require Import Transitions.
From S2P Require Import Registry.
From S2P Require Import Parents.
From S2P Require Import Store.

(** [Operator]: who acts and why. *)
Record Operator := MkOperator { op_actor_id : string; op_reason : string }.

Definition MAX_ACTOR_ID_BYTES : nat := 191.

(** [Operator::new]. *)
Definition new_operator (actor_id reason : string) : Result Operator :=
  let reason := trim reason in
  if (str_len actor_id =? 0)%nat || (MAX_ACTOR_ID_BYTES <? str_len actor_id)%nat
  then Err (InvalidDefinition "operator actor ID must contain 1 to 191 bytes")
  else if (str_len reason =? 0)%nat || (MAX_ERROR_REASON_BYTES <? str_len reason)%nat
  then Err (InvalidDefinition ("operator reason must contain 1 to "
              +:+ fmt (Z.of_nat MAX_ERROR_REASON_BYTES) +:+ " bytes"))
  else Ok (MkOperator actor_id reason).

(** [str::parse::<i32>]: a sign, then digits, in range. *)
Fixpoint parse_digits (acc : Z) (s : list Ascii.ascii) : option Z :=
  match s with
  | [] => Some acc
  | c :: s' =>
      let b := Z.of_nat (Ascii.nat_of_ascii c) in
      if (48 <=? b)%Z && (b <=? 57)%Z then parse_digits (10 * acc + (b - 48)) s' else None
  end.

Definition parse_i32 (text : string) : option Z :=
  let digits (s : list Ascii.ascii) :=
    match s with [] => None | _ => parse_digits 0 s end in
  match String.list_ascii_of_string text with
  | c :: s => 
      if Ascii.eqb c (Ascii.ascii_of_nat 45)
      then n ← digits s; i32_try_from (- n)
      else if Ascii.eqb c (Ascii.ascii_of_nat 43)
      then n ← digits s; i32_try_from n
      else n ← digits (c :: s); i32_try_from n
  | [] => None
  end.

Definition operator_actor_id (operator : Operator) : Result Z :=
  let? actor_id := ok_or (parse_i32 (op_actor_id operator))
    (InvalidDefinition
       "schedule and approval controls require a numeric operator actor ID") in
  if (actor_id <=? 0)%Z
  then Err (InvalidDefinition
              "schedule and approval controls require a positive operator actor ID")
  else Ok actor_id.

Definition status_conflict (workflow_id : WorkflowId) (action : string)
    (status : WorkflowStatus) : DurableError :=
  Conflict ("workflow " +:+ fmt workflow_id +:+ " " +:+ action +:+ " while in "
            +:+ as_str status +:+ " state").

Definition lock_workflow (workflow_id : WorkflowId) : Tx WorkflowRow :=
  let! row := find_workflow workflow_id (λ _, true) in
  tx_lift (ok_or row (NotFound "workflow" (fmt workflow_id))).

Definition append_operator_event (workflow_id : WorkflowId) (event_type : string)
    (operator : Operator) (now : DbMillis) : Tx unit :=
  let! sequence := next_event_sequence workflow_id in
  append_event (NewWorkflowEventRow workflow_id sequence None event_type None
    (Some "operator") (Some (op_actor_id operator)) (Some (op_reason operator)) now).

(** * T-A2: pause *)

Definition paused_activity_row (max_attempts : Z) (operator : Operator) (now : DbMillis)
    (r : ActivityRow) : ActivityRow :=
  r <| ac_status := ActCancelling |> <| ac_max_attempts := max_attempts |>
    <| ac_last_error_category := Some (as_str OutOperatorPaused) |>
    <| ac_last_error_message := Some (op_reason operator) |> <| ac_updated_at := now |>.

Definition pause_activity (activity_id : ActivityId) (operator : Operator) (now : DbMillis)
    : Tx unit :=
  let! activity := find_activity activity_id (λ _, true) in
  match activity with
  | None => tx_ret tt
  | Some activity =>
      match ac_status activity with
      | ActPending | ActCancelling | ActSucceeded | ActDeadLettered | ActCancelled => tx_ret tt
      | ActRunning =>
          let! lease_token := tx_lift (ok_or (ac_lease_token activity)
                (InvalidState ("running activity " +:+ fmt (ac_id activity)
                               +:+ " has no lease token"))) in
          let! max_attempts := tx_lift (ok_or (i32_checked_add (ac_max_attempts activity) 1)
                (InvalidState "activity attempt limit overflow after operator pause")) in
          let! changed := update_activity (ac_id activity)
              (λ r, bool_decide (ac_status r = ActRunning
                                 ∧ ac_attempt_count r = ac_attempt_count activity
                                 ∧ ac_lease_token r = Some lease_token))
              (paused_activity_row max_attempts operator now) in
          ensure_fenced changed
      end
  end.

Definition paused_row (now : DbMillis) (r : WorkflowRow) : WorkflowRow :=
  wf_lease_cleared (r <| wf_status := WfPaused |>) <| wf_updated_at := now |>.

Definition pause_workflow (workflow_id : WorkflowId) (operator : Operator)
    : Tx (WorkflowId * string) :=
  let! workflow := lock_workflow workflow_id in
  if bool_decide (wf_status workflow = WfPaused) || is_terminal (wf_status workflow)
  then tx_fail (status_conflict workflow_id "cannot be paused" (wf_status workflow))
  else
    let! now := database_now_millis in
    let! wait := tx_lift (wf_wait workflow) in
    do! (match wait with
         | Some (WaitActivity activity_id) => pause_activity activity_id operator now
         | _ => tx_ret tt
         end) in
    let! changed := update_workflow (wf_id workflow)
        (λ r, bool_decide (wf_status r = wf_status workflow)) (paused_row now) in
    do! ensure_fenced changed in
    do! append_operator_event workflow_id "workflow_paused" operator now in
    tx_ret (workflow_id, "paused").

(** * T-A3: resume *)

Definition resume_status (workflow : WorkflowRow) : Tx WorkflowStatus :=
  let! wait := tx_lift (wf_wait workflow) in
  match wait with
  | None => tx_ret WfReady
  | Some (WaitTimer _) => tx_ret WfSleeping
  | Some (WaitActivity activity_id) =>
      let! activity := find_activity activity_id (λ _, true) in
      let! activity := tx_lift (ok_or activity
            (InvalidState "paused activity wait references a missing activity")) in
      match ac_status activity with
      | ActPending | ActRunning | ActCancelling => tx_ret WfWaitingActivity
      | ActDeadLettered => tx_ret WfBlocked
      | ActSucceeded => tx_ret WfReady
      | ActCancelled =>
          tx_fail (Conflict ("paused workflow references activity in "
                             +:+ as_str (ac_status activity) +:+ " state"))
      end
  | Some (WaitChild child_id) =>
      let! child := find_workflow child_id (λ _, true) in
      let! child := tx_lift (ok_or child
            (InvalidState "paused child wait references a missing workflow")) in
      if is_terminal (wf_status child)
      then tx_fail (Conflict ("paused workflow references terminal child workflow "
                              +:+ fmt child_id +:+ " whose outcome was never delivered"))
      else tx_ret WfWaitingChild
  | Some (WaitApproval approval_id) =>
      let! approval := find_approval approval_id in
      let! approval := tx_lift (ok_or approval
            (InvalidState "paused approval wait references a missing approval")) in
      tx_ret (if bool_decide (ap_status approval = ApprPending)
              then WfWaitingApproval else WfReady)
  end.

Definition resumed_row (status : WorkflowStatus) (available_at now : DbMillis)
    (r : WorkflowRow) : WorkflowRow :=
  wf_lease_cleared (r <| wf_status := status |> <| wf_available_at := available_at |>)
    <| wf_updated_at := now |>.

Definition resume_workflow (workflow_id : WorkflowId) (operator : Operator)
    : Tx (WorkflowId * string) :=
  let! workflow := lock_workflow workflow_id in
  if bool_decide (wf_status workflow ≠ WfPaused)
  then tx_fail (status_conflict workflow_id "is not paused" (wf_status workflow))
  else
    let! now := database_now_millis in
    let! status := resume_status workflow in
    let! changed := update_workflow (wf_id workflow)
        (λ r, bool_decide (wf_status r = WfPaused))
        (resumed_row status
           (if bool_decide (status = WfReady) then now else wf_available_at workflow) now) in
    do! ensure_fenced changed in
    do! append_operator_event workflow_id "workflow_resumed" operator now in
    tx_ret (workflow_id, as_str status).

Section control.
Context `{Codec}.

(** * T-A4: cancel *)

Definition cancel_workflow (workflow_id : WorkflowId) (operator : Operator)
    : Tx (WorkflowId * string) :=
  let! workflow := lock_workflow workflow_id in
  if is_terminal (wf_status workflow)
  then tx_fail (status_conflict workflow_id "is already terminal" (wf_status workflow))
  else
    let! now := database_now_millis in
    do! cancel_locked_workflow workflow (op_reason operator) (Some (op_actor_id operator))
          now in
    tx_ret (workflow_id, "cancelled").

(** * T-A5: restart *)

Record WorkflowRestartOutcome := MkWorkflowRestartOutcome {
  wro_source_workflow_id : WorkflowId; wro_workflow_id : WorkflowId;
  wro_kind : string; wro_version : Z }.

(** The supersede of a source that is not terminal. *)
Definition supersede_by_restart (source : WorkflowRow) (operator : Operator)
    (now : DbMillis) : Tx unit :=
  do! cancel_activities (wf_id source) (op_reason operator) OutOperatorCancelled now in
  do! cancel_approvals (wf_id source) (op_reason operator) now in
  let! changed := update_workflow (wf_id source)
      (λ r, bool_decide (wf_status r = wf_status source)) (superseded_row now) in
  do! ensure_fenced changed in
  do! append_operator_event (wf_id source) "workflow_superseded_by_restart" operator now in
  do! wake_waiting_parents_on_child_terminal source
        (inr ("child_superseded", op_reason operator)) now in
  cancel_owned_descendants source (op_reason operator) (Some (op_actor_id operator)) now.

Definition restart (workflows : WorkflowRegistry) (workflow_id : WorkflowId)
    (correction : option string) (operator : Operator) : Tx WorkflowRestartOutcome :=
  let! source := lock_workflow workflow_id in
  if negb (is_restartable (wf_status source))
  then tx_fail (status_conflict workflow_id
                  "must be paused, blocked, or terminal before restart" (wf_status source))
  else
    let! existing_restart := lock_successor source in
    if bool_decide (is_Some existing_restart)
    then tx_fail (Conflict ("workflow " +:+ fmt workflow_id +:+ " already has a restart"))
    else
      let! prepared := tx_lift
        (match correction with
         | Some input => prepare_start_current workflows (wf_kind source) input
         | None => prepare_start_exact workflows (wf_kind source) (wf_version source)
                     (wf_input_json source)
         end) in
      let root := default (wf_id source) (wf_root_workflow_id source) in
      let options := MkStartOptions None (wf_schedule_run_id source)
                       (Restart root workflow_id) in
      do! tx_lift (check_prepared_start prepared options) in
      let! outcome := start_prepared_in prepared options in
      if negb (started_inserted outcome)
      then tx_fail (InvalidState "workflow restart unexpectedly deduplicated")
      else
        let! now := database_now_millis in
        do! (if is_terminal (wf_status source) then tx_ret tt
             else supersede_by_restart source operator now) in
        do! (match wf_schedule_run_id source with
             | Some schedule_run_id =>
                 let! changed := update_schedule_run schedule_run_id
                     (λ r, bool_decide (sr_workflow_id r = Some (wf_id source)))
                     (λ r, r <| sr_workflow_id := Some (started_id outcome) |>) in
                 ensure_fenced changed
             | None => tx_ret tt
             end) in
        do! append_operator_event workflow_id
              (if bool_decide (is_Some correction) then "workflow_corrected_and_restarted"
               else "workflow_restarted") operator now in
        do! append_operator_event (started_id outcome) "workflow_restart_created" operator
              now in
        tx_ret (MkWorkflowRestartOutcome workflow_id (started_id outcome) (ps_kind prepared)
                  (ps_version prepared)).

(** * T-A6: retry *)

Record ActivityRetryOutcome := MkActivityRetryOutcome {
  aro_source_activity_id : ActivityId; aro_activity_id : ActivityId;
  aro_kind : string; aro_version : Z; aro_operation_key : option string }.

Definition replacement_row (source : ActivityRow) (replacement_number : Z)
    (root_id : ActivityId) (operation_key : option string) (command : ActivityCommand)
    (max_attempts timeout lease_duration : Z) (now : DbMillis)
    : ActivityId → ActivityRow := λ id,
  {| ac_id := id; ac_workflow_id := ac_workflow_id source;
     ac_command_sequence := ac_command_sequence source;
     ac_replacement_number := replacement_number; ac_kind := cmd_kind command;
     ac_version := cmd_version command; ac_topic := cmd_topic command;
     ac_payload_json := cmd_payload_json command; ac_status := ActPending;
     ac_available_at := now; ac_max_attempts := max_attempts; ac_attempt_count := 0;
     ac_timeout_millis := timeout; ac_lease_duration_millis := lease_duration;
     ac_retry_policy_json := policy_to_json (cmd_retry_policy command);
     ac_operation_key := operation_key; ac_provider_result_json := None;
     ac_last_error_category := None; ac_last_error_message := None;
     ac_lease_owner := None; ac_lease_token := None; ac_lease_expires_at := None;
     ac_root_activity_id := Some root_id; ac_replaces_activity_id := Some (ac_id source);
     ac_created_at := now; ac_updated_at := now; ac_completed_at := None |}.

Definition retried_workflow_row (replacement_id : ActivityId) (now : DbMillis)
    (r : WorkflowRow) : WorkflowRow :=
  WaitColumns_on (WaitActivity replacement_id) (r <| wf_status := WfWaitingActivity |>)
    <| wf_available_at := now |> <| wf_error_category := None |>
    <| wf_error_message := None |> <| wf_updated_at := now |>.

(** [retry]; the activity's workflow id is read before the transaction. *)
Definition retry (activities : ActivityRegistry) (activity_id : ActivityId)
    (workflow_id : WorkflowId) (correction : option string) (operator : Operator)
    : Tx ActivityRetryOutcome :=
  let! workflow := lock_workflow workflow_id in
  let! source := find_activity activity_id (λ _, true) in
  let! source := tx_lift (ok_or source (NotFound "activity" (fmt activity_id))) in
  let conflict := Conflict ("activity " +:+ fmt activity_id
        +:+ " is not the dead-lettered activity blocking workflow " +:+ fmt workflow_id) in
  if bool_decide (wf_status workflow ≠ WfBlocked) then tx_fail conflict
  else
    let! wait := tx_lift (wf_wait workflow) in
    if bool_decide (wait ≠ Some (WaitActivity activity_id))
       || bool_decide (ac_status source ≠ ActDeadLettered)
    then tx_fail conflict
    else
      let! replacement_number :=
        tx_lift (ok_or (i32_checked_add (ac_replacement_number source) 1)
          (InvalidState "activity replacement number overflow")) in
      let root_id := default (ac_id source) (ac_root_activity_id source) in
      let operation_key :=
        if bool_decide (is_Some correction)
        then Some ("durable:activity:" +:+ fmt root_id +:+ ":correction:"
                   +:+ fmt replacement_number)
        else ac_operation_key source in
      let! command := tx_lift
        (match correction with
         | Some payload =>
             prepare_command_current activities (ac_kind source) payload operation_key
         | None => prepare_command_exact activities (ac_kind source) (ac_version source)
                     (ac_payload_json source) operation_key
         end) in
      let! now := database_now_millis in
      let! max_attempts := tx_lift (ok_or (i32_try_from (cmd_max_attempts command))
            (InvalidDefinition "activity attempts exceed the database integer range")) in
      let! timeout := tx_lift (duration_millis (cmd_timeout_millis command)) in
      let! lease_duration := tx_lift (duration_millis (cmd_lease_duration_millis command)) in
      let! replacement_id := insert_activity (replacement_row source replacement_number
            root_id operation_key command max_attempts timeout lease_duration now) in
      let! changed := update_workflow (wf_id workflow)
          (λ r, bool_decide (wf_status r = WfBlocked
                             ∧ wf_wait_reference_id r = Some (ac_id source)))
          (retried_workflow_row replacement_id now) in
      do! ensure_fenced changed in
      do! append_operator_event workflow_id
            (if bool_decide (is_Some correction) then "activity_corrected_and_retried"
             else "activity_retried") operator now in
      tx_ret (MkActivityRetryOutcome activity_id replacement_id (cmd_kind command)
                (cmd_version command) operation_key).

(** The read before the transaction of [retry]. *)
Definition retry_activity (activities : ActivityRegistry) (activity_id : ActivityId)
    (correction : option string) (operator : Operator) (e : Env) (d : Db)
    : Result ActivityRetryOutcome * Db :=
  match db_activity d !! activity_id with
  | None => (Err (NotFound "activity" (fmt activity_id)), d)
  | Some source =>
      transaction e (retry activities activity_id (ac_workflow_id source) correction operator) d
  end.

(** * T-A7: approval resolution *)

Definition resolved_row (decision : string) (actor_id : Z) (operator : Operator)
    (now : DbMillis) (r : ApprovalRow) : ApprovalRow :=
  r <| ap_status := ApprResolved |> <| ap_decision_payload_json := Some decision |>
    <| ap_decided_by := Some actor_id |> <| ap_operator_reason := Some (op_reason operator) |>
    <| ap_resolved_at := Some now |>.

Definition resolve_approval (workflows : WorkflowRegistry) (approval_id : ApprovalId)
    (decision_json : string) (operator : Operator)
    : Tx (ApprovalId * WorkflowId * string) :=
  let! actor_id := tx_lift (operator_actor_id operator) in
  let! found := find_approval approval_id in
  let! found := tx_lift (ok_or found (NotFound "approval" (fmt approval_id))) in
  let workflow_id := ap_workflow_id found in
  let! workflow := lock_workflow workflow_id in
  let! approval := find_approval approval_id in
  let! approval := tx_lift (ok_or approval (NotFound "approval" (fmt approval_id))) in
  if bool_decide (ap_status approval ≠ ApprPending)
  then tx_fail (Conflict ("approval " +:+ fmt approval_id +:+ " is already "
                          +:+ as_str (ap_status approval)))
  else
    let! now := database_now_millis in
    if match ap_expires_at approval with
       | Some expires_at => (expires_at <=? now)%Z
       | None => false
       end
    then tx_fail (Conflict ("approval " +:+ fmt approval_id +:+ " has expired"))
    else
      let! wait := if negb (awaits_approval (wf_status workflow)) then tx_ret None
                   else tx_lift (wf_wait workflow) in
      if negb (awaits_approval (wf_status workflow))
         || bool_decide (wait ≠ Some (WaitApproval approval_id))
         || bool_decide (wf_kind workflow ≠ ap_kind approval)
         || bool_decide (wf_version workflow ≠ ap_version approval)
      then tx_fail (Conflict ("approval " +:+ fmt approval_id
             +:+ " no longer matches workflow " +:+ fmt workflow_id))
      else
        let! decision := tx_lift (validate_approval_exact workflows (wf_kind workflow)
              (wf_version workflow) decision_json) in
        let! command_sequence := tx_lift (ok_or (u32_try_from (ap_command_sequence approval))
              (InvalidState "negative approval command sequence")) in
        let metadata_json := event_to_json (ApprovalResolved command_sequence
              (MkApprovalResult (wf_kind workflow) (wf_version workflow) decision)) in
        do! tx_lift (ensure_size "approval resolution event" metadata_json
                       MAX_EVENT_METADATA_BYTES) in
        let! delivery_sequence :=
          tx_lift (ok_or (i32_checked_add (wf_delivered_event_sequence workflow) 1)
            (InvalidState "workflow delivery sequence overflow")) in
        let! sequence := next_event_sequence workflow_id in
        do! append_event (NewWorkflowEventRow (wf_id workflow) sequence
              (Some delivery_sequence) "approval_resolved" (Some metadata_json)
              (Some "operator") (Some (op_actor_id operator)) (Some (op_reason operator))
              now) in
        let! changed := update_approval (ap_id approval)
            (λ r, bool_decide (ap_status r = ApprPending))
            (resolved_row decision actor_id operator now) in
        do! ensure_fenced changed in
        let! changed := update_workflow (wf_id workflow)
            (λ r, bool_decide (wf_status r = wf_status workflow
                               ∧ wf_wait_reference_id r = Some (ap_id approval)))
            (woken (woken_status (wf_status workflow)) now) in
        do! ensure_fenced changed in
        tx_ret (approval_id, workflow_id, as_str ApprResolved).
End control.
