(* ===== verification/ControlSteps.v ===== *)
(** The operations of [Control] move rows by the documented steps. *)
From stdpp Require Import base gmap list strings relations.
From Stdlib Require Import ZArith Lia.
From S2P Require Import Prelude.
From S2P Require Import Errors.
From S2P Require Import Status.
From S2P Require Import Rows.
From S2P Require Import Database.
From S2P Require Import TxLogic.
From S2P Require Import Lifecycle.
From S2P Require Import Evolution.
From S2P Require Import Policy.
From S2P Require Import Transitions.
From S2P Require Import Registry.
From S2P Require Import Parents.
From S2P Require Import Store.
From S2P Require Import StoreSteps.
From S2P Require Import Coordinator.
From S2P Require Import Temporal.
From S2P Require Import TemporalSteps.
From S2P Require Import Control.

(** Instance search does not look into the operations. *)
#[export] Hint Opaque lock_workflow append_operator_event pause_activity pause_workflow
  resume_status resume_workflow cancel_workflow supersede_by_restart restart retry
  resolve_approval : typeclass_instances.

(** * The changesets *)

Lemma paused_activity_row_step n operator now r :
  ac_status r = ActRunning → i32_checked_add (ac_max_attempts r) 1 = Some n →
  ac_step r (paused_activity_row n operator now r).
Proof. intros Hr [-> _]%i32_checked_add_Some. columns. apply as_revoke_pause; columns. Qed.

Lemma paused_row_step now workflow r :
  wf_status r = wf_status workflow → wf_status workflow ≠ WfPaused →
  is_terminal (wf_status workflow) = false → wf_step r (paused_row now r).
Proof. intros <- ??. columns. apply ws_pause; columns. Qed.

Lemma resumed_row_step status at_ now r :
  wf_status r = WfPaused → resumes_to (wf_wait_kind r) status →
  wf_step r (resumed_row status at_ now r).
Proof. intros ??. columns. apply ws_resume; columns. Qed.

Lemma superseded_by_restart_step source now r :
  wf_status r = wf_status source → is_restartable (wf_status source) = true →
  is_terminal (wf_status source) = false → wf_step r (superseded_row now r).
Proof.
  intros Hr Hres Hnt. apply superseded_row_step. rewrite Hr.
  destruct (wf_status source); simpl in *; naive_solver.
Qed.

Lemma retried_workflow_row_step replacement now r :
  wf_status r = WfBlocked → wf_step r (retried_workflow_row replacement now r).
Proof. intros Hr. columns. eapply ws_retry; columns. Qed.

Lemma resolved_row_step decision actor operator now r :
  ap_status r = ApprPending → ap_step r (resolved_row decision actor operator now r).
Proof. intros Hr. columns. apply aps_resolve; columns. Qed.
#[export] Hint Resolve paused_activity_row_step paused_row_step resumed_row_step
  superseded_by_restart_step retried_workflow_row_step resolved_row_step : steps.

(** * The operations *)

#[export] Instance lock_workflow_evolves id : Evolves (lock_workflow id).
Proof. unfold lock_workflow. evolves. Qed.

#[export] Instance append_operator_event_evolves id type operator now :
  Evolves (append_operator_event id type operator now).
Proof. unfold append_operator_event. evolves. Qed.

#[export] Instance pause_activity_evolves id operator now :
  Evolves (pause_activity id operator now).
Proof. unfold pause_activity. evolves; same_rows; eauto with steps. Qed.

#[export] Instance pause_workflow_evolves id operator : Evolves (pause_workflow id operator).
Proof. unfold pause_workflow. evolves. Qed.

(** The status a resume derives is one its wait allows. *)
Lemma wp_resume_status e d workflow (Φ : WorkflowStatus → Db → Prop) :
  (∀ s, resumes_to (wf_wait_kind workflow) s → Φ s d) →
  wp any_error (resume_status workflow) e d Φ.
Proof.
  intros HΦ. unfold resume_status. apply wp_bind, wp_lift; [done|]. intros [w|] Hw.
  - apply wf_wait_Some in Hw as [Hk _]. rewrite Hk in HΦ.
    destruct w; simpl in *;
      repeat wp_step ltac:(fun _ => fail); try apply HΦ; auto; case_bool as [|]; auto.
  - apply wf_wait_None in Hw as [Hk _]. rewrite Hk in HΦ. by apply wp_ret, HΦ.
Qed.

#[export] Instance resume_workflow_evolves id operator : Evolves (resume_workflow id operator).
Proof.
  unfold resume_workflow, lock_workflow. intros e d Hok. cbv zeta.
  repeat lazymatch goal with
  | |- wp _ (resume_status _) _ _ _ => apply wp_resume_status; intros ? ?
  | _ => evolve_step
  end; same_rows; try evolve; eauto with steps.
Qed.

Section control.
Context `{Codec}.

#[export] Instance cancel_workflow_evolves id operator : Evolves (cancel_workflow id operator).
Proof. unfold cancel_workflow. evolves. Qed.

#[export] Instance supersede_by_restart_evolves source operator now :
  is_restartable (wf_status source) = true → is_terminal (wf_status source) = false →
  Evolves (supersede_by_restart source operator now).
Proof. intros Hr Hnt. unfold supersede_by_restart. evolves. Qed.
Hint Extern 0 (is_restartable _ = true) => assumption : typeclass_instances.

#[export] Instance restart_evolves workflows id correction operator :
  Evolves (restart workflows id correction operator).
Proof. unfold restart. evolves. Qed.

Lemma replacement_row_new source n root key command attempts timeout lease now id d :
  activity_fresh d (replacement_row source n root key command attempts timeout lease now id) →
  ac_new (replacement_row source n root key command attempts timeout lease now id).
Proof. intros (Hpos & _). columns. Qed.
Hint Resolve replacement_row_new : steps.

#[export] Instance retry_evolves activities activity workflow correction operator :
  Evolves (retry activities activity workflow correction operator).
Proof. unfold retry. evolves. Qed.

#[export] Instance resolve_approval_evolves workflows id decision operator :
  Evolves (resolve_approval workflows id decision operator).
Proof. unfold resolve_approval, lock_workflow. evolves; same_rows; eauto with steps. Qed.
End control.
