(* ===== verification/Schedules.v ===== *)
(** Schedules: the registry and its state reconciliation (T-S1, [schedule.rs]),
    the materializer (T-S2, [runtime/schedule_materializer.rs]) with its
    misfire and overlap policies, and the operator's pause, resume and run-now
    (T-A8, T-A9, [admin/control.rs]). *)
From stdpp Require Import base gmap list strings.
From Stdlib Require Import ZArith Lia Ascii.
From S2P Require Import Prelude.
From S2P Require Import Errors.
From S2P Require Import Status.
From S2P Require Import Rows.
From S2P Require Import Database.
From S2P Require Import Policy.
From S2P Require Import Transitions.
From S2P Require Import Registry.
From S2P Require Import Calendar.
From S2P Require Import Parents.
From S2P Require Import Store.
From S2P Require Import Control.

(** * Definitions *)

Record ScheduleDefinitionMetadata := MkScheduleDefinitionMetadata {
  md_key : string;
  md_version : Z;
  md_fingerprint : string;
  md_cron : string;
  md_timezone : string;
  md_misfire : MisfirePolicy;
  md_overlap : OverlapPolicy;
  md_misfire_grace_millis : Z;
}.

Inductive ScheduleStateReconcileOutcome := Inserted | Preserved | Upgraded | NewerPersisted.

Fixpoint contains_double_underscore (s : list ascii) : bool :=
  match s with
  | c :: ((c' :: _) as s') =>
      (Ascii.eqb c "_"%char && Ascii.eqb c' "_"%char) || contains_double_underscore s'
  | _ => false
  end.

Definition is_schedule_key_char (c : ascii) : bool := is_lower_or_digit c || Ascii.eqb c "_"%char.

Definition valid_schedule_key (key : string) : bool :=
  let chars := String.list_ascii_of_string key in
  negb (str_len key =? 0)%nat
  && (str_len key <=? MAX_SCHEDULE_KEY_BYTES)%nat
  && negb (bool_decide (head chars = Some "_"%char))
  && negb (bool_decide (last chars = Some "_"%char))
  && negb (contains_double_underscore chars)
  && forallb is_schedule_key_char chars.

(** [validate_definition] of a schedule. *)
Definition validate_schedule (self : DurableSchedule) : Result unit :=
  let valid_catch_up :=
    match ds_misfire self with
    | CatchUp max_occurrences =>
        (1 <=? max_occurrences)%Z && (max_occurrences <=? MAX_CATCH_UP_OCCURRENCES)%Z
    | MisfireSkip | RunLatest => true
    end in
  if negb (valid_schedule_key (ds_key self)) || (ds_version self <=? 0)%Z
     || (ds_misfire_grace self =? 0)%Z || negb valid_catch_up
  then Err (InvalidDefinition "schedule key, version, misfire policy, or grace is invalid")
  else Ok tt.

Section schedules.
Context `{Chrono}.

Definition metadata (self : DurableSchedule) : Result ScheduleDefinitionMetadata :=
  let? misfire_grace_millis := ok_or (i64_try_from (ds_misfire_grace self / 1000000))
    (InvalidDefinition "schedule misfire grace exceeds i64 milliseconds") in
  Ok (MkScheduleDefinitionMetadata (ds_key self) (ds_version self)
        (schedule_fingerprint self misfire_grace_millis) (ds_cron self) (ds_timezone self)
        (ds_misfire self) (ds_overlap self) misfire_grace_millis).

(** The [start_occurrence] of a handler: application code that runs in the
    caller's transaction. *)
Abbreviation ScheduleHandler := (ScheduleRunId → UtcMillis → Tx WorkflowId).

Record RegisteredSchedule := MkRegisteredSchedule {
  rs_metadata : ScheduleDefinitionMetadata;
  rs_calendar : ScheduleCalendar;
  rs_handler : ScheduleHandler;
}.

Abbreviation ScheduleRegistry := (gmap string RegisteredSchedule).

Definition register_schedule (self : ScheduleRegistry) (schedule : DurableSchedule)
    (handler : ScheduleHandler) : Result ScheduleRegistry :=
  let? _ := validate_schedule schedule in
  if bool_decide (is_Some (self !! ds_key schedule))
  then Err (DuplicateDefinition (ds_key schedule) (ds_version schedule))
  else
    let? calendar := calendar_new (ds_cron schedule) (ds_timezone schedule) in
    let? md := metadata schedule in
    Ok (<[ds_key schedule := MkRegisteredSchedule md calendar handler]> self).

(** [ScheduleRegistry::definitions]. *)
Definition schedule_definitions (self : ScheduleRegistry) : list ScheduleDefinitionMetadata :=
  sort_by (λ a b, String.leb (md_key a) (md_key b))
    (rs_metadata ∘ snd <$> map_to_list self).

(** [ScheduleRegistry::start_occurrence]. *)
Definition start_occurrence (self : ScheduleRegistry) (key : string)
    (schedule_run_id : ScheduleRunId) (scheduled_for : UtcMillis) : Tx WorkflowId :=
  let! definition := tx_lift (ok_or (self !! key) (NotFound "schedule definition" key)) in
  rs_handler definition schedule_run_id scheduled_for.

(** * T-S1: reconcile *)

(** [insert_schedule_state_if_absent]: [ON CONFLICT DO NOTHING]. *)
Definition insert_schedule_state_if_absent (row : ScheduleStateRow) : Tx bool :=
  let! d := tx_get in
  match db_schedule_state d !! ss_schedule_key row with
  | Some _ => tx_ret false
  | None =>
      if (ss_definition_version row <=? 0)%Z
      then db_fail CheckViolation "durable_schedule_state_check"
      else do! tx_put (d <| db_schedule_state :=
                              <[ss_schedule_key row := row]> (db_schedule_state d) |>) in
           tx_ret true
  end.

Definition find_schedule_state (key : string) : Tx (option ScheduleStateRow) :=
  let! d := tx_get in tx_ret (db_schedule_state d !! key).

(** The state row of a schedule at its first occurrence. *)
Definition new_schedule_state (md : ScheduleDefinitionMetadata) (next : ScheduleOccurrence)
    (now : DbMillis) : ScheduleStateRow :=
  {| ss_schedule_key := md_key md; ss_definition_fingerprint := md_fingerprint md;
     ss_definition_version := md_version md;
     ss_next_local_occurrence := format_local (oc_local next);
     ss_next_occurrence_at := oc_due_at next;
     ss_last_materialized_at := None; ss_paused_at := None; ss_paused_by := None;
     ss_pause_reason := None; ss_created_at := now; ss_updated_at := now |}.

Definition upgraded_state (md : ScheduleDefinitionMetadata) (target : ScheduleOccurrence)
    (now : DbMillis) (r : ScheduleStateRow) : ScheduleStateRow :=
  r <| ss_definition_fingerprint := md_fingerprint md |>
    <| ss_definition_version := md_version md |>
    <| ss_next_local_occurrence := format_local (oc_local target) |>
    <| ss_next_occurrence_at := oc_due_at target |> <| ss_updated_at := now |>.

Definition reconcile_state (self : ScheduleRegistry) (key : string) (deployed_at : DbMillis)
    : Tx ScheduleStateReconcileOutcome :=
  let! definition := tx_lift (ok_or (self !! key) (NotFound "schedule definition" key)) in
  do! (if chrono_range deployed_at then tx_ret tt
       else tx_fail (InvalidDefinition "schedule deployment timestamp is invalid")) in
  let! next := tx_lift (next_after (rs_calendar definition) deployed_at) in
  let md := rs_metadata definition in
  let! inserted := insert_schedule_state_if_absent (new_schedule_state md next deployed_at) in
  let! row := find_schedule_state (md_key md) in
  let! row := first_or_not_found row in
  if inserted then tx_ret Inserted
  else if (md_version md <? ss_definition_version row)%Z then tx_ret NewerPersisted
  else if (ss_definition_version row =? md_version md)%Z then
    if bool_decide (ss_definition_fingerprint row = md_fingerprint md) then tx_ret Preserved
    else tx_fail (Conflict ("schedule " +:+ md_key md +:+ " v" +:+ fmt (md_version md)
                            +:+ " metadata changed without a version bump"))
  else
    let! floor := materialized_floor row in
    let! target := tx_lift (cursor_upgrade (rs_calendar definition) deployed_at floor) in
    let! _ := update_schedule_state (md_key md) (λ _, true)
                (upgraded_state md target deployed_at) in
    tx_ret Upgraded.

(** * Planning (S28) *)

Definition MAX_DUE_OCCURRENCES_PER_TICK : Z := 10000.

Inductive OccurrenceOutcome :=
  | OcStart
  | OcSkip (reason : string)
  | OcCoalesce.

(** The [while occurrence.due_at <= now] loop; [room] is what the chunk still
    holds. *)
Fixpoint collect_due (room : nat) (calendar : ScheduleCalendar)
    (oc : ScheduleOccurrence) (now : DbMillis)
    : Result (list ScheduleOccurrence * ScheduleOccurrence) :=
  if (oc_due_at oc <=? now)%Z
  then match room with
       | O => Ok ([], oc)
       | S room' =>
           let? next := next_after_local calendar (oc_local_datetime oc) in
           let? rest := collect_due room' calendar next now in
           Ok (oc :: rest.1, rest.2)
       end
  else Ok ([], oc).

(** The [while following_runnable < budget] loop: [left] is the budget that
    is left. *)
Fixpoint count_following (left : nat) (calendar : ScheduleCalendar) (after : NaiveDateTime)
    (now : DbMillis) (following_runnable : Z) : Result Z :=
  match left with
  | O => Ok following_runnable
  | S left' =>
      let? next := next_runnable_through calendar after now in
      match next with
      | None => Ok following_runnable
      | Some next =>
          count_following left' calendar (oc_local_datetime next) now
            (following_runnable + 1)
      end
  end.

Definition budget (policy : MisfirePolicy) : Z :=
  match policy with
  | MisfireSkip => 0
  | RunLatest => 1
  | CatchUp max_occurrences => max_occurrences
  end.

Definition is_runnable (oc : ScheduleOccurrence) : bool :=
  bool_decide (oc_disposition oc ≠ Gap).

(** The indices of the runnable occurrences. *)
Definition runnable_indices (due : list ScheduleOccurrence) : list nat :=
  fst <$> filter (λ p, is_runnable p.2 = true) (imap pair due).

(** [outcomes[index] = ...] for the indices of a list. *)
Definition assign (f : nat → OccurrenceOutcome) (indices : list nat)
    (outcomes : list OccurrenceOutcome) : list OccurrenceOutcome :=
  foldl (λ acc index, <[index := f index]> acc) outcomes indices.

Definition classify (due : list ScheduleOccurrence) (policy : MisfirePolicy)
    (grace_millis : Z) (now : DbMillis) (following_runnable : Z) : list OccurrenceOutcome :=
  let outcomes := replicate (length due) (OcSkip "dst_gap") in
  let runnable := runnable_indices due in
  match policy with
  | MisfireSkip =>
      assign (λ index,
        match due !! index with
        | Some oc =>
            if (i64_saturating_add (oc_due_at oc) grace_millis <? now)%Z
            then OcSkip "misfire_skip" else OcStart
        | None => OcStart
        end) runnable outcomes
  | RunLatest =>
      match last runnable with
      | None => outcomes
      | Some latest =>
          assign (λ _, OcCoalesce) (take (length runnable - 1) runnable)
            (<[latest := if (following_runnable =? 0)%Z then OcStart else OcCoalesce]>
               outcomes)
      end
  | CatchUp max_occurrences =>
      let start_count := Nat.min (Z.to_nat (u32_saturating_sub max_occurrences
                                              following_runnable)) (length runnable) in
      let split := usize_saturating_sub (length runnable) start_count in
      assign (λ _, OcStart) (drop split runnable)
        (assign (λ _, OcSkip "catch_up_limit") (take split runnable) outcomes)
  end.

Definition plan_due_chunk (calendar : ScheduleCalendar) (oc : ScheduleOccurrence)
    (policy : MisfirePolicy) (grace_millis : Z) (now : DbMillis)
    : Result (list ScheduleOccurrence * ScheduleOccurrence * list OccurrenceOutcome) :=
  let? chunk := collect_due (Z.to_nat MAX_DUE_OCCURRENCES_PER_TICK) calendar oc now in
  let '(due, next) := chunk in
  let? following_runnable :=
    if (oc_due_at next <=? now)%Z
    then match last due with
         | Some last => count_following (Z.to_nat (budget policy)) calendar
                          (oc_local_datetime last) now 0
         | None => Ok 0%Z
         end
    else Ok 0%Z in
  Ok (due, next, classify due policy grace_millis now following_runnable).

(** * T-S2: materialize *)

Record ScheduleMaterializationReport := MkReport {
  rp_schedule_key : string;
  rp_inspected : Z;
  rp_started : Z;
  rp_queued : Z;
  rp_skipped : Z;
  rp_coalesced : Z;
  rp_paused : bool;
}.

Definition empty_report (schedule_key : string) : ScheduleMaterializationReport :=
  MkReport schedule_key 0 0 0 0 0 false.

(** [u32::saturating_add(1)] on a counter of the report. *)
Definition u32_saturating_succ (n : Z) : Z := clamp 0 u32_max (n + 1).

Definition count_started (r : ScheduleMaterializationReport) : ScheduleMaterializationReport :=
  MkReport (rp_schedule_key r) (rp_inspected r) (u32_saturating_succ (rp_started r))
    (rp_queued r) (rp_skipped r) (rp_coalesced r) (rp_paused r).
Definition count_queued (r : ScheduleMaterializationReport) : ScheduleMaterializationReport :=
  MkReport (rp_schedule_key r) (rp_inspected r) (rp_started r)
    (u32_saturating_succ (rp_queued r)) (rp_skipped r) (rp_coalesced r) (rp_paused r).
Definition count_skipped (r : ScheduleMaterializationReport) : ScheduleMaterializationReport :=
  MkReport (rp_schedule_key r) (rp_inspected r) (rp_started r) (rp_queued r)
    (u32_saturating_succ (rp_skipped r)) (rp_coalesced r) (rp_paused r).
Definition count_coalesced (r : ScheduleMaterializationReport)
    : ScheduleMaterializationReport :=
  MkReport (rp_schedule_key r) (rp_inspected r) (rp_started r) (rp_queued r)
    (rp_skipped r) (u32_saturating_succ (rp_coalesced r)) (rp_paused r).

(** A workflow started by a run of the schedule, and not ended. *)
Definition active_workflow (runs : gmap Z ScheduleRunRow) (key : string) (r : WorkflowRow)
    : bool :=
  match wf_schedule_run_id r with
  | Some run_id =>
      match runs !! run_id with
      | Some run => bool_decide (sr_schedule_key run = key) && negb (is_terminal (wf_status r))
      | None => false
      end
  | None => false
  end.

Definition active_workflow_count (key : string) : Tx Z :=
  let! d := tx_get in
  let! rows := select_workflows (active_workflow (db_schedule_run d) key) in
  tx_ret (Z.of_nat (length rows)).

Definition queued_run (key : string) (r : ScheduleRunRow) : bool :=
  bool_decide (sr_schedule_key r = key ∧ sr_status r = RunQueued).

Definition queued_run_exists (key : string) : Tx bool :=
  let! runs := select_schedule_runs (queued_run key) in
  tx_ret (0 <? Z.of_nat (length runs))%Z.

(** The update of a run to [started] with its workflow, which the foreign key
    requires to exist. *)
Definition mark_started (run_id : ScheduleRunId) (from : ScheduleRunStatus)
    (workflow_id : WorkflowId) (f : ScheduleRunRow → ScheduleRunRow) : Tx unit :=
  let! changed := update_schedule_run run_id (λ r, bool_decide (sr_status r = from))
    (λ r, f (r <| sr_status := RunStarted |> <| sr_workflow_id := Some workflow_id |>)) in
  ensure_fenced changed.

Definition run_order (a b : ScheduleRunRow) : bool :=
  (sr_scheduled_for a <? sr_scheduled_for b)%Z
  || ((sr_scheduled_for a =? sr_scheduled_for b)%Z && (sr_id a <=? sr_id b)%Z).

Definition promote_queued (registry : ScheduleRegistry) (schedule_key : string) : Tx unit :=
  let! runs := select_schedule_runs (queued_run schedule_key) in
  let! run := first_or_not_found (head (sort_by run_order runs)) in
  let! workflow_id := start_occurrence registry schedule_key (sr_id run)
                        (sr_scheduled_for run) in
  mark_started (sr_id run) RunQueued workflow_id
    (λ r, r <| sr_reason := Some "queue_one_promoted" |>).

(** [NewScheduleRunRow] of an occurrence. *)
Definition new_run (schedule_key local_occurrence : string) (scheduled_for now : DbMillis)
    (status : ScheduleRunStatus) (reason : option string) (actor_id : option Z)
    : ScheduleRunId → ScheduleRunRow := λ id,
  {| sr_id := id; sr_schedule_key := schedule_key; sr_local_occurrence := local_occurrence;
     sr_scheduled_for := scheduled_for; sr_materialized_at := now; sr_status := status;
     sr_reason := reason; sr_actor_id := actor_id; sr_workflow_id := None;
     sr_created_at := now |}.

(** What the loop over the due occurrences carries: the [active] count, the
    [queued] flag and the report. *)
Abbreviation TickState := (Z * bool * ScheduleMaterializationReport)%type.

(** The outcome after the overlap policy; [None] queues the occurrence. *)
Definition overlap_outcome (outcome : OccurrenceOutcome) (overlap : OverlapPolicy)
    (active : Z) (queued : bool) : option OccurrenceOutcome :=
  match outcome, overlap with
  | OcStart, SkipIfActive =>
      Some (if (0 <? active)%Z then OcSkip "overlap_active" else OcStart)
  | OcStart, QueueOne =>
      if (0 <? active)%Z
      then if queued then Some (OcSkip "overlap_queue_full") else None
      else Some OcStart
  | outcome, _ => Some outcome
  end.

Definition materialize_occurrence (registry : ScheduleRegistry) (schedule_key : string)
    (overlap : OverlapPolicy) (now : DbMillis) (oc : ScheduleOccurrence)
    (outcome : OccurrenceOutcome) (s : TickState) : Tx TickState :=
  let '(active, queued, report) := s in
  let insert status reason := insert_schedule_run
    (new_run schedule_key (oc_local_occurrence oc) (oc_scheduled_for oc) now status reason
       None) in
  match overlap_outcome outcome overlap active queued with
  | None =>
      do! insert RunQueued (Some "overlap_queue_one") in
      tx_ret (active, true, count_queued report)
  | Some OcStart =>
      let! run_id := insert RunMaterializing None in
      let! workflow_id := start_occurrence registry schedule_key run_id
                            (oc_scheduled_for oc) in
      do! mark_started run_id RunMaterializing workflow_id (λ r, r) in
      tx_ret (i64_saturating_add active 1, queued, count_started report)
  | Some (OcSkip reason) =>
      do! insert RunSkipped (Some reason) in
      tx_ret (active, queued, count_skipped report)
  | Some OcCoalesce =>
      do! insert RunCoalesced (Some "run_latest") in
      tx_ret (active, queued, count_coalesced report)
  end.

(** [for (occurrence, outcome) in due.into_iter().zip(outcomes)]. *)
Fixpoint materialize_due (registry : ScheduleRegistry) (schedule_key : string)
    (overlap : OverlapPolicy) (now : DbMillis)
    (due : list (ScheduleOccurrence * OccurrenceOutcome)) (s : TickState) : Tx TickState :=
  match due with
  | [] => tx_ret s
  | (oc, outcome) :: rest =>
      let! s := materialize_occurrence registry schedule_key overlap now oc outcome s in
      materialize_due registry schedule_key overlap now rest s
  end.

Definition advanced_state (oc : ScheduleOccurrence) (cursor : NaiveDateTime) (now : DbMillis)
    (r : ScheduleStateRow) : ScheduleStateRow :=
  r <| ss_next_local_occurrence := format_local cursor |>
    <| ss_next_occurrence_at := oc_due_at oc |>
    <| ss_last_materialized_at := Some now |> <| ss_updated_at := now |>.

Definition with_inspected (n : Z) (r : ScheduleMaterializationReport)
    : ScheduleMaterializationReport :=
  MkReport (rp_schedule_key r) n (rp_started r) (rp_queued r) (rp_skipped r)
    (rp_coalesced r) (rp_paused r).

(** The transaction of a tick for a definition. *)
Definition materialize_tick (registry : ScheduleRegistry) (schedule_key : string)
    (md : ScheduleDefinitionMetadata) (calendar : ScheduleCalendar) (now : DbMillis)
    : Tx ScheduleMaterializationReport :=
  let! state := find_schedule_state schedule_key in
  let! state := first_or_not_found state in
  if bool_decide (ss_definition_version state ≠ md_version md)
     || bool_decide (ss_definition_fingerprint state ≠ md_fingerprint md)
  then tx_fail (Conflict ("schedule " +:+ schedule_key
                          +:+ " definition changed while materializing"))
  else
    let report := empty_report schedule_key in
    if bool_decide (is_Some (ss_paused_at state))
    then tx_ret (MkReport schedule_key 0 0 0 0 0 true)
    else
      let! active := active_workflow_count (ss_schedule_key state) in
      let! queued := queued_run_exists schedule_key in
      let! s :=
        if bool_decide (md_overlap md = QueueOne) && (active =? 0)%Z && queued
        then do! promote_queued registry schedule_key in
             tx_ret (1%Z, false, count_started report)
        else tx_ret (active, queued, report) in
      let! cursor := tx_lift (cursor_load schedule_key (ss_next_local_occurrence state)) in
      let! oc := tx_lift (occurrence_at_local calendar cursor) in
      if bool_decide (oc_local_occurrence oc ≠ ss_next_local_occurrence state)
         || bool_decide (oc_due_at oc ≠ ss_next_occurrence_at state)
      then tx_fail (InvalidState ("schedule " +:+ schedule_key
                      +:+ " persisted local and UTC occurrences disagree"))
      else
        let! plan := tx_lift (plan_due_chunk calendar oc (md_misfire md)
                                (md_misfire_grace_millis md) now) in
        let '(due, next, outcomes) := plan in
        let! inspected := tx_lift (ok_or (u32_try_from (Z.of_nat (length due)))
              (InvalidState "schedule occurrence count exceeds u32")) in
        let '(active, queued, report) := s in
        let! s := materialize_due registry schedule_key (md_overlap md) now
                    (zip due outcomes) (active, queued, with_inspected inspected report) in
        if (rp_inspected s.2 =? 0)%Z then tx_ret s.2
        else
          let! cursor := tx_lift (advance_to cursor (oc_local next)) in
          let! changed := update_schedule_state schedule_key
              (λ r, bool_decide (ss_definition_version r = md_version md
                     ∧ ss_definition_fingerprint r = md_fingerprint md
                     ∧ ss_next_local_occurrence r = ss_next_local_occurrence state))
              (advanced_state next cursor now) in
          do! ensure_fenced changed in
          tx_ret s.2.

(** [materialize_schedule]: the reconciliation, then the tick, each a
    transaction with its environment. *)
Definition materialize_schedule (registry : ScheduleRegistry) (schedule_key : string)
    (now : DbMillis) (e1 e2 : Env) (d : Db) : Result ScheduleMaterializationReport * Db :=
  match transaction e1 (reconcile_state registry schedule_key now) d with
  | (Err error, d1) => (Err error, d1)
  | (Ok (Inserted | Upgraded), d1) => (Ok (empty_report schedule_key), d1)
  | (Ok NewerPersisted, d1) =>
      (Err (Conflict ("schedule " +:+ schedule_key
                      +:+ " has a newer persisted definition")), d1)
  | (Ok Preserved, d1) =>
      match registry !! schedule_key with
      | None => (Err (NotFound "schedule definition" schedule_key), d1)
      | Some definition =>
          transaction e2 (materialize_tick registry schedule_key (rs_metadata definition)
                            (rs_calendar definition) now) d1
      end
  end.

(** * Operator controls *)

Definition lock_schedule_state (schedule_key : string) : Tx ScheduleStateRow :=
  let! state := find_schedule_state schedule_key in
  tx_lift (ok_or state (NotFound "schedule state" schedule_key)).

Definition validate_schedule_state (state : ScheduleStateRow)
    (definition : ScheduleDefinitionMetadata) : Result unit :=
  if bool_decide (ss_definition_version state = md_version definition)
     && bool_decide (ss_definition_fingerprint state = md_fingerprint definition)
  then Ok tt
  else Err (Conflict ("schedule " +:+ ss_schedule_key state
              +:+ " persisted definition does not match registered v"
              +:+ fmt (md_version definition))).

Definition paused_state (actor_id : Z) (reason : string) (now : DbMillis)
    (r : ScheduleStateRow) : ScheduleStateRow :=
  r <| ss_paused_at := Some now |> <| ss_paused_by := Some actor_id |>
    <| ss_pause_reason := Some reason |> <| ss_updated_at := now |>.

Definition resumed_state (now : DbMillis) (r : ScheduleStateRow) : ScheduleStateRow :=
  r <| ss_paused_at := None |> <| ss_paused_by := None |>
    <| ss_pause_reason := None |> <| ss_updated_at := now |>.

(** The registry of a control service, set with the application context. *)
Definition schedule_registry (schedules : option ScheduleRegistry) : Result ScheduleRegistry :=
  ok_or schedules
    (InvalidDefinition "admin schedule controls require a schedule registry").

(** T-A8: [pause_schedule] and [resume_schedule]. *)
Definition set_schedule_paused (schedules : option ScheduleRegistry) (schedule_key : string)
    (paused : bool) (operator : Operator) : Tx (string * bool) :=
  let! schedules := tx_lift (schedule_registry schedules) in
  let! definition := tx_lift (ok_or (schedules !! schedule_key)
                                (NotFound "schedule definition" schedule_key)) in
  let! actor_id := tx_lift (operator_actor_id operator) in
  let! state := lock_schedule_state schedule_key in
  do! tx_lift (validate_schedule_state state (rs_metadata definition)) in
  if Bool.eqb paused (bool_decide (is_Some (ss_paused_at state)))
  then tx_fail (Conflict ("schedule " +:+ schedule_key +:+ " is already "
                          +:+ (if paused then "paused" else "active")))
  else
    let! now := database_now_millis in
    let! changed :=
      if paused
      then update_schedule_state schedule_key (λ r, bool_decide (ss_paused_at r = None))
             (paused_state actor_id (op_reason operator) now)
      else update_schedule_state schedule_key (λ r, bool_decide (is_Some (ss_paused_at r)))
             (resumed_state now) in
    do! ensure_fenced changed in
    tx_ret (schedule_key, paused).

Record ScheduleRunNowOutcome := MkScheduleRunNowOutcome {
  rn_schedule_run_id : ScheduleRunId; rn_workflow_id : WorkflowId; rn_scheduled_for : Z }.

Definition debug_overlap (overlap : OverlapPolicy) : string :=
  match overlap with
  | Allow => "Allow" | SkipIfActive => "SkipIfActive" | QueueOne => "QueueOne"
  end.

(** [max(scheduled_for) + 1] if there is one and it fits, and at least [now]. *)
Definition manual_time (last_scheduled : option DbMillis) (now : DbMillis) : DbMillis :=
  match last_scheduled ≫= (λ last, checked_plus_millis last 1) with
  | Some next => Z.max next now
  | None => now
  end.

(** T-A9. *)
Definition run_schedule_now (schedules : option ScheduleRegistry) (schedule_key : string)
    (operator : Operator) : Tx ScheduleRunNowOutcome :=
  let! schedules := tx_lift (schedule_registry schedules) in
  let! definition := tx_lift (ok_or (schedules !! schedule_key)
                                (NotFound "schedule definition" schedule_key)) in
  let md := rs_metadata definition in
  let! actor_id := tx_lift (operator_actor_id operator) in
  let! state := lock_schedule_state schedule_key in
  do! tx_lift (validate_schedule_state state md) in
  let overlap_checked := match md_overlap md with
                         | Allow => false
                         | SkipIfActive | QueueOne => true
                         end in
  let! active := if overlap_checked then active_workflow_count (ss_schedule_key state)
                 else tx_ret 0%Z in
  if overlap_checked && (0 <? active)%Z
  then tx_fail (Conflict ("schedule " +:+ schedule_key
         +:+ " has an active run; overlap policy " +:+ debug_overlap (md_overlap md)
         +:+ " rejects run-now"))
  else
    let! now := database_now_millis in
    let! runs := select_schedule_runs (λ r, bool_decide (sr_schedule_key r = schedule_key)) in
    let scheduled_for := manual_time (max_of (sr_scheduled_for <$> runs)) now in
    let! schedule_run_id := insert_schedule_run
        (new_run schedule_key (MANUAL_OCCURRENCE_PREFIX +:+ fmt scheduled_for) scheduled_for
           now RunMaterializing (Some (op_reason operator)) (Some actor_id)) in
    let! workflow_id := start_occurrence schedules schedule_key schedule_run_id
                          scheduled_for in
    do! mark_started schedule_run_id RunMaterializing workflow_id (λ r, r) in
    do! append_operator_event workflow_id "schedule_run_now" operator now in
    tx_ret (MkScheduleRunNowOutcome schedule_run_id workflow_id scheduled_for).
End schedules.

Abbreviation ScheduleRegistry := (gmap string RegisteredSchedule).
