(* ===== verification/Misfire.v ===== *)
(** The misfire policies (S28, [runtime/schedule_materializer.rs]): what
    [classify] and [plan_due_chunk] compute, against a definition that looks at
    the whole backlog of a schedule at once. *)
From stdpp Require Import base gmap list strings.
From Stdlib Require Import ZArith Lia.
From S2P Require Import Prelude.
From S2P Require Import Errors.
From S2P Require Import Calendar.
From S2P Require Import Schedules.

(** * The reference *)

Definition runnable_count (l : list ScheduleOccurrence) : Z :=
  Z.of_nat (length (filter (λ oc, is_runnable oc = true) l)).

(** What becomes of an occurrence that [later] runnable occurrences of the
    backlog follow. *)
Definition expected_outcome (policy : MisfirePolicy) (grace_millis : Z) (now : Z) (later : Z)
    (oc : ScheduleOccurrence) : OccurrenceOutcome :=
  if negb (is_runnable oc) then OcSkip "dst_gap"
  else match policy with
       | MisfireSkip =>
           if (i64_saturating_add (oc_due_at oc) grace_millis <? now)%Z
           then OcSkip "misfire_skip" else OcStart
       | RunLatest => if (later =? 0)%Z then OcStart else OcCoalesce
       | CatchUp n => if (later <? n)%Z then OcStart else OcSkip "catch_up_limit"
       end.

(** The outcomes of a list that [beyond] runnable occurrences follow. *)
Fixpoint expected (policy : MisfirePolicy) (grace_millis now beyond : Z)
    (l : list ScheduleOccurrence) : list OccurrenceOutcome :=
  match l with
  | [] => []
  | oc :: l' => expected_outcome policy grace_millis now (runnable_count l' + beyond) oc
                :: expected policy grace_millis now beyond l'
  end.

Lemma expected_length policy grace now beyond l :
  length (expected policy grace now beyond l) = length l.
Proof. induction l; simpl; auto. Qed.

Lemma lookup_expected policy grace now beyond l i :
  expected policy grace now beyond l !! i
  = (λ oc, expected_outcome policy grace now (runnable_count (drop (S i) l) + beyond) oc)
      <$> l !! i.
Proof. revert i. induction l as [|oc l IH]; intros [|i]; simpl; auto. Qed.

Lemma drop_expected policy grace now beyond n l :
  drop n (expected policy grace now beyond l) = expected policy grace now beyond (drop n l).
Proof. revert l. induction n; intros [|oc l]; simpl; auto. Qed.

Lemma runnable_count_cons oc l :
  runnable_count (oc :: l) = ((if is_runnable oc then 1 else 0) + runnable_count l)%Z.
Proof.
  unfold runnable_count. rewrite filter_cons.
  destruct (is_runnable oc); case_decide; simpl; try done; lia.
Qed.

Lemma runnable_count_nonneg l : (0 ≤ runnable_count l)%Z.
Proof. unfold runnable_count. lia. Qed.

Lemma runnable_count_app l1 l2 :
  runnable_count (l1 ++ l2) = (runnable_count l1 + runnable_count l2)%Z.
Proof. unfold runnable_count. rewrite filter_app, length_app. lia. Qed.

(** * Classification *)

Lemma filter_fmap_list {A B} (P : B → Prop) `{!∀ x, Decision (P x)} (f : A → B) (l : list A) :
  filter P (f <$> l) = f <$> filter (λ x, P (f x)) l.
Proof.
  induction l as [|x l IH]; [done|]. csimpl. rewrite !filter_cons. rewrite IH. by case_decide.
Qed.

Lemma runnable_indices_cons oc l :
  runnable_indices (oc :: l)
  = (if is_runnable oc then [0] else []) ++ (S <$> runnable_indices l).
Proof.
  unfold runnable_indices. simpl. rewrite filter_cons. simpl.
  assert (imap (pair ∘ S) l = prod_map S id <$> imap pair l) as ->.
  { rewrite fmap_imap. by apply imap_ext. }
  rewrite filter_fmap_list. simpl.
  destruct (is_runnable oc); case_decide; simpl; try done; f_equal;
    rewrite <- !list_fmap_compose; by apply list_fmap_ext.
Qed.

Lemma length_runnable_indices l :
  Z.of_nat (length (runnable_indices l)) = runnable_count l.
Proof.
  induction l as [|oc l IH]; [done|]. rewrite runnable_indices_cons, runnable_count_cons.
  rewrite length_app, length_fmap. destruct (is_runnable oc); simpl; lia.
Qed.

Lemma elem_of_runnable_indices l i :
  i ∈ runnable_indices l ↔ ∃ oc, l !! i = Some oc ∧ is_runnable oc = true.
Proof.
  revert i. induction l as [|oc l IH]; intros i; [set_solver|].
  rewrite runnable_indices_cons, elem_of_app, list_elem_of_fmap. destruct i as [|i]; simpl.
  - split.
    + intros [H0|(j & ? & _)]; [|done]. destruct (is_runnable oc) eqn:E; [eauto|].
      by apply elem_of_nil in H0.
    + intros (? & [= <-] & ->). left. by left.
  - split.
    + intros [H0|(j & [= ->] & Hj)]; [|by apply IH]. exfalso.
      by destruct (is_runnable oc); [apply list_elem_of_singleton in H0|apply elem_of_nil in H0].
    + intros Hi%IH. right. eauto.
Qed.

(** The last [c] runnable indices are those with fewer than [c] after them. *)
Lemma elem_of_last_runnable l c i :
  i ∈ drop (length (runnable_indices l) - c) (runnable_indices l)
  ↔ i ∈ runnable_indices l ∧ (runnable_count (drop (S i) l) < Z.of_nat c)%Z.
Proof.
  revert i. induction l as [|oc l IH]; intros i; [set_solver|].
  assert (∀ j, runnable_count (drop j l) ≤ runnable_count l)%Z as Hle.
  { intros j. rewrite <- (take_drop j l) at 2. rewrite runnable_count_app.
    pose proof (runnable_count_nonneg (take j l)). lia. }
  pose proof (length_runnable_indices l) as Hlen.
  rewrite runnable_indices_cons, length_app, length_fmap.
  destruct (is_runnable oc) eqn:E; simpl.
  - destruct (decide (length (runnable_indices l) < c)) as [Hc|Hc].
    + replace (S _ - c) with 0 by lia. simpl. split; [|by intros [? _]].
      intros Hi. split; [done|]. specialize (Hle i). simpl. lia.
    + replace (S (length (runnable_indices l)) - c)
        with (S (length (runnable_indices l) - c)) by lia. simpl. rewrite <- fmap_drop.
      destruct i as [|i]; simpl.
      * rewrite drop_0. split; [set_solver|lia].
      * rewrite elem_of_cons, !list_elem_of_fmap. setoid_rewrite IH.
        split; [intros (j & [= ->] & ?); naive_solver|].
        intros [[?|(j & [= ->] & ?)] ?]; [done|]. eauto.
  - rewrite <- fmap_drop. destruct i as [|i]; [set_solver|]. simpl.
    rewrite !list_elem_of_fmap. setoid_rewrite IH. naive_solver.
Qed.

Lemma NoDup_runnable_indices l : NoDup (runnable_indices l).
Proof.
  induction l as [|oc l IH]; [constructor|]. rewrite runnable_indices_cons.
  apply (NoDup_fmap_2 S) in IH. destruct (is_runnable oc); simpl; [|done].
  constructor; [|done]. by intros (j & ? & _)%list_elem_of_fmap.
Qed.

Lemma elem_of_first_runnable l c i :
  i ∈ take (length (runnable_indices l) - c) (runnable_indices l)
  ↔ i ∈ runnable_indices l ∧ (Z.of_nat c ≤ runnable_count (drop (S i) l))%Z.
Proof.
  pose proof (elem_of_last_runnable l c i) as Hlast.
  set (k := length (runnable_indices l) - c) in *.
  pose proof (NoDup_runnable_indices l) as Hnd. rewrite <- (take_drop k (runnable_indices l)) in Hnd.
  apply NoDup_app in Hnd as (_ & Hdis & _).
  assert (i ∈ runnable_indices l ↔ i ∈ take k (runnable_indices l)
            ∨ i ∈ drop k (runnable_indices l)) as Hsplit
    by (rewrite <- elem_of_app; by rewrite take_drop).
  specialize (Hdis i). split.
  - intros Hi. split; [by apply Hsplit; left|]. apply Z.nlt_ge. intros Hlt.
    apply (Hdis Hi), Hlast. split; [|done]. by apply Hsplit; left.
  - intros [Hi Hge]. apply Hsplit in Hi as [|Hi%Hlast]; [done|]. lia.
Qed.

Lemma length_assign f indices outcomes : length (assign f indices outcomes) = length outcomes.
Proof.
  unfold assign. revert outcomes. induction indices; intros outcomes; simpl; [done|].
  by rewrite IHindices, length_insert.
Qed.

Lemma lookup_assign f indices outcomes i :
  assign f indices outcomes !! i
  = if decide (i ∈ indices) then (λ _, f i) <$> outcomes !! i else outcomes !! i.
Proof.
  unfold assign. revert outcomes.
  induction indices as [|j indices IH]; intros outcomes; cbn [foldl].
  - case_decide as Hin; [by apply elem_of_nil in Hin|done].
  - rewrite IH. destruct (decide (i = j)) as [->|Hne].
    + rewrite (decide_True (P:=j ∈ j :: indices)) by set_solver.
      destruct (decide (j < length outcomes)) as [Hj|Hj].
      * rewrite list_lookup_insert_eq by done. apply lookup_lt_is_Some in Hj as [o ->].
        by case_decide.
      * rewrite list_insert_ge by lia. rewrite (lookup_ge_None_2 outcomes) by lia.
        by case_decide.
    + rewrite list_lookup_insert_ne by done.
      by rewrite (decide_ext (i ∈ indices) (i ∈ j :: indices)) by (rewrite elem_of_cons; naive_solver).
Qed.

Lemma runnable_index due i oc :
  due !! i = Some oc → (i ∈ runnable_indices due ↔ is_runnable oc = true).
Proof. rewrite elem_of_runnable_indices. naive_solver. Qed.

Lemma lookup_unassigned (due : list ScheduleOccurrence) i oc :
  due !! i = Some oc →
  replicate (length due) (OcSkip "dst_gap") !! i = Some (OcSkip "dst_gap").
Proof. intros ?. apply lookup_replicate_2. by eapply lookup_lt_Some. Qed.

Lemma length_classify due policy grace now beyond :
  length (classify due policy grace now beyond) = length due.
Proof.
  destruct policy; simpl; [|case_match|];
    by rewrite ?length_assign, ?length_insert, ?length_replicate.
Qed.

Lemma classify_latest due grace now beyond i oc :
  (0 ≤ beyond)%Z → due !! i = Some oc →
  classify due RunLatest grace now beyond !! i
  = Some (expected_outcome RunLatest grace now (runnable_count (drop (S i) due) + beyond) oc).
Proof.
  intros Hb Hi.
  pose proof (runnable_index due i oc Hi) as Hin.
  pose proof (lookup_unassigned due i oc Hi) as Hrep.
  pose proof (runnable_count_nonneg (drop (S i) due)) as Hpos.
  pose proof (elem_of_first_runnable due 1 i) as Hfirst.
  pose proof (elem_of_last_runnable due 1 i) as Hlast.
  unfold expected_outcome. simpl.
  destruct (last (runnable_indices due)) as [latest|] eqn:HR.
  - apply last_Some in HR as [R' HR]. rewrite HR in Hfirst, Hlast, Hin |- *.
    rewrite length_app in Hfirst, Hlast |- *. cbn [length] in *.
    replace (length R' + 1 - 1) with (length R') in * by lia.
    rewrite take_app_length in *. rewrite drop_app_length in Hlast.
    rewrite list_elem_of_singleton in Hlast. rewrite Hin in Hfirst, Hlast.
    rewrite lookup_assign, (decide_ext _ _ _ _ Hfirst). apply (lookup_lt_Some due) in Hi as Hlt.
    destruct (decide (i = latest)) as [->|Hne].
    + destruct (proj1 Hlast eq_refl) as [-> ?]. rewrite decide_False by lia.
      rewrite list_lookup_insert_eq by (by rewrite length_replicate). simpl.
      by replace (runnable_count (drop (S latest) due) + beyond)%Z with beyond by lia.
    + rewrite list_lookup_insert_ne, Hrep by done. case_decide as Hd.
      * destruct Hd as [-> ?]. simpl. by replace (_ =? 0)%Z with false by lia.
      * destruct (is_runnable oc); simpl; [|done]. exfalso. apply Hne, Hlast.
        split; [done|]. apply Z.nle_gt. naive_solver.
  - apply last_None in HR. rewrite HR in Hin. destruct (is_runnable oc) eqn:E; [set_solver|].
    by rewrite Hrep.
Qed.

Lemma classify_catch_up due n grace now beyond i oc :
  (0 ≤ beyond)%Z → (0 ≤ n ≤ u32_max)%Z → due !! i = Some oc →
  classify due (CatchUp n) grace now beyond !! i
  = Some (expected_outcome (CatchUp n) grace now
            (runnable_count (drop (S i) due) + beyond) oc).
Proof.
  intros Hb Hn Hi. unfold expected_outcome. simpl.
  pose proof (runnable_index due i oc Hi) as Hin.
  set (c := Nat.min (Z.to_nat (u32_saturating_sub n beyond)) (length (runnable_indices due))).
  assert (Z.of_nat c = Z.min (Z.max 0 (n - beyond)) (runnable_count due)) as Hc.
  { unfold c. rewrite <- length_runnable_indices. autounfold with ranges in *. lia. }
  rewrite !lookup_assign, (lookup_unassigned due i oc Hi). unfold usize_saturating_sub.
  assert (runnable_count due = runnable_count (take i due)
    + ((if is_runnable oc then 1 else 0) + runnable_count (drop (S i) due)))%Z as Hsum.
  { rewrite <- (take_drop_middle due i oc Hi) at 1.
    by rewrite runnable_count_app, runnable_count_cons. }
  pose proof (runnable_count_nonneg (take i due)).
  pose proof (runnable_count_nonneg (drop (S i) due)).
  pose proof (elem_of_first_runnable due c i) as Hfirst.
  pose proof (elem_of_last_runnable due c i) as Hlast.
  rewrite Hin in Hfirst, Hlast.
  rewrite (decide_ext _ _ _ _ Hfirst), (decide_ext _ _ _ _ Hlast).
  destruct (is_runnable oc); cbn [negb]; [|by rewrite !decide_False by naive_solver].
  destruct (Z.ltb_spec (runnable_count (drop (S i) due) + beyond) n) as [Hlt|Hlt].
  - rewrite (decide_True (P:=_ ∧ _ < Z.of_nat c)%Z) by (split; [done|lia]). by case_decide.
  - rewrite (decide_False (P:=_ ∧ _ < Z.of_nat c)%Z) by lia.
    by rewrite decide_True by (split; [done|lia]).
Qed.

(** The range of a catch-up limit, a [u32]. *)
Definition policy_ok (policy : MisfirePolicy) : Prop :=
  match policy with CatchUp n => (0 ≤ n ≤ u32_max)%Z | _ => True end.

(** [classify] gives every occurrence what the reference says. *)
Lemma classify_expected due policy grace now beyond :
  (0 ≤ beyond)%Z → policy_ok policy →
  classify due policy grace now beyond = expected policy grace now beyond due.
Proof.
  intros Hb Hn. apply list_eq. intros i. rewrite lookup_expected.
  destruct (due !! i) as [oc|] eqn:Hi; cbn [fmap option_fmap option_map].
  2: { apply lookup_ge_None_2. rewrite length_classify. by apply lookup_ge_None_1. }
  destruct policy as [| |n].
  - simpl. rewrite lookup_assign, (lookup_unassigned due i oc Hi), Hi. unfold expected_outcome.
    pose proof (runnable_index due i oc Hi). destruct (is_runnable oc); simpl;
      case_decide; naive_solver.
  - by apply classify_latest.
  - by apply classify_catch_up.
Qed.

(** * The backlog of a schedule *)

Section backlog.
Local Opaque MAX_GAP_SCAN_SECONDS MAX_DUE_OCCURRENCES_PER_TICK.
Context `{ChronoLaws}.
Variable cal : ScheduleCalendar.

(** An occurrence that the calendar resolved, at a slot of a cron expression. *)
Record oc_ok (oc : ScheduleOccurrence) : Prop := {
  oc_ok_resolve : resolve cal (oc_local_datetime oc) = Ok oc;
  oc_ok_second : whole_second (oc_local_datetime oc);
  oc_ok_year : four_digit_year (oc_local_datetime oc);
}.

(** The occurrences due at [now], from [oc] on, and the first that is not. *)
Inductive backlog (now : UtcMillis)
    : ScheduleOccurrence → list ScheduleOccurrence → ScheduleOccurrence → Prop :=
  | backlog_end oc : (now < oc_due_at oc)%Z → backlog now oc [] oc
  | backlog_due oc next l fin :
      (oc_due_at oc ≤ now)%Z → next_after_local cal (oc_local_datetime oc) = Ok next →
      backlog now next l fin → backlog now oc (oc :: l) fin.

Lemma gap_scan_Some tz t remaining offset i :
  gap_scan tz t remaining offset = Some i ↔
  ∃ n, (offset ≤ n < offset + Z.of_nat remaining)%Z
    ∧ from_local_datetime tz (seconds_later t n) = Single i
    ∧ (∀ k, (offset ≤ k ≤ n)%Z → chrono_range (seconds_later t k) = true)
    ∧ (∀ k j, (offset ≤ k < n)%Z → from_local_datetime tz (seconds_later t k) ≠ Single j).
Proof.
  revert offset. induction remaining as [|remaining IH]; intros offset; cbn [gap_scan].
  { split; [done|]. intros (n & ? & _). lia. }
  assert (∀ n, (offset + 1 ≤ n < offset + 1 + Z.of_nat remaining)%Z
    ↔ (offset ≤ n < offset + Z.of_nat (S remaining))%Z ∧ n ≠ offset) as Hrange by lia.
  destruct (chrono_range (seconds_later t offset)) eqn:Hr; simpl.
  2: { split; [done|]. intros (n & ? & _ & Hk & _). rewrite Hk in Hr; [done|lia]. }
  destruct (from_local_datetime tz (seconds_later t offset)) as [i'|? ?|] eqn:E.
  { split.
    - intros [= ->]. exists offset. repeat split; [lia|lia|done| |lia].
      intros k ?. by replace k with offset by lia.
    - intros (n & ? & Hn & _ & Hk). destruct (decide (n = offset)) as [->|]; [congruence|].
      exfalso. apply (Hk offset i'); [lia|done]. }
  all: rewrite IH; setoid_rewrite Hrange; split.
  all: intros (n & Hn & Hi & Hrk & Hns); exists n; repeat split; auto; try lia.
  all: try (intros k ?; destruct (decide (k = offset)) as [->|]; [done|apply Hrk; lia]).
  all: try (intros k j ?; destruct (decide (k = offset)) as [->|]; [congruence|apply Hns; lia]).
  all: try (intros ->; congruence).
  all: intros; first [apply Hrk|apply Hns]; lia.
Qed.

(** A gap occurrence is due at the first unique local time after it. *)
Lemma resolve_gap t oc :
  resolve cal t = Ok oc → oc_disposition oc = Gap →
  from_local_datetime (cal_timezone cal) t = NoLocal
  ∧ gap_scan (cal_timezone cal) t (Z.to_nat MAX_GAP_SCAN_SECONDS) 1 = Some (oc_due_at oc).
Proof. unfold resolve. intros. repeat case_match; by simplify_eq/=. Qed.

Lemma resolve_local t oc : resolve cal t = Ok oc →
  oc_local_datetime oc = t ∧ oc_scheduled_for oc = oc_due_at oc
  ∧ oc_local_occurrence oc = format_local (local_occurrence_new t).
Proof. unfold resolve. intros. by repeat case_match; simplify_eq/=. Qed.

Lemma resolve_due t oc : resolve cal t = Ok oc → (t - DAY_MILLIS < oc_due_at oc)%Z.
Proof.
  unfold resolve. intros Hr.
  destruct (from_local_datetime (cal_timezone cal) t) as [i|i j|] eqn:E; simplify_eq/=.
  - apply single_offset in E. lia.
  - apply ambiguous_offset in E. lia.
  - destruct (gap_scan _ _ _ _) as [i|] eqn:Eg; simplify_eq/=.
    apply gap_scan_Some in Eg as (n & ? & Hi & _). apply single_offset in Hi.
    unfold seconds_later in *. lia.
Qed.

Lemma next_after_local_ok t next :
  next_after_local cal t = Ok next →
  oc_ok next ∧ (t < oc_local_datetime next)%Z
  ∧ cron_after (cal_schedule cal) t = Some (oc_local_datetime next).
Proof.
  unfold next_after_local. destruct (cron_after _ _) as [t'|] eqn:E; [simpl|done].
  intros Hr. destruct (resolve_local _ _ Hr) as [Ht _]. subst t'.
  destruct (cron_after_spec _ _ _ E) as (? & ? & ?). done.
Qed.

Lemma next_after_local_eq t u next :
  next_after_local cal t = Ok next → (t ≤ u < oc_local_datetime next)%Z →
  next_after_local cal u = Ok next.
Proof.
  intros Hn Hu. destruct (next_after_local_ok _ _ Hn) as (_ & _ & E).
  unfold next_after_local in *. rewrite E in Hn.
  by rewrite (cron_after_first _ _ _ _ E Hu).
Qed.

Lemma backlog_app_start now oc l1 l2 fin :
  backlog now oc (l1 ++ l2) fin → ∃ oc', backlog now oc' l2 fin.
Proof.
  revert oc. induction l1 as [|o l1 IH]; intros oc Hb; [eauto|].
  inversion Hb; subst. eauto.
Qed.

(** The slots of a gap resolve to its end. *)
Lemma gap_scan_within tz t n i :
  from_local_datetime tz t = NoLocal →
  gap_scan tz t (Z.to_nat MAX_GAP_SCAN_SECONDS) 1 = Some i →
  (0 < n)%Z → (seconds_later t n < naive_local tz i)%Z →
  from_local_datetime tz (seconds_later t n) = NoLocal
  ∧ gap_scan tz (seconds_later t n) (Z.to_nat MAX_GAP_SCAN_SECONDS) 1 = Some i.
Proof.
  intros Ht (m & Hm & Hi & Hr & Hns)%gap_scan_Some Hn Hlt.
  destruct (single_offset _ _ _ Hi) as [_ Hp]. rewrite Hp in Hlt.
  assert (n < m)%Z by (unfold seconds_later in *; lia).
  assert (∀ k, seconds_later (seconds_later t n) k = seconds_later t (n + k)) as Hadd
    by (unfold seconds_later; lia).
  split.
  - apply (gap_is_contiguous tz t m n i); auto with lia.
  - apply gap_scan_Some. exists (m - n)%Z. rewrite Hadd.
    replace (n + (m - n))%Z with m by lia. repeat split; auto with lia.
    + intros. rewrite Hadd. apply Hr. lia.
    + intros. rewrite Hadd. apply Hns. lia.
Qed.

Lemma second_later t u :
  whole_second t → whole_second u → (t < u)%Z → ∃ n, (0 < n)%Z ∧ u = seconds_later t n.
Proof.
  unfold whole_second, seconds_later. intros Ht Hu Hlt. exists (u / 1000 - t / 1000)%Z.
  pose proof (Z.div_mod t 1000). pose proof (Z.div_mod u 1000). lia.
Qed.

Lemma gap_end oc :
  oc_ok oc → oc_disposition oc = Gap →
  (∃ n, (0 < n ≤ MAX_GAP_SCAN_SECONDS)%Z
     ∧ naive_local (cal_timezone cal) (oc_due_at oc) = seconds_later (oc_local_datetime oc) n)
  ∧ chrono_range (oc_due_at oc) = true
  ∧ chrono_range (seconds_later (naive_local (cal_timezone cal) (oc_due_at oc)) (-1)) = true.
Proof.
  intros [Hr Hs Hy] Hg. destruct (resolve_gap _ _ Hr Hg) as [_ Hscan].
  apply gap_scan_Some in Hscan as (n & Hn & Hi & _). destruct (single_offset _ _ _ Hi) as [Ho Hp].
  rewrite Hp. assert (0 < n ≤ MAX_GAP_SCAN_SECONDS)%Z as Hn' by lia.
  split; [by exists n|].
  assert (MAX_GAP_SCAN_SECONDS = 86400%Z) as Hmax by done.
  unfold seconds_later, four_digit_year in *.
  split; apply chrono_range_years; unfold DAY_MILLIS in *; lia.
Qed.

(** Jumping to the end of a gap skips only occurrences of the gap. *)
Lemma gap_jump now oc l fin :
  backlog now oc l fin → oc_ok oc → oc_disposition oc = Gap → (oc_due_at oc ≤ now)%Z →
  ∃ gaps next l', l = oc :: gaps ++ l' ∧ Forall (λ g, is_runnable g = false) gaps
    ∧ next_after_local cal
        (seconds_later (naive_local (cal_timezone cal) (oc_due_at oc)) (-1)) = Ok next
    ∧ backlog now next l' fin.
Proof.
  induction 1 as [oc ?|oc next l fin Hdue Hnext Hb IH]; intros Hok Hg Hle; [lia|].
  destruct (next_after_local_ok _ _ Hnext) as (Hok' & Hlt & Hcron).
  destruct Hok as [Hr Hs Hy] eqn:Eok. clear Eok.
  destruct (resolve_gap _ _ Hr Hg) as [Hno Hscan].
  destruct (second_later (oc_local_datetime oc) (oc_local_datetime next))
    as (n & Hn & Hnl); [done|apply Hok'|done|].
  destruct (gap_end oc) as [(e & He & Hend) _]; [done..|].
  set (p := naive_local (cal_timezone cal) (oc_due_at oc)) in *.
  destruct (decide (oc_local_datetime next < p)%Z) as [Hin|Hout].
  - destruct (gap_scan_within _ _ n _ Hno Hscan Hn) as [Hno' Hscan'];
      [by rewrite <- Hnl|]. rewrite <- Hnl in Hno', Hscan'.
    assert (oc_due_at next = oc_due_at oc ∧ oc_disposition next = Gap) as [Hdue' Hg'].
    { destruct Hok' as [Hr' _ _]. unfold resolve in Hr'. rewrite Hno', Hscan' in Hr'.
      by injection Hr' as <-. }
    destruct IH as (gaps & next' & l' & -> & Hgaps & Hj & Hb'); [done|done|lia|].
    rewrite Hdue' in Hj. exists (next :: gaps), next', l'. repeat split; try done.
    constructor; [|done]. unfold is_runnable. by rewrite Hg'.
  - exists [], next, l. repeat split; try done.
    apply (next_after_local_eq _ _ _ Hnext). unfold seconds_later in *.
    split; lia.
Qed.

Definition first_runnable (l : list ScheduleOccurrence) : option ScheduleOccurrence :=
  head (filter (λ oc, is_runnable oc = true) l).

Lemma filter_gaps gaps l :
  Forall (λ g, is_runnable g = false) gaps →
  filter (λ oc, is_runnable oc = true) (gaps ++ l) = filter (λ oc, is_runnable oc = true) l.
Proof.
  induction 1 as [|g gaps Hg _ IH]; [done|]. simpl. by rewrite filter_cons, decide_False, IH
    by (by rewrite Hg).
Qed.

(** [next_runnable_through] finds the first runnable occurrence of the
    backlog. *)
Lemma runnable_from_first fuel now oc l fin :
  backlog now oc l fin → oc_ok oc → length l ≤ fuel →
  runnable_from fuel cal now oc = Ok (first_runnable l).
Proof.
  revert oc l. induction fuel as [|fuel IH]; intros oc l Hb Hok Hlen;
    (assert (oc_due_at oc ≤ now ∨ now < oc_due_at oc)%Z as [Hdue|Hdue] by lia;
     [|inversion Hb; subst; [cbn; by rewrite (proj2 (Z.leb_gt _ _) Hdue)|lia]]).
  { destruct Hb; simpl in *; lia. }
  cbn [runnable_from]. rewrite (proj2 (Z.leb_le _ _) Hdue).
  case_bool_decide as Hg.
  { inversion Hb; subst; [lia|]. unfold first_runnable. rewrite filter_cons, decide_True; [done|].
    by apply bool_decide_eq_true. }
  destruct (gap_end oc Hok Hg) as (_ & -> & ->). cbn [negb].
  destruct (gap_jump _ _ _ _ Hb Hok Hg Hdue) as (gaps & next & l' & -> & Hgaps & Hj & Hb').
  rewrite Hj. cbn [res_bind]. destruct (next_after_local_ok _ _ Hj) as [Hok' _].
  rewrite (IH next l'); [|done..|simpl in Hlen; rewrite length_app in Hlen; lia].
  unfold first_runnable. change (oc :: gaps ++ l') with ((oc :: gaps) ++ l').
  rewrite filter_gaps; [done|].
  constructor; [|done]. unfold is_runnable. by rewrite Hg.
Qed.

Lemma backlog_ok now oc l fin : backlog now oc l fin → oc_ok oc → Forall oc_ok l.
Proof.
  induction 1 as [|oc next l fin Hdue Hnext Hb IH]; intros Hok; constructor; [done|].
  apply IH. by apply next_after_local_ok in Hnext as [? _].
Qed.

Lemma backlog_end_ok now oc l fin :
  backlog now oc l fin → oc_ok oc → (now < oc_due_at fin)%Z ∧ oc_ok fin.
Proof.
  induction 1 as [|oc next l fin Hdue Hnext Hb IH]; intros Hok; [done|].
  apply IH. by apply next_after_local_ok in Hnext as [? _].
Qed.

(** The backlog after its first runnable occurrence. *)
Lemma backlog_split now oc l fin first :
  backlog now oc l fin → oc_ok oc → first_runnable l = Some first →
  ∃ gaps l' next, l = gaps ++ first :: l' ∧ Forall (λ g, is_runnable g = false) gaps
    ∧ is_runnable first = true ∧ next_after_local cal (oc_local_datetime first) = Ok next
    ∧ backlog now next l' fin.
Proof.
  induction 1 as [oc ?|oc next l fin Hdue Hnext Hb IH]; intros Hok Hf; [done|].
  destruct (next_after_local_ok _ _ Hnext) as (Hok' & _).
  unfold first_runnable in Hf. rewrite filter_cons in Hf. case_decide as Hr; simplify_eq/=.
  - exists [], l, next. by repeat split.
  - destruct IH as (gaps & l' & next' & -> & Hgaps & ? & ? & ?); [done..|].
    exists (oc :: gaps), l', next'. repeat split; try done. constructor; [|done].
    by destruct (is_runnable oc).
Qed.

(** The backlog has at most one occurrence for each second up to a day past
    [now]. *)
Lemma backlog_length now oc l fin after :
  backlog now oc l fin → oc_ok oc → whole_second after → (after < oc_local_datetime oc)%Z →
  length l ≤ Z.to_nat ((now + DAY_MILLIS - after) / 1000).
Proof.
  intros Hb. revert after. induction Hb as [oc ?|oc next l fin Hdue Hnext Hb IH];
    intros after Hok Hs Hlt; [simpl; lia|].
  destruct (next_after_local_ok _ _ Hnext) as (Hok' & Hlt' & _).
  destruct (second_later after (oc_local_datetime oc)) as (n & Hn & He);
    [done|apply Hok|done|].
  destruct Hok as [Hr ? ?]. apply resolve_due in Hr.
  assert (Hl : (1000 * n ≤ now + DAY_MILLIS - after)%Z) by (unfold seconds_later in *; lia).
  specialize (IH (oc_local_datetime oc)). simpl.
  assert ((now + DAY_MILLIS - oc_local_datetime oc) / 1000
          = (now + DAY_MILLIS - after) / 1000 - n)%Z as Hd.
  { rewrite He. unfold seconds_later.
    replace (now + DAY_MILLIS - (after + 1000 * n))%Z
      with (now + DAY_MILLIS - after + - n * 1000)%Z by lia.
    rewrite Z.div_add by lia. lia. }
  rewrite Hd in IH. assert (n ≤ (now + DAY_MILLIS - after) / 1000)%Z
    by (apply Z.div_le_lower_bound; lia).
  specialize (IH Hok' ltac:(done) Hlt'). lia.
Qed.

Lemma next_runnable_first now after oc l fin :
  next_after_local cal after = Ok oc → whole_second after → backlog now oc l fin →
  next_runnable_through cal after now = Ok (first_runnable l).
Proof.
  intros Hn Hs Hb. unfold next_runnable_through. rewrite Hn. cbn [res_bind].
  destruct (next_after_local_ok _ _ Hn) as (Hok & Hlt & _).
  apply (runnable_from_first _ _ _ _ fin); [done..|].
  pose proof (backlog_length _ _ _ _ after Hb Hok Hs Hlt). unfold runnable_fuel. lia.
Qed.

(** The second loop counts the runnable occurrences of the rest, up to its
    budget. *)
Lemma count_following_backlog left now after oc l fin acc :
  next_after_local cal after = Ok oc → whole_second after → backlog now oc l fin →
  count_following left cal after now acc
  = Ok (acc + Z.min (Z.of_nat left) (runnable_count l))%Z.
Proof.
  revert after oc l acc. induction left as [|left IH]; intros after oc l acc Hn Hs Hb;
    cbn [count_following].
  { pose proof (runnable_count_nonneg l). f_equal. lia. }
  rewrite (next_runnable_first _ _ _ _ _ Hn Hs Hb). cbn [res_bind].
  destruct (next_after_local_ok _ _ Hn) as (Hok & _).
  destruct (first_runnable l) as [first|] eqn:Hf.
  - destruct (backlog_split _ _ _ _ _ Hb Hok Hf)
      as (gaps & l' & next & -> & Hgaps & Hr & Hn' & Hb').
    assert (whole_second (oc_local_datetime first)).
    { apply (backlog_ok _ _ _ _ Hb) in Hok as Hall.
      rewrite Forall_forall in Hall. apply Hall. set_solver. }
    rewrite (IH _ next l'), runnable_count_app, runnable_count_cons, Hr by done.
    unfold runnable_count at 2. rewrite <- (app_nil_r gaps) , filter_gaps by done. simpl.
    f_equal. pose proof (runnable_count_nonneg l'). lia.
  - unfold first_runnable in Hf. apply head_None in Hf. unfold runnable_count. rewrite Hf.
    simpl. f_equal. lia.
Qed.

Lemma collect_due_backlog room now oc l fin :
  backlog now oc l fin →
  ∃ next, collect_due room cal oc now = Ok (take room l, next)
    ∧ backlog now next (drop room l) fin
    ∧ match last (take room l) with
      | Some o => next_after_local cal (oc_local_datetime o) = Ok next
      | None => next = oc
      end.
Proof.
  intros Hb. revert room. induction Hb as [oc Hlt|oc nx l fin Hdue Hnext Hb IH]; intros room.
  - exists oc. rewrite take_nil, drop_nil. repeat split; [|by constructor].
    destruct room; simpl; by rewrite (proj2 (Z.leb_gt _ _) Hlt).
  - destruct room as [|room]; cbn [collect_due take drop]; rewrite (proj2 (Z.leb_le _ _) Hdue).
    { exists oc. repeat split. by econstructor. }
    rewrite Hnext. cbn [res_bind]. destruct (IH room) as (next & -> & Hb' & Hlast).
    exists next. repeat split; [done|]. rewrite last_cons.
    destruct (last (take room l)); [done|]. by subst next.
Qed.

(** Counting up to the budget of the policy is enough. *)
Lemma expected_cap policy grace now beyond l :
  (0 ≤ beyond)%Z →
  expected policy grace now (Z.min (Z.of_nat (Z.to_nat (budget policy))) beyond) l
  = expected policy grace now beyond l.
Proof.
  intros Hb. induction l as [|oc l IH]; [done|]. cbn [expected]. rewrite IH. f_equal.
  pose proof (runnable_count_nonneg l). unfold expected_outcome.
  destruct (is_runnable oc), policy as [| |n]; cbn [negb budget]; try done.
  - destruct (Z.eqb_spec (runnable_count l + beyond) 0),
      (Z.eqb_spec (runnable_count l + Z.min (Z.of_nat (Z.to_nat 1)) beyond) 0); (done || lia).
  - destruct (Z.ltb_spec (runnable_count l + beyond) n),
      (Z.ltb_spec (runnable_count l + Z.min (Z.of_nat (Z.to_nat n)) beyond) n); (done || lia).
Qed.

Lemma take_expected policy grace now n l :
  take n (expected policy grace now 0 l)
  = expected policy grace now (runnable_count (drop n l)) (take n l).
Proof.
  revert n. induction l as [|oc l IH]; intros [|n]; try done. cbn [expected take drop].
  rewrite IH. do 2 f_equal. rewrite <- (take_drop n l) at 1. rewrite runnable_count_app. lia.
Qed.

(** A chunk holds the first occurrences of the backlog, with the outcomes the
    reference gives them in the whole of it. *)
Lemma plan_due_chunk_backlog now oc l fin policy grace :
  backlog now oc l fin → oc_ok oc → policy_ok policy →
  let n := Z.to_nat MAX_DUE_OCCURRENCES_PER_TICK in
  ∃ next, plan_due_chunk cal oc policy grace now
    = Ok (take n l, next, take n (expected policy grace now 0 l))
    ∧ backlog now next (drop n l) fin ∧ oc_ok next.
Proof.
  intros Hb Hok Hp n. unfold plan_due_chunk. fold n.
  destruct (collect_due_backlog n now oc l fin Hb) as (next & -> & Hb' & Hlast).
  cbn [res_bind]. exists next.
  assert (oc_ok next) as Hok'.
  { destruct (last (take n l)); [|by subst]. by apply next_after_local_ok in Hlast as [? _]. }
  split; [|done]. pose proof (backlog_ok _ _ _ _ Hb Hok) as Hall.
  rewrite take_expected. pose proof (runnable_count_nonneg (drop n l)).
  destruct (Z.leb_spec (oc_due_at next) now) as [Hle|Hgt].
  - destruct (last (take n l)) as [o|] eqn:Eo.
    + rewrite (count_following_backlog _ _ _ next (drop n l) fin) ; [|done| |done].
      * cbn [res_bind]. rewrite Z.add_0_l, classify_expected by (done || lia).
        by rewrite expected_cap.
      * apply last_Some in Eo as [pre Eo].
        rewrite <- (take_drop n l), Eo in Hall. rewrite Forall_forall in Hall.
        apply Hall. set_solver.
    + cbn [res_bind]. apply last_None in Eo. rewrite Eo. by destruct policy.
  - inversion Hb'; subst; [|lia]. cbn [res_bind]. by rewrite classify_expected.
Qed.

(** ** Recovery over several ticks *)

(** The occurrences and outcomes of successive ticks at [now], with enough
    ticks to empty the backlog. *)
Fixpoint recover (ticks : nat) (oc : ScheduleOccurrence) (policy : MisfirePolicy)
    (grace_millis : Z) (now : DbMillis)
    : Result (list (ScheduleOccurrence * OccurrenceOutcome) * ScheduleOccurrence) :=
  match ticks with
  | O => Ok ([], oc)
  | S ticks' =>
      let? plan := plan_due_chunk cal oc policy grace_millis now in
      let '(due, next, outcomes) := plan in
      let? rest := recover ticks' next policy grace_millis now in
      Ok (zip due outcomes ++ rest.1, rest.2)
  end.

Lemma recover_backlog ticks now oc l fin policy grace :
  backlog now oc l fin → oc_ok oc → policy_ok policy →
  length l ≤ ticks * Z.to_nat MAX_DUE_OCCURRENCES_PER_TICK →
  recover ticks oc policy grace now = Ok (zip l (expected policy grace now 0 l), fin).
Proof.
  intros Hb Hok Hp. revert oc l Hb Hok.
  induction ticks as [|ticks IH]; intros oc l Hb Hok Hlen; cbn [recover].
  { destruct Hb; [done|]. simpl in Hlen. lia. }
  destruct (plan_due_chunk_backlog now oc l fin policy grace) as (next & -> & Hb' & Hok');
    [done..|]. cbn [res_bind].
  rewrite (IH next _ Hb' Hok') by (rewrite length_drop; lia). cbn [res_bind fst snd].
  do 2 f_equal. rewrite <- drop_expected.
  set (n := Z.to_nat MAX_DUE_OCCURRENCES_PER_TICK).
  rewrite <- zip_with_app by (rewrite !length_take, expected_length; done).
  by rewrite !take_drop.
Qed.

(** ** Termination *)

(** The calendar has an occurrence after every local time of a range. *)
Definition fires_between (lo hi : NaiveDateTime) : Prop :=
  ∀ t, (lo ≤ t ≤ hi)%Z → ∃ oc, next_after_local cal t = Ok oc.

Lemma backlog_total now oc lo :
  fires_between lo (now + DAY_MILLIS) → (lo ≤ oc_local_datetime oc)%Z → oc_ok oc →
  ∃ l fin, backlog now oc l fin.
Proof.
  intros Hf. remember (Z.to_nat (now + DAY_MILLIS - oc_local_datetime oc)) as n eqn:Hn.
  revert oc Hn. induction (lt_wf n) as [n _ IH]. intros oc -> Hlo Hok.
  destruct (Z.leb_spec (oc_due_at oc) now) as [Hdue|Hdue]; [|by exists [], oc; constructor].
  destruct Hok as [Hr ? ?]. apply resolve_due in Hr.
  destruct (Hf (oc_local_datetime oc)) as [next Hnext]; [lia|].
  destruct (next_after_local_ok _ _ Hnext) as (Hok' & Hlt & _).
  destruct (IH (Z.to_nat (now + DAY_MILLIS - oc_local_datetime next))) with (oc := next)
    as (l & fin & Hb); [lia|done|lia|done|].
  exists (oc :: l), fin. by econstructor.
Qed.

Lemma skip_through_backlog fuel after oc l fin :
  backlog after oc l fin → oc_ok oc → length l ≤ fuel →
  skip_through fuel cal after oc = Ok fin.
Proof.
  intros Hb. revert fuel. induction Hb as [oc Hlt|oc next l fin Hdue Hnext Hb IH];
    intros fuel [Hr _ _] Hlen; destruct (resolve_local _ _ Hr) as (_ & Hs & _).
  - destruct fuel; cbn; by rewrite Hs, (proj2 (Z.leb_gt _ _) Hlt).
  - destruct fuel as [|fuel]; simpl in Hlen; [lia|]. cbn [skip_through].
    rewrite Hs, (proj2 (Z.leb_le _ _) Hdue), Hnext. cbn [res_bind]. apply IH; [|lia].
    by apply next_after_local_ok in Hnext as [? _].
Qed.

(** [next_after] returns the first occurrence scheduled after [after]: those
    between the local time of [after] and it are all at or before [after]. *)
Lemma next_after_backlog after :
  fires_between (after - DAY_MILLIS) (after + DAY_MILLIS) →
  ∃ first l fin, next_after_local cal (naive_local (cal_timezone cal) after) = Ok first
    ∧ backlog after first l fin ∧ next_after cal after = Ok fin.
Proof.
  intros Hf. pose proof (naive_local_offset (cal_timezone cal) after) as Ho.
  destruct (Hf (naive_local (cal_timezone cal) after)) as [first Hfirst]; [lia|].
  destruct (next_after_local_ok _ _ Hfirst) as (Hok & Hlt & _).
  destruct (backlog_total after first _ Hf ltac:(lia) Hok) as (l & fin & Hb).
  exists first, l, fin. repeat split; [done..|]. unfold next_after. rewrite Hfirst.
  cbn [res_bind]. apply (skip_through_backlog _ _ _ l); [done..|].
  transitivity (Z.to_nat ((after + DAY_MILLIS - (oc_local_datetime first - 1000)) / 1000)).
  - apply (backlog_length after first l fin); [done..| |lia].
    destruct Hok as [_ Hs _]. unfold whole_second in *. by rewrite Zminus_mod, Hs.
  - assert ((after + DAY_MILLIS - (oc_local_datetime first - 1000)) / 1000 < SKIP_FUEL)%Z
      by (unfold SKIP_FUEL, DAY_MILLIS in *; apply Z.div_lt_upper_bound; lia).
    lia.
Qed.

(** ** What the searches return *)

Lemma collect_due_ok room oc now due next :
  collect_due room cal oc now = Ok (due, next) → oc_ok oc →
  oc_ok next ∧ (oc_local_datetime oc ≤ oc_local_datetime next)%Z
  ∧ (due ≠ [] → (oc_local_datetime oc < oc_local_datetime next)%Z)
  ∧ ∀ o, o ∈ due → oc_ok o ∧ (oc_local_datetime o < oc_local_datetime next)%Z.
Proof.
  revert oc due. induction room as [|room IH]; intros oc due; cbn [collect_due].
  { intros Hc Hok. assert (due = [] ∧ next = oc) as [-> ->] by (by case_match; simplify_eq).
    split_and!; [done|lia|done|set_solver]. }
  case_match eqn:E.
  2: { intros [= <- <-] Hok. split_and!; [done|lia|done|set_solver]. }
  destruct (next_after_local cal _) as [oc'|] eqn:En; [cbn [res_bind]|done].
  destruct (collect_due room cal oc' now) as [[due' next']|] eqn:Ec; [cbn [res_bind fst snd]|done].
  intros [= <- <-] Hok. destruct (next_after_local_ok _ _ En) as (Hok' & Hlt & _).
  destruct (IH _ _ Ec Hok') as (Hn & Hle & _ & Hall).
  split_and!; [done|lia|lia|]. intros o [->|Ho]%elem_of_cons; [split; [done|lia]|auto].
Qed.

Lemma oc_ok_key oc :
  oc_ok oc →
  oc_local oc = oc_local_datetime oc
  ∧ oc_local_occurrence oc = format_local (oc_local_datetime oc)
  ∧ is_local_key (oc_local_occurrence oc) = true.
Proof.
  intros [Hr Hs Hy]. destruct (resolve_local _ _ Hr) as (_ & _ & Hk).
  assert (local_occurrence_new (oc_local_datetime oc) = oc_local_datetime oc) as Hl.
  { unfold local_occurrence_new. unfold whole_second in Hs. lia. }
  unfold oc_local. rewrite Hl in *. split_and!; [done|done|]. rewrite Hk. by apply format_local_key.
Qed.

Lemma oc_ok_order oc oc' :
  oc_ok oc → oc_ok oc' → (oc_local_datetime oc < oc_local_datetime oc')%Z →
  key_lt (oc_local_occurrence oc) (oc_local_occurrence oc').
Proof.
  intros Hoc Hoc' Hlt. destruct (oc_ok_key _ Hoc) as (_ & -> & _).
  destruct (oc_ok_key _ Hoc') as (_ & -> & _). destruct Hoc, Hoc'. by apply format_local_order.
Qed.

Lemma skip_through_ok fuel after oc fin :
  skip_through fuel cal after oc = Ok fin → oc_ok oc → oc_ok fin.
Proof.
  revert oc. induction fuel as [|fuel IH]; intros oc; cbn [skip_through].
  { by case_match; intros [= <-]. }
  case_match; [|by intros [= <-]]. destruct (next_after_local cal _) as [oc'|] eqn:En; [|done].
  cbn [res_bind]. intros Hs _. apply (IH oc' Hs). by apply next_after_local_ok in En as [? _].
Qed.

Lemma next_after_ok after next : next_after cal after = Ok next → oc_ok next.
Proof.
  unfold next_after. destruct (next_after_local cal _) as [first|] eqn:En; [|done].
  cbn [res_bind]. intros Hs. apply (skip_through_ok _ _ _ _ Hs).
  by apply next_after_local_ok in En as [? _].
Qed.

Lemma cursor_upgrade_ok now floor target :
  cursor_upgrade cal now floor = Ok target →
  oc_ok target ∧ ∀ f, floor = Some f → (f < oc_local_datetime target)%Z.
Proof.
  unfold cursor_upgrade. destruct (next_after cal now) as [next|] eqn:En; [cbn [res_bind]|done].
  apply next_after_ok in En as Hok. destruct (oc_ok_key _ Hok) as (El & _).
  destruct floor as [f|]; [|by intros [= <-]].
  rewrite El. destruct (Z.leb_spec (oc_local_datetime next) f).
  - intros Ht. destruct (next_after_local_ok _ _ Ht) as (? & ? & _). split; [done|]. naive_solver.
  - intros [= <-]. split; [done|]. naive_solver.
Qed.

Lemma occurrence_at_local_ok key cursor oc :
  is_local_key key = true → parse_local key = inl cursor →
  occurrence_at_local cal cursor = Ok oc → oc_ok oc ∧ oc_local_datetime oc = cursor.
Proof.
  intros Hk Hp Ho. destruct (parse_local_key _ _ Hk Hp) as (_ & Hs & Hy).
  destruct (resolve_local _ _ Ho) as (Hl & _). split; [|done]. split; by rewrite Hl.
Qed.
End backlog.
