(* ===== verification/SchedulesSteps.v ===== *)
(** The schedule transactions keep the schema constraints and move the rows of
    the other tables by their steps, given that the handlers of a registry do;
    and they keep the invariants of the schedule tables [sched_ok]: one run per
    occurrence (S26), the cursor after every materialized occurrence (S27), at
    most one queued run (S29). *)
From stdpp Require Import base gmap list strings relations.
From Stdlib Require Import ZArith Lia.
From S2P Require Import Prelude.
From S2P Require Import Errors.
From S2P Require Import Status.
From S2P Require Import Rows.
From S2P Require Import Database.
From S2P Require Import TxLogic.
From S2P Require Import Lifecycle.
From S2P Require Import Evolution.
From S2P Require Import Policy.
From S2P Require Import Transitions.
From S2P Require Import Registry.
From S2P Require Import Calendar.
From S2P Require Import Store.
From S2P Require Import StoreSteps.
From S2P Require Import Control.
From S2P Require Import ControlSteps.
From S2P Require Import Schedules.
From S2P Require Import Misfire.

(** * The invariant *)

Section invariant.
Context `{Chrono}.

(** The cursor of a schedule, or its replacement [bound] in a tick that has
    planned it. *)
Definition cursor_of (bound : option (string * string)) (key : string) (s : ScheduleStateRow)
    : string :=
  match bound with
  | Some (key', cursor) => if decide (key = key') then cursor else ss_next_local_occurrence s
  | None => ss_next_local_occurrence s
  end.

(** The invariant inside a transaction: [bound] is the cursor a tick is
    moving to, and [open] the run it is materializing. *)
Record sched_inv (bound : option (string * string)) (open : option ScheduleRunId) (d : Db)
    : Prop := {
  si_state : ∀ key s, db_schedule_state d !! key = Some s →
    ss_schedule_key s = key ∧ is_local_key (ss_next_local_occurrence s) = true;
  si_run : ∀ id r, db_schedule_run d !! id = Some r →
    sr_id r = id ∧ (0 < id < db_next_schedule_run d)%Z
    ∧ is_Some (db_schedule_state d !! sr_schedule_key r)
    ∧ (is_manual r = true ∨ is_local_key (sr_local_occurrence r) = true);
  si_unique : ∀ i j r r', db_schedule_run d !! i = Some r → db_schedule_run d !! j = Some r' →
    sr_schedule_key r = sr_schedule_key r' →
    sr_local_occurrence r = sr_local_occurrence r' → i = j;
  si_cursor : ∀ id r s, db_schedule_run d !! id = Some r → is_manual r = false →
    db_schedule_state d !! sr_schedule_key r = Some s →
    key_lt (sr_local_occurrence r) (cursor_of bound (sr_schedule_key r) s);
  si_status : ∀ id r, db_schedule_run d !! id = Some r → open ≠ Some id →
    sr_status r ≠ RunMaterializing
    ∧ (sr_status r = RunStarted → is_Some (sr_workflow_id r));
  si_queued : ∀ i j r r', db_schedule_run d !! i = Some r → db_schedule_run d !! j = Some r' →
    sr_schedule_key r = sr_schedule_key r' → sr_status r = RunQueued →
    sr_status r' = RunQueued → i = j;
  si_next : (0 < db_next_schedule_run d)%Z;
}.

Definition sched_ok : Db → Prop := sched_inv None None.

(** No run of the schedule waits in the queue. *)
Definition none_queued (key : string) (d : Db) : Prop :=
  ∀ id r, db_schedule_run d !! id = Some r → sr_schedule_key r = key → sr_status r ≠ RunQueued.

Lemma run_identity_eq r r' : run_identity r' = run_identity r →
  sr_id r' = sr_id r ∧ sr_schedule_key r' = sr_schedule_key r
  ∧ sr_local_occurrence r' = sr_local_occurrence r ∧ sr_status r' = sr_status r
  ∧ is_manual r' = is_manual r.
Proof. destruct r, r'. unfold is_manual. cbn. by intros [= -> -> -> -> -> -> -> -> ->]. Qed.

Lemma run_kept_old d d' id r' :
  side_kept d d' → db_schedule_run d' !! id = Some r' →
  ∃ r, db_schedule_run d !! id = Some r ∧ run_identity r' = run_identity r
    ∧ (is_Some (sr_workflow_id r) → is_Some (sr_workflow_id r')).
Proof.
  intros (_ & Hk & _) Hr. specialize (Hk id). rewrite Hr in Hk.
  destruct (db_schedule_run d !! id) as [r|]; [|done]. by exists r.
Qed.

Lemma sched_inv_kept bound open d d' :
  side_kept d d' → sched_inv bound open d → sched_inv bound open d'.
Proof.
  intros Hk [Hs Hr Hu Hc Hst Hq Hn]. pose proof Hk as (Es & _ & En & _).
  assert (∀ id r', db_schedule_run d' !! id = Some r' → ∃ r, db_schedule_run d !! id = Some r
    ∧ (is_Some (sr_workflow_id r) → is_Some (sr_workflow_id r'))
    ∧ sr_id r' = sr_id r ∧ sr_schedule_key r' = sr_schedule_key r
    ∧ sr_local_occurrence r' = sr_local_occurrence r ∧ sr_status r' = sr_status r
    ∧ is_manual r' = is_manual r) as Hold.
  { intros id r' Hr'. destruct (run_kept_old _ _ _ _ Hk Hr') as (r & ? & ?%run_identity_eq & ?).
    eauto. }
  split; rewrite ?Es, ?En; try done.
  - intros id r' (r & Hr' & _ & -> & -> & -> & _ & ->)%Hold. by apply Hr.
  - intros i j r r' (x & Hx & _ & _ & -> & -> & _)%Hold (y & Hy & _ & _ & -> & -> & _)%Hold. eauto.
  - intros id r' s (r & Hr' & _ & _ & -> & -> & _ & ->)%Hold. eauto.
  - intros id r' (r & Hr' & Hw & _ & _ & _ & -> & _)%Hold Ho.
    destruct (Hst id r Hr' Ho). auto.
  - intros i j r r' (x & Hx & _ & _ & -> & _ & -> & _)%Hold (y & Hy & _ & _ & -> & _ & -> & _)%Hold.
    eauto.
Qed.

Lemma none_queued_kept key d d' : side_kept d d' → none_queued key d → none_queued key d'.
Proof.
  intros Hk Hn id r' Hr'. destruct (run_kept_old _ _ _ _ Hk Hr')
    as (r & Hr & (_ & -> & _ & -> & _)%run_identity_eq & _). eauto.
Qed.

(** ** Writes of runs and states *)

Lemma sched_inv_insert bound d row s :
  sched_inv bound None d → sr_id row = db_next_schedule_run d →
  db_schedule_state d !! sr_schedule_key row = Some s →
  (∀ id r, db_schedule_run d !! id = Some r → sr_schedule_key r = sr_schedule_key row →
     sr_local_occurrence r ≠ sr_local_occurrence row) →
  (is_manual row = true ∨ is_local_key (sr_local_occurrence row) = true) →
  (is_manual row = false →
   key_lt (sr_local_occurrence row) (cursor_of bound (sr_schedule_key row) s)) →
  (sr_status row = RunQueued → none_queued (sr_schedule_key row) d) →
  sr_status row ≠ RunStarted →
  sched_inv bound (if decide (sr_status row = RunMaterializing) then Some (sr_id row) else None)
    (with_run d row).
Proof.
  intros [Hs Hr Hu Hc Hst Hq Hn] Hid Hstate Hnew Hkey Hlt Hqueue Hns.
  split; cbn; try done.
  - intros id r [[<- <-]|[_ Hin]]%lookup_insert_Some; [split_and!; [done|lia|lia|by eexists|done]|].
    destruct (Hr id r Hin) as (? & ? & ? & ?). split_and!; [done|lia|lia|done|done].
  - intros i j r r' [[<- <-]|[_ Hi]]%lookup_insert_Some [[<- <-]|[_ Hj]]%lookup_insert_Some Ek Eo;
      [done| | |by eauto]; exfalso; eapply Hnew; eauto.
  - intros id r s' [[<- <-]|[_ Hin]]%lookup_insert_Some Hm Hs'; [|by eauto].
    rewrite Hstate in Hs'. simplify_eq. auto.
  - intros id r [[<- <-]|[Hne Hin]]%lookup_insert_Some Ho; [|by eapply Hst].
    case_decide; [done|]. split; [done|]. by intros ?.
  - intros i j r r' [[<- <-]|[_ Hi]]%lookup_insert_Some [[<- <-]|[_ Hj]]%lookup_insert_Some Ek Q Q';
      [done| | |by eauto]; exfalso; eapply Hqueue; eauto.
  - lia.
Qed.

(** A run that becomes [started], with its workflow. *)
Lemma sched_inv_started bound open d id r r' :
  sched_inv bound open d → (open = None ∨ open = Some id) → db_schedule_run d !! id = Some r →
  sr_id r' = sr_id r → sr_schedule_key r' = sr_schedule_key r →
  sr_local_occurrence r' = sr_local_occurrence r →
  sr_status r' = RunStarted → is_Some (sr_workflow_id r') →
  sched_inv bound None (d <| db_schedule_run := <[id := r']> (db_schedule_run d) |>).
Proof.
  intros [Hs Hr Hu Hc Hst Hq Hn] Hopen Hid E1 E2 E3 E4 E5.
  assert (is_manual r' = is_manual r) as E6 by (unfold is_manual; by rewrite E3).
  assert (∀ i x, <[id := r']> (db_schedule_run d) !! i = Some x → ∃ y,
    db_schedule_run d !! i = Some y ∧ sr_id x = sr_id y ∧ sr_schedule_key x = sr_schedule_key y
    ∧ sr_local_occurrence x = sr_local_occurrence y ∧ is_manual x = is_manual y
    ∧ (sr_status x = RunStarted ∨ sr_status x = sr_status y)) as Hold.
  { intros i x [[<- <-]|[_ Hx]]%lookup_insert_Some; [exists r|exists x]; naive_solver. }
  split; cbn; try done.
  - intros i x (y & Hy & -> & -> & -> & -> & _)%Hold. by apply Hr.
  - intros i j x x' (y & Hy & _ & -> & -> & _)%Hold (z & Hz & _ & -> & -> & _)%Hold. eauto.
  - intros i x s (y & Hy & _ & -> & -> & -> & _)%Hold. eauto.
  - intros i x [[<- <-]|[Hne Hx]]%lookup_insert_Some _; [by rewrite E4|].
    apply (Hst i); [done|]. destruct Hopen as [->| ->]; congruence.
  - intros i j x x' (y & Hy & _ & -> & _ & _ & Sx)%Hold (z & Hz & _ & -> & _ & _ & Sz)%Hold
      Ek Q Q'. apply (Hq i j y z); naive_solver congruence.
Qed.

Lemma sched_inv_state bound d key s s' :
  sched_inv bound None d → (∀ k b, bound = Some (k, b) → k = key) →
  db_schedule_state d !! key = Some s →
  ss_schedule_key s' = ss_schedule_key s → is_local_key (ss_next_local_occurrence s') = true →
  (∀ id r, db_schedule_run d !! id = Some r → sr_schedule_key r = key → is_manual r = false →
     key_lt (sr_local_occurrence r) (ss_next_local_occurrence s')) →
  sched_inv None None (d <| db_schedule_state := <[key := s']> (db_schedule_state d) |>).
Proof.
  intros [Hs Hr Hu Hc Hst Hq Hn] Hb Hstate Ek Hkey Hlt. split; cbn; try done.
  - intros k x [[<- <-]|[_ Hx]]%lookup_insert_Some; [|by apply Hs].
    split; [|done]. rewrite Ek. by apply Hs.
  - intros id r Hin. destruct (Hr id r Hin) as (? & ? & ? & ?).
    split_and!; [done|lia|lia| |done]. rewrite lookup_insert_is_Some'. auto.
  - intros id r x Hin Hm [[Heq <-]|[Hne Hx]]%lookup_insert_Some; [by eauto|].
    specialize (Hc id r x Hin Hm Hx). unfold cursor_of in Hc.
    destruct bound as [[k b]|]; [|done]. rewrite decide_False in Hc; [done|].
    rewrite (Hb k b eq_refl). done.
Qed.

(** A schedule that had no state row has no runs. *)
Lemma sched_inv_new_state d s :
  sched_ok d → db_schedule_state d !! ss_schedule_key s = None →
  is_local_key (ss_next_local_occurrence s) = true →
  sched_ok (d <| db_schedule_state := <[ss_schedule_key s := s]> (db_schedule_state d) |>).
Proof.
  intros [Hs Hr Hu Hc Hst Hq Hn] Hnone Hkey. split; cbn; try done.
  - intros k x [[<- <-]|[_ Hx]]%lookup_insert_Some; [done|by apply Hs].
  - intros id r Hin. destruct (Hr id r Hin) as (? & ? & ? & ?).
    split_and!; [done|lia|lia| |done]. rewrite lookup_insert_is_Some'. auto.
  - intros id r x Hin Hm [[Heq <-]|[Hne Hx]]%lookup_insert_Some; [|by eapply Hc].
    destruct (Hr id r Hin) as (_ & _ & [y Hy] & _). congruence.
Qed.
End invariant.

(** * Evolution *)

Lemma db_steps_run d0 d id r r' :
  db_steps d0 d → db_schedule_run d !! id = Some r →
  sr_id r' = sr_id r → sr_schedule_key r' = sr_schedule_key r →
  sr_local_occurrence r' = sr_local_occurrence r →
  (∀ w, sr_workflow_id r' = Some w → is_Some (db_workflow d !! w)) →
  db_schedule_run d0 !! id = None ∨ run_moves r r' →
  db_steps d0 (d <| db_schedule_run := <[id := r']> (db_schedule_run d) |>).
Proof.
  intros [Hok []] Hr E1 E2 E3 Hw Hm. split; [by eapply db_ok_run|].
  split; try done. destruct te_side as [Ep [Ss Sr]]. split; [done|]. split; [done|].
  intros i x Hx. cbn. destruct (Sr i x Hx) as (y & Hy & Hxy).
  destruct (decide (id = i)) as [<-|]; [|rewrite lookup_insert_ne by done; eauto].
  rewrite lookup_insert_eq. exists r'. split; [done|]. destruct Hm as [?|Hm]; [congruence|].
  simplify_eq. by etrans.
Qed.

Lemma db_steps_state d0 d key s s' :
  db_steps d0 d → db_schedule_state d !! key = Some s → state_kept s s' →
  (0 < ss_definition_version s')%Z →
  db_steps d0 (d <| db_schedule_state := <[key := s']> (db_schedule_state d) |>).
Proof.
  intros [Hok []] Hs Hm Hv. split; [by eapply db_ok_state; [| |apply Hm|]|].
  split; try done. destruct te_side as [Ep [Ss Sr]]. split; [done|]. split; [|done].
  intros k x Hx. cbn. destruct (Ss k x Hx) as (y & Hy & Hxy).
  destruct (decide (key = k)) as [<-|]; [|rewrite lookup_insert_ne by done; eauto].
  rewrite lookup_insert_eq. exists s'. split; [done|]. simplify_eq. by etrans.
Qed.

Lemma db_steps_new_state d0 d s :
  db_steps d0 d → db_schedule_state d !! ss_schedule_key s = None →
  (0 < ss_definition_version s)%Z →
  db_steps d0 (d <| db_schedule_state := <[ss_schedule_key s := s]> (db_schedule_state d) |>).
Proof.
  intros [Hok []] Hs Hv. split; [by apply db_ok_new_state|].
  split; try done. destruct te_side as [Ep [Ss Sr]]. split; [done|]. split; [|done].
  intros k x Hx. cbn. destruct (Ss k x Hx) as (y & Hy & Hxy).
  rewrite lookup_insert_ne by congruence. eauto.
Qed.

Lemma run_fresh_None d row :
  db_ok d → run_fresh d row → db_schedule_run d !! sr_id row = None.
Proof.
  intros Hok (Hid & _). apply eq_None_not_Some. intros [r Hr].
  destruct (ok_run _ Hok _ _ Hr) as (_ & ? & _). lia.
Qed.

(** The next id is not in use. *)
Lemma db_steps_next_run d0 d :
  db_steps d0 d → db_schedule_run d0 !! db_next_schedule_run d = None.
Proof.
  intros [Hok []]. apply eq_None_not_Some. intros [r Hr].
  destruct te_side as [_ [_ Sr]]. destruct (Sr _ _ Hr) as (r' & Hr' & _).
  destruct (ok_run _ Hok _ _ Hr') as (_ & ? & _). lia.
Qed.

Lemma db_steps_with_run d0 d row :
  db_steps d0 d → run_fresh d row → db_steps d0 (with_run d row).
Proof.
  intros [Hok []] Hf. pose proof (run_fresh_None _ _ Hok Hf) as Hnone.
  split; [by apply db_ok_with_run|].
  split; try done. destruct te_side as [Ep [Ss Sr]]. split; [done|]. split; [done|].
  intros i x Hx. cbn. destruct (Sr i x Hx) as (y & Hy & Hxy).
  rewrite lookup_insert_ne by congruence. eauto.
Qed.

Lemma wp_insert_schedule_run Ψ e d new_row (Φ : ScheduleRunId → Db → Prop) :
  (∀ kind constraint, Ψ (Database (DatabaseError kind constraint))) →
  (∀ id, sr_id (new_row id) = id) →
  (let row := new_row (db_next_schedule_run d) in
   run_fresh d row → Φ (sr_id row) (with_run d row)) →
  wp Ψ (insert_schedule_run new_row) e d Φ.
Proof.
  intros HΨ Hid HΦ i j. unfold insert_schedule_run. cbn -[existsb].
  destruct (existsb _ _) eqn:Ex; [apply HΨ|]. case_bool_decide as Hs; [apply HΨ|].
  destruct (references_missing d _) eqn:Em; [apply HΨ|].
  cbn. apply HΦ. refine (conj (Hid _) (conj _ (conj _ _))).
  - intros id r Hr Hk Ho. apply (existsb_rows_false _ _ Ex) in Hr.
    rewrite bool_decide_eq_false in Hr. by apply Hr.
  - by apply not_eq_None_Some.
  - intros w. by apply references_present.
Qed.

Lemma wp_update_schedule_state Ψ e d key p f (Φ : nat → Db → Prop) :
  (∀ kind constraint, Ψ (Database (DatabaseError kind constraint))) → Φ 0%nat d →
  (∀ s, db_schedule_state d !! key = Some s → p s = true →
     (0 < ss_definition_version (f s))%Z →
     Φ 1%nat (d <| db_schedule_state := <[key := f s]> (db_schedule_state d) |>)) →
  wp Ψ (update_schedule_state key p f) e d Φ.
Proof.
  intros HΨ H0 H1 i j. unfold update_schedule_state. cbn -[Z.leb].
  destruct (db_schedule_state d !! key) as [s|] eqn:Hs; [|done].
  destruct (p s) eqn:Hp; [|done]. destruct (_ <=? _)%Z eqn:Ev; [apply HΨ|].
  apply H1; [done..|]. by apply Z.leb_gt.
Qed.

(** * What a transaction does to the schedule tables *)

Section moves.
Context `{Chrono}.

(** The version of a schedule never decreases (S30); under one version its
    fingerprint is fixed and its cursor only advances (S27). *)
Definition state_moves (s s' : ScheduleStateRow) : Prop :=
  ss_schedule_key s' = ss_schedule_key s ∧
  ((ss_definition_version s < ss_definition_version s')%Z
   ∨ ss_definition_version s' = ss_definition_version s
     ∧ ss_definition_fingerprint s' = ss_definition_fingerprint s
     ∧ (ss_next_local_occurrence s' = ss_next_local_occurrence s
        ∨ key_lt (ss_next_local_occurrence s) (ss_next_local_occurrence s'))).

Definition sched_moves (d d' : Db) : Prop :=
  (∀ key s, db_schedule_state d !! key = Some s →
     ∃ s', db_schedule_state d' !! key = Some s' ∧ state_moves s s')
  ∧ ∀ id r, db_schedule_run d !! id = Some r →
      ∃ r', db_schedule_run d' !! id = Some r' ∧ run_moves r r'.

Lemma key_lt_trans a b c : key_lt a b → key_lt b c → key_lt a c.
Proof.
  intros [Hab Nab] [Hbc Nbc]. split; [by etrans|]. intros ->.
  apply Nbc. by apply (anti_symm String.le).
Qed.

#[export] Instance state_moves_preorder : PreOrder state_moves.
Proof.
  split; [by intros s; split; auto|].
  intros s1 s2 s3 [E1 M1] [E2 M2]. split; [congruence|].
  destruct M1 as [?|(V1 & F1 & C1)], M2 as [?|(V2 & F2 & C2)]; [left; lia..|].
  right. split_and!; [congruence..|].
  destruct C1 as [C1|C1], C2 as [C2|C2]; rewrite ?C1, ?C2 in *; auto.
  right. by eapply key_lt_trans.
Qed.

#[export] Instance sched_moves_preorder : PreOrder sched_moves.
Proof.
  split.
  - intros d. split; intros k x Hx; exists x; (split; [done|reflexivity]).
  - intros d1 d2 d3 [S1 R1] [S2 R2]. split.
    + intros key s (s' & (s'' & ? & ?)%S2 & ?)%S1. exists s''. split; [done|by etrans].
    + intros id r (r' & (r'' & ? & ?)%R2 & ?)%R1. exists r''. split; [done|by etrans].
Qed.

Lemma side_kept_moves d d' : side_kept d d' → sched_moves d d'.
Proof.
  intros Hk. split; [|by apply side_kept_schedules]. destruct Hk as [-> _].
  intros k x Hx. exists x. split; [done|reflexivity].
Qed.

Definition keeps_schedules (d d' : Db) : Prop :=
  ChronoLaws → sched_ok d → sched_ok d' ∧ sched_moves d d'.

(** What a transaction of the schedules guarantees. *)
Definition schedule_step (d d' : Db) : Prop := db_steps d d' ∧ keeps_schedules d d'.

Lemma schedule_step_refl d : db_ok d → schedule_step d d.
Proof. intros Hok. split; [by apply db_steps_refl|]. intros _ Hs. by split. Qed.

Lemma evolves_schedule_step d d' : evolves d d' → schedule_step d d'.
Proof.
  intros Hd. split; [by apply evolves_db_steps|]. destruct Hd as [_ []]. intros _ Hs.
  split; [by eapply sched_inv_kept|by apply side_kept_moves].
Qed.

(** ** Inside a transaction *)

(** The tables [d] of a transaction on schedule [key] that began with [d0]. *)
Definition mid (d0 : Db) (key : string) (bound : option (string * string))
    (open : option ScheduleRunId) (queued : bool) (d : Db) : Prop :=
  (db_steps d0 d ∧ ∀ id, open = Some id → db_schedule_run d0 !! id = None) ∧
  (ChronoLaws → sched_ok d0 → sched_inv bound open d ∧ (queued = false → none_queued key d)
     ∧ sched_moves d0 d ∧ db_schedule_state d = db_schedule_state d0).

Lemma mid_call d0 key bound open queued d d' :
  mid d0 key bound open queued d → evolves d d' → mid d0 key bound open queued d'.
Proof.
  intros [[Hd Ho] Hs] He.
  split; [split; [etrans; [exact Hd|by apply evolves_db_steps]|done]|].
  pose proof (te_side _ _ _ (proj2 He)) as Hk. intros HC H0. destruct (Hs HC H0) as (Hi & Hq & Hm & Es).
  split_and!.
  - by eapply sched_inv_kept.
  - intros Hf. eapply none_queued_kept; eauto.
  - etrans; [exact Hm|by apply side_kept_moves].
  - destruct Hk as [-> _]. done.
Qed.

Lemma mid_ok d0 key bound open queued d : mid d0 key bound open queued d → db_ok d.
Proof. by intros [[[? _] _] _]. Qed.

Lemma moves_insert d0 d row :
  sched_moves d0 d → db_schedule_run d !! sr_id row = None →
  sched_moves d0 (with_run d row).
Proof.
  intros Hm Hnone. etrans; [exact Hm|]. split.
  { intros k x Hx. exists x. split; [done|reflexivity]. }
  intros id r Hr. exists r. split; [|reflexivity]. cbn. rewrite lookup_insert_ne; [done|]. intros <-. congruence.
Qed.

Lemma mid_start d key : db_ok d → mid d key None None true d.
Proof.
  intros Hok. split; [split; [by apply db_steps_refl|done]|]. intros _ Hs.
  split_and!; [done|done|reflexivity|done].
Qed.

Lemma mid_insert d0 key bound queued d row :
  mid d0 key bound None queued d → run_fresh d row → sr_schedule_key row = key →
  (ChronoLaws → sched_ok d0 → is_manual row = true
     ∨ is_local_key (sr_local_occurrence row) = true
       ∧ ∃ cursor, bound = Some (key, cursor) ∧ key_lt (sr_local_occurrence row) cursor) →
  (sr_status row = RunQueued → queued = false) → sr_status row ≠ RunStarted →
  mid d0 key bound (if decide (sr_status row = RunMaterializing) then Some (sr_id row) else None)
    (queued || bool_decide (sr_status row = RunQueued)) (with_run d row).
Proof.
  intros [[Hd Ho] Hs] Hf Hkey Hocc Hq Hns.
  pose proof (run_fresh_None _ _ (proj1 Hd) Hf) as Hnone. split; [split|].
  { by apply db_steps_with_run. }
  { intros id. case_decide; [|done]. intros [= <-]. apply eq_None_not_Some. intros [r Hr].
    destruct Hd as [_ []]. destruct te_side as [_ [_ Hm]].
    destruct (Hm _ _ Hr) as (r' & Hr' & _). congruence. }
  destruct Hf as (Hid & Hnew & [s Hstate] & _). rewrite Hkey in Hnew, Hstate.
  intros HC H0. destruct (Hs HC H0) as (Hi & Hnq & Hm & Es). specialize (Hocc HC H0).
  split_and!.
  - apply (sched_inv_insert _ _ _ s); rewrite ?Hkey; [done|done|done|done| | | |done].
    + destruct Hocc as [?|[? _]]; [by left|by right].
    + intros Hman. destruct Hocc as [?|(_ & cursor & -> & Hlt)]; [congruence|].
      unfold cursor_of. by rewrite decide_True.
    + auto.
  - intros [Hf Hns']%orb_false_iff id r. cbn. rewrite bool_decide_eq_false in Hns'.
    intros [[<- <-]|[_ Hr]]%lookup_insert_Some; [done|]. by eapply Hnq.
  - by apply moves_insert.
  - done.
Qed.

Lemma mid_started d0 key bound open queued queued' d id r r' :
  mid d0 key bound open queued d → db_schedule_run d !! id = Some r →
  (open = Some id ∨ open = None ∧ sr_status r = RunQueued) →
  sr_id r' = sr_id r → sr_schedule_key r' = sr_schedule_key r →
  sr_local_occurrence r' = sr_local_occurrence r → sr_scheduled_for r' = sr_scheduled_for r →
  sr_materialized_at r' = sr_materialized_at r → sr_actor_id r' = sr_actor_id r →
  sr_created_at r' = sr_created_at r → sr_status r' = RunStarted →
  is_Some (sr_workflow_id r') →
  (∀ w, sr_workflow_id r' = Some w → is_Some (db_workflow d !! w)) →
  (ChronoLaws → sched_ok d0 → queued' = false →
     queued = false ∨ sr_status r = RunQueued ∧ sr_schedule_key r = key) →
  mid d0 key bound None queued' (d <| db_schedule_run := <[id := r']> (db_schedule_run d) |>).
Proof.
  intros [[Hd Ho] Hs] Hr Hopen E1 E2 E3 E4 E5 E6 E7 Est Ewf Hfk Hq.
  assert (db_schedule_run d0 !! id = None ∨ run_moves r r') as Hmoves.
  { destruct Hopen as [Hop|[_ Hqu]]; [left; auto|right]. unfold run_moves. auto 20. }
  split; [split; [by eapply db_steps_run|done]|].
  intros HC H0. destruct (Hs HC H0) as (Hi & Hnq & Hm & Es).
  split_and!; [..|done].
  - eapply sched_inv_started; eauto. naive_solver.
  - intros [Hf|[Hf Hk]]%(Hq HC H0) j x; cbn; rewrite lookup_insert_Some;
      intros [[<- <-]|[Hne Hx]] Hkx; rewrite ?Est; try done.
    + by eapply Hnq.
    + intros Hx'. apply Hne. apply (si_queued _ _ _ Hi id j r x); congruence.
  - destruct Hm as [Hms Hmr]. split; [done|]. intros j x Hx. cbn.
    destruct (Hmr j x Hx) as (y & Hy & Hxy). destruct (decide (id = j)) as [<-|Hne].
    + rewrite lookup_insert_eq. exists r'. split; [done|]. simplify_eq.
      destruct Hmoves as [?|]; [congruence|]. by etrans.
    + rewrite lookup_insert_ne by done. eauto.
Qed.
End moves.

(** * The transactions *)

(** The handlers of a registry are application code that works through the
    transactional API: they keep the constraints and the steps. *)
Definition registry_evolves `{Chrono} (registry : ScheduleRegistry) : Prop :=
  ∀ key definition run_id scheduled_for, registry !! key = Some definition →
    Evolves (rs_handler definition run_id scheduled_for).

(** A registry holds each schedule under its key, with its policy in range. *)
Definition registry_ok `{Chrono} (registry : ScheduleRegistry) : Prop :=
  ∀ key definition, registry !! key = Some definition →
    md_key (rs_metadata definition) = key ∧ policy_ok (md_misfire (rs_metadata definition)).

Lemma register_schedule_ok `{Chrono} registry schedule handler registry' :
  registry_ok registry → register_schedule registry schedule handler = Ok registry' →
  registry_ok registry'.
Proof.
  intros Hok. unfold register_schedule, validate_schedule, metadata.
  destruct (_ || _) eqn:Ev; [done|]. cbn [res_bind]. case_bool_decide; [done|].
  destruct (calendar_new _ _) as [calendar|]; [cbn [res_bind]|done].
  destruct (ok_or _ _) as [grace|]; [cbn [res_bind]|done]. intros [= <-] key definition.
  intros [[<- <-]|[_ Hd]]%lookup_insert_Some; [|by apply Hok]. cbn. split; [done|].
  rewrite !orb_false_iff in Ev. destruct Ev as [_ Ev].
  destruct (ds_misfire schedule); cbn; [done..|].
  unfold MAX_CATCH_UP_OCCURRENCES, u32_max in *. lia.
Qed.

Section transactions.
Context `{Chrono} (registry : ScheduleRegistry).
Hypothesis Hreg : registry_evolves registry.

Lemma wp_start_occurrence e d key run_id at_ (Φ : WorkflowId → Db → Prop) :
  db_ok d → (∀ id d', evolves d d' → Φ id d') →
  wp any_error (start_occurrence registry key run_id at_) e d Φ.
Proof.
  intros Hok HΦ. unfold start_occurrence. apply wp_bind, wp_lift; [done|].
  intros definition Hd. destruct (registry !! key) as [definition'|] eqn:Ek; simplify_eq/=.
  pose proof (Hreg key definition run_id at_ Ek) as Hh.
  eapply wp_mono; [by apply Hh|]. intros id d' Hd'. by apply HΦ.
Qed.

Lemma wp_select_schedule_runs Ψ e d p (Φ : list ScheduleRunRow → Db → Prop) :
  (∀ rows, (∀ r, r ∈ rows ↔ p r = true ∧ ∃ id, db_schedule_run d !! id = Some r) → Φ rows d) →
  wp Ψ (select_schedule_runs p) e d Φ.
Proof. intros HΦ i j. apply HΦ. intros r. apply elem_of_select. Qed.

Lemma max_key_spec l m :
  max_key l = Some m → m ∈ l ∧ ∀ k, k ∈ l → String.le k m.
Proof.
  revert m. induction l as [|k l IH]; intros m; [done|]. cbn [max_key].
  destruct (max_key l) as [m'|] eqn:E.
  - destruct (IH m' eq_refl) as [Hin Hall]. case_bool_decide as Hle; intros [= <-].
    + split; [by right|]. intros k' [->|Hk]%elem_of_cons; auto.
    + split; [by left|]. intros k' [->|Hk]%elem_of_cons; [reflexivity|].
      etrans; [by apply Hall|]. by destruct (total String.le k m').
  - intros [= <-]. destruct l; [|by cbn in E; repeat case_match].
    split; [set_solver|]. intros k' ->%list_elem_of_singleton. reflexivity.
Qed.

(** The floor bounds every materialized occurrence of the schedule. *)
Lemma wp_materialized_floor e d s (Φ : option NaiveDateTime → Db → Prop) :
  (∀ floor,
     (ChronoLaws → sched_ok d → ∀ id r, db_schedule_run d !! id = Some r →
        sr_schedule_key r = ss_schedule_key s → is_manual r = false →
        ∃ f, floor = Some f ∧ String.le (sr_local_occurrence r) (format_local f)
          ∧ whole_second f ∧ four_digit_year f) → Φ floor d) →
  wp any_error (materialized_floor s) e d Φ.
Proof.
  intros HΦ. unfold materialized_floor. apply wp_bind, wp_select_schedule_runs. intros runs Hruns.
  destruct (max_key _) as [text|] eqn:Em.
  - destruct (parse_local text) as [f|] eqn:Ep; [|by apply wp_fail]. apply wp_ret, HΦ.
    intros HC Hs id r Hr Hk Hm. exists f. split; [done|].
    apply max_key_spec in Em as [Hin Hall]. apply list_elem_of_fmap in Hin as (r' & -> & Hr').
    apply Hruns in Hr' as [Hp [id' Hr']]. apply andb_true_iff in Hp as [_ Hm'].
    destruct (si_run _ _ _ Hs _ _ Hr') as (_ & _ & _ & [Hman|Hlocal]).
    { rewrite Hman in Hm'. done. }
    destruct (parse_local_key _ _ Hlocal Ep) as (-> & ? & ?). split; [|done].
    apply Hall, list_elem_of_fmap_2, Hruns. split; [|by eauto].
    by rewrite Hk, Hm, bool_decide_true.
  - apply wp_ret, HΦ. intros HC Hs id r Hr Hk Hm. exfalso.
    assert (r ∈ runs) as Hin. { apply Hruns. rewrite Hk, Hm, bool_decide_true by done. eauto. }
    destruct runs as [|r0 runs]; [by apply elem_of_nil in Hin|]. cbn in Em. by case_match.
Qed.

Lemma wp_insert_state_if_absent e d row (Φ : bool → Db → Prop) :
  (∀ s, db_schedule_state d !! ss_schedule_key row = Some s → Φ false d) →
  (db_schedule_state d !! ss_schedule_key row = None → (0 < ss_definition_version row)%Z →
   Φ true (d <| db_schedule_state := <[ss_schedule_key row := row]> (db_schedule_state d) |>)) →
  wp any_error (insert_schedule_state_if_absent row) e d Φ.
Proof.
  intros H0 H1 i j. unfold insert_schedule_state_if_absent. cbn -[Z.leb].
  destruct (db_schedule_state d !! ss_schedule_key row) as [s|] eqn:E; [by eapply H0|].
  destruct (_ <=? _)%Z eqn:Ev; [done|]. apply H1; [done|]. by apply Z.leb_gt.
Qed.

Lemma moves_state d key s s' :
  db_schedule_state d !! key = Some s → state_moves s s' →
  sched_moves d (d <| db_schedule_state := <[key := s']> (db_schedule_state d) |>).
Proof.
  intros Hs Hm. split; cbn.
  - intros k x Hx. destruct (decide (key = k)) as [<-|].
    + rewrite lookup_insert_eq. exists s'. split; [done|]. congruence.
    + rewrite lookup_insert_ne by done. exists x. split; [done|reflexivity].
  - intros id r Hr. exists r. split; [done|reflexivity].
Qed.

(** T-S1. *)
Lemma reconcile_state_step key deployed_at e d :
  db_ok d →
  wp any_error (reconcile_state registry key deployed_at) e d (λ _ d', schedule_step d d').
Proof.
  intros Hok. unfold reconcile_state.
  apply wp_bind, wp_lift; [done|]. intros definition _.
  apply wp_bind. destruct (chrono_range deployed_at); [apply wp_ret|by apply wp_fail].
  apply wp_bind, wp_lift; [done|]. intros next Hnext.
  apply wp_bind, wp_insert_state_if_absent.
  - intros s Hs. cbn in Hs. apply wp_bind, wp_bind, wp_get, wp_ret.
    rewrite Hs. apply wp_bind. unfold first_or_not_found. apply wp_ret.
    destruct (md_version _ <? _)%Z eqn:Ev; [by apply wp_ret, schedule_step_refl|].
    destruct (_ =? md_version _)%Z eqn:Ev'.
    { case_bool_decide; [by apply wp_ret, schedule_step_refl|by apply wp_fail]. }
    apply wp_bind, wp_materialized_floor. intros floor Hfloor.
    apply wp_bind, wp_lift; [done|]. intros target Htarget.
    apply wp_bind, wp_update_schedule_state; [done|by apply wp_ret, schedule_step_refl|].
    intros s' Hs' _ Hpos. assert (s' = s) as -> by congruence. apply wp_ret. split.
    { eapply db_steps_state; [by apply db_steps_refl|done| |done]. unfold state_kept. cbn.
      split_and!; [done|done|lia|lia]. }
    intros HC Hsched.
    destruct (cursor_upgrade_ok _ _ _ _ Htarget) as [Hto Hlt].
    destruct (oc_ok_key _ _ Hto) as (Hl & Hk & Hkey). split.
    + eapply sched_inv_state; [exact Hsched|done|done|done| |].
      * cbn. rewrite Hl, <- Hk. done.
      * cbn. rewrite Hl. intros id r Hr Hrk Hm.
        destruct (si_state _ _ _ Hsched _ _ Hs) as [Hsk _].
        destruct (Hfloor HC Hsched id r Hr ltac:(congruence) Hm) as (f & -> & Hle & ? & ?).
        specialize (Hlt f eq_refl). destruct Hto as [_ ? ?].
        destruct (format_local_order f (oc_local_datetime target)) as [Hle' Hne]; try done.
        split; [by etrans|]. intros Heq. rewrite Heq in Hle.
        apply Hne. by apply (anti_symm String.le).
    + eapply moves_state; [done|]. split; [done|]. left. cbn. lia.
  - intros Hnone Hpos. cbn in Hnone. apply wp_bind, wp_bind, wp_get, wp_ret. cbn.
    rewrite lookup_insert_eq. apply wp_bind, wp_ret, wp_ret.
    split; [by apply (db_steps_new_state d d (new_schedule_state _ next deployed_at));
              [apply db_steps_refl|..]|]. intros HC Hsched.
    apply next_after_ok in Hnext. destruct (oc_ok_key _ _ Hnext) as (Hl & Hk & Hkey). split.
    + apply (sched_inv_new_state d (new_schedule_state _ next deployed_at)); [done|done|].
      cbn. by rewrite Hl, <- Hk.
    + split; cbn; [|by intros id r Hr; exists r; split; [done|reflexivity]].
      intros k x Hx. rewrite lookup_insert_ne by congruence. exists x. split; [done|reflexivity].
Qed.

(** An update of a state row that keeps its definition and its cursor. *)
Lemma schedule_step_state d key s s' :
  db_ok d → db_schedule_state d !! key = Some s →
  ss_schedule_key s' = ss_schedule_key s → ss_created_at s' = ss_created_at s →
  ss_definition_version s' = ss_definition_version s →
  ss_definition_fingerprint s' = ss_definition_fingerprint s →
  ss_next_local_occurrence s' = ss_next_local_occurrence s →
  schedule_step d (d <| db_schedule_state := <[key := s']> (db_schedule_state d) |>).
Proof.
  intros Hok Hs E1 E0 E2 E3 E4. split.
  { eapply db_steps_state; [by apply db_steps_refl|done| |].
    - split_and!; [done|done|lia|done].
    - rewrite E2. by apply (ok_state _ Hok key). }
  intros _ Hsched. destruct (si_state _ _ _ Hsched _ _ Hs) as [Hk Hlocal]. split.
  - eapply sched_inv_state; [exact Hsched|done|done|done|by rewrite E4|]. rewrite E4.
    intros id r Hr Hrk Hm. rewrite <- Hrk in Hs. by apply (si_cursor _ _ _ Hsched id r s).
  - eapply moves_state; [done|]. split; [done|]. right. auto.
Qed.

(** T-A8. *)
Lemma set_schedule_paused_step schedules key paused operator e d :
  db_ok d →
  wp any_error (set_schedule_paused schedules key paused operator) e d
    (λ _ d', schedule_step d d').
Proof.
  intros Hok. unfold set_schedule_paused, lock_schedule_state, find_schedule_state.
  apply wp_bind, wp_lift; [done|]. intros schedules' _.
  apply wp_bind, wp_lift; [done|]. intros definition _.
  apply wp_bind, wp_lift; [done|]. intros actor _.
  apply wp_bind, wp_bind, wp_bind, wp_get, wp_ret, wp_lift; [done|]. intros s _.
  apply wp_bind, wp_lift; [done|]. intros _ _.
  destruct (Bool.eqb _ _); [by apply wp_fail|].
  apply wp_bind, wp_now. intros i. apply wp_bind.
  assert (∀ n d', schedule_step d d' →
    wp any_error (do! ensure_fenced n in tx_ret (key, paused)) e d' (λ _ d', schedule_step d d'))
    as Hdone by (intros; apply wp_bind, wp_ensure_fenced; [done|]; intros; by apply wp_ret).
  pose proof (schedule_step_refl d Hok) as Hrefl.
  destruct paused; (apply wp_update_schedule_state; [done|apply Hdone; exact Hrefl|]);
    intros s' Hs' _ _; apply Hdone; by eapply schedule_step_state.
Qed.

(** The start of a run: the handler, then [mark_started]. *)
Lemma wp_mark_started e d0 key bound open queued queued' d run_id from workflow_id f
    (Φ : unit → Db → Prop) :
  mid d0 key bound open queued d → (open = Some run_id ∨ open = None ∧ from = RunQueued) →
  (∀ x, let x' := f x in run_identity (x' <| sr_reason := None |>)
                         = run_identity (x <| sr_reason := None |>)
                         ∧ sr_workflow_id x' = sr_workflow_id x) →
  (∀ r, db_schedule_run d !! run_id = Some r → sr_status r = from →
     ChronoLaws → sched_ok d0 → queued' = false →
     queued = false ∨ sr_status r = RunQueued ∧ sr_schedule_key r = key) →
  (∀ d', mid d0 key bound None queued' d' → Φ tt d') →
  wp any_error (mark_started run_id from workflow_id f) e d Φ.
Proof.
  intros Hmid Hopen Hf Hq HΦ. unfold mark_started.
  apply wp_bind, wp_update_schedule_run; [done|by apply wp_ensure_fenced|].
  intros r Hr Hst%bool_decide_eq_true Hfk. apply wp_ensure_fenced; [done|]. intros _. apply HΦ.
  set (x := r <| sr_status := RunStarted |> <| sr_workflow_id := Some workflow_id |>).
  fold x in Hfk. destruct (Hf x) as [Hi Hw]. fold x. set (x' := f x) in *.
  assert (sr_id x' = sr_id x ∧ sr_schedule_key x' = sr_schedule_key x
    ∧ sr_local_occurrence x' = sr_local_occurrence x ∧ sr_scheduled_for x' = sr_scheduled_for x
    ∧ sr_materialized_at x' = sr_materialized_at x ∧ sr_status x' = sr_status x
    ∧ sr_actor_id x' = sr_actor_id x ∧ sr_created_at x' = sr_created_at x)
    as (E1 & E2 & E3 & E4 & E5 & E6 & E7 & E8).
  { destruct x', x. cbn in Hi. injection Hi as -> -> -> -> -> -> -> ->. done. }
  eapply mid_started; [done|done| | | | | | | | | | | |by apply (Hq r)]; try done.
  - destruct Hopen as [->|[-> ->]]; [by left|by right].
  - rewrite Hw. by eexists.
Qed.

Lemma mid_final d0 key queued d : mid d0 key None None queued d → schedule_step d0 d.
Proof.
  intros [[Hd _] Hs]. split; [done|]. intros HC H0. by destruct (Hs HC H0) as (? & _ & ? & _).
Qed.

Lemma run_after d d' id r :
  evolves d d' → db_schedule_run d !! id = Some r →
  ∃ r', db_schedule_run d' !! id = Some r' ∧ run_identity r' = run_identity r.
Proof.
  intros [_ [? ? ? ? ? ? ? (_ & Hk & _)]] Hr. specialize (Hk id). rewrite Hr in Hk.
  destruct (db_schedule_run d' !! id) as [r'|]; [|done]. destruct Hk. eauto.
Qed.

(** The three writes that start a run: insert it, call the handler, mark it. *)
Lemma wp_run_started e d0 key bound queued d new_row at_ (Φ : ScheduleRunId → WorkflowId → Db → Prop) :
  mid d0 key bound None queued d →
  (∀ id, sr_id (new_row id) = id ∧ sr_schedule_key (new_row id) = key
         ∧ sr_status (new_row id) = RunMaterializing) →
  (∀ id, ChronoLaws → sched_ok d0 → is_manual (new_row id) = true
     ∨ is_local_key (sr_local_occurrence (new_row id)) = true
       ∧ ∃ cursor, bound = Some (key, cursor) ∧ key_lt (sr_local_occurrence (new_row id)) cursor) →
  (∀ run_id workflow_id d', mid d0 key bound None queued d' → Φ run_id workflow_id d') →
  ∀ {A} (k : ScheduleRunId → WorkflowId → Tx A) (Φ' : A → Db → Prop),
  (∀ run_id workflow_id d', Φ run_id workflow_id d' →
     wp any_error (k run_id workflow_id) e d' Φ') →
  wp any_error
    (let! run_id := insert_schedule_run new_row in
     let! workflow_id := start_occurrence registry key run_id at_ in
     do! mark_started run_id RunMaterializing workflow_id (λ r, r) in
     k run_id workflow_id) e d Φ'.
Proof.
  intros Hmid Hrow Hocc HΦ A k Φ' Hk.
  apply wp_bind, wp_insert_schedule_run; [done|apply Hrow|]. intros row Hnew.
  destruct (Hrow (db_next_schedule_run d)) as (_ & Hkey & Hst).
  specialize (Hocc (db_next_schedule_run d)). fold row in Hkey, Hst, Hocc. clearbody row.
  pose proof (mid_insert d0 key bound queued d row Hmid Hnew Hkey Hocc) as Hins.
  rewrite Hst in Hins. specialize (Hins ltac:(done) ltac:(done)). cbn in Hins.
  rewrite orb_false_r in Hins.
  apply wp_bind, wp_start_occurrence; [by eapply mid_ok|]. intros workflow_id d1 He.
  apply wp_bind, (wp_mark_started _ d0 key bound (Some (sr_id row)) queued queued);
    [by eapply mid_call|by left|done|auto|].
  intros d2 Hmid2. by apply Hk, HΦ.
Qed.

Lemma manual_key scheduled_for r :
  sr_local_occurrence r = MANUAL_OCCURRENCE_PREFIX +:+ fmt scheduled_for → is_manual r = true.
Proof. unfold is_manual. intros ->. apply starts_with_app. Qed.

(** T-A9. *)
Lemma run_schedule_now_step schedules key operator e d :
  (∀ registry', schedules = Some registry' → registry' = registry) → db_ok d →
  wp any_error (run_schedule_now schedules key operator) e d (λ _ d', schedule_step d d').
Proof.
  intros Hsame Hok. unfold run_schedule_now, lock_schedule_state, find_schedule_state.
  apply wp_bind, wp_lift; [done|]. intros registry' Hs.
  assert (registry' = registry) as ->.
  { apply Hsame. unfold schedule_registry in Hs. by destruct schedules; simplify_eq/=. }
  apply wp_bind, wp_lift; [done|]. intros definition _.
  apply wp_bind, wp_lift; [done|]. intros actor _.
  apply wp_bind, wp_bind, wp_bind, wp_get, wp_ret, wp_lift; [done|]. intros s _.
  apply wp_bind, wp_lift; [done|]. intros _ _. apply wp_bind.
  match goal with |- wp _ _ _ _ ?Φ => assert (∀ active, Φ active d) as Hnow end.
  2: { unfold active_workflow_count. case_match; [apply wp_ret, Hnow|..];
         apply wp_bind, wp_get, wp_bind, wp_select_workflows; intros rows _; apply wp_ret, Hnow. }
  intros active. destruct (_ && _); [by apply wp_fail|].
  apply wp_bind, wp_now. intros i. apply wp_bind, wp_select_schedule_runs. intros runs _.
  apply (wp_run_started _ d key None true d _ _ (λ _ _ d', mid d key None None true d'));
    [by apply mid_start|done| |done|].
  { intros id _ _. left. by eapply manual_key. }
  intros run_id workflow_id d1 Hmid. apply wp_bind.
  eapply (wp_mono _ _ _ _ (λ _ d', evolves d1 d')).
  { apply append_operator_event_evolves. by eapply mid_ok. }
  intros _ d2 He. apply wp_ret. eapply mid_final, mid_call; eauto.
Qed.

(** ** T-S2: the tick *)

Lemma mid_queued d0 key bound open d :
  mid d0 key bound open true d → none_queued key d → mid d0 key bound open false d.
Proof.
  intros [Hd Hs] Hn. split; [done|]. intros HC H0.
  destruct (Hs HC H0) as (? & _ & ? & ?). done.
Qed.

(** Planning moves the bound from the cursor to the next one. *)
Lemma mid_bound d0 key queued d s cursor :
  mid d0 key None None queued d → db_schedule_state d0 !! key = Some s →
  (ChronoLaws → sched_ok d0 →
     cursor = ss_next_local_occurrence s ∨ key_lt (ss_next_local_occurrence s) cursor) →
  mid d0 key (Some (key, cursor)) None queued d.
Proof.
  intros [Hd Hs] Hstate Hc. split; [done|]. intros HC H0.
  destruct (Hs HC H0) as (Hi & Hq & Hm & Es). split_and!; try done.
  destruct Hi as [I1 I2 I3 I4 I5 I6]. split; try done.
  intros id r s' Hr Hman Hs'. specialize (I4 id r s' Hr Hman Hs'). cbn in *.
  case_decide as Hk; [|done]. rewrite Es, Hk in Hs'. simplify_eq.
  destruct (Hc HC H0) as [->|Hlt]; [done|]. by eapply key_lt_trans.
Qed.

Lemma wp_insert_recorded e d0 key cursor queued d new_row (Φ : ScheduleRunId → Db → Prop) :
  mid d0 key (Some (key, cursor)) None queued d →
  (∀ id, sr_id (new_row id) = id ∧ sr_schedule_key (new_row id) = key
         ∧ sr_status (new_row id) ≠ RunMaterializing ∧ sr_status (new_row id) ≠ RunStarted
         ∧ (sr_status (new_row id) = RunQueued → queued = false)) →
  (∀ id, ChronoLaws → sched_ok d0 → is_local_key (sr_local_occurrence (new_row id)) = true
         ∧ key_lt (sr_local_occurrence (new_row id)) cursor) →
  (∀ id id' d', mid d0 key (Some (key, cursor)) None
      (queued || bool_decide (sr_status (new_row id') = RunQueued)) d' → Φ id d') →
  wp any_error (insert_schedule_run new_row) e d Φ.
Proof.
  intros Hmid Hrow Hocc HΦ. apply wp_insert_schedule_run; [done|apply Hrow|]. intros row Hnew.
  destruct (Hrow (db_next_schedule_run d)) as (_ & Hkey & Hst & Hst' & Hq).
  specialize (Hocc (db_next_schedule_run d)). specialize (HΦ (sr_id row) (db_next_schedule_run d)).
  fold row in Hkey, Hst, Hst', Hq, Hocc, HΦ. clearbody row.
  pose proof (mid_insert d0 key _ queued d row Hmid Hnew Hkey) as Hins.
  rewrite decide_False in Hins by done. apply HΦ, Hins; [|done|done].
  intros HC H0. right. destruct (Hocc HC H0). split; [done|]. by exists cursor.
Qed.

Lemma wp_materialize_occurrence e d0 key cursor overlap now oc outcome active queued report d :
  mid d0 key (Some (key, cursor)) None queued d →
  (ChronoLaws → sched_ok d0 → is_local_key (oc_local_occurrence oc) = true
     ∧ key_lt (oc_local_occurrence oc) cursor) →
  wp any_error
    (materialize_occurrence registry key overlap now oc outcome (active, queued, report)) e d
    (λ s d', mid d0 key (Some (key, cursor)) None s.1.2 d'
       ∧ rp_inspected s.2 = rp_inspected report).
Proof.
  intros Hmid Hocc. unfold materialize_occurrence.
  destruct (overlap_outcome outcome overlap active queued) as [[|reason|]|] eqn:Eo.
  - apply (wp_run_started _ d0 key (Some (key, cursor)) queued d _ _
      (λ _ _ d', mid d0 key (Some (key, cursor)) None queued d')); [done|done| |done|].
    + intros id HC H0. right. destruct (Hocc HC H0). split; [done|]. by exists cursor.
    + intros run_id workflow_id d' Hd'. by apply wp_ret.
  - apply wp_bind, (wp_insert_recorded _ d0 key cursor queued); [done|done|by intros id; apply Hocc|].
    intros id id' d' Hd'. cbn in Hd'. rewrite orb_false_r in Hd'. by apply wp_ret.
  - apply wp_bind, (wp_insert_recorded _ d0 key cursor queued); [done|done|by intros id; apply Hocc|].
    intros id id' d' Hd'. cbn in Hd'. rewrite orb_false_r in Hd'. by apply wp_ret.
  - assert (queued = false) as Hq.
    { destruct outcome, overlap; cbn in Eo; try done; repeat case_match; done. }
    apply wp_bind, (wp_insert_recorded _ d0 key cursor queued); [done|done|by intros id; apply Hocc|].
    intros id id' d' Hd'. cbn in Hd'. rewrite orb_true_r in Hd'. by apply wp_ret.
Qed.

Lemma wp_materialize_due e d0 key cursor overlap now due active queued report d :
  mid d0 key (Some (key, cursor)) None queued d →
  (ChronoLaws → sched_ok d0 → ∀ x, x ∈ due → is_local_key (oc_local_occurrence x.1) = true
     ∧ key_lt (oc_local_occurrence x.1) cursor) →
  wp any_error (materialize_due registry key overlap now due (active, queued, report)) e d
    (λ s d', mid d0 key (Some (key, cursor)) None s.1.2 d'
       ∧ rp_inspected s.2 = rp_inspected report).
Proof.
  revert d active queued report. induction due as [|[oc outcome] due IH];
    intros d active queued report Hmid Hocc; cbn [materialize_due]; [by apply wp_ret|].
  apply wp_bind. eapply wp_mono.
  { apply (wp_materialize_occurrence _ d0 key cursor); [done|].
    intros HC H0. apply (Hocc HC H0 (oc, outcome)). by left. }
  intros [[active' queued'] report'] d' [Hmid' Hrep]. cbn in Hmid', Hrep.
  eapply wp_mono; [apply IH; [done|]|].
  - intros HC H0 x Hx. apply (Hocc HC H0). by right.
  - intros s d'' [? ?]. split; [done|congruence].
Qed.

Lemma wp_promote_queued e d0 key d (Φ : unit → Db → Prop) :
  mid d0 key None None true d →
  (∀ d', mid d0 key None None false d' → Φ tt d') →
  wp any_error (promote_queued registry key) e d Φ.
Proof.
  intros Hmid HΦ. unfold promote_queued. apply wp_bind, wp_select_schedule_runs. intros runs Hruns.
  apply wp_bind, wp_first_or_not_found; [done|]. intros run Hrun.
  assert (run ∈ runs) as Hin. { apply head_Some in Hrun as [l El].
    apply (elem_of_sort_by run_order). rewrite El. by left. }
  apply Hruns in Hin as [Hq [id Hid]]. unfold queued_run in Hq.
  apply bool_decide_eq_true in Hq as [Hkey Hst].
  apply wp_bind, wp_start_occurrence; [by eapply mid_ok|]. intros workflow_id d1 He.
  apply (wp_mark_started _ d0 key None None true false); [by eapply mid_call|by right|done| |done].
  intros r Hr Hr' HC H0 _. right. split; [done|].
  destruct (proj2 Hmid HC H0) as (Hi & _). destruct (si_run _ _ _ Hi _ _ Hid) as (Hsr & _).
  rewrite Hsr in Hr. destruct (run_after _ _ _ _ He Hid) as (r1 & Hr1 & Hid1%run_identity_eq).
  naive_solver.
Qed.

(** What the plan of a tick promises: every due occurrence is before the next
    cursor, which is after the present one unless nothing is due. *)
Lemma plan_ok calendar key s cursor oc policy grace now due next outcomes :
  ChronoLaws → sched_ok s → ∀ row, db_schedule_state s !! key = Some row →
  cursor_load key (ss_next_local_occurrence row) = Ok cursor →
  occurrence_at_local calendar cursor = Ok oc →
  oc_local_occurrence oc = ss_next_local_occurrence row →
  plan_due_chunk calendar oc policy grace now = Ok (due, next, outcomes) →
  is_local_key (oc_local_occurrence next) = true
  ∧ oc_local_occurrence next = format_local (oc_local next)
  ∧ (due = [] → next = oc)
  ∧ (due ≠ [] → key_lt (ss_next_local_occurrence row) (oc_local_occurrence next))
  ∧ ∀ o, o ∈ due → is_local_key (oc_local_occurrence o) = true
      ∧ key_lt (oc_local_occurrence o) (oc_local_occurrence next).
Proof.
  intros HC Hs row Hrow Hload Hoc Heq Hplan.
  destruct (si_state _ _ _ Hs _ _ Hrow) as [_ Hkey]. unfold cursor_load in Hload.
  destruct (parse_local _) as [local|] eqn:Ep; simplify_eq.
  destruct (occurrence_at_local_ok _ _ _ _ Hkey Ep Hoc) as [Hok Hl].
  unfold plan_due_chunk in Hplan.
  destruct (collect_due _ calendar oc now) as [[due' next']|] eqn:Ec; [cbn [res_bind] in Hplan|done].
  destruct (if (oc_due_at next' <=? now)%Z then _ else _); [cbn [res_bind] in Hplan|done].
  simplify_eq. pose proof (collect_due_ok _ _ _ _ _ _ Ec Hok) as (Hn & Hle & Hne & Hall).
  destruct (oc_ok_key _ _ Hn) as (Hln & Hk & Hkn). split_and!.
  - done.
  - by rewrite Hln.
  - intros ->. revert Ec. destruct (Z.to_nat MAX_DUE_OCCURRENCES_PER_TICK); cbn [collect_due].
    + case_match; by intros [= <-].
    + case_match; [|by intros [= <-]]. repeat (destruct (next_after_local _ _); [|done]).
      cbn [res_bind]. by destruct (collect_due _ _ _ _).
  - intros Hd. rewrite <- Heq. apply (oc_ok_order calendar); [done|done|by apply Hne].
  - intros o Ho. destruct (Hall o Ho) as [Ho' ?]. split; [by apply (oc_ok_key calendar)|].
    by apply (oc_ok_order calendar).
Qed.

Lemma wp_tick_start e d key md 
    (Φ : Z * bool * ScheduleMaterializationReport → Db → Prop) active queued :
  db_ok d → (queued = false → none_queued key d) →
  (∀ s d', mid d key None None s.1.2 d' → rp_inspected s.2 = 0%Z → Φ s d') →
  wp any_error
    (if bool_decide (md_overlap md = QueueOne) && (active =? 0)%Z && queued
     then do! promote_queued registry key in
          tx_ret (1%Z, false, count_started (empty_report key))
     else tx_ret (active, queued, empty_report key)) e d Φ.
Proof.
  intros Hok Hq HΦ. destruct (_ && queued).
  - apply wp_bind, (wp_promote_queued _ d); [by apply mid_start|]. intros d' Hd'.
    by apply wp_ret, HΦ.
  - apply wp_ret, HΦ; [|done]. cbn. destruct queued; [by apply mid_start|].
    apply mid_queued; [by apply mid_start|auto].
Qed.

(** The cursor of a tick that recorded its occurrences. *)
Lemma tick_advances d0 d key queued row row' md next now :
  mid d0 key (Some (key, oc_local_occurrence next)) None queued d →
  db_schedule_state d0 !! key = Some row → db_schedule_state d !! key = Some row' →
  (ChronoLaws → sched_ok d0 → is_local_key (oc_local_occurrence next) = true
     ∧ oc_local_occurrence next = format_local (oc_local next)
     ∧ key_lt (ss_next_local_occurrence row) (oc_local_occurrence next)) →
  ss_definition_version row' = md_version md → ss_definition_fingerprint row' = md_fingerprint md →
  schedule_step d0 (d <| db_schedule_state :=
    <[key := advanced_state next (oc_local next) now row']> (db_schedule_state d) |>).
Proof.
  intros [[Hd _] Hs] Hrow Hrow' Hp Hv Hf. split.
  { eapply db_steps_state; [done|exact Hrow'| |].
    - by split_and!.
    - cbn. by destruct (ok_state _ (proj1 Hd) key row'). }
  intros HC H0. destruct (Hs HC H0) as (Hi & _ & Hm & Es).
  destruct (Hp HC H0) as (Hkey & Hfmt & Hlt). rewrite Es, Hrow in Hrow'. simplify_eq.
  assert (db_schedule_state d !! key = Some row') as Hrow' by (by rewrite Es). split.
  - eapply sched_inv_state; [exact Hi|by intros ? ? [= <- <-]|done|done| |]; cbn; rewrite <- Hfmt.
    + done.
    + intros id r Hr Hk Hman. pose proof (si_cursor _ _ _ Hi id r row' Hr Hman) as Hc.
      rewrite Hk in Hc. specialize (Hc Hrow'). cbn in Hc. by rewrite decide_True in Hc.
  - etrans; [exact Hm|]. eapply moves_state; [done|]. split; [done|]. right. cbn.
    rewrite <- Hfmt. auto.
Qed.

(** T-S2. *)
Lemma materialize_tick_step key md calendar now e d :
  db_ok d →
  wp any_error (materialize_tick registry key md calendar now) e d (λ _ d', schedule_step d d').
Proof.
  intros Hok. unfold materialize_tick, find_schedule_state.
  apply wp_bind, wp_bind, wp_get, wp_ret, wp_bind, wp_first_or_not_found; [done|].
  intros row Hrow. destruct (_ || _); [by apply wp_fail|].
  destruct (bool_decide (is_Some (ss_paused_at row))); [by apply wp_ret, schedule_step_refl|].
  unfold active_workflow_count, queued_run_exists.
  apply wp_bind, wp_bind, wp_get, wp_bind, wp_select_workflows. intros wfs _. apply wp_ret.
  apply wp_bind, wp_bind, wp_select_schedule_runs. intros runs Hruns. apply wp_ret.
  apply wp_bind, wp_tick_start; [done| |].
  { intros Hn id r Hr Hkey Hst. assert (r ∈ runs) as Hin.
    { apply Hruns. unfold queued_run. rewrite bool_decide_true by done. eauto. }
    destruct runs; [by apply elem_of_nil in Hin|]. by apply Z.ltb_ge in Hn; cbn in Hn; lia. }
  intros [[active queued] report] d1 Hmid Hzero. cbn in Hmid, Hzero.
  apply wp_bind, wp_lift; [done|]. intros cursor Hload.
  apply wp_bind, wp_lift; [done|]. intros oc Hoc.
  destruct (_ || _) eqn:Edis; [by apply wp_fail|].
  apply orb_false_iff in Edis as [Heq%bool_decide_eq_false%dec_stable _].
  apply wp_bind, wp_lift; [done|]. intros [[due next] outcomes] Hplan.
  apply wp_bind, wp_lift; [done|]. intros inspected Hinsp.
  assert (ChronoLaws → sched_ok d → _) as Hp
    by (intros HC Hs; exact (plan_ok _ _ _ _ _ _ _ _ _ _ _ HC Hs _ Hrow Hload Hoc Heq Hplan)).
  destruct (decide (due = [])) as [->|Hne].
  { cbn in Hinsp. injection Hinsp as <-. cbn. apply wp_bind, wp_ret. cbn. apply wp_ret.
    by eapply mid_final. }
  apply wp_bind. eapply wp_mono.
  { apply (wp_materialize_due _ d key (oc_local_occurrence next)).
    - apply (mid_bound _ _ _ _ row); [done|done|]. intros HC Hs. right. by apply Hp.
    - intros HC Hs [o outcome] Hin. apply (Hp HC Hs). cbn.
      by apply elem_of_zip_l in Hin. }
  intros [[active' queued'] report'] d2 [Hmid2 Hrep]. cbn in Hmid2, Hrep.
  assert (rp_inspected report' ≠ 0%Z) as Hnz.
  { rewrite Hrep. cbn. assert (inspected = Z.of_nat (length due)) as ->.
    { unfold ok_or, u32_try_from in Hinsp. by destruct (in_u32 _); simplify_eq. }
    destruct due; [done|cbn; lia]. }
  cbn. rewrite (proj2 (Z.eqb_neq _ _) Hnz).
  apply wp_bind, wp_lift; [done|]. intros cursor' Hadv.
  assert (cursor' = oc_local next) as ->.
  { unfold advance_to in Hadv. by case_match; simplify_eq. }
  apply wp_bind, wp_update_schedule_state; [done|by apply wp_bind, wp_ensure_fenced|].
  intros row' Hrow' Hpin _. apply wp_bind, wp_ensure_fenced; [done|]. intros _. apply wp_ret.
  apply bool_decide_eq_true in Hpin as (Hv & Hf & Hc).
  eapply tick_advances; [done|exact Hrow|done| |done|done].
  intros HC Hs. destruct (Hp HC Hs) as (? & ? & _ & ? & _). auto.
Qed.
End transactions.
