(* ===== verification/ScheduleTicks.v ===== *)
(** What one tick of a schedule writes (T-S2): a run row for every due
    occurrence of the chunk it planned, in order, with the outcome that the
    misfire and overlap policies give it, and the cursor past them. *)
From stdpp Require Import base gmap list strings.
From Stdlib Require Import ZArith Lia.
From S2P Require Import Prelude.
From S2P Require Import Errors.
From S2P Require Import Status.
From S2P Require Import Rows.
From S2P Require Import Database.
From S2P Require Import TxLogic.
From S2P Require Import Evolution.
From S2P Require Import Calendar.
From S2P Require Import Schedules.
From S2P Require Import SchedulesSteps.

(** * The reference *)

(** The status and reason of a run, by its outcome. *)
Definition outcome_row (outcome : option OccurrenceOutcome) : ScheduleRunStatus * option string :=
  match outcome with
  | None => (RunQueued, Some "overlap_queue_one")
  | Some OcStart => (RunStarted, None)
  | Some (OcSkip reason) => (RunSkipped, Some reason)
  | Some OcCoalesce => (RunCoalesced, Some "run_latest")
  end.

(** The overlap policy along a chunk: a start makes the schedule active, a
    queued run fills the queue. *)
Fixpoint overlap_rows (overlap : OverlapPolicy) (active : Z) (queued : bool)
    (outcomes : list OccurrenceOutcome) : list (ScheduleRunStatus * option string) :=
  match outcomes with
  | [] => []
  | outcome :: rest =>
      let resolution := overlap_outcome outcome overlap active queued in
      outcome_row resolution ::
        match resolution with
        | None => overlap_rows overlap active true rest
        | Some OcStart => overlap_rows overlap (i64_saturating_add active 1) queued rest
        | Some _ => overlap_rows overlap active queued rest
        end
  end.

(** The number of active workflows of the schedule and whether a run is
    queued, once a tick has promoted the queued run of an idle schedule. *)
Definition active_count (d : Db) (key : string) : Z :=
  Z.of_nat (length (filter (λ r, active_workflow (db_schedule_run d) key r = true)
                      (snd <$> map_to_list (db_workflow d)))).

Definition has_queued (d : Db) (key : string) : bool :=
  (0 <? Z.of_nat (length (filter (λ r, queued_run key r = true)
                            (snd <$> map_to_list (db_schedule_run d)))))%Z.

Definition tick_start (d : Db) (key : string) (state : ScheduleStateRow)
    (overlap : OverlapPolicy) : Z * bool :=
  let active := active_count d (ss_schedule_key state) in
  if bool_decide (overlap = QueueOne) && (active =? 0)%Z && has_queued d key
  then (1%Z, false) else (active, has_queued d key).

Definition is_started (row : ScheduleRunStatus * option string) : bool :=
  bool_decide (row.1 = RunStarted).

(** Unless its runs may overlap, an active schedule starts nothing, and an
    idle one starts one run of a chunk at most. *)
Lemma overlap_rows_active overlap active queued outcomes :
  overlap ≠ Allow → (0 < active)%Z →
  Forall (λ row, is_started row = false) (overlap_rows overlap active queued outcomes).
Proof.
  intros Ho Ha. revert queued. induction outcomes as [|outcome rest IH]; intros queued; [done|].
  cbn [overlap_rows]. assert ((0 <? active)%Z = true) as E by lia.
  destruct outcome, overlap; cbn; rewrite ?E; try done; try (by constructor);
    destruct queued; by constructor.
Qed.

Lemma overlap_rows_start_once overlap active queued outcomes :
  overlap ≠ Allow → (0 ≤ active)%Z →
  (length (filter (λ row, is_started row = true) (overlap_rows overlap active queued outcomes))
   ≤ if decide (0 < active)%Z then 0 else 1)%nat.
Proof.
  intros Ho Ha. case_decide as Hact.
  { pose proof (overlap_rows_active overlap active queued outcomes Ho Hact) as Hn.
    induction Hn as [|row l Hrow _ IH]; [done|]. rewrite filter_cons_False; [done|]. congruence. }
  assert (active = 0)%Z as -> by lia. clear Ha Hact. revert queued.
  induction outcomes as [|outcome rest IH]; intros queued; [cbn; lia|]. cbn [overlap_rows].
  destruct outcome as [|reason|]; cbn [overlap_outcome outcome_row]; cycle 1.
  1,2: destruct overlap; [done|..]; rewrite filter_cons_False by done; apply IH.
  pose proof (overlap_rows_active overlap 1 queued rest Ho eq_refl) as Hn.
  assert (length (filter (λ row, is_started row = true) (overlap_rows overlap 1 queued rest)) = 0%nat)
    as Hz.
  { induction Hn as [|row l Hrow _ IHn]; [done|]. rewrite filter_cons_False; [done|]. congruence. }
  change (i64_saturating_add 0 1) with 1%Z.
  destruct overlap; [done|..]; cbn [overlap_outcome]; change (0 <? 0)%Z with false;
    cbn [outcome_row]; rewrite filter_cons_True by done; cbn [length]; rewrite Hz; lia.
Qed.

(** * The rows of a tick *)

Section ticks.
Context `{Chrono} (registry : ScheduleRegistry).
Hypothesis Hreg : registry_evolves registry.
Context (key : string) (now : DbMillis).

Definition run_matches (row : ScheduleOccurrence * (ScheduleRunStatus * option string))
    (r : ScheduleRunRow) : Prop :=
  sr_schedule_key r = key ∧ sr_local_occurrence r = oc_local_occurrence row.1
  ∧ sr_scheduled_for r = oc_scheduled_for row.1 ∧ sr_materialized_at r = now
  ∧ sr_status r = row.2.1 ∧ sr_reason r = row.2.2
  ∧ (sr_status r = RunStarted → is_Some (sr_workflow_id r)).

(** The runs from id [base] on are those of [rows], in order. *)
Definition tick_rows (base : Z)
    (rows : list (ScheduleOccurrence * (ScheduleRunStatus * option string))) (d : Db) : Prop :=
  db_next_schedule_run d = (base + Z.of_nat (length rows))%Z
  ∧ ∀ i row, rows !! i = Some row →
      ∃ r, db_schedule_run d !! (base + Z.of_nat i)%Z = Some r ∧ run_matches row r.

Lemma run_matches_kept row r r' :
  run_identity r' = run_identity r → (is_Some (sr_workflow_id r) → is_Some (sr_workflow_id r')) →
  run_matches row r → run_matches row r'.
Proof.
  destruct r, r'. unfold run_matches. cbn. intros [= -> -> -> -> -> -> -> -> ->]. naive_solver.
Qed.

Lemma tick_rows_kept base rows d d' :
  side_kept d d' → tick_rows base rows d → tick_rows base rows d'.
Proof.
  intros (_ & Hk & En & _) [Hn Hr]. split; [by rewrite En|].
  intros i row (r & Hi & Hm)%Hr. specialize (Hk (base + Z.of_nat i)%Z). rewrite Hi in Hk.
  destruct (db_schedule_run d' !! _) as [r'|]; [|done]. destruct Hk as [Hid Hw].
  exists r'. split; [done|]. by eapply run_matches_kept.
Qed.

Lemma tick_rows_insert base rows d row r :
  tick_rows base rows d → sr_id r = db_next_schedule_run d → run_matches row r →
  tick_rows base (rows ++ [row]) (with_run d r).
Proof.
  intros [Hn Hr] Hid Hm. split; [cbn; rewrite Hn, length_app; cbn; lia|].
  intros i x [Hx|[Hle Hx]]%lookup_app_Some.
  - destruct (Hr i x Hx) as (r' & Hr' & Hm'). exists r'. split; [|done]. cbn.
    apply lookup_lt_Some in Hx. rewrite lookup_insert_ne; [done|]. lia.
  - apply list_lookup_singleton_Some in Hx as [Hi <-]. exists r. split; [|done]. cbn.
    rewrite lookup_insert_Some. left. split; [lia|done].
Qed.

(** The update of the last row. *)
Lemma tick_rows_update base rows d row row' r' id :
  tick_rows base (rows ++ [row]) d → id = (base + Z.of_nat (length rows))%Z →
  run_matches row' r' →
  tick_rows base (rows ++ [row'])
    (d <| db_schedule_run := <[id := r']> (db_schedule_run d) |>).
Proof.
  intros [Hn Hr] -> Hm. split; [cbn; rewrite Hn, !length_app; done|].
  intros i x [Hx|[Hle Hx]]%lookup_app_Some; cbn.
  - destruct (Hr i x) as (y & Hy & Hym); [by apply lookup_app_l_Some|]. exists y.
    apply lookup_lt_Some in Hx. split; [|done]. rewrite lookup_insert_ne; [done|lia].
  - apply list_lookup_singleton_Some in Hx as [Hi <-]. exists r'. split; [|done].
    rewrite lookup_insert_Some. left. split; [lia|done].
Qed.

(** What a tick carries: the steps from the start, the runs so far, and that
    no state row moved. *)
Definition ticking (d0 : Db)
    (rows : list (ScheduleOccurrence * (ScheduleRunStatus * option string))) (d : Db) : Prop :=
  db_steps d0 d ∧ tick_rows (db_next_schedule_run d0) rows d
  ∧ db_schedule_state d = db_schedule_state d0.

Lemma ticking_call d0 rows d d' : ticking d0 rows d → evolves d d' → ticking d0 rows d'.
Proof.
  intros (Hd & Hr & Es) He. pose proof (te_side _ _ _ (proj2 He)) as Hk. split_and!.
  - etrans; [exact Hd|by apply evolves_db_steps].
  - by eapply tick_rows_kept.
  - destruct Hk as [-> _]. done.
Qed.

Lemma ticking_insert d0 rows d oc status reason (Φ : ScheduleRunId → Db → Prop) e :
  ticking d0 rows d → status ≠ RunStarted →
  (∀ d', ticking d0 (rows ++ [(oc, (status, reason))]) d' → Φ (db_next_schedule_run d) d') →
  wp any_error (insert_schedule_run
    (new_run key (oc_local_occurrence oc) (oc_scheduled_for oc) now status reason None)) e d Φ.
Proof.
  intros (Hd & Hr & Es) Hst HΦ. apply wp_insert_schedule_run; [done|done|]. cbn. intros Hf. apply HΦ.
  split_and!; [by apply db_steps_with_run| |done].
  apply tick_rows_insert; [done|done|]. unfold run_matches. cbn. naive_solver.
Qed.

Lemma wp_mark_started_run e d run_id from workflow_id f (Φ : unit → Db → Prop) :
  (∀ r, db_schedule_run d !! run_id = Some r → sr_status r = from →
     (∀ w, sr_workflow_id (f (r <| sr_status := RunStarted |>
        <| sr_workflow_id := Some workflow_id |>)) = Some w → is_Some (db_workflow d !! w)) →
     Φ tt (d <| db_schedule_run :=
       <[run_id := f (r <| sr_status := RunStarted |> <| sr_workflow_id := Some workflow_id |>)]>
         (db_schedule_run d) |>)) →
  wp any_error (mark_started run_id from workflow_id f) e d Φ.
Proof.
  intros HΦ. unfold mark_started.
  apply wp_bind, wp_update_schedule_run; [done|by apply wp_ensure_fenced|].
  intros r Hr Hst%bool_decide_eq_true Hfk. apply wp_ensure_fenced; [done|]. intros _. by apply HΦ.
Qed.

(** One occurrence, with what the policy makes of the rest of the chunk. *)
Lemma wp_materialize_occurrence_rows overlap oc outcome active queued report e d0 rows d
    (Φ : Z * bool * ScheduleMaterializationReport → Db → Prop) :
  ticking d0 rows d →
  (∀ active' queued' report' d',
     (∀ rest, overlap_rows overlap active queued (outcome :: rest) =
        outcome_row (overlap_outcome outcome overlap active queued)
        :: overlap_rows overlap active' queued' rest) →
     rp_inspected report' = rp_inspected report →
     ticking d0 (rows ++ [(oc, outcome_row (overlap_outcome outcome overlap active queued))]) d' →
     Φ (active', queued', report') d') →
  wp any_error (materialize_occurrence registry key overlap now oc outcome (active, queued, report))
    e d Φ.
Proof.
  intros Ht HΦ. unfold materialize_occurrence. cbn [overlap_rows] in HΦ.
  destruct (overlap_outcome outcome overlap active queued) as [[|reason|]|]; cbn [outcome_row] in HΦ.
  - apply wp_bind, (ticking_insert d0 rows d oc); [done|done|]. intros d1 H1.
    apply wp_bind, wp_start_occurrence; [done|by apply H1|]. intros workflow_id d2 H2.
    pose proof (ticking_call _ _ _ _ H1 H2) as (Hd & Hr & Es).
    apply wp_bind, wp_mark_started_run. intros r Hrun Hst Hfk. apply wp_ret.
    apply HΦ; [done|done|]. destruct Ht as (Hd0 & [Hn _] & _).
    split_and!; [|clear Hfk|done].
    { eapply db_steps_run; [done|exact Hrun|done..|]. left. by apply db_steps_next_run. }
    eapply tick_rows_update; [exact Hr|done|].
    destruct (proj2 Hr (length rows) (oc, (RunMaterializing, None))) as (r' & Hr' & Hm).
    { by apply list_lookup_middle. }
    rewrite <- Hn, Hrun in Hr'. injection Hr' as <-.
    destruct Hm as (? & ? & ? & ? & _ & ? & _). unfold run_matches. cbn. naive_solver.
  - apply wp_bind, (ticking_insert d0 rows d oc); [done|done|]. intros d1 H1.
    apply wp_ret. by apply HΦ.
  - apply wp_bind, (ticking_insert d0 rows d oc); [done|done|]. intros d1 H1.
    apply wp_ret. by apply HΦ.
  - apply wp_bind, (ticking_insert d0 rows d oc); [done|done|]. intros d1 H1.
    apply wp_ret. by apply HΦ.
Qed.

Lemma wp_materialize_due_rows overlap due outcomes active queued report e d0 rows d :
  length due = length outcomes → ticking d0 rows d →
  wp any_error (materialize_due registry key overlap now (zip due outcomes)
                  (active, queued, report)) e d
    (λ s d', rp_inspected s.2 = rp_inspected report
       ∧ ticking d0 (rows ++ zip due (overlap_rows overlap active queued outcomes)) d').
Proof.
  intros Hl. revert outcomes Hl active queued report rows d.
  induction due as [|oc due IH]; intros [|outcome outcomes] Hl active queued report rows d Ht;
    [|done|done|].
  { apply wp_ret. cbn. by rewrite app_nil_r. }
  cbn [zip zip_with materialize_due]. apply wp_bind.
  eapply wp_materialize_occurrence_rows; [done|].
  intros active' queued' report' d' Hres Hrep H1. rewrite Hres. cbn [zip zip_with].
  eapply wp_mono; [apply (IH outcomes ltac:(by injection Hl)); exact H1|].
  intros s d2 [Hs H2]. split; [congruence|]. by rewrite <- app_assoc in H2.
Qed.

Lemma classify_length due policy grace following :
  length (classify due policy grace now following) = length due.
Proof.
  assert (∀ f indices outcomes, length (assign f indices outcomes) = length outcomes) as Ha.
  { intros f indices. unfold assign. induction indices as [|i indices IHi]; intros outcomes; [done|].
    cbn. by rewrite IHi, length_insert. }
  unfold classify. destruct policy; rewrite ?Ha, ?length_replicate; try done.
  destruct (last _); [|by rewrite length_replicate].
  by rewrite Ha, length_insert, length_replicate.
Qed.

Lemma plan_due_chunk_length calendar oc policy grace due next outcomes :
  plan_due_chunk calendar oc policy grace now = Ok (due, next, outcomes) →
  length due = length outcomes.
Proof.
  unfold plan_due_chunk. intros ([due' next'] & _ & Hp)%res_bind_Ok.
  apply res_bind_Ok in Hp as (following & _ & Hp). injection Hp as <- <- <-.
  by rewrite classify_length.
Qed.

(** The promotion of the queued run of an idle schedule. *)
Lemma wp_tick_promotes state overlap d e (Φ : Z * bool * ScheduleMaterializationReport → Db → Prop) report :
  db_ok d →
  (∀ report' d', ticking d [] d' →
     Φ ((tick_start d key state overlap).1, (tick_start d key state overlap).2, report') d') →
  wp any_error
    (if bool_decide (overlap = QueueOne) && (active_count d (ss_schedule_key state) =? 0)%Z
        && has_queued d key
     then do! promote_queued registry key in tx_ret (1%Z, false, count_started report)
     else tx_ret (active_count d (ss_schedule_key state), has_queued d key, report)) e d Φ.
Proof.
  intros Hok HΦ. assert (ticking d [] d) as Ht.
  { split_and!; [by apply db_steps_refl| |done]. split; [cbn; lia|done]. }
  unfold tick_start in HΦ. destruct (_ && _ && _); [|by apply wp_ret, HΦ].
  apply wp_bind. unfold promote_queued. apply wp_bind, wp_select_schedule_runs. intros runs _.
  apply wp_bind, wp_first_or_not_found; [done|]. intros run _.
  apply wp_bind, wp_start_occurrence; [done|done|]. intros workflow_id d1 H1.
  apply wp_mark_started_run. intros r Hrun Hst Hfk. apply wp_ret, HΦ.
  destruct (ticking_call _ _ _ _ Ht H1) as (Hd & [Hn _] & Es).
  split_and!; [|by split|done].
  eapply db_steps_run; [done|exact Hrun|done..|]. right. unfold run_moves. cbn. auto 20.
Qed.
End ticks.
