(* ===== verification/Progress.v ===== *)
(** The progress log of an activity attempt ([progress.rs], T-W4): what an
    activity may report while it runs, and the bounded, append-only log its
    reports form. *)
From stdpp Require Import base gmap list strings.
From Stdlib Require Import ZArith Lia.
From S2P Require Import Prelude.
From S2P Require Import Errors.
From S2P Require Import Status.
From S2P Require Import Rows.
From S2P Require Import Database.

Definition MAX_PROGRESS_EVENTS_PER_ATTEMPT : Z := 100.
Definition MAX_PROGRESS_DESCRIPTION_BYTES : nat := 2048.

Inductive ProgressSeverity := SeverityInfo | SeverityWarning | SeverityError.

Definition severity_str (severity : ProgressSeverity) : string :=
  match severity with
  | SeverityInfo => "info"
  | SeverityWarning => "warning"
  | SeverityError => "error"
  end.

Record ProgressEvent := MkProgressEvent {
  pe_code : string;
  pe_description : string;
  pe_completed_units : option Z;
  pe_total_units : option Z;
  pe_severity : ProgressSeverity;
  pe_metadata_json : option string;
}.

Definition progress_event_new (code description : string) : ProgressEvent :=
  MkProgressEvent code description None None SeverityInfo None.

Inductive ProgressReportOutcome :=
  | Persisted (sequence : Z)
  | LimitReached.

(** The reporter of one attempt, less its connection pool. *)
Record ProgressReporter := MkProgressReporter {
  rep_activity_id : ActivityId;
  rep_attempt_number : Z;
  rep_lease_token : string;
}.

(** [str::is_ascii] *)
Definition is_ascii (s : string) : bool :=
  forallb (λ a, (Ascii.nat_of_ascii a <? 128)%nat) (String.list_ascii_of_string s).

Definition some_and (p : Z → bool) (o : option Z) : bool :=
  match o with Some units => p units | None => false end.

(** * The table *)

Definition progress_of (d : Db) (activity_id : ActivityId) (attempt_number : Z)
    : list ProgressEventRow :=
  filter (λ r, pr_activity_id r = activity_id ∧ pr_attempt_number r = attempt_number)
    (db_progress d).

(** The insert, under the primary key, the foreign key to the attempt and the
    two checks. *)
Definition insert_progress (row : ProgressEventRow) : Tx unit :=
  let! d := tx_get in
  if negb ((0 <? pr_sequence row)%Z && (pr_sequence row <=? 100)%Z
           && (pr_description_bytes row <=? 2048)%Z)
  then db_fail CheckViolation "durable_progress_event_check"
  else if bool_decide (pr_sequence row ∈ pr_sequence <$>
                         progress_of d (pr_activity_id row) (pr_attempt_number row))
  then db_fail UniqueViolation "durable_progress_event_pkey"
  else if bool_decide (db_attempt d !! (pr_activity_id row, pr_attempt_number row) = None)
  then db_fail ForeignKeyViolation "fk_durable_progress_attempt"
  else tx_put (d <| db_progress := db_progress d ++ [row] |>).

(** * Reporting *)

Section report.
(** Whether [serde_json] reads the text as a JSON value. *)
Context (json_value : string → bool).

Definition validate_metadata (metadata_json : option string) : Result unit :=
  match metadata_json with
  | Some metadata =>
      let? _ := ensure_size "progress metadata" metadata MAX_EVENT_METADATA_BYTES in
      if json_value metadata then Ok tt else Err (Serialization "progress metadata")
  | None => Ok tt
  end.

Definition validate_event (event : ProgressEvent) : Result unit :=
  if (str_len (pe_code event) =? 0)%nat || (64 <? str_len (pe_code event))%nat
     || negb (is_ascii (pe_code event))
  then Err (InvalidDefinition "progress code must be 1-64 ASCII bytes")
  else
    let? _ := ensure_size "progress description" (pe_description event)
                MAX_PROGRESS_DESCRIPTION_BYTES in
    let? _ := validate_metadata (pe_metadata_json event) in
    let has_negative_units :=
      some_and (λ units, units <? 0)%Z (pe_completed_units event)
      || some_and (λ units, units <? 0)%Z (pe_total_units event) in
    let completed_exceeds_total :=
      match pe_completed_units event, pe_total_units event with
      | Some completed, Some total => (total <? completed)%Z
      | _, _ => false
      end in
    if has_negative_units || completed_exceeds_total
    then Err (InvalidDefinition "progress units must satisfy 0 <= completed <= total")
    else Ok tt.

(** The row the reporter's filter selects [FOR UPDATE]. *)
Definition reporting (reporter : ProgressReporter) (r : ActivityRow) : bool :=
  bool_decide (ac_status r = ActRunning ∧ ac_attempt_count r = rep_attempt_number reporter
               ∧ ac_lease_token r = Some (rep_lease_token reporter)).

Definition progress_row (reporter : ProgressReporter) (event : ProgressEvent)
    (sequence description_bytes : Z) (created_at : DbMillis) : ProgressEventRow :=
  MkProgressEventRow (rep_activity_id reporter) (rep_attempt_number reporter) sequence
    (pe_code event) (pe_description event) description_bytes (pe_completed_units event)
    (pe_total_units event) (severity_str (pe_severity event)) (pe_metadata_json event)
    created_at.

Definition report (reporter : ProgressReporter) (event : ProgressEvent)
    : Tx ProgressReportOutcome :=
  do! tx_lift (validate_event event) in
  let! fenced := find_activity (rep_activity_id reporter) (reporting reporter) in
  let! _ := tx_lift (ok_or fenced FencedWrite) in
  let! d := tx_get in
  let last := default 0%Z (max_of (pr_sequence <$>
                progress_of d (rep_activity_id reporter) (rep_attempt_number reporter))) in
  if (MAX_PROGRESS_EVENTS_PER_ATTEMPT <=? last)%Z then tx_ret LimitReached
  else
    let! sequence := tx_lift (ok_or (i32_checked_add last 1)
          (InvalidState "progress sequence overflow")) in
    let! description_bytes :=
      tx_lift (ok_or (i32_try_from (Z.of_nat (str_len (pe_description event))))
        (InvalidState "progress description length overflow")) in
    let! created_at := database_now_millis in
    do! insert_progress (progress_row reporter event sequence description_bytes created_at) in
    let! sequence := tx_lift (ok_or (u32_try_from sequence)
          (InvalidState "negative progress sequence")) in
    tx_ret (Persisted sequence).
End report.
