(* ===== verification/ProgressSteps.v ===== *)
(** The progress log of an attempt is numbered from one without gaps, holds
    at most a hundred rows, and is only ever appended to; [report] is the one
    transaction that writes it. *)
From stdpp Require Import base gmap list strings.
From Stdlib Require Import ZArith Lia.
From S2P Require Import Prelude.
From S2P Require Import Errors.
From S2P Require Import Status.
From S2P Require Import Rows.
From S2P Require Import Database.
From S2P Require Import TxLogic.
From S2P Require Import Evolution.
From S2P Require Import SchedulesSteps.
From S2P Require Import Progress.

(** * The invariant *)

(** What [validate_event] lets into a row. *)
Definition progress_row_ok (r : ProgressEventRow) : Prop :=
  (0 < str_len (pr_code r) ≤ 64)%nat
  ∧ (str_len (pr_description r) ≤ MAX_PROGRESS_DESCRIPTION_BYTES)%nat
  ∧ pr_description_bytes r = Z.of_nat (str_len (pr_description r))
  ∧ (∀ completed, pr_completed_units r = Some completed → (0 ≤ completed)%Z
       ∧ ∀ total, pr_total_units r = Some total → (completed ≤ total)%Z)
  ∧ (∀ total, pr_total_units r = Some total → (0 ≤ total)%Z).

Record progress_ok (d : Db) : Prop := {
  po_rows : Forall progress_row_ok (db_progress d);
  po_sequences : ∀ activity_id attempt_number,
    let log := progress_of d activity_id attempt_number in
    pr_sequence <$> log = seqZ 1 (Z.of_nat (length log))
    ∧ (Z.of_nat (length log) ≤ MAX_PROGRESS_EVENTS_PER_ATTEMPT)%Z;
}.

Lemma max_of_seqZ n : default 0%Z (max_of (seqZ 1 (Z.of_nat n))) = Z.of_nat n.
Proof.
  destruct n as [|n]; [done|].
  destruct (max_of (seqZ 1 (Z.of_nat (S n)))) as [m|] eqn:E; cbn [from_option id].
  - pose proof (max_of_elem _ _ E) as Hm%elem_of_seqZ.
    assert (Z.of_nat (S n) ∈ seqZ 1 (Z.of_nat (S n))) as Hin by (apply elem_of_seqZ; lia).
    pose proof (max_of_bound _ _ _ E Hin). lia.
  - apply max_of_None in E. by rewrite seqZ_cons in E by lia.
Qed.

Lemma seqZ_snoc n : seqZ 1 (Z.of_nat n) ++ [(Z.of_nat n + 1)%Z] = seqZ 1 (Z.of_nat (n + 1)).
Proof.
  rewrite Nat2Z.inj_add, seqZ_app by lia. f_equal. change (Z.of_nat 1) with 1%Z.
  rewrite seqZ_cons by lia. cbn. f_equal. lia.
Qed.

Definition with_progress (d : Db) (row : ProgressEventRow) : Db :=
  d <| db_progress := db_progress d ++ [row] |>.

Lemma progress_of_with d row a n :
  progress_of (with_progress d row) a n =
    progress_of d a n
    ++ (if decide (pr_activity_id row = a ∧ pr_attempt_number row = n) then [row] else []).
Proof. unfold progress_of, with_progress. cbn. rewrite filter_app. f_equal. Qed.

(** The next row of a log keeps it in order. *)
Lemma progress_ok_append d row :
  progress_ok d → progress_row_ok row →
  let log := progress_of d (pr_activity_id row) (pr_attempt_number row) in
  (Z.of_nat (length log) < MAX_PROGRESS_EVENTS_PER_ATTEMPT)%Z →
  pr_sequence row = (Z.of_nat (length log) + 1)%Z → progress_ok (with_progress d row).
Proof.
  intros [Hr Hs] Hrow log Hlt Hseq. split.
  { cbn. rewrite Forall_app. auto. }
  intros a n log'. unfold log'. rewrite progress_of_with. case_decide as Hc; [|by rewrite app_nil_r].
  destruct Hc as [<- <-]. destruct (Hs (pr_activity_id row) (pr_attempt_number row)) as [E _].
  fold log in E |- *. rewrite fmap_app, length_app. cbn [length].
  split; [|lia]. rewrite E. cbn. rewrite Hseq. apply seqZ_snoc.
Qed.

(** * [report] *)

Section report.
Context (json_value : string → bool).

Lemma validate_event_ok reporter event sequence bytes created_at :
  validate_event json_value event = Ok tt →
  i32_try_from (Z.of_nat (str_len (pe_description event))) = Some bytes →
  progress_row_ok (progress_row reporter event sequence bytes created_at).
Proof.
  unfold validate_event. destruct (_ || _ || _) eqn:Ecode; [done|].
  destruct (ensure_size _ _ _) as [[]|] eqn:Ed; [cbn [res_bind]|done].
  destruct (validate_metadata _ _) as [[]|]; [cbn [res_bind]|done].
  destruct (some_and _ _ || _ || _) eqn:Eu; [done|]. intros _ Hb.
  rewrite !orb_false_iff in Ecode, Eu. destruct Ecode as [[E0 E1] _], Eu as [[U1 U2] U3].
  unfold ensure_size in Ed. destruct (_ <? _)%nat eqn:Ed' in Ed; [done|].
  apply i32_try_from_Some in Hb as [-> _].
  apply Nat.eqb_neq in E0. apply Nat.ltb_ge in E1, Ed'.
  split_and!; cbn -[str_len]; [lia|lia|lia|done|..].
  - intros c Hc. rewrite Hc in *. cbn in U1. split; [lia|]. intros t Ht. rewrite Ht in *. lia.
  - intros t Ht. rewrite Ht in *. cbn in U2. lia.
Qed.

(** What one report does to the log. *)
Definition reported (reporter : ProgressReporter) (event : ProgressEvent)
    (outcome : ProgressReportOutcome) (d d' : Db) : Prop :=
  let log := progress_of d (rep_activity_id reporter) (rep_attempt_number reporter) in
  (∃ activity, db_activity d !! rep_activity_id reporter = Some activity
     ∧ reporting reporter activity = true) ∧
  match outcome with
  | LimitReached => Z.of_nat (length log) = MAX_PROGRESS_EVENTS_PER_ATTEMPT ∧ d' = d
  | Persisted sequence =>
      sequence = (Z.of_nat (length log) + 1)%Z
      ∧ (sequence ≤ MAX_PROGRESS_EVENTS_PER_ATTEMPT)%Z
      ∧ ∃ now, let row := progress_row reporter event sequence
                            (Z.of_nat (str_len (pe_description event))) now in
          progress_row_ok row ∧ d' = with_progress d row
  end.

Lemma wp_report reporter event e d :
  progress_ok d →
  wp any_error (report json_value reporter event) e d
    (λ outcome d', reported reporter event outcome d d').
Proof.
  intros Hok. destruct (po_sequences _ Hok (rep_activity_id reporter) (rep_attempt_number reporter))
    as [Eseq Hle]. unfold report.
  apply wp_bind, wp_lift; [done|]. intros [] Hv.
  apply wp_bind, wp_find_activity; [intros _; by apply wp_bind, wp_lift|].
  intros activity Ha Hf. apply wp_bind, wp_lift; [done|]. intros activity' _.
  apply wp_bind, wp_get. rewrite Eseq, max_of_seqZ.
  set (log := progress_of d _ _) in *.
  destruct (_ <=? _)%Z eqn:El.
  { apply wp_ret. split; [by eauto|]. fold log. split; [lia|done]. }
  apply wp_bind, wp_lift; [done|]. intros sequence [-> _]%ok_or_Ok%i32_checked_add_Some.
  apply wp_bind, wp_lift; [done|]. intros bytes Hb%ok_or_Ok.
  apply wp_bind, wp_now. intros i. apply wp_bind.
  unfold insert_progress. apply wp_bind, wp_get.
  destruct (negb _); [by apply wp_fail|]. case_bool_decide; [by apply wp_fail|].
  case_bool_decide; [by apply wp_fail|]. apply wp_put.
  apply wp_bind, wp_lift; [done|]. intros s [-> _]%ok_or_Ok%u32_try_from_Some.
  apply wp_ret. pose proof (i32_try_from_Some _ _ Hb) as [-> _]. split; [by eauto|]. fold log.
  split_and!; [done|lia|]. eexists. split; [|done]. by apply validate_event_ok.
Qed.

(** What the constraints of the table let an insert assume. *)
Definition progress_fresh (d : Db) (row : ProgressEventRow) : Prop :=
  is_Some (db_attempt d !! (pr_activity_id row, pr_attempt_number row))
  ∧ (0 < pr_sequence row ≤ 100)%Z ∧ (pr_description_bytes row ≤ 2048)%Z
  ∧ progress_key row ∉ progress_key <$> db_progress d.

Lemma db_ok_with_progress d row : db_ok d → progress_fresh d row → db_ok (with_progress d row).
Proof.
  intros [] (Hfk & Hseq & Hbytes & Hkey). split; cbn; try done.
  - intros r [Hr|Hr%list_elem_of_singleton]%elem_of_app; [auto|by subst].
  - rewrite fmap_app, NoDup_app. split_and!; [done| |by apply NoDup_singleton].
    intros k Hk ->%list_elem_of_singleton. by apply Hkey.
Qed.

(** Nothing but the log is written, whatever it holds. *)
Lemma report_writes_log reporter event e d :
  wp any_error (report json_value reporter event) e d
    (λ _ d', d' = d ∨ ∃ row, d' = with_progress d row ∧ progress_fresh d row).
Proof.
  unfold report. apply wp_bind, wp_lift; [done|]. intros [] _.
  apply wp_bind, wp_find_activity; [intros _; by apply wp_bind, wp_lift|].
  intros activity _ _. apply wp_bind, wp_lift; [done|]. intros activity' _.
  apply wp_bind, wp_get. destruct (_ <=? _)%Z; [apply wp_ret; by left|].
  apply wp_bind, wp_lift; [done|]. intros sequence _.
  apply wp_bind, wp_lift; [done|]. intros bytes _.
  apply wp_bind, wp_now. intros i. apply wp_bind.
  unfold insert_progress. apply wp_bind, wp_get.
  destruct (negb _) eqn:Ec; [by apply wp_fail|]. case_bool_decide as Hpk; [by apply wp_fail|].
  case_bool_decide as Hfk; [by apply wp_fail|]. apply wp_put.
  apply wp_bind, wp_lift; [done|]. intros s _. apply wp_ret. right. eexists.
  split; [done|]. norm_tests. refine (conj _ (conj _ (conj _ _))); [|lia|lia|].
  - by apply not_eq_None_Some.
  - unfold progress_key. rewrite list_elem_of_fmap. intros (r & [= E1 E2 E3] & Hr). apply Hpk.
    cbn. rewrite E3. apply list_elem_of_fmap_2, list_elem_of_filter. split; [|done]. done.
Qed.
End report.

(** * In any transaction *)

Definition keeps_log (d d' : Db) : Prop :=
  progress_ok d → progress_ok d' ∧ db_progress d `prefix_of` db_progress d'.

Lemma log_kept_keeps d d' : log_kept d d' → keeps_log d d'.
Proof.
  intros [E _] [Hr Hs]. split; [|by rewrite E].
  split; [by rewrite E|]. unfold progress_of in *. by rewrite E.
Qed.

Lemma reported_keeps_log reporter event outcome d d' :
  reported reporter event outcome d d' → keeps_log d d'.
Proof.
  intros [_ Ho] Hok. destruct outcome as [sequence|].
  - destruct Ho as (-> & Hle & now & Hrow & ->). split; [|by apply prefix_app_r].
    apply progress_ok_append; [done|done| |done]. cbn. lia.
  - destruct Ho as [_ ->]. by split.
Qed.
