(* ===== verification/ExampleCalendar.v ===== *)
(** A calendar that satisfies [ChronoLaws]: an expression that fires every
    [n] seconds, and a time zone whose clock is put forward once. It is what
    the examples of the schedule theorems run on. *)
From stdpp Require Import base list strings.
From Stdlib Require Import ZArith Lia Ascii.
From S2P Require Import Prelude.
From S2P Require Import Errors.
From S2P Require Import Calendar.

(** * Keys: the decimal digits of a number, in the places of a shape *)

Fixpoint places (shape : string) : Z :=
  match shape with
  | EmptyString => 1
  | String s shape' =>
      match shape_base s with Some base => Z.of_nat base | None => 1 end * places shape'
  end%Z.

Definition digit (n : Z) : ascii := Ascii.ascii_of_nat (48 + Z.to_nat n).
Definition digit_value (c : ascii) : Z := Z.of_nat (Ascii.nat_of_ascii c) - 48.

#[local] Arguments digit : simpl never.
#[local] Arguments digit_value : simpl never.
#[local] Arguments is_digit : simpl never.

Fixpoint render (shape : string) (v : Z) : string :=
  match shape with
  | EmptyString => EmptyString
  | String s shape' =>
      match shape_base s with
      | Some _ => String (digit (v / places shape')) (render shape' (v mod places shape'))
      | None => String s (render shape' v)
      end
  end.

Fixpoint value (shape key : string) : Z :=
  match shape, key with
  | String s shape', String k key' =>
      (if shape_base s then digit_value k * places shape' else 0) + value shape' key'
  | _, _ => 0
  end%Z.

Lemma shape_base_bound s base : shape_base s = Some base → 0 < base ≤ 10.
Proof. unfold shape_base. repeat case_match; intros; simplify_eq; lia. Qed.

Lemma places_pos shape : (0 < places shape)%Z.
Proof.
  induction shape as [|s shape IH]; simpl; [lia|].
  destruct (shape_base s) as [base|] eqn:E; [apply shape_base_bound in E|]; lia.
Qed.

Lemma nat_of_digit n : (0 ≤ n < 10)%Z → Ascii.nat_of_ascii (digit n) = 48 + Z.to_nat n.
Proof. intros. unfold digit. rewrite Ascii.nat_ascii_embedding; lia. Qed.

Lemma is_digit_digit base n :
  base ≤ 10 → (0 ≤ n < Z.of_nat base)%Z → is_digit base (digit n) = true.
Proof.
  intros. unfold is_digit. rewrite nat_of_digit by lia.
  apply andb_true_intro. split; [apply Nat.leb_le|apply Nat.ltb_lt]; lia.
Qed.

Lemma digit_of_value base c :
  is_digit base c = true → (0 ≤ digit_value c < Z.of_nat base)%Z ∧ digit (digit_value c) = c.
Proof.
  unfold is_digit, digit, digit_value. intros [H1 H2]%andb_true_iff.
  apply Nat.leb_le in H1. apply Nat.ltb_lt in H2. split; [lia|].
  replace (48 + _) with (Ascii.nat_of_ascii c) by lia. apply Ascii.ascii_nat_embedding.
Qed.

(** The leading digit of a number of [base * p]. *)
Lemma leading_digit base p v :
  (0 < p)%Z → (0 ≤ v < base * p)%Z → (0 ≤ v / p < base)%Z ∧ (0 ≤ v mod p < p)%Z.
Proof.
  intros. split; [split; [apply Z.div_pos|apply Z.div_lt_upper_bound]; lia|].
  by apply Z.mod_pos_bound.
Qed.

Lemma render_matches shape v :
  (0 ≤ v < places shape)%Z →
  matches_shape shape (render shape v) = true ∧ value shape (render shape v) = v.
Proof.
  revert v. induction shape as [|s shape IH]; intros v Hv;
    cbn [places render] in *; [split; simpl; [done|lia]|].
  pose proof (places_pos shape) as Hp. destruct (shape_base s) as [base|] eqn:E.
  - pose proof (shape_base_bound _ _ E). destruct (leading_digit _ _ _ Hp Hv) as [Hd Hm].
    destruct (IH _ Hm) as [Hsh Hval].
    cbn [matches_shape value]. rewrite E, is_digit_digit, Hsh by (done || lia).
    split; [done|]. rewrite Hval.
    unfold digit_value. rewrite nat_of_digit by lia.
    pose proof (Z.div_mod v (places shape)). lia.
  - destruct (IH v) as [Hm Hval]; [lia|]. cbn [matches_shape value].
    rewrite E, Hm, Hval, Ascii.eqb_refl. split; [done|lia].
Qed.

Lemma value_renders shape key :
  matches_shape shape key = true →
  (0 ≤ value shape key < places shape)%Z ∧ render shape (value shape key) = key.
Proof.
  revert key. induction shape as [|s shape IH]; intros [|k key];
    cbn [matches_shape value places render]; try done.
  intros [Hk Hm]%andb_true_iff. destruct (IH key Hm) as [Hv Hr].
  destruct (shape_base s) as [base|] eqn:E.
  - destruct (digit_of_value base k Hk) as [Hd Hdig]. split; [nia|].
    rewrite Z.add_comm, Z.div_add, Z.div_small by lia. rewrite Z.mod_add, Z.mod_small by lia.
    rewrite ?Z.add_0_l, ?Z.add_0_r. by rewrite Hdig, Hr.
  - apply Ascii.eqb_eq in Hk as ->. rewrite Z.add_0_l, Hr. split; [lia|done].
Qed.

Lemma key_lt_compare a b : key_lt a b ↔ String.compare a b = Lt.
Proof.
  unfold key_lt, String.le, String.leb. split.
  - intros [Hle Hne]. destruct (String.compare a b) eqn:E; [|done|done].
    by apply String.compare_eq_iff in E.
  - intros E. rewrite E. split; [done|]. intros ->.
    pose proof (String.compare_antisym b b) as Ha. by rewrite E in Ha.
Qed.

Lemma compare_digit a b :
  (0 ≤ a < 10)%Z → (0 ≤ b < 10)%Z → Ascii.compare (digit a) (digit b) = (a ?= b)%Z.
Proof.
  intros Ha Hb. pose proof (nat_of_digit a Ha) as Ea. pose proof (nat_of_digit b Hb) as Eb.
  unfold Ascii.nat_of_ascii in Ea, Eb. unfold Ascii.compare.
  destruct (Z.compare_spec a b).
  - subst. apply N.compare_refl.
  - apply N.compare_lt_iff. lia.
  - apply N.compare_gt_iff. lia.
Qed.

Lemma compare_ascii_refl c : Ascii.compare c c = Eq.
Proof. unfold Ascii.compare. apply N.compare_refl. Qed.

Lemma render_order shape v w :
  (0 ≤ v)%Z → (v < w < places shape)%Z →
  String.compare (render shape v) (render shape w) = Lt.
Proof.
  revert v w. induction shape as [|s shape IH]; intros v w Hv Hw;
    cbn [places render] in *; [lia|].
  pose proof (places_pos shape) as Hp. destruct (shape_base s) as [base|] eqn:E.
  - pose proof (shape_base_bound _ _ E).
    destruct (leading_digit (Z.of_nat base) _ v Hp) as [Hdv Hmv]; [lia|].
    destruct (leading_digit (Z.of_nat base) _ w Hp) as [Hdw Hmw]; [lia|].
    pose proof (Z.div_mod v (places shape)). pose proof (Z.div_mod w (places shape)).
    cbn [String.compare]. rewrite compare_digit by lia.
    destruct (Z.compare_spec (v / places shape) (w / places shape)); [|done|nia].
    apply IH; nia.
  - cbn [String.compare]. rewrite compare_ascii_refl. apply IH; lia.
Qed.

(** * The calendar *)

Definition LOCAL_SHAPE : string := "dddd-dd-ddTdd:dd:sd".
Definition YEAR_ZERO : Z := (-62167219200000)%Z.
Definition YEAR_MAX : Z := 253402300800000.

(** The seconds since the year 0, as digits. *)
Definition example_format (t : Z) : string := render LOCAL_SHAPE ((t - YEAR_ZERO) / 1000).

Definition example_parse (key : string) : Z + string :=
  let t := (value LOCAL_SHAPE key * 1000 + YEAR_ZERO)%Z in
  if matches_shape LOCAL_SHAPE key && (t <? YEAR_MAX)%Z then inl t
  else inr "input contains invalid characters".

(** The first multiple of the period after [t], in a year of four digits. *)
Definition example_after (period : positive) (t : Z) : option Z :=
  let p := (1000 * Zpos period)%Z in
  let t' := ((t / p + 1) * p)%Z in
  if (YEAR_ZERO <=? t')%Z && (t' <? YEAR_MAX)%Z then Some t' else None.

(** A time zone: when its clock is put forward, and by how much, less than a
    day. *)
Record ExampleZone := MkExampleZone { ez_at : Z; ez_by : Z }.

Definition zone_by (tz : ExampleZone) : Z := (ez_by tz mod DAY_MILLIS)%Z.

Definition example_from_local (tz : ExampleZone) (t : Z) : LocalResult :=
  if (t <? ez_at tz)%Z then Single t
  else if (t <? ez_at tz + zone_by tz)%Z then NoLocal
  else Single (t - zone_by tz).

Definition example_naive_local (tz : ExampleZone) (i : Z) : Z :=
  if (i <? ez_at tz)%Z then i else (i + zone_by tz)%Z.

#[export] Instance ExampleChrono : Chrono := {|
  CronSchedule := positive;
  Tz := ExampleZone;
  cron_from_str text := match text with
                        | "@minutely" => inl 60%positive
                        | "@hourly" => inl 3600%positive
                        | _ => inr "invalid expression"
                        end;
  tz_from_str name := if bool_decide (name = "Etc/UTC") then Some (MkExampleZone 0 0)
                      else if bool_decide (name = "Example/Forward")
                      then Some (MkExampleZone 7200000 3600000) else None;
  tz_name _ := "Example";
  cron_after := example_after;
  from_local_datetime := example_from_local;
  naive_local := example_naive_local;
  chrono_range t := (-8334601228800000 <=? t)%Z && (t <=? 8210266876799999)%Z;
  format_local := example_format;
  parse_local := example_parse;
  schedule_fingerprint s _ := ds_cron s +:+ "/" +:+ ds_timezone s;
|}.

Lemma zone_by_bounds tz : (0 ≤ zone_by tz < DAY_MILLIS)%Z.
Proof. by apply Z.mod_pos_bound. Qed.

Lemma seconds_since_year_zero t :
  whole_second t → four_digit_year t →
  ((t - YEAR_ZERO) / 1000 * 1000 = t - YEAR_ZERO)%Z
  ∧ (0 ≤ (t - YEAR_ZERO) / 1000 < places LOCAL_SHAPE)%Z.
Proof.
  unfold whole_second, four_digit_year. intros Hs Hy.
  assert ((t - YEAR_ZERO) mod 1000 = 0)%Z as Hm by (unfold YEAR_ZERO; rewrite Zminus_mod, Hs; done).
  pose proof (Z.div_mod (t - YEAR_ZERO) 1000) as Hd. unfold YEAR_ZERO in *.
  change (places LOCAL_SHAPE) with 60000000000000%Z. lia.
Qed.

Lemma example_after_spec period t t' :
  example_after period t = Some t' →
  (t < t')%Z ∧ whole_second t' ∧ four_digit_year t' ∧
  ∀ u, (t ≤ u < t')%Z → example_after period u = Some t'.
Proof.
  unfold example_after. set (p := (1000 * Z.pos period)%Z). assert (0 < p)%Z as Hp by lia.
  destruct (_ && _) eqn:E; [|done]. intros [= <-].
  pose proof (Z.div_mod t p). pose proof (Z.mod_pos_bound t p Hp).
  assert (four_digit_year ((t / p + 1) * p)) as Hy.
  { unfold four_digit_year, YEAR_ZERO, YEAR_MAX in *. lia. }
  split; [nia|]. split; [|split; [done|]].
  - unfold whole_second. replace ((t / p + 1) * p)%Z
      with ((t / p + 1) * Z.pos period * 1000)%Z by (generalize (t / p)%Z; unfold p; lia).
    apply Z.mod_mul. lia.
  - intros u Hu. assert (u / p = t / p)%Z as ->; [|by rewrite E].
    symmetry. apply (Z.div_unique u p _ (u - p * (t / p))); [left; nia|lia].
Qed.

#[export] Instance ExampleChronoLaws : ChronoLaws.
Proof.
  split; simpl.
  - intros s t t' Ha%example_after_spec. naive_solver.
  - intros s t t' u Ha%example_after_spec. naive_solver.
  - intros tz t i. unfold example_from_local, example_naive_local.
    pose proof (zone_by_bounds tz). repeat case_match; intros; simplify_eq; lia.
  - intros tz t i j. unfold example_from_local. repeat case_match; done.
  - intros tz i. unfold example_naive_local. pose proof (zone_by_bounds tz).
    case_match; lia.
  - intros tz t n m i _ _ Hm Hns. specialize (Hns m). unfold example_from_local in *.
    repeat case_match; naive_solver.
  - intros t. unfold DAY_MILLIS. lia.
  - intros t Hs Hy. destruct (seconds_since_year_zero t Hs Hy) as [Hv Hb].
    unfold is_local_key, example_parse, example_format.
    destruct (render_matches LOCAL_SHAPE _ Hb) as [Hm ->]. rewrite Hm. split; [done|].
    rewrite Hv. unfold four_digit_year, YEAR_ZERO, YEAR_MAX in *. simpl.
    rewrite (proj2 (Z.ltb_lt _ _)) by lia. f_equal. lia.
  - intros key t Hk. unfold example_parse, example_format, is_local_key in *.
    change "dddd-dd-ddTdd:dd:sd" with LOCAL_SHAPE in Hk.
    destruct (value_renders _ _ Hk) as [Hb Hr]. rewrite Hk. cbn [andb].
    case_match; [|done]. intros Ht. apply (inj inl) in Ht as <-. rewrite Z.add_simpl_r, Z.div_mul, Hr by lia.
    split; [done|]. unfold whole_second, four_digit_year, YEAR_ZERO, YEAR_MAX in *.
    split; [|lia]. by rewrite Z.add_comm, Z.mod_add.
  - intros t u Ht Hu Hyt Hyu Hlt. apply key_lt_compare. unfold example_format.
    destruct (seconds_since_year_zero t Ht Hyt), (seconds_since_year_zero u Hu Hyu).
    apply render_order; lia.
Qed.
