(* ===== verification/Recovery.v ===== *)
(** What the calendar and the misfire policies guarantee: the search of the
    next occurrence ends with the right one, and recovering a backlog chunk by
    chunk classifies every occurrence as if the whole backlog were seen at
    once (S28). *)
From stdpp Require Import base gmap list strings.
From Stdlib Require Import ZArith Lia.
From S2P Require Import Prelude.
From S2P Require Import Errors.
From S2P Require Import Calendar.
From S2P Require Import Schedules.
From S2P Require Import Misfire.
From S2P Require Import ExampleCalendar.


(** C19: S28. A due occurrence [oc] of the cursor starts a backlog that ends.
    However the ticks cut it into chunks of [MAX_DUE_OCCURRENCES_PER_TICK],
    planning them one after the other gives exactly the occurrences of the
    backlog, in order, each with the outcome the policy gives it in the whole
    backlog: a slot of a gap is skipped, [RunLatest] starts only the last
    runnable one, [CatchUp n] the last [n]; and the cursor ends at the first
    occurrence that is not due. *)
Theorem recovery_is_reference `{ChronoLaws} (cal : ScheduleCalendar)
    (oc : ScheduleOccurrence) (policy : MisfirePolicy) (grace_millis now : Z) :
  oc_ok cal oc → policy_ok policy →
  fires_between cal (oc_local_datetime oc) (now + DAY_MILLIS) →
  ∃ l fin, backlog cal now oc l fin ∧ (now < oc_due_at fin)%Z ∧
    ∀ ticks, length l ≤ ticks * Z.to_nat MAX_DUE_OCCURRENCES_PER_TICK →
      recover cal ticks oc policy grace_millis now
      = Ok (zip l (expected policy grace_millis now 0 l), fin).
Proof.
  intros Hok Hp Hf. destruct (backlog_total cal now oc _ Hf ltac:(lia) Hok) as (l & fin & Hb).
  exists l, fin. split; [done|]. split; [by apply (backlog_end_ok _ _ _ _ _ Hb Hok)|].
  intros ticks Ht. by apply recover_backlog.
Qed.

(** An hourly calendar whose clock goes forward from 02:00 to 03:00. *)
Definition example_calendar : ScheduleCalendar :=
  MkScheduleCalendar (3600%positive : CronSchedule) (MkExampleZone 7200000 3600000 : Tz).

Lemma example_resolves k :
  ∃ oc, resolve example_calendar (k * 3600000) = Ok oc.
Proof.
  destruct (decide (k = 2)%Z) as [->|Hk]; [eexists; vm_compute; reflexivity|].
  unfold resolve. change (from_local_datetime _ _)
    with (example_from_local (MkExampleZone 7200000 3600000) (k * 3600000)).
  unfold example_from_local. change (zone_by _) with 3600000%Z. cbn [ez_at].
  change (7200000 + 3600000)%Z with 10800000%Z.
  destruct (Z.ltb_spec (k * 3600000) 7200000); [by eexists|].
  destruct (Z.ltb_spec (k * 3600000) 10800000); [lia|by eexists].
Qed.

Lemma example_fires lo hi :
  (0 ≤ lo)%Z → (hi ≤ 100 * DAY_MILLIS)%Z → fires_between example_calendar lo hi.
Proof.
  intros Hlo Hhi t Ht. unfold next_after_local.
  change (cron_after _ _) with (example_after 3600 t). unfold example_after.
  change (1000 * 3600)%Z with 3600000%Z.
  pose proof (Z.div_mod t 3600000). pose proof (Z.mod_pos_bound t 3600000).
  unfold YEAR_ZERO, YEAR_MAX, DAY_MILLIS in *.
  rewrite (proj2 (Z.leb_le _ _)), (proj2 (Z.ltb_lt _ _)) by lia.
  apply example_resolves.
Qed.


(** The occurrence at 01:00 of the calendar. *)
Definition example_occurrence : ScheduleOccurrence :=
  Eval vm_compute in
    match resolve example_calendar 3600000 with
    | Ok oc => oc
    | Err _ => MkScheduleOccurrence 0 "" 0 0 Exact
    end.

(** A backlog of five slots, the second of which is in the gap. *)
Example example_recovery :
  match recover example_calendar 1 example_occurrence (CatchUp 2) 60000 14400000 with
  | Ok r => snd <$> r.1
  | Err _ => []
  end
  = [OcSkip "catch_up_limit"; OcSkip "dst_gap"; OcSkip "catch_up_limit"; OcStart; OcStart].
Proof. vm_compute. reflexivity. Qed.

Lemma recovery_is_reference_witness :
  ∃ l fin, backlog example_calendar 14400000 example_occurrence l fin
    ∧ (14400000 < oc_due_at fin)%Z ∧
    ∀ ticks, length l ≤ ticks * Z.to_nat MAX_DUE_OCCURRENCES_PER_TICK →
      recover example_calendar ticks example_occurrence (CatchUp 2) 60000 14400000
      = Ok (zip l (expected (CatchUp 2) 60000 14400000 0 l), fin).
Proof.
  apply recovery_is_reference.
  - split; [vm_compute; reflexivity|done|unfold four_digit_year; simpl; lia].
  - unfold policy_ok. autounfold with ranges. lia.
  - apply example_fires; simpl; unfold DAY_MILLIS; lia.
Defined.
