(* ===== verification/Restart.v ===== *)
(** Restarts of the runtime's tasks ([runtime/restart.rs]): the budget of
    restarts after errors and panics, the doubling delay, and the limit on an
    outage of the database. A [Duration] is in nanoseconds; an [Instant] of the
    monotonic clock is nanoseconds since its origin. *)
From stdpp Require Import base list strings.
From Stdlib Require Import ZArith Lia.
From S2P Require Import Prelude.
From S2P Require Import Errors.
Open Scope Z_scope.

Abbreviation Duration := Z (only parsing).
Abbreviation MonoInstant := Z (only parsing).

(** [Duration::MAX]: [u64::MAX] seconds and 999,999,999 nanoseconds. *)
Definition DURATION_MAX : Z := u64_max * 1000000000 + 999999999.

Definition duration_saturating_add (a b : Duration) : Duration := Z.min DURATION_MAX (a + b).
Definition saturating_duration_since (self earlier : MonoInstant) : Duration :=
  Z.max 0 (self - earlier).
Definition u32_saturating_add (a b : Z) : Z := Z.min u32_max (a + b).

Inductive TaskFailureKind :=
  | Transient (transience : Transience)
  | Fault
  | Panic.

Definition panicked (self : TaskFailureKind) : bool :=
  match self with
  | Panic => true
  | Transient _ | Fault => false
  end.

Definition failure_kind_as_str (self : TaskFailureKind) : string :=
  match self with
  | Transient RolledBack => "transient_rolled_back"
  | Transient Unavailable => "transient_unavailable"
  | Fault => "fault"
  | Panic => "panic"
  end.

Record RestartPolicy := MkRestartPolicy {
  rp_initial_backoff : Duration;
  rp_max_backoff : Duration;
  rp_healthy_after : Duration;
  rp_max_restarts : Z;
  rp_window : Duration;
  rp_max_transient_outage : Duration;
}.

Inductive StopReason :=
  | BudgetExhausted (max_restarts : Z) (window : Duration)
  | TransientOutage (lasted limit : Duration)
  | Unrestartable.

Inductive RestartDecision :=
  | Restart (delay : Duration)
  | Stop (reason : StopReason).

Definition stop_reason_as_str (self : StopReason) : string :=
  match self with
  | BudgetExhausted _ _ => "restart_budget_exhausted"
  | TransientOutage _ _ => "transient_outage_exceeded"
  | Unrestartable => "unrestartable_task_failed"
  end.

(** * The backoff *)

(** [RestartBackoff::advance]: the delay, and the next one. *)
Definition backoff_advance (next max : Duration) : Duration * Duration :=
  (next, Z.min (duration_saturating_add next next) max).

(** * The budget *)

Record RestartBudget := MkRestartBudget { rb_count : Z; rb_window_started : MonoInstant }.

Definition budget_new (now : MonoInstant) : RestartBudget := MkRestartBudget 0 now.

(** [RestartBudget::record]: whether the restart is allowed, and the budget. *)
Definition budget_record (self : RestartBudget) (now : MonoInstant) (window : Duration)
    (max_restarts : Z) : bool * RestartBudget :=
  let self :=
    if saturating_duration_since now (rb_window_started self) >? window
    then MkRestartBudget 0 now else self in
  let count := u32_saturating_add (rb_count self) 1 in
  (count <=? max_restarts, MkRestartBudget count (rb_window_started self)).

(** * The restart state of a task *)

Record TaskRestarts := MkTaskRestarts {
  tr_budget : RestartBudget;
  tr_backoff : Duration;
  tr_outage_started : option MonoInstant;
}.

Definition restarts_new (now : MonoInstant) (policy : RestartPolicy) : TaskRestarts :=
  MkTaskRestarts (budget_new now) (rp_initial_backoff policy) None.

Definition is_healthy (ran_for : Duration) (policy : RestartPolicy) : bool :=
  rp_healthy_after policy <=? ran_for.

Definition on_failure (self : TaskRestarts) (now : MonoInstant) (ran_for : Duration)
    (kind : TaskFailureKind) (policy : RestartPolicy) : RestartDecision * TaskRestarts :=
  let self :=
    if is_healthy ran_for policy
    then MkTaskRestarts (tr_budget self) (rp_initial_backoff policy) None
    else self in
  let restart self :=
    let '(delay, next) := backoff_advance (tr_backoff self) (rp_max_backoff policy) in
    (Restart delay, MkTaskRestarts (tr_budget self) next (tr_outage_started self)) in
  match kind with
  | Transient _ =>
      let started := default now (tr_outage_started self) in
      let self := MkTaskRestarts (tr_budget self) (tr_backoff self) (Some started) in
      let lasted := saturating_duration_since now started in
      if rp_max_transient_outage policy <? lasted
      then (Stop (TransientOutage lasted (rp_max_transient_outage policy)), self)
      else restart self
  | Fault | Panic =>
      let '(allowed, budget) := budget_record (tr_budget self) now (rp_window policy)
                                  (rp_max_restarts policy) in
      let self := MkTaskRestarts budget (tr_backoff self) (tr_outage_started self) in
      if negb allowed
      then (Stop (BudgetExhausted (rp_max_restarts policy) (rp_window policy)), self)
      else restart self
  end.

(** * Runs of failures *)

(** A failure of a task: when, how long the run lasted, and why. *)
Record Failure := MkFailure {
  fl_at : MonoInstant; fl_ran_for : Duration; fl_kind : TaskFailureKind }.

(** The decisions on a sequence of failures, until one stops. *)
Fixpoint on_failures (self : TaskRestarts) (failures : list Failure) (policy : RestartPolicy)
    : list RestartDecision * TaskRestarts :=
  match failures with
  | [] => ([], self)
  | f :: rest =>
      let '(decision, self) := on_failure self (fl_at f) (fl_ran_for f) (fl_kind f) policy in
      match decision with
      | Restart _ => let '(decisions, self) := on_failures self rest policy in
                     (decision :: decisions, self)
      | Stop _ => ([decision], self)
      end
  end.

Definition is_restart (decision : RestartDecision) : bool :=
  match decision with Restart _ => true | Stop _ => false end.

(** A failure that spends the budget. *)
Definition is_fault (f : Failure) : bool :=
  match fl_kind f with Transient _ => false | Fault | Panic => true end.

(** The instants of the clock do not go backwards. *)
Fixpoint in_order (since : MonoInstant) (failures : list Failure) : Prop :=
  match failures with
  | [] => True
  | f :: rest => since <= fl_at f ∧ in_order (fl_at f) rest
  end.

Definition faults_between (from until : MonoInstant) (failures : list Failure) : Z :=
  Z.of_nat (length (filter (λ f, is_fault f = true ∧ from <= fl_at f <= until) failures)).

Definition all_restarted (decisions : list RestartDecision) : Prop :=
  Forall (λ d, is_restart d = true) decisions.

(** One step of a sequence that restarts. *)
Lemma on_failures_cons self f rest policy :
  all_restarted (on_failures self (f :: rest) policy).1 →
  let s := on_failure self (fl_at f) (fl_ran_for f) (fl_kind f) policy in
  is_restart s.1 = true ∧ all_restarted (on_failures s.2 rest policy).1.
Proof.
  cbn [on_failures]. destruct (on_failure _ _ _ _ _) as [[delay|reason] s] eqn:E; cbn.
  - destruct (on_failures s rest policy) as [ds s'] eqn:E'. cbn. inversion 1; subst. done.
  - by inversion 1.
Qed.

(** The budget of a failure that restarts. *)
Lemma on_failure_budget self now ran_for kind policy :
  let s := on_failure self now ran_for kind policy in
  let b := tr_budget self in
  is_restart s.1 = true →
  match kind with
  | Transient _ => tr_budget s.2 = b
  | Fault | Panic =>
      let b' := tr_budget s.2 in
      rb_count b' <= rp_max_restarts policy ∧
      if saturating_duration_since now (rb_window_started b) >? rp_window policy
      then b' = MkRestartBudget 1 now
      else b' = MkRestartBudget (u32_saturating_add (rb_count b) 1) (rb_window_started b)
  end.
Proof.
  destruct self as [[count started] next outage]. unfold on_failure, budget_record.
  destruct kind; destruct (is_healthy _ _); cbn.
  1,2: case_match; done.
  all: destruct (_ >? _) eqn:Ew; cbn; destruct (_ <=? _) eqn:E; cbn; try done;
    intros _; split; (done || lia).
Qed.

(** ** The rate of restarts *)

(** The ranges of a policy: [u32] and [Duration], and a cap no lower than the
    first delay. *)
Record restart_policy_ok (policy : RestartPolicy) : Prop := {
  rpo_restarts : 0 <= rp_max_restarts policy < u32_max;
  rpo_window : 0 <= rp_window policy;
  rpo_backoff : 0 <= rp_initial_backoff policy <= rp_max_backoff policy;
  rpo_max_backoff : rp_max_backoff policy <= DURATION_MAX;
}.

Definition budget_ok (policy : RestartPolicy) (b : RestartBudget) : Prop :=
  0 <= rb_count b <= rp_max_restarts policy.

Lemma faults_between_cons from until f rest :
  faults_between from until (f :: rest)
  = (if decide (is_fault f = true ∧ from <= fl_at f <= until) then 1 else 0)
    + faults_between from until rest.
Proof. unfold faults_between. rewrite filter_cons. case_decide; simpl; lia. Qed.

Lemma faults_between_nonneg from until l : 0 <= faults_between from until l.
Proof. unfold faults_between. lia. Qed.

(** The budget after a counted failure: the same window, or a new one. *)
Lemma fault_step self f policy :
  restart_policy_ok policy → budget_ok policy (tr_budget self) → is_fault f = true →
  rb_window_started (tr_budget self) <= fl_at f →
  let s := on_failure self (fl_at f) (fl_ran_for f) (fl_kind f) policy in
  is_restart s.1 = true →
  budget_ok policy (tr_budget s.2) ∧
  ((fl_at f <= rb_window_started (tr_budget self) + rp_window policy
    ∧ tr_budget s.2 = MkRestartBudget (rb_count (tr_budget self) + 1)
                        (rb_window_started (tr_budget self)))
   ∨ (rb_window_started (tr_budget self) + rp_window policy < fl_at f
      ∧ tr_budget s.2 = MkRestartBudget 1 (fl_at f))).
Proof.
  intros [Hr Hw _ _] Hb Hf Hle s Hs.
  pose proof (on_failure_budget self (fl_at f) (fl_ran_for f) (fl_kind f) policy Hs) as H.
  unfold s, is_fault, budget_ok, saturating_duration_since, u32_saturating_add in *.
  destruct (fl_kind f); [done|..]; destruct H as [Hc H];
    destruct (Z.gtb_spec (Z.max 0 (fl_at f - rb_window_started (tr_budget self)))
                (rp_window policy));
    rewrite H in Hc |- *; simpl in *; (split; [lia|]);
    first [right; split; [lia|done]|left; split; [lia|f_equal; lia]].
Qed.

Lemma transient_step self f policy :
  is_fault f = false →
  let s := on_failure self (fl_at f) (fl_ran_for f) (fl_kind f) policy in
  is_restart s.1 = true → tr_budget s.2 = tr_budget self.
Proof.
  intros Hf s Hs.
  pose proof (on_failure_budget self (fl_at f) (fl_ran_for f) (fl_kind f) policy Hs) as H.
  unfold is_fault in Hf. by destruct (fl_kind f).
Qed.

Lemma in_order_weaken since since' failures :
  since' <= since → in_order since failures → in_order since' failures.
Proof. destruct failures; simpl; [done|]. intros ? [? ?]. split; [lia|done]. Qed.

Lemma faults_before from until since failures :
  in_order since failures → until < since → faults_between from until failures = 0.
Proof.
  revert since. induction failures as [|f rest IH]; intros since; [done|].
  intros [Hf Ho] Hu. rewrite faults_between_cons, decide_False by lia.
  rewrite (IH (fl_at f)); (done || lia).
Qed.

(** Within a window, the budget bounds the faults. *)
Lemma faults_in_window failures self policy from until :
  restart_policy_ok policy → budget_ok policy (tr_budget self) →
  in_order (rb_window_started (tr_budget self)) failures →
  all_restarted (on_failures self failures policy).1 →
  until <= rb_window_started (tr_budget self) + rp_window policy →
  faults_between from until failures <= rp_max_restarts policy - rb_count (tr_budget self).
Proof.
  intros Hp. revert self. induction failures as [|f rest IH]; intros self Hb Ho Hr Hu.
  { unfold faults_between, budget_ok in *. simpl. lia. }
  apply on_failures_cons in Hr as [Hs Hr]. destruct Ho as [Hf Ho]. rewrite faults_between_cons.
  destruct (is_fault f) eqn:Ef.
  - destruct (fault_step self f policy Hp Hb Ef Hf Hs) as [Hb' [[Hin E]|[Hout E]]].
    + specialize (IH _ Hb'). rewrite E in IH. cbn in IH.
      specialize (IH ltac:(by eapply in_order_weaken) Hr Hu). case_decide; lia.
    + rewrite decide_False, (faults_before _ _ (fl_at f)) by (done || lia).
      unfold budget_ok in *. lia.
  - pose proof (transient_step self f policy Ef Hs) as E. specialize (IH _ ltac:(by rewrite E)).
    rewrite E in IH. specialize (IH ltac:(by eapply in_order_weaken) Hr Hu).
    case_decide; naive_solver lia.
Qed.

(** In any span as long as the window, at most two windows have restarts. *)
Lemma faults_in_span failures self policy from :
  restart_policy_ok policy → budget_ok policy (tr_budget self) →
  in_order (rb_window_started (tr_budget self)) failures →
  all_restarted (on_failures self failures policy).1 →
  faults_between from (from + rp_window policy) failures
  <= 2 * rp_max_restarts policy
     - (if from <=? rb_window_started (tr_budget self) + rp_window policy
        then rb_count (tr_budget self) else 0).
Proof.
  intros Hp. revert self. induction failures as [|f rest IH]; intros self Hb Ho Hr.
  { unfold faults_between, budget_ok in *. simpl. case_match; lia. }
  apply on_failures_cons in Hr as [Hs Hr]. destruct Ho as [Hf Ho]. rewrite faults_between_cons.
  destruct (is_fault f) eqn:Ef.
  - destruct (fault_step self f policy Hp Hb Ef Hf Hs) as [Hb' [[Hin E]|[Hout E]]].
    + specialize (IH _ Hb'). rewrite E in IH. cbn in IH.
      specialize (IH ltac:(by eapply in_order_weaken) Hr). revert IH.
      destruct (Z.leb_spec from (rb_window_started (tr_budget self) + rp_window policy));
        case_decide; lia.
    + destruct (decide (from <= fl_at f)) as [Hfrom|Hfrom].
      * pose proof (faults_in_window rest _ policy from (from + rp_window policy) Hp Hb') as Hw.
        rewrite E in Hw. cbn in Hw. specialize (Hw Ho Hr ltac:(lia)).
        unfold budget_ok in *. case_decide; destruct (from <=? _); lia.
      * rewrite decide_False by lia. specialize (IH _ Hb'). rewrite E in IH. cbn in IH.
        specialize (IH Ho Hr). rewrite (proj2 (Z.leb_gt from _)) by lia.
        revert IH. case_match; lia.
  - pose proof (transient_step self f policy Ef Hs) as E. specialize (IH _ ltac:(by rewrite E)).
    rewrite E in IH. specialize (IH ltac:(by eapply in_order_weaken) Hr).
    rewrite decide_False by naive_solver. lia.
Qed.

(** ** The delays *)

Definition delay_of (decision : RestartDecision) : option Duration :=
  match decision with Restart delay => Some delay | Stop _ => None end.

Lemma on_failure_delay self now ran_for kind policy :
  let s := on_failure self now ran_for kind policy in
  let current := if is_healthy ran_for policy then rp_initial_backoff policy
                 else tr_backoff self in
  is_restart s.1 = true →
  s.1 = Restart current
  ∧ tr_backoff s.2 = Z.min (duration_saturating_add current current) (rp_max_backoff policy).
Proof.
  unfold on_failure. destruct self as [b next outage].
  destruct kind; destruct (is_healthy _ _); cbn; repeat case_match; try done;
    by destruct (budget_record _ _ _ _) as [[] ?].
Qed.

(** The delay of a task that is never healthy after [k] restarts. *)
Definition doubled (policy : RestartPolicy) (k : nat) : Duration :=
  Z.min (rp_initial_backoff policy * 2 ^ Z.of_nat k) (rp_max_backoff policy).

Lemma doubled_step policy k :
  restart_policy_ok policy →
  Z.min (duration_saturating_add (doubled policy k) (doubled policy k)) (rp_max_backoff policy)
  = doubled policy (S k).
Proof.
  intros [_ _ Hb Hm]. unfold doubled, duration_saturating_add.
  rewrite Nat2Z.inj_succ, Z.pow_succ_r by lia.
  assert (0 <= rp_initial_backoff policy * 2 ^ Z.of_nat k) by (apply Z.mul_nonneg_nonneg; lia).
  lia.
Qed.

Lemma delays_doubled failures self policy k :
  restart_policy_ok policy → tr_backoff self = doubled policy k →
  all_restarted (on_failures self failures policy).1 →
  Forall (λ f, is_healthy (fl_ran_for f) policy = false) failures →
  delay_of <$> (on_failures self failures policy).1
  = Some ∘ doubled policy <$> seq k (length failures).
Proof.
  intros Hp. revert self k. induction failures as [|f rest IH]; intros self k Hk Hr Hh; [done|].
  apply Forall_cons in Hh as [Hf Hh]. apply on_failures_cons in Hr as [Hs Hr].
  pose proof (on_failure_delay self (fl_at f) (fl_ran_for f) (fl_kind f) policy Hs) as [Hd Hn].
  rewrite Hf, Hk in Hd, Hn. rewrite doubled_step in Hn by done.
  cbn [on_failures]. destruct (on_failure _ _ _ _ _) as [d s] eqn:E. cbn in *. subst d.
  specialize (IH s (S k) Hn Hr Hh). destruct (on_failures s rest policy) as [ds s'].
  cbn in *. by rewrite IH.
Qed.

(** * What the restart state guarantees *)

(** C28: a task that keeps being restarted has at most twice [max_task_restarts]
    errors and panics in any span as long as the restart window: the counting
    windows do not overlap, and such a span meets at most two of them.
    Transient failures do not count. *)
Theorem restart_rate (failures : list Failure) (policy : RestartPolicy) (start from : MonoInstant) :
  restart_policy_ok policy → in_order start failures →
  all_restarted (on_failures (restarts_new start policy) failures policy).1 →
  faults_between from (from + rp_window policy) failures <= 2 * rp_max_restarts policy.
Proof.
  intros Hp Ho Hr.
  pose proof (faults_in_span failures (restarts_new start policy) policy from Hp) as H.
  simpl in H. assert (budget_ok policy (budget_new start)) as Hb.
  { unfold budget_ok. simpl. destruct Hp. lia. }
  specialize (H Hb Ho Hr). by destruct (from <=? _) in H; rewrite Z.sub_0_r in H.
Qed.

(** As long as no run is healthy, the restarts of a task wait the initial
    delay, then twice as long each time, up to the cap. *)
Theorem restart_delays (failures : list Failure) (policy : RestartPolicy) (start : MonoInstant) :
  restart_policy_ok policy →
  all_restarted (on_failures (restarts_new start policy) failures policy).1 →
  Forall (λ f, is_healthy (fl_ran_for f) policy = false) failures →
  delay_of <$> (on_failures (restarts_new start policy) failures policy).1
  = (λ k, Some (Z.min (rp_initial_backoff policy * 2 ^ Z.of_nat k) (rp_max_backoff policy)))
      <$> seq 0 (length failures).
Proof.
  intros Hp Hr Hh. rewrite (delays_doubled failures _ policy 0); try done.
  simpl. unfold doubled. simpl. destruct Hp. lia.
Qed.

Definition example_policy : RestartPolicy := MkRestartPolicy 1 60 120 2 600 900.
Definition example_failures : list Failure :=
  [MkFailure 10 5 Fault; MkFailure 20 5 (Transient Unavailable); MkFailure 30 5 Panic].

Lemma restart_rate_witness :
  faults_between 5 (5 + rp_window example_policy) example_failures <= 2 * 2.
Proof.
  apply (restart_rate example_failures example_policy 0 5).
  - split; simpl; autounfold with ranges; unfold DURATION_MAX; autounfold with ranges; lia.
  - simpl. lia.
  - repeat constructor.
Defined.

Lemma restart_delays_witness :
  delay_of <$> (on_failures (restarts_new 0 example_policy) example_failures example_policy).1
  = [Some 1; Some 2; Some 4].
Proof.
  apply (restart_delays example_failures example_policy 0).
  - split; simpl; autounfold with ranges; unfold DURATION_MAX; autounfold with ranges; lia.
  - repeat constructor.
  - repeat constructor.
Defined.
