(* ===== verification/Health.v ===== *)
(** Readiness and health ([readiness.rs], [observability.rs]): the definitions
    that the stored work needs and the registries lack, the health scan of
    the tables, and the process-local counts of activations that rolled
    back. *)
From stdpp Require Import base gmap list strings.
From Stdlib Require Import ZArith Lia.
From S2P Require Import Prelude.
From S2P Require Import Errors.
From S2P Require Import Status.
From S2P Require Import Rows.
From S2P Require Import Database.
From S2P Require Import TxLogic.
From S2P Require Import Transitions.
From S2P Require Import Registry.
From S2P Require Import Coordinator.
From S2P Require Import Restart.

(** * Readiness *)

Record ReadinessReport := MkReadinessReport {
  missing_workflows : list DefinitionKey;
  missing_activities : list DefinitionKey;
  missing_topics : list string;
}.

(** [Vec::dedup]: of equal neighbours the first stays. *)
Fixpoint dedup {A} `{EqDecision A} (l : list A) : list A :=
  match l with
  | x :: ((y :: _) as l') => if decide (x = y) then dedup l' else x :: dedup l'
  | _ => l
  end.

Definition compare_definitions (workflows : WorkflowRegistry) (activities : ActivityRegistry)
    (required_workflows required_activities : list DefinitionKey) : ReadinessReport :=
  let missing {D} (registry : gmap DefinitionKey D) required :=
    dedup (sort_by key_le (filter (λ key, contains registry key.1 key.2 = false) required)) in
  MkReadinessReport (missing workflows required_workflows)
    (missing (areg_definitions activities) required_activities) [].

(** [ActivityRegistry::required_topics]. *)
Definition required_topics (self : ActivityRegistry) : list string :=
  dedup (sort_by String.leb (snd <$> map_to_list (areg_topics self))).

(** A dead-lettered activity on which its workflow waits. *)
Definition recoverable (workflows : gmap Z WorkflowRow) (r : ActivityRow) : bool :=
  bool_decide (ac_status r = ActDeadLettered)
  && match workflows !! ac_workflow_id r with
     | Some w => bool_decide (wf_wait_reference_id w = Some (ac_id r))
                 && set_contains DEAD_LETTER_WAITERS (wf_status w)
                 && bool_decide (wf_wait_kind w = Some KindActivity)
     | None => false
     end.

Definition workflow_key (r : WorkflowRow) : DefinitionKey := (wf_kind r, wf_version r).
Definition activity_key (r : ActivityRow) : DefinitionKey := (ac_kind r, ac_version r).

(** [ReadinessReport::query]. *)
Definition readiness_query (workflows : WorkflowRegistry) (activities : ActivityRegistry)
    (topics : TopicRegistry) : Tx ReadinessReport :=
  let! required_workflows := select_workflows (λ r, negb (set_contains TERMINAL (wf_status r))) in
  let! stored := select_activities (λ r, set_contains NON_TERMINAL (ac_status r)) in
  let! d := tx_get in
  let! dead_letters := select_activities (recoverable (db_workflow d)) in
  let report := compare_definitions workflows activities (workflow_key <$> required_workflows)
                  ((activity_key <$> stored) ++ (activity_key <$> dead_letters)) in
  let required := required_topics activities ++ (ac_topic <$> stored)
                  ++ (ac_topic <$> dead_letters) in
  tx_ret (MkReadinessReport (missing_workflows report) (missing_activities report)
    (dedup (sort_by String.leb (filter (λ topic, topics !! topic = None) required)))).

Definition ensure_ready (self : ReadinessReport) : Result unit :=
  match missing_workflows self, missing_activities self, missing_topics self with
  | [], [], [] => Ok tt
  | workflows, activities, topics => Err (MissingDefinitions workflows activities topics)
  end.

(** * The health scan *)

Definition MAX_HEALTH_ALERTS_PER_KIND : Z := 100.

(** [HealthScannerConfig::validate]. *)
Definition validate_health_config (stale_after : Duration) (max_alerts_per_kind : Z)
    : Result unit :=
  if (stale_after =? 0)%Z || (max_alerts_per_kind =? 0)%Z
     || (MAX_HEALTH_ALERTS_PER_KIND <? max_alerts_per_kind)%Z
  then Err (InvalidDefinition ("health scanner bounds require a non-zero stale duration and 1 to "
              +:+ fmt MAX_HEALTH_ALERTS_PER_KIND +:+ " alerts per kind"))
  else Ok tt.

(** The checks of [TransientErrorWindow::new]. *)
Definition validate_error_window (max_errors : Z) (window : Duration) : Result unit :=
  if (max_errors =? 0)%Z || (window =? 0)%Z
  then Err (InvalidDefinition
    "transient activation error alerts require a non-zero error limit and window")
  else Ok tt.

Inductive HealthAlert :=
  | MissingWorkflowDefinition (kind : string) (version : Z)
  | MissingActivityDefinition (kind : string) (version : Z)
  | MissingTopic (topic : string)
  | ActivationExhausted (workflow_id : WorkflowId) (kind : string) (version : Z)
  | ActivityDeadLettered (activity_id : ActivityId) (workflow_id : WorkflowId) (kind : string)
      (version : Z) (topic : string)
  | StaleWorkflow (workflow_id : WorkflowId) (kind : string) (version : Z)
  | StaleActivity (activity_id : ActivityId) (workflow_id : WorkflowId) (kind : string)
      (version : Z) (topic : string)
  | TransientActivationErrors (errors max_errors : Z) (window : Duration).

Definition readiness_alerts (readiness : ReadinessReport) (limit : nat) : list HealthAlert :=
  ((λ key, MissingWorkflowDefinition key.1 key.2) <$> take limit (missing_workflows readiness))
  ++ ((λ key, MissingActivityDefinition key.1 key.2)
        <$> take limit (missing_activities readiness))
  ++ (MissingTopic <$> take limit (missing_topics readiness)).

Definition workflow_id_le (a b : WorkflowRow) : bool := (wf_id a <=? wf_id b)%Z.
Definition activity_id_le (a b : ActivityRow) : bool := (ac_id a <=? ac_id b)%Z.

(** [lease_expires_at <= stale_before OR lease_expires_at IS NULL]. *)
Definition stale_lease (stale_before : DbMillis) (expires_at : option DbMillis) : bool :=
  match expires_at with Some at_ => (at_ <=? stale_before)%Z | None => true end.

Definition exhausted_workflow (r : WorkflowRow) : bool :=
  bool_decide (wf_status r = WfFailed ∧ wf_error_category r = Some "activation").

Definition stale_workflow (stale_before : DbMillis) (r : WorkflowRow) : bool :=
  bool_decide (wf_status r = WfRunning) && stale_lease stale_before (wf_lease_expires_at r).

Definition stale_activity (stale_before : DbMillis) (r : ActivityRow) : bool :=
  set_contains LEASE_HOLDERS (ac_status r) && stale_lease stale_before (ac_lease_expires_at r).

(** The first activity of a replacement chain. *)
Definition effective_root (r : ActivityRow) : ActivityId := default (ac_id r) (ac_root_activity_id r).

Definition dead_letter_alert (r : ActivityRow) : HealthAlert :=
  ActivityDeadLettered (ac_id r) (ac_workflow_id r) (ac_kind r) (ac_version r) (ac_topic r).

(** The [for] loop over the dead letters; [unresolved] counts its alerts. *)
Fixpoint dead_letter_alerts (resolved_roots : list ActivityId) (limit unresolved : nat)
    (dead_letters : list ActivityRow) : list HealthAlert :=
  match dead_letters with
  | [] => []
  | r :: rest =>
      if bool_decide (effective_root r ∈ resolved_roots)
      then dead_letter_alerts resolved_roots limit unresolved rest
      else if (limit <=? unresolved)%nat then []
      else dead_letter_alert r
           :: dead_letter_alerts resolved_roots limit (S unresolved) rest
  end.

(** [HealthScanner::scan_once]; the report is its alerts. *)
Definition scan_once (workflows : WorkflowRegistry) (activities : ActivityRegistry)
    (topics : TopicRegistry) (stale_after : Millis) (max_alerts_per_kind : nat)
    (captured_at : DbMillis) : Tx (list HealthAlert) :=
  let! readiness := readiness_query workflows activities topics in
  let alerts := readiness_alerts readiness max_alerts_per_kind in
  let limit := max_alerts_per_kind in
  let! stale_millis := tx_lift (ok_or (i64_try_from stale_after)
    (InvalidDefinition "health scanner stale duration exceeds the database range")) in
  let stale_before := saturating_minus_millis captured_at stale_millis in
  let! exhausted := select_workflows exhausted_workflow in
  let! dead_letters := select_activities (λ r, bool_decide (ac_status r = ActDeadLettered)) in
  let dead_letters := sort_by activity_id_le dead_letters in
  let candidate_roots := effective_root <$> dead_letters in
  let! resolved := select_activities (λ r, bool_decide (ac_status r = ActSucceeded)
      && (match ac_root_activity_id r with
          | Some root => bool_decide (root ∈ candidate_roots)
          | None => false
          end || bool_decide (ac_id r ∈ candidate_roots))) in
  let! stale_workflows := select_workflows (stale_workflow stale_before) in
  let! stale_activities := select_activities (stale_activity stale_before) in
  tx_ret (alerts
    ++ ((λ r, ActivationExhausted (wf_id r) (wf_kind r) (wf_version r))
          <$> take limit (sort_by workflow_id_le exhausted))
    ++ dead_letter_alerts (effective_root <$> resolved) limit 0 dead_letters
    ++ ((λ r, StaleWorkflow (wf_id r) (wf_kind r) (wf_version r))
          <$> take limit (sort_by workflow_id_le stale_workflows))
    ++ ((λ r, StaleActivity (ac_id r) (ac_workflow_id r) (ac_kind r) (ac_version r) (ac_topic r))
          <$> take limit (sort_by activity_id_le stale_activities))).

(** * Activations that rolled back *)

Record TransientErrorWindow := MkTransientErrorWindow {
  tw_max_errors : Z;
  tw_window : Duration;
  tw_count : Z;
  tw_window_started : option MonoInstant;
  tw_peak_over_limit : option Z;
}.

(** [TransientErrorWindow::new]. *)
Definition error_window_new (max_errors : Z) (window : Duration) : Result TransientErrorWindow :=
  let? _ := validate_error_window max_errors window in
  Ok (MkTransientErrorWindow max_errors window 0 None None).

Definition window_record (self : TransientErrorWindow) (now : MonoInstant)
    : TransientErrorWindow :=
  let expired := match tw_window_started self with
                 | Some started => (tw_window self <? saturating_duration_since now started)%Z
                 | None => true
                 end in
  let count := u32_saturating_add (if expired then 0 else tw_count self) 1 in
  MkTransientErrorWindow (tw_max_errors self) (tw_window self) count
    (if expired then Some now else tw_window_started self)
    (if (tw_max_errors self <? count)%Z
     then Some (match tw_peak_over_limit self with
                | Some peak => Z.max peak count
                | None => count
                end)
     else tw_peak_over_limit self).

Definition take_alert (self : TransientErrorWindow)
    : option HealthAlert * TransientErrorWindow :=
  ((λ errors, TransientActivationErrors errors (tw_max_errors self) (tw_window self))
     <$> tw_peak_over_limit self,
   MkTransientErrorWindow (tw_max_errors self) (tw_window self) (tw_count self)
     (tw_window_started self) None).

(** [ActivationCounters]: the atomics are [u64]. *)
Record ActivationCounters := MkActivationCounters {
  ctr_fence_misses : Z;
  ctr_transient_errors : Z;
  ctr_transient_window : TransientErrorWindow;
}.

Definition counters_record (self : ActivationCounters) (kind : BenignActivationKind)
    (now : MonoInstant) : ActivationCounters :=
  match kind with
  | FenceMiss =>
      MkActivationCounters ((ctr_fence_misses self + 1) mod 2 ^ 64) (ctr_transient_errors self)
        (ctr_transient_window self)
  | Coordinator.Transient =>
      MkActivationCounters (ctr_fence_misses self) ((ctr_transient_errors self + 1) mod 2 ^ 64)
        (window_record (ctr_transient_window self) now)
  end.
