(* ===== verification/Supervisor.v ===== *)
(** The supervisor of a runtime ([runtime/supervisor.rs]): its configuration,
    the manager of the running activity executions, and the loop that restarts
    failed tasks or stops the runtime.

    Tasks of [tokio] run concurrently; what the loops see is the sequence of
    their completions. The two loops are therefore step functions on their
    state, and a step relation lets the completions and the commands come in
    any order. A [Duration] is in nanoseconds, except in the configuration of
    the coordinator, which is in milliseconds. *)
From stdpp Require Import base gmap list strings.
From Stdlib Require Import ZArith Lia.
From S2P Require Import Prelude.
From S2P Require Import Errors.
From S2P Require Import Registry.
From S2P Require Import Coordinator.
From S2P Require Import Restart.
From S2P Require Import Health.

(** * Configuration *)

Definition secs (n : Z) : Duration := (n * 1000000000)%Z.

Definition MAX_TEMPORAL_POLL_INTERVAL : Duration := secs 60.

Record WorkerConfig := MkWorkerConfig {
  wc_heartbeat_interval : Duration; wc_shutdown_grace : Duration }.

Record RuntimeConfig := MkRuntimeConfig {
  rc_coordinator : CoordinatorConfig;
  rc_worker : WorkerConfig;
  rc_idle_delay : Duration;
  rc_restart_backoff : Duration;
  rc_max_restart_backoff : Duration;
  rc_task_healthy_after : Duration;
  rc_forced_shutdown_timeout : Duration;
  rc_max_task_restarts : Z;
  rc_restart_window : Duration;
  rc_max_transient_outage : Duration;
  rc_max_workers_per_topic : Z;
  rc_health_scan_interval : Duration;
  rc_health_stale_after : Duration;
  rc_max_health_alerts_per_kind : Z;
  rc_timer_poll_interval : Duration;
  rc_approval_expiry_poll_interval : Duration;
  rc_schedule_poll_interval : Duration;
  rc_max_transient_activation_errors : Z;
  rc_transient_activation_error_window : Duration;
}.

Definition default_worker_config : WorkerConfig := MkWorkerConfig (secs 5) (secs 30).

Definition default_runtime_config : RuntimeConfig :=
  {| rc_coordinator := default_coordinator_config;
     rc_worker := default_worker_config;
     rc_idle_delay := secs 2;
     rc_restart_backoff := secs 1;
     rc_max_restart_backoff := secs 60;
     rc_task_healthy_after := secs (2 * 60);
     rc_forced_shutdown_timeout := secs 5;
     rc_max_task_restarts := 8;
     rc_restart_window := secs (10 * 60);
     rc_max_transient_outage := secs (15 * 60);
     rc_max_workers_per_topic := 4;
     rc_health_scan_interval := secs 60;
     rc_health_stale_after := secs (5 * 60);
     rc_max_health_alerts_per_kind := 25;
     rc_timer_poll_interval := secs 10;
     rc_approval_expiry_poll_interval := secs 10;
     rc_schedule_poll_interval := secs 10;
     rc_max_transient_activation_errors := 10;
     rc_transient_activation_error_window := secs (5 * 60) |}.

Definition valid_temporal_poll_interval (interval : Duration) : bool :=
  negb (interval =? 0)%Z && (interval <=? MAX_TEMPORAL_POLL_INTERVAL)%Z.

(** The checks of [DurableRuntime::new]. *)
Definition validate_runtime (runtime_id : string) (config : RuntimeConfig) : Result unit :=
  if (str_len runtime_id =? 0)%nat
     || (rc_idle_delay config =? 0)%Z
     || (rc_restart_backoff config =? 0)%Z
     || (rc_task_healthy_after config =? 0)%Z
     || (rc_max_transient_outage config =? 0)%Z
     || (rc_forced_shutdown_timeout config =? 0)%Z
     || (rc_max_task_restarts config =? 0)%Z
     || (rc_restart_window config =? 0)%Z
     || (rc_max_workers_per_topic config =? 0)%Z
     || (rc_health_scan_interval config =? 0)%Z
     || (rc_health_stale_after config =? 0)%Z
     || (rc_max_health_alerts_per_kind config =? 0)%Z
     || (100 <? rc_max_health_alerts_per_kind config)%Z
     || negb (valid_temporal_poll_interval (rc_timer_poll_interval config))
     || negb (valid_temporal_poll_interval (rc_approval_expiry_poll_interval config))
     || negb (valid_temporal_poll_interval (rc_schedule_poll_interval config))
  then Err (InvalidDefinition "durable runtime identity and bounds must be non-zero")
  else
    let? _ := validate_config (rc_coordinator config) in
    let? _ := validate_health_config (rc_health_stale_after config)
                (rc_max_health_alerts_per_kind config) in
    validate_error_window (rc_max_transient_activation_errors config)
      (rc_transient_activation_error_window config).

(** [RestartPolicy::new]. *)
Definition restart_policy_new (config : RuntimeConfig) : RestartPolicy :=
  {| rp_initial_backoff := rc_restart_backoff config;
     rp_max_backoff := Z.max (rc_max_restart_backoff config) (rc_restart_backoff config);
     rp_healthy_after := rc_task_healthy_after config;
     rp_max_restarts := rc_max_task_restarts config;
     rp_window := rc_restart_window config;
     rp_max_transient_outage := rc_max_transient_outage config |}.

(** [with_topic_worker_limit]. *)
Definition with_topic_worker_limit (topics : TopicRegistry) (limits : gmap string Z)
    (topic : string) (limit : Z) : Result (gmap string Z) :=
  if (limit =? 0)%Z || bool_decide (topics !! topic = None)
  then Err (InvalidDefinition
    "local worker limit requires a registered topic and non-zero capacity")
  else Ok (<[topic := limit]> limits).

Definition local_topic_limit (topic : string) (global_limit default_local_limit : Z)
    (overrides : gmap string Z) : nat :=
  Z.to_nat (Z.min global_limit (default default_local_limit (overrides !! topic))).

Definition schedule_error_is_retryable (error : DurableError) : bool :=
  match error with
  | Database _ | Pool _ | PoolCheckout _ | Serialization _ => true
  | _ => false
  end.

(** * Failures of tasks *)

(** What a task of [tokio] that did not return leaves: whether it panicked,
    and the text of the error. *)
Record JoinError := MkJoinError { je_is_panic : bool; je_text : string }.

Record RuntimeTaskFailure := MkRuntimeTaskFailure {
  tf_message : string; tf_kind : TaskFailureKind }.

Record RuntimeTaskError := MkRuntimeTaskError {
  te_task : string; te_message : string; te_panicked : bool }.

Definition fault (message : string) : RuntimeTaskFailure := MkRuntimeTaskFailure message Fault.

(** [RuntimeTaskFailure::from]; [message] is the text of the error. *)
Definition failure_of_error (message : string) (error : DurableError) : RuntimeTaskFailure :=
  MkRuntimeTaskFailure message
    match transience error with
    | Some transience => Transient transience
    | None => Fault
    end.

Definition of_join_error (error : JoinError) : TaskFailureKind :=
  if je_is_panic error then Panic else Fault.

Definition join_error (task : string) (error : JoinError) : RuntimeTaskError :=
  MkRuntimeTaskError task (je_text error) (je_is_panic error).

(** * The manager of activity executions *)

Abbreviation TaskId := Z (only parsing).

Record ActivityExecutionTask := MkActivityExecutionTask {
  et_topic : string; et_dispatcher_generation : Z }.

Record ActivityExecutionSnapshot := MkActivityExecutionSnapshot {
  sn_total : nat; sn_active_by_topic : gmap string nat }.

(** The locals of [collect_activity_executions]; [co_executions] is the
    [JoinSet], [co_changes] the generation of the watch channel. *)
Record Collector := MkCollector {
  co_executions : gset TaskId;
  co_tasks_by_id : gmap TaskId ActivityExecutionTask;
  co_active_by_dispatcher : gmap Z nat;
  co_failed_dispatchers : gset Z;
  co_snapshot : ActivityExecutionSnapshot;
  co_failures : list RuntimeTaskFailure;
  co_supplemental_failures : list RuntimeTaskFailure;
  co_shutting_down : bool;
  co_changes : Z;
}.

Definition collector_new : Collector :=
  MkCollector ∅ ∅ ∅ ∅ (MkActivityExecutionSnapshot 0 ∅) [] [] false 0.

Definition activity_execution_manager_unavailable : RuntimeTaskFailure :=
  fault "activity execution manager is unavailable".

(** What a completed execution returned, or how it ended. *)
Inductive ExecutionResult :=
  | Returned (result : option DurableError)
  | NotReturned (error : JoinError).

(** [usize::checked_sub(1)]. *)
Definition checked_pred (n : nat) : option nat :=
  match n with O => None | S n' => Some n' end.

(** [*map.entry(key).or_default() += 1]. *)
Definition count_up {K} `{Countable K} (key : K) (m : gmap K nat) : gmap K nat :=
  <[key := S (default 0%nat (m !! key))]> m.

(** The [?] of a function that returns a [RuntimeTaskFailure]. *)
Definition or_failure {A B} (o : option A) (error : RuntimeTaskFailure)
    (k : A → B + RuntimeTaskFailure) : B + RuntimeTaskFailure :=
  match o with Some a => k a | None => inr error end.

(** The failures after a completion: the first of a dispatcher generation is
    primary, further ones supplemental. *)
Definition record_failure (self : Collector) (generation : Z) (result : ExecutionResult)
    : gset Z * list RuntimeTaskFailure * list RuntimeTaskFailure :=
  match result with
  | Returned _ => (co_failed_dispatchers self, co_failures self, co_supplemental_failures self)
  | NotReturned error =>
      let failure := MkRuntimeTaskFailure
        ("activity execution task failed: " +:+ je_text error) (of_join_error error) in
      if bool_decide (generation ∈ co_failed_dispatchers self)
      then (co_failed_dispatchers self, co_failures self,
            co_supplemental_failures self ++ [failure])
      else ({[ generation ]} ∪ co_failed_dispatchers self, co_failures self ++ [failure],
            co_supplemental_failures self)
  end.

Definition collect_activity_execution_result (self : Collector) (task_id : TaskId)
    (result : ExecutionResult) : Collector + RuntimeTaskFailure :=
  or_failure (co_tasks_by_id self !! task_id)
    (fault ("activity execution task " +:+ fmt task_id +:+ " had no topic record")) (λ task,
  or_failure (checked_pred (sn_total (co_snapshot self)))
    activity_execution_manager_unavailable (λ total,
  or_failure (sn_active_by_topic (co_snapshot self) !! et_topic task)
    (fault ("activity execution topic " +:+ et_topic task +:+ " had no active count")) (λ active,
  or_failure (checked_pred active) activity_execution_manager_unavailable (λ active,
  let '(failed, failures, supplemental) :=
    record_failure self (et_dispatcher_generation task) result in
  or_failure (co_active_by_dispatcher self !! et_dispatcher_generation task)
    activity_execution_manager_unavailable (λ group,
  or_failure (checked_pred group) activity_execution_manager_unavailable (λ group,
  inl {| co_executions := co_executions self;
         co_tasks_by_id := delete task_id (co_tasks_by_id self);
         co_active_by_dispatcher :=
           (if (group =? 0)%nat
            then delete (et_dispatcher_generation task)
            else <[et_dispatcher_generation task := group]>) (co_active_by_dispatcher self);
         co_failed_dispatchers := failed;
         co_snapshot := MkActivityExecutionSnapshot total
           (<[et_topic task := active]> (sn_active_by_topic (co_snapshot self)));
         co_failures := failures;
         co_supplemental_failures := supplemental;
         co_shutting_down := co_shutting_down self;
         co_changes := co_changes self |})))))).

(** [wrapping_add(1)] of the change generation. *)
Definition bump_changes (self : Collector) : Collector :=
  MkCollector (co_executions self) (co_tasks_by_id self) (co_active_by_dispatcher self)
    (co_failed_dispatchers self) (co_snapshot self) (co_failures self)
    (co_supplemental_failures self) (co_shutting_down self)
    ((co_changes self + 1) mod 2 ^ 64).

Definition take_activity_execution_failure (failures : list RuntimeTaskFailure)
    : option RuntimeTaskFailure :=
  match failures with
  | [] => None
  | failure :: rest =>
      let kind := if existsb (λ next, panicked (tf_kind next)) rest then Panic
                  else tf_kind failure in
      let additional := Z.of_nat (length rest) in
      let suffix := if (additional =? 1)%Z then "task" else "tasks" in
      Some (MkRuntimeTaskFailure
        (if (0 <? additional)%Z
         then tf_message failure +:+ "; " +:+ fmt additional
                +:+ " additional activity execution " +:+ suffix +:+ " failed"
         else tf_message failure) kind)
  end.

Definition finish_activity_execution_collection (failures : list RuntimeTaskFailure)
    : option RuntimeTaskFailure := head failures.

Definition with_failures (failures : list RuntimeTaskFailure) (self : Collector) : Collector :=
  MkCollector (co_executions self) (co_tasks_by_id self) (co_active_by_dispatcher self)
    (co_failed_dispatchers self) (co_snapshot self) failures
    (co_supplemental_failures self) (co_shutting_down self) (co_changes self).

Definition shut_down (self : Collector) : Collector :=
  MkCollector (co_executions self) (co_tasks_by_id self) (co_active_by_dispatcher self)
    (co_failed_dispatchers self) (co_snapshot self) (co_failures self)
    (co_supplemental_failures self) true (co_changes self).

(** The new execution [task_id] of a [Spawn] command. *)
Definition spawn_execution (self : Collector) (task_id : TaskId) (topic : string)
    (generation : Z) : Collector :=
  bump_changes
    (MkCollector ({[ task_id ]} ∪ co_executions self)
       (<[task_id := MkActivityExecutionTask topic generation]> (co_tasks_by_id self))
       (count_up generation (co_active_by_dispatcher self))
       (co_failed_dispatchers self)
       (MkActivityExecutionSnapshot (S (sn_total (co_snapshot self)))
          (count_up topic (sn_active_by_topic (co_snapshot self))))
       (co_failures self) (co_supplemental_failures self) (co_shutting_down self)
       (co_changes self)).

(** What the [select!] of the loop receives. A [TakeFailure] says whether the
    requester was there to receive the answer. *)
Inductive CollectorEvent :=
  | Completed (task_id : TaskId) (result : ExecutionResult)
  | Spawn (task_id : TaskId) (topic : string) (generation : Z)
  | Snapshot
  | TakeFailure (delivered : bool)
  | Shutdown
  | CommandsClosed.

(** An iteration of the loop: the next state, or what the loop returns. *)
Definition collector_step (self : Collector) (event : CollectorEvent)
    : Collector + option RuntimeTaskFailure :=
  if co_shutting_down self && bool_decide (co_executions self = ∅)
  then inr (finish_activity_execution_collection
              (co_failures self ++ co_supplemental_failures self))
  else match event with
       | Completed task_id result =>
           let joined := MkCollector (co_executions self ∖ {[ task_id ]}) (co_tasks_by_id self)
             (co_active_by_dispatcher self) (co_failed_dispatchers self) (co_snapshot self)
             (co_failures self) (co_supplemental_failures self) (co_shutting_down self)
             (co_changes self) in
           match collect_activity_execution_result joined task_id result with
           | inl self => inl (bump_changes self)
           | inr failure => inr (Some failure)
           end
       | Spawn task_id topic generation =>
           if co_shutting_down self then inl self
           else inl (spawn_execution self task_id topic generation)
       | Snapshot => inl self
       | TakeFailure delivered =>
           match take_activity_execution_failure (co_failures self) with
           | Some failure => inl (with_failures (if delivered then [] else [failure]) self)
           | None => inl self
           end
       | Shutdown => inl (shut_down self)
       | CommandsClosed =>
           inr (Some (fault "activity execution manager command channel closed"))
       end.

(** A [JoinSet] completes only tasks it holds, and gives a new task an id that
    none of its tasks has. *)
Definition event_ok (self : Collector) (event : CollectorEvent) : Prop :=
  match event with
  | Completed task_id _ => task_id ∈ co_executions self
  | Spawn task_id _ _ => task_id ∉ co_executions self
  | _ => True
  end.

Inductive collector_reachable : Collector → Prop :=
  | collector_start : collector_reachable collector_new
  | collector_next c event c' :
      collector_reachable c → event_ok c event → collector_step c event = inl c' →
      collector_reachable c'.

(** ** The counts are exact *)

Definition running_of (P : ActivityExecutionTask → Prop) `{!∀ t, Decision (P t)}
    (tasks : gmap TaskId ActivityExecutionTask) : nat :=
  size (filter (λ kv, P kv.2) tasks).

Record collector_ok (c : Collector) : Prop := {
  cok_executions : dom (co_tasks_by_id c) = co_executions c;
  cok_total : sn_total (co_snapshot c) = size (co_tasks_by_id c);
  cok_topic topic : default 0%nat (sn_active_by_topic (co_snapshot c) !! topic)
    = running_of (λ t, et_topic t = topic) (co_tasks_by_id c);
  cok_dispatcher g : co_active_by_dispatcher c !! g
    = (let n := running_of (λ t, et_dispatcher_generation t = g) (co_tasks_by_id c) in
       if decide (n = 0%nat) then None else Some n);
}.

Lemma running_of_insert P `{!∀ t, Decision (P t)} tasks id t :
  tasks !! id = None →
  running_of P (<[id := t]> tasks) = ((if decide (P t) then 1 else 0) + running_of P tasks)%nat.
Proof.
  intros Hid. unfold running_of. rewrite map_filter_insert. cbn [snd]. case_decide.
  - rewrite map_size_insert_None; [done|]. by rewrite map_lookup_filter, Hid.
  - by rewrite delete_id.
Qed.

Lemma running_of_delete P `{!∀ t, Decision (P t)} tasks id t :
  tasks !! id = Some t →
  running_of P tasks = ((if decide (P t) then 1 else 0) + running_of P (delete id tasks))%nat.
Proof.
  intros Hid. rewrite <- (insert_delete_id tasks id t Hid) at 1.
  rewrite running_of_insert; [done|apply lookup_delete_eq].
Qed.

Lemma spawn_execution_ok c id topic g :
  collector_ok c → id ∉ co_executions c → collector_ok (spawn_execution c id topic g).
Proof.
  intros [He Ht Htop Hd] Hid. rewrite <- He in Hid. apply not_elem_of_dom in Hid.
  split; cbn.
  - by rewrite dom_insert_L, He.
  - by rewrite map_size_insert_None, Ht.
  - intros topic'. rewrite running_of_insert by done. cbn. rewrite <- Htop. unfold count_up.
    destruct (decide (topic = topic')) as [->|Hne].
    + by rewrite lookup_insert_eq.
    + by rewrite lookup_insert_ne.
  - intros g'. rewrite running_of_insert by done. cbn. unfold count_up.
    destruct (decide (g = g')) as [->|Hne].
    + rewrite lookup_insert_eq, Hd. cbn. by case_decide as E; [rewrite E|].
    + rewrite lookup_insert_ne, Hd by done. done.
Qed.

(** No count is missing when an execution completes. *)
Lemma collect_result_ok c id result :
  id ∈ co_executions c → collector_ok c →
  ∃ c', collector_step c (Completed id result) = inl c' ∧ collector_ok c'.
Proof.
  intros Hid [He Ht Htop Hd]. unfold collector_step.
  rewrite (bool_decide_false (co_executions c = ∅)), andb_false_r by set_solver.
  rewrite <- He in Hid. apply elem_of_dom in Hid as [[topic g] Hid].
  unfold collect_activity_execution_result. cbn -[record_failure]. rewrite Hid. cbn -[record_failure].
  pose proof (λ P (D : ∀ t, Decision (P t)), running_of_delete P _ id _ Hid) as Hdel.
  assert (size (co_tasks_by_id c) = S (size (delete id (co_tasks_by_id c)))) as Hsize.
  { rewrite <- (insert_delete_id _ _ _ Hid) at 1.
    by rewrite map_size_insert_None by apply lookup_delete_eq. }
  pose proof (Htop topic) as Hactive. rewrite Hdel in Hactive. cbn in Hactive.
  rewrite decide_True in Hactive by done.
  destruct (sn_active_by_topic (co_snapshot c) !! topic) as [[|active]|] eqn:Ea; try done.
  pose proof (Hd g) as Hgroup. rewrite Hdel in Hgroup. cbn in Hgroup.
  rewrite (decide_True (P:=g = g)) in Hgroup by done. cbn in Hgroup.
  rewrite Ht, Hsize. cbn -[record_failure].
  destruct (record_failure _ _ _) as [[failed failures] supplemental].
  rewrite Hgroup. eexists. split; [done|].
  split; cbn.
  - rewrite dom_delete_L, He. done.
  - done.
  - intros topic'. pose proof (Htop topic') as Htop'. rewrite Hdel in Htop'.
    cbn [et_topic] in Htop'. destruct (decide (topic = topic')) as [->|Hne].
    + rewrite lookup_insert_eq. rewrite Ea in Htop'. cbn in *. lia.
    + by rewrite lookup_insert_ne.
  - intros g'. pose proof (Hd g') as Hd'. rewrite Hdel in Hd'.
    cbn [et_dispatcher_generation] in Hd'. destruct (decide (g = g')) as [->|Hne].
    + destruct (Nat.eqb_spec (running_of (λ t, et_dispatcher_generation t = g')
        (delete id (co_tasks_by_id c))) 0) as [E|E].
      * rewrite E. by rewrite lookup_delete_eq.
      * rewrite lookup_insert_eq. by rewrite decide_False.
    + destruct (_ =? 0)%nat; [rewrite lookup_delete_ne|rewrite lookup_insert_ne]; done.
Qed.

Lemma collector_step_ok c event c' :
  collector_ok c → event_ok c event → collector_step c event = inl c' → collector_ok c'.
Proof.
  intros Hok He. destruct event as [id result|id topic g| |delivered| |].
  { destruct (collect_result_ok c id result He Hok) as (c1 & -> & ?). by intros [= <-]. }
  all: unfold collector_step; destruct (_ && _); [done|]; intros Hs; repeat case_match;
    simplify_eq; try done; try by destruct Hok.
  by apply spawn_execution_ok.
Qed.

Lemma collector_reachable_ok c : collector_reachable c → collector_ok c.
Proof.
  induction 1 as [|c event c' _ IH He Hs]; [|by eapply collector_step_ok].
  by split.
Qed.

(** * The supervision loop *)

Inductive TaskSpec :=
  | TsActivityExecutionManager
  | TsCoordinator
  | TsHealth
  | TsTimer
  | TsApprovalExpiry
  | TsSchedule (key : string)
  | TsActivityDispatcher.

#[export] Instance TaskSpec_eq_dec : EqDecision TaskSpec.
Proof. solve_decision. Defined.

#[export] Instance TaskSpec_countable : Countable TaskSpec.
Proof.
  apply (inj_countable' (λ spec, match spec with
      | TsActivityExecutionManager => (0%nat, "")
      | TsCoordinator => (1%nat, "")
      | TsHealth => (2%nat, "")
      | TsTimer => (3%nat, "")
      | TsApprovalExpiry => (4%nat, "")
      | TsSchedule key => (5%nat, key)
      | TsActivityDispatcher => (6%nat, "")
      end)
    (λ p, match p with
      | (0%nat, _) => TsActivityExecutionManager
      | (1%nat, _) => TsCoordinator
      | (2%nat, _) => TsHealth
      | (3%nat, _) => TsTimer
      | (4%nat, _) => TsApprovalExpiry
      | (5%nat, key) => TsSchedule key
      | _ => TsActivityDispatcher
      end)).
  by intros [].
Defined.

Definition task_name (self : TaskSpec) : string :=
  match self with
  | TsActivityExecutionManager => "activity-execution-manager"
  | TsCoordinator => "coordinator"
  | TsHealth => "health"
  | TsTimer => "timer"
  | TsApprovalExpiry => "approval-expiry"
  | TsSchedule key => "schedule:" +:+ key
  | TsActivityDispatcher => "activity-dispatcher"
  end.

Record SupervisedTask := MkSupervisedTask { st_spec : TaskSpec; st_runs_from : MonoInstant }.

(** The locals of [supervise], with the cancellation token of the runtime;
    [sv_running] is the [JoinSet]. *)
Record Supervision := MkSupervision {
  sv_running : gset TaskId;
  sv_task_specs : gmap TaskId SupervisedTask;
  sv_restarts : gmap TaskSpec TaskRestarts;
  sv_errors : list RuntimeTaskError;
  sv_cancelled : bool;
}.

(** [spawn_child]: the new task has the id [task_id] and is spawned at [now]. *)
Definition spawn_child (self : Supervision) (task_id : TaskId) (spec : TaskSpec)
    (now : MonoInstant) (delay : Duration) : Supervision :=
  MkSupervision ({[ task_id ]} ∪ sv_running self)
    (<[task_id := MkSupervisedTask spec (now + delay)]> (sv_task_specs self))
    (sv_restarts self) (sv_errors self) (sv_cancelled self).

(** The tasks of a runtime, in the order they are spawned. *)
Definition runtime_specs (schedule_keys : list string) : list TaskSpec :=
  [TsActivityExecutionManager; TsCoordinator; TsHealth; TsTimer; TsApprovalExpiry]
  ++ (TsSchedule <$> schedule_keys) ++ [TsActivityDispatcher].

Definition no_tasks : Supervision := MkSupervision ∅ ∅ ∅ [] false.

(** The state before the loop: a spawned task for each spec. *)
Definition spawn_all (specs : list (TaskId * MonoInstant * TaskSpec)) : Supervision :=
  foldl (λ s '(task_id, now, spec), spawn_child s task_id spec now 0) no_tasks specs.

(** How a task of the runtime ended. *)
Inductive TaskResult :=
  | Stopped
  | Failed (failure : RuntimeTaskFailure)
  | TaskNotReturned (error : JoinError).

Definition cancel (self : Supervision) : Supervision :=
  MkSupervision (sv_running self) (sv_task_specs self) (sv_restarts self) (sv_errors self) true.

Definition push_errors (errors : list RuntimeTaskError) (self : Supervision) : Supervision :=
  MkSupervision (sv_running self) (sv_task_specs self) (sv_restarts self)
    (sv_errors self ++ errors) (sv_cancelled self).

Definition failure_error (task : string) (failure : RuntimeTaskFailure) : RuntimeTaskError :=
  MkRuntimeTaskError task (tf_message failure) (panicked (tf_kind failure)).

(** The error of [activity_executions.shutdown()], if it failed, for the task
    whose end shuts the manager down. *)
Definition shutdown_errors (spec : TaskSpec) (shutdown : option RuntimeTaskFailure)
    : list RuntimeTaskError :=
  if decide (spec = TsActivityDispatcher)
  then match shutdown with
       | Some failure => [failure_error (task_name TsActivityExecutionManager) failure]
       | None => []
       end
  else [].

(** The error of a task that ended, and its kind for the restart policy. *)
Definition task_failure (spec : TaskSpec) (result : TaskResult)
    : RuntimeTaskError * TaskFailureKind :=
  match result with
  | Stopped => (MkRuntimeTaskError (task_name spec) "task stopped unexpectedly" false, Fault)
  | Failed failure => (failure_error (task_name spec) failure, tf_kind failure)
  | TaskNotReturned error => (join_error (task_name spec) error, of_join_error error)
  end.

(** What the policy decides for a failed task, and its restart state. *)
Definition decide_restart (self : Supervision) (policy : RestartPolicy) (task : SupervisedTask)
    (kind : TaskFailureKind) (now : MonoInstant)
    : RestartDecision * gmap TaskSpec TaskRestarts :=
  if decide (st_spec task = TsActivityExecutionManager)
  then (Stop Unrestartable, sv_restarts self)
  else
    let restarts := default (restarts_new now policy) (sv_restarts self !! st_spec task) in
    let '(decision, restarts) := on_failure restarts now
      (saturating_duration_since now (st_runs_from task)) kind policy in
    (decision, <[st_spec task := restarts]> (sv_restarts self)).

(** A completion as the loop sees it: the task, its result, the instants of
    the restart decision and of the new task, the id of the new task, and the
    result of a shutdown of the manager. *)
Record Joined := MkJoined {
  jn_task_id : TaskId;
  jn_result : TaskResult;
  jn_now : MonoInstant;
  jn_spawn_id : TaskId;
  jn_spawned_at : MonoInstant;
  jn_shutdown : option RuntimeTaskFailure;
}.

(** An iteration of the [while let Some(joined)] loop. *)
Definition supervise_step (policy : RestartPolicy) (self : Supervision) (joined : Joined)
    : Supervision :=
  let id := jn_task_id joined in
  let popped := MkSupervision (sv_running self ∖ {[ id ]}) (delete id (sv_task_specs self))
                  (sv_restarts self) (sv_errors self) (sv_cancelled self) in
  match sv_task_specs self !! id with
  | None =>
      cancel (push_errors [MkRuntimeTaskError "supervisor"
        ("completed task " +:+ fmt id +:+ " had no supervision record") false] popped)
  | Some task =>
      let spec := st_spec task in
      if sv_cancelled self
      then
        let errors := match jn_result joined with
                      | TaskNotReturned error => [join_error (task_name spec) error]
                      | Failed failure => [failure_error (task_name spec) failure]
                      | Stopped => []
                      end in
        push_errors (errors ++ shutdown_errors spec (jn_shutdown joined)) popped
      else
        let '(task_error, kind) := task_failure spec (jn_result joined) in
        let '(decision, restarts) := decide_restart self policy task kind (jn_now joined) in
        let decided := MkSupervision (sv_running popped) (sv_task_specs popped) restarts
                         (sv_errors popped ++ [task_error]) (sv_cancelled popped) in
        match decision with
        | Restart delay =>
            spawn_child decided (jn_spawn_id joined) spec (jn_spawned_at joined) delay
        | Stop _ =>
            push_errors (shutdown_errors spec (jn_shutdown joined)) (cancel decided)
        end
  end.

(** A completion of a running task, whose replacement gets an id no other
    running task has. *)
Definition joined_ok (self : Supervision) (joined : Joined) : Prop :=
  jn_task_id joined ∈ sv_running self
  ∧ jn_spawn_id joined ∉ sv_running self ∖ {[ jn_task_id joined ]}.

(** The states of a supervisor of [specs]; the application may cancel it at
    any time. *)
Inductive supervised (policy : RestartPolicy) (specs : list TaskSpec) : Supervision → Prop :=
  | supervised_start ids :
      specs = snd <$> ids → NoDup (fst ∘ fst <$> ids) → supervised policy specs (spawn_all ids)
  | supervised_join s joined :
      supervised policy specs s → joined_ok s joined →
      supervised policy specs (supervise_step policy s joined)
  | supervised_cancel s : supervised policy specs s → supervised policy specs (cancel s).

(** ** Every task is supervised *)

Definition running_specs (s : Supervision) : list TaskSpec :=
  st_spec ∘ snd <$> map_to_list (sv_task_specs s).

Record supervision_ok (specs : list TaskSpec) (s : Supervision) : Prop := {
  sok_running : dom (sv_task_specs s) = sv_running s;
  sok_specs : running_specs s ⊆+ specs;
  sok_all : sv_cancelled s = false → running_specs s ≡ₚ specs;
}.

Lemma running_specs_insert s id task :
  sv_task_specs s !! id = None →
  st_spec ∘ snd <$> map_to_list (<[id := task]> (sv_task_specs s))
  ≡ₚ st_spec task :: running_specs s.
Proof. intros. unfold running_specs. by rewrite map_to_list_insert. Qed.

Lemma running_specs_delete s id task :
  sv_task_specs s !! id = Some task →
  running_specs s
  ≡ₚ st_spec task :: (st_spec ∘ snd <$> map_to_list (delete id (sv_task_specs s))).
Proof. intros. unfold running_specs. by rewrite <- (map_to_list_delete _ id task). Qed.

Lemma spawn_all_ok ids s :
  NoDup (fst ∘ fst <$> ids) → (∀ x, x ∈ ids → x.1.1 ∉ dom (sv_task_specs s)) →
  dom (sv_task_specs s) = sv_running s →
  let s' := foldl (λ s '(task_id, now, spec), spawn_child s task_id spec now 0) s ids in
  dom (sv_task_specs s') = sv_running s'
  ∧ running_specs s' ≡ₚ running_specs s ++ (snd <$> ids)
  ∧ sv_cancelled s' = sv_cancelled s.
Proof.
  revert s. induction ids as [|[[id now] spec] ids IH]; intros s Hnd Hnew Hdom; cbn.
  { by rewrite app_nil_r. }
  cbn in Hnd. apply NoDup_cons in Hnd as [Hid Hnd].
  assert (sv_task_specs s !! id = None) as Hfree.
  { apply not_elem_of_dom. by apply (Hnew (id, now, spec)); left. }
  destruct (IH (spawn_child s id spec now 0)) as (Hd & Hs & Hc); [done| | |].
  - intros x Hx. cbn. rewrite dom_insert, not_elem_of_union, not_elem_of_singleton.
    split; [|by apply Hnew; right]. intros Heq. apply Hid. rewrite <- Heq.
    by apply (list_elem_of_fmap_2 (fst ∘ fst)).
  - cbn. by rewrite dom_insert_L, Hdom.
  - split_and!; [done| |done]. rewrite Hs.
    change (running_specs (spawn_child s id spec now 0))
      with (st_spec ∘ snd <$> map_to_list
              (<[id := MkSupervisedTask spec (now + 0)]> (sv_task_specs s))).
    rewrite running_specs_insert by done. cbn. by rewrite Permutation_middle.
Qed.

Lemma supervise_step_ok policy specs s joined :
  supervision_ok specs s → joined_ok s joined →
  supervision_ok specs (supervise_step policy s joined).
Proof.
  intros [Hdom Hsub Hall] [Hin Hfresh].
  assert (Hin' := Hin). rewrite <- Hdom in Hin'. apply elem_of_dom in Hin' as [task Htask].
  pose proof (running_specs_delete s _ _ Htask) as Hdel.
  assert (sv_task_specs s !! jn_task_id joined = Some task) as Htask' by done.
  unfold supervise_step. rewrite Htask'.
  assert (Hpop : dom (delete (jn_task_id joined) (sv_task_specs s))
                 = sv_running s ∖ {[ jn_task_id joined ]}) by (by rewrite dom_delete_L, Hdom).
  assert (st_spec ∘ snd <$> map_to_list (delete (jn_task_id joined) (sv_task_specs s))
          ⊆+ specs) as Hsub'.
  { etrans; [|exact Hsub]. rewrite Hdel. by apply submseteq_cons. }
  destruct (sv_cancelled s) eqn:Ec; [by split|].
  destruct (task_failure _ _) as [task_error kind].
  destruct (decide_restart _ _ _ _ _) as [[delay|reason] restarts]; [|by split].
  assert (delete (jn_task_id joined) (sv_task_specs s) !! jn_spawn_id joined = None) as Hfree.
  { apply not_elem_of_dom. by rewrite Hpop. }
  assert (st_spec ∘ snd <$> map_to_list
      (<[jn_spawn_id joined := MkSupervisedTask (st_spec task) (jn_spawned_at joined + delay)]>
         (delete (jn_task_id joined) (sv_task_specs s))) ≡ₚ specs) as Hperm.
  { rewrite map_to_list_insert by done. cbn. by rewrite <- Hdel, Hall. }
  split; cbn.
  - by rewrite dom_insert_L, Hpop.
  - unfold running_specs. cbn. by rewrite Hperm.
  - done.
Qed.

Lemma supervised_ok policy specs s : supervised policy specs s → supervision_ok specs s.
Proof.
  induction 1 as [ids -> Hnd|s joined _ IH Hj|s _ [Hd Hs _]].
  - destruct (spawn_all_ok ids no_tasks) as (Hd & Hs & Hc); [done|set_solver|done|].
    rewrite app_nil_l in Hs. split; [done| |done]. by rewrite Hs.
  - by apply supervise_step_ok.
  - by split.
Qed.

(** ** The end of a cancelled runtime *)

(** Completions that can follow each other. *)
Fixpoint joins_ok (policy : RestartPolicy) (s : Supervision) (l : list Joined) : Prop :=
  match l with
  | [] => True
  | joined :: l' => joined_ok s joined ∧ joins_ok policy (supervise_step policy s joined) l'
  end.

Lemma cancelled_step policy s joined :
  sv_cancelled s = true →
  sv_cancelled (supervise_step policy s joined) = true
  ∧ sv_running (supervise_step policy s joined) = sv_running s ∖ {[ jn_task_id joined ]}.
Proof. intros Hc. unfold supervise_step. case_match; [rewrite Hc|]; done. Qed.

Lemma cancelled_joins policy s l :
  sv_cancelled s = true → joins_ok policy s l →
  let s' := foldl (supervise_step policy) s l in
  sv_cancelled s' = true ∧ size (sv_running s) = (length l + size (sv_running s'))%nat.
Proof.
  revert s. induction l as [|joined l IH]; intros s Hc Hl; [done|].
  destruct Hl as [[Hin _] Hl]. destruct (cancelled_step policy s joined Hc) as [Hc' Hr].
  destruct (IH _ Hc' Hl) as [Hc'' Hsize]. split; [done|]. cbn -[size]. rewrite Hr in Hsize.
  rewrite size_difference in Hsize by set_solver. rewrite size_singleton in Hsize.
  assert (size (sv_running s) ≠ 0%nat) by (apply size_non_empty_iff; set_solver). lia.
Qed.

(** * What the supervisor guarantees *)

(** C27: as long as the runtime is not cancelled, exactly one task of each of
    its specs runs: a task that ends, whatever the reason, is replaced by one
    of the same spec or the runtime is cancelled. A cancelled runtime runs
    some of them, none twice. Every running task has its supervision record,
    so the loop never stops for an unsupervised task. *)
Theorem every_task_is_supervised (policy : RestartPolicy) (specs : list TaskSpec)
    (s : Supervision) :
  supervised policy specs s →
  (sv_cancelled s = false → running_specs s ≡ₚ specs)
  ∧ running_specs s ⊆+ specs
  ∧ ∀ id, id ∈ sv_running s → is_Some (sv_task_specs s !! id).
Proof.
  intros [Hdom Hsub Hall]%supervised_ok. split_and!; [done|done|].
  intros id. by rewrite <- Hdom, elem_of_dom.
Qed.

(** C29: a cancelled runtime ends. It starts no task any more, so the loop
    sees at most as many completions as tasks run, and after that many it
    returns. *)
Theorem cancelled_runtime_ends (policy : RestartPolicy) (s : Supervision) (l : list Joined) :
  sv_cancelled s = true → joins_ok policy s l →
  let s' := foldl (supervise_step policy) s l in
  sv_cancelled s' = true ∧ (length l ≤ size (sv_running s))%nat
  ∧ (length l = size (sv_running s) → sv_running s' = ∅).
Proof.
  intros Hc Hl. destruct (cancelled_joins policy s l Hc Hl) as [Hc' Hsize].
  split_and!; [done|lia|]. intros Hlen. apply leibniz_equiv, size_empty_iff. lia.
Qed.

(** The counts of the execution manager are exact in every state it
    reaches: the total, the count of each topic and of each dispatcher
    generation are the numbers of running executions, and the completion of
    any of them is accounted for without an internal error. *)
Theorem collector_is_exact (c : Collector) :
  collector_reachable c →
  sn_total (co_snapshot c) = size (co_executions c)
  ∧ (∀ topic, default 0%nat (sn_active_by_topic (co_snapshot c) !! topic)
       = running_of (λ t, et_topic t = topic) (co_tasks_by_id c))
  ∧ (∀ g, default 0%nat (co_active_by_dispatcher c !! g)
       = running_of (λ t, et_dispatcher_generation t = g) (co_tasks_by_id c))
  ∧ (∀ id result, id ∈ co_executions c →
       ∃ c', collector_step c (Completed id result) = inl c').
Proof.
  intros Hok%collector_reachable_ok. pose proof Hok as [He Ht Htop Hd]. split_and!.
  - by rewrite Ht, <- He, size_dom.
  - done.
  - intros g. rewrite Hd. cbn. by case_decide as E; [rewrite E|].
  - intros id result Hid. destruct (collect_result_ok c id result Hid Hok) as (c' & ? & _). eauto.
Qed.

(** ** Examples *)

Definition example_specs : list TaskSpec := runtime_specs ["nightly_report"].

Definition example_runtime : Supervision :=
  spawn_all (imap (λ i spec, (Z.of_nat i, 0%Z, spec)) example_specs).

Definition example_restart_policy : RestartPolicy := restart_policy_new default_runtime_config.

(** The coordinator (task 1) fails on an unreachable database. *)
Definition example_failure : Joined :=
  MkJoined 1 (Failed (MkRuntimeTaskFailure "pool timed out" (Transient Unavailable)))
    (secs 30) 7 (secs 30) None.

Lemma every_task_is_supervised_witness :
  (sv_cancelled (supervise_step example_restart_policy example_runtime example_failure) = false →
   running_specs (supervise_step example_restart_policy example_runtime example_failure)
   ≡ₚ example_specs)
  ∧ running_specs (supervise_step example_restart_policy example_runtime example_failure)
    ⊆+ example_specs
  ∧ ∀ id, id ∈ sv_running (supervise_step example_restart_policy example_runtime example_failure)
      → is_Some (sv_task_specs (supervise_step example_restart_policy example_runtime
                                  example_failure) !! id).
Proof.
  apply (every_task_is_supervised example_restart_policy).
  apply supervised_join.
  - apply supervised_start; [reflexivity|]. vm_compute. repeat constructor; set_solver.
  - split; [|vm_compute]; apply (bool_decide_unpack _); vm_compute; exact I.
Defined.

(** The tasks of the cancelled runtime stop one after the other. *)
Definition example_stops : list Joined :=
  imap (λ i _, MkJoined (Z.of_nat i) Stopped (secs 40) 100 (secs 40) None) example_specs.

Lemma cancelled_runtime_ends_witness :
  length example_stops = 7%nat ∧
  sv_running (foldl (supervise_step example_restart_policy) (cancel example_runtime)
                example_stops) = ∅.
Proof.
  split; [reflexivity|].
  apply (cancelled_runtime_ends example_restart_policy (cancel example_runtime) example_stops).
  - reflexivity.
  - vm_compute. repeat split; apply (bool_decide_unpack _); vm_compute; exact I.
  - vm_compute. reflexivity.
Defined.

Definition example_collector : Collector :=
  spawn_execution collector_new 3 "payments" 1.

Lemma collector_is_exact_witness :
  sn_total (co_snapshot example_collector) = size (co_executions example_collector)
  ∧ ∃ c', collector_step example_collector (Completed 3 (Returned None)) = inl c'.
Proof.
  assert (collector_reachable example_collector) as Hr.
  { apply (collector_next collector_new (Spawn 3 "payments" 1)); [constructor|set_solver|].
    vm_compute. reflexivity. }
  destruct (collector_is_exact example_collector Hr) as (Ht & _ & _ & Hc).
  split; [exact Ht|]. apply Hc. set_solver.
Defined.
