(* ===== verification/Reads.v ===== *)
(** The operations that only read, and transactions that end in an error. *)
From stdpp Require Import base gmap list strings.
From Stdlib Require Import ZArith Lia.
From S2P Require Import Prelude.
From S2P Require Import Errors.
From S2P Require Import Status.
From S2P Require Import Rows.
From S2P Require Import Database.
From S2P Require Import TxLogic.
From S2P Require Import Evolution.
From S2P Require Import Policy.
From S2P Require Import Transitions.
From S2P Require Import Registry.
From S2P Require Import Parents.
From S2P Require Import Store.
From S2P Require Import StoreSteps.
From S2P Require Import Coordinator.
From S2P Require Import CoordinatorSteps.
From S2P Require Import Worker.
From S2P Require Import WorkerSteps.
From S2P Require Import Control.
From S2P Require Import ControlSteps.

(** An operation that leaves the tables as they are. *)
Class ReadOnly {A} (m : Tx A) : Prop :=
  read_only : ∀ e d, wp any_error m e d (λ _ d', d' = d).

Lemma wp_read {A} (m : Tx A) `{Hm : !ReadOnly m} e d (Φ : A → Db → Prop) :
  (∀ a, Φ a d) → wp any_error m e d Φ.
Proof. intros HΦ. eapply wp_mono; [apply Hm|]. by intros a d' ->. Qed.

(** The call of an operation in a run: the primitive inserts and events by
    their rules, a read by its instance. *)
Ltac read_call :=
  lazymatch goal with
  | |- wp _ ?m _ _ _ =>
      lazymatch m with
      | next_event_sequence _ => apply wp_next_event_sequence; [exact I|intros ?]
      | append_event _ => apply wp_append_event; intros ?
      | insert_workflow _ => apply wp_insert_workflow; [|intros ?]
      | insert_activity _ => apply wp_insert_activity; intros ?
      | insert_approval _ => apply wp_insert_approval; intros ?
      | insert_attempt _ => apply wp_insert_attempt; intros ?
      | _ => apply (wp_read m); intros ?
      end
  end.

Ltac run_step := wp_step ltac:(fun _ => read_call).
Ltac reads := intros ? ?; cbv zeta; repeat run_step; try done.

#[export] Instance find_by_deduplication_key_reads kind key :
  ReadOnly (find_by_deduplication_key kind key).
Proof. unfold find_by_deduplication_key. reads. Qed.

#[export] Instance find_by_deduplication_key_for_update_reads kind key :
  ReadOnly (find_by_deduplication_key_for_update kind key).
Proof. apply find_by_deduplication_key_reads. Qed.

#[export] Instance lock_workflow_by_id_reads id : ReadOnly (lock_workflow_by_id id).
Proof. unfold lock_workflow_by_id. reads. Qed.

#[export] Instance lock_successor_reads row : ReadOnly (lock_successor row).
Proof. unfold lock_successor. reads. Qed.

#[export] Instance db_fuel_reads : ReadOnly db_fuel.
Proof. unfold db_fuel. reads. Qed.

#[export] Instance out_of_fuel_reads {A} : ReadOnly (@out_of_fuel A).
Proof. unfold out_of_fuel. reads. Qed.

#[export] Instance lock_newest_generation_reads fuel row :
  ReadOnly (lock_newest_generation fuel row).
Proof. revert row. induction fuel; intros row; simpl; reads. Qed.

(** The walk along the generations ends at a row of the table. *)
Lemma wp_newest_current e d fuel row (Φ : WorkflowRow → Db → Prop) :
  db_ok d → db_workflow d !! wf_id row = Some row →
  (∀ r, db_workflow d !! wf_id r = Some r → Φ r d) →
  wp any_error (lock_newest_generation fuel row) e d Φ.
Proof.
  intros Hok Hrow HΦ. revert row Hrow. induction fuel as [|fuel IH]; intros row Hrow; simpl.
  { unfold out_of_fuel. by apply wp_fail. }
  apply wp_bind. unfold lock_successor. apply wp_bind, wp_select_workflows. intros rows Hrows.
  apply wp_ret. destruct (head rows) as [r|] eqn:Eh; [|by apply wp_ret, HΦ].
  apply IH. apply head_Some_elem_of, Hrows in Eh as [_ [id Hid]].
  by rewrite (proj1 (ok_workflow _ Hok _ _ Hid)).
Qed.

#[export] Instance owned_children_reads id : ReadOnly (owned_children id).
Proof. unfold owned_children. reads. Qed.

#[export] Instance lock_fence_reads claim : ReadOnly (lock_fence claim).
Proof. unfold lock_fence. reads. Qed.

#[export] Instance relock_expired_reads now page : ReadOnly (relock_expired now page).
Proof. induction page; simpl; reads. Qed.

#[export] Instance scan_expired_reads fuel now cursor : ReadOnly (scan_expired fuel now cursor).
Proof. revert cursor. induction fuel; intros cursor; simpl; reads. Qed.

#[export] Instance lock_first_due_reads now candidates :
  ReadOnly (lock_first_due now candidates).
Proof. induction candidates; simpl; reads. Qed.

#[export] Instance resume_status_reads workflow : ReadOnly (resume_status workflow).
Proof. unfold resume_status. reads. Qed.

Section reads.
Context `{Codec}.

#[export] Instance resolve_existing_child_reads child keyed :
  ReadOnly (resolve_existing_child child keyed).
Proof. unfold resolve_existing_child. reads. Qed.

#[export] Instance ancestor_walk_reads fuel claim target current :
  ReadOnly (ancestor_walk fuel claim target current).
Proof. revert current. induction fuel; intros [?|]; simpl; reads. Qed.

#[export] Instance is_caller_or_ancestor_reads claim target :
  ReadOnly (is_caller_or_ancestor claim target).
Proof. unfold is_caller_or_ancestor. reads. Qed.

#[export] Instance in_flight_reads topic unsettled now : ReadOnly (in_flight topic unsettled now).
Proof. unfold in_flight. reads. Qed.

#[export] Instance select_candidates_reads definitions topic now :
  ReadOnly (select_candidates definitions topic now).
Proof. unfold select_candidates. reads. Qed.
End reads.

(** A run that cannot return ends in an error and changes nothing. *)
Lemma wp_rejected {A} Ψ (m : Tx A) e d :
  wp Ψ m e d (λ _ _, False) → ∃ err, Ψ err ∧ transaction e m d = (Err err, d).
Proof.
  intros Hm. pose proof (wp_transaction _ _ _ _ _ Hm) as Ht.
  destruct (transaction e m d) as [[a|err] d']; [done|].
  destruct Ht as [HΨ ->]. by exists err.
Qed.

(** A committed transaction satisfies the condition of its run. *)
Lemma wp_committed {A} Ψ (m : Tx A) e d d' a Φ :
  wp Ψ m e d Φ → transaction e m d = (Ok a, d') → Φ a d'.
Proof. intros Hm Ht. pose proof (wp_transaction _ _ _ _ _ Hm) as H. by rewrite Ht in H. Qed.

(** Turns a goal about the tables after a committed transaction into its run. *)
Ltac committed Ht :=
  lazymatch type of Ht with
  | transaction _ _ _ = (Ok _, ?d') =>
      pattern d';
      lazymatch goal with
      | |- ?G d' => refine (wp_committed any_error _ _ _ _ _ (λ _, G) _ Ht); clear Ht d'
      end
  end.
