(* ===== verification/Protocol.v ===== *)
(** The engine as a transition system: one step is one transaction of one of
    its actors, with any clock, any UUIDs, any rows held by others and any
    claim or arguments, committed or rolled back. The theorems show that the
    system refines the state machines of [Lifecycle] and keeps the safety
    invariants of [docs/INVARIANTS.md] in every reachable state. *)
From stdpp Require Import base gmap list strings relations.
From Stdlib Require Import ZArith Lia.
From S2P Require Import Prelude.
From S2P Require Import Errors.
From S2P Require Import Status.
From S2P Require Import Rows.
From S2P Require Import Database.
From S2P Require Import TxLogic.
From S2P Require Import Lifecycle.
From S2P Require Import Evolution.
From S2P Require Import Policy.
From S2P Require Import Transitions.
From S2P Require Import Registry.
From S2P Require Import Parents.
From S2P Require Import Store.
From S2P Require Import StoreSteps.
From S2P Require Import Coordinator.
From S2P Require Import CoordinatorSteps.
From S2P Require Import Worker.
From S2P Require Import WorkerSteps.
From S2P Require Import Temporal.
From S2P Require Import TemporalSteps.
From S2P Require Import Control.
From S2P Require Import ControlSteps.
From S2P Require Import Reads.
From S2P Require Import Calendar.
From S2P Require Import Schedules.
From S2P Require Import SchedulesSteps.
From S2P Require Import Progress.
From S2P Require Import ProgressSteps.

#[export] Hint Opaque insert_topic_lock_if_absent insert_topic_locks_if_absent
  compare_topic_locks : typeclass_instances.

#[export] Instance insert_topic_lock_if_absent_evolves row :
  Evolves (insert_topic_lock_if_absent row).
Proof. unfold insert_topic_lock_if_absent. evolves. Qed.

#[export] Instance insert_topic_locks_if_absent_evolves rows :
  Evolves (insert_topic_locks_if_absent rows).
Proof. unfold insert_topic_locks_if_absent. evolves. Qed.

#[export] Instance compare_topic_locks_evolves topics : Evolves (compare_topic_locks topics).
Proof. unfold compare_topic_locks. evolves. Qed.

Section protocol.
Context `{Codec, Chrono}.

(** What application code does with the connection of a transaction: it reads,
    and it calls the transactional API. *)
Inductive Transactional : ∀ {A : Type}, Tx A → Prop :=
  | tr_read {A} (m : Tx A) : ReadOnly m → Transactional m
  | tr_bind {A B} (m : Tx A) (f : A → Tx B) :
      Transactional m → (∀ a, Transactional (f a)) → Transactional (tx_bind m f)
  | tr_start kind version input state options :
      Transactional (start kind version input state options)
  | tr_start_prepared prepared options :
      Transactional (start_prepared_with_conn prepared options)
  | tr_recover kind version input state options :
      Transactional (start_or_restart_recoverable kind version input state options)
  | tr_cancel id reason : Transactional (cancel_with_conn id reason).

Lemma Transactional_evolves {A} (m : Tx A) : Transactional m → Evolves m.
Proof.
  induction 1 as [A m Hm|A B m f _ IHm _ IHf| | | |]; try typeclasses eauto; intros e d Hok.
  - eapply wp_mono; [apply Hm|]. intros a d' ->. by apply evolves_refl.
  - apply wp_bind. eapply wp_mono; [by apply IHm|]. intros a d1 Hd1.
    eapply wp_mono; [apply IHf, Hd1|]. intros b d2 [Hok2 Hd2]. split; [done|].
    destruct Hd1. by etrans.
Qed.

(** The handlers of the schedules are such code. *)
Definition registry_transactional (registry : ScheduleRegistry) : Prop :=
  ∀ key definition run_id scheduled_for, registry !! key = Some definition →
    Transactional (rs_handler definition run_id scheduled_for).

Lemma registry_transactional_evolves registry :
  registry_transactional registry → registry_evolves registry.
Proof. intros Hreg key definition run_id at_ Hd. by eapply Transactional_evolves, Hreg. Qed.

(** The transactions of the actors (section 2 of the document). *)
Inductive Engine : ∀ {A : Type}, Tx A → Prop :=
  (* the topic locks: the statements of [seed_locks_once] *)
  | eng_seed rows : Engine (insert_topic_locks_if_absent rows)
  | eng_compare topics : Engine (compare_topic_locks topics)
  (* the application API: T-X1, T-X2, T-X3 *)
  | eng_start kind version input state options :
      Engine (start kind version input state options)
  | eng_start_prepared prepared options : Engine (start_prepared_with_conn prepared options)
  | eng_recover kind version input state options :
      Engine (start_or_restart_recoverable kind version input state options)
  | eng_cancel id reason : Engine (cancel_with_conn id reason)
  (* the coordinator: T-C1, T-C2, T-C3 *)
  | eng_claim config worker definitions : Engine (claim_row config worker definitions)
  | eng_commit config claim event transition :
      Engine (commit_on_connection config claim event transition)
  | eng_fail config claim message : Engine (record_activation_failure config claim message)
  (* the activity worker: T-W1 to T-W4 *)
  | eng_claim_one activities topics worker topic started :
      Engine (claim_one activities topics worker topic started)
  | eng_claim_batch activities topics worker limit capacity started :
      Engine (claim_batch activities topics worker limit capacity started)
  | eng_heartbeat claim started : Engine (heartbeat_once claim started)
  | eng_finish claim outcome : Engine (finish_on_connection claim outcome)
  | eng_report json_value reporter event : Engine (report json_value reporter event)
  (* the materializers: T-T1, T-A1 *)
  | eng_timer now : Engine (materialize_timer now)
  | eng_expire now approval workflow : Engine (expire_candidate now approval workflow)
  (* the operator: T-A2 to T-A7 *)
  | eng_pause id operator : Engine (pause_workflow id operator)
  | eng_resume id operator : Engine (resume_workflow id operator)
  | eng_cancel_admin id operator : Engine (cancel_workflow id operator)
  | eng_restart workflows id correction operator :
      Engine (restart workflows id correction operator)
  | eng_retry activities activity workflow correction operator :
      Engine (retry activities activity workflow correction operator)
  | eng_resolve workflows id decision operator :
      Engine (resolve_approval workflows id decision operator)
  (* the schedules: T-S1, T-S2, and the operator's T-A8, T-A9; the handlers of
     the registry are application code on the transactional API *)
  | eng_reconcile registry key deployed_at :
      registry_transactional registry → Engine (reconcile_state registry key deployed_at)
  | eng_tick registry key md calendar now :
      registry_transactional registry → Engine (materialize_tick registry key md calendar now)
  | eng_schedule_paused schedules key paused operator :
      Engine (set_schedule_paused schedules key paused operator)
  | eng_run_now registry key operator :
      registry_transactional registry → Engine (run_schedule_now (Some registry) key operator).

(** What each of them guarantees: the constraints, the steps of the rows, and
    the invariants of the schedules and of the progress log. *)
Record engine_step (d d' : Db) : Prop := {
  es_ok : db_ok d';
  es_tables : tables_evolve d d';
  es_schedules : keeps_schedules d d';
  es_log : keeps_log d d';
}.

Lemma engine_step_refl d : db_ok d → engine_step d d.
Proof. intros Hok. split; [done..| |]; intros ?; by split. Qed.

Lemma engine_step_trans d1 d2 d3 : engine_step d1 d2 → engine_step d2 d3 → engine_step d1 d3.
Proof.
  intros [O1 T1 S1 L1] [O2 T2 S2 L2]. split; [done|by etrans|..].
  - intros HC H1. destruct (S1 HC H1) as [H2 M1], (S2 HC H2) as [H3 M2].
    split; [done|]. by etrans.
  - intros H1. destruct (L1 H1) as [H2 P1], (L2 H2) as [H3 P2]. split; [done|]. by etrans.
Qed.

Lemma schedule_step_engine d d' : schedule_step d d' → engine_step d d'.
Proof.
  intros [[Hok Ht] Hs]. split; [done| |done|].
  - eapply tables_evolve_side; [|exact Ht]. by intros [_ ?].
  - apply log_kept_keeps. by destruct Ht.
Qed.

Lemma Evolves_engine {A} (m : Tx A) `{!Evolves m} e d :
  db_ok d → wp any_error m e d (λ _ d', engine_step d d').
Proof.
  intros Hok. eapply wp_mono; [by apply (evolves_wp (m := m))|]. intros a d' Hd.
  by apply schedule_step_engine, evolves_schedule_step.
Qed.

(** A write of the log alone moves no row of the other tables. *)
Lemma with_progress_steps d row :
  db_ok d → progress_fresh d row →
  db_ok (with_progress d row) ∧ tables_evolve d (with_progress d row)
  ∧ keeps_schedules d (with_progress d row).
Proof.
  intros Hok Hfk. split_and!.
  - by apply db_ok_with_progress.
  - split; intros; cbn; try apply row_evolves_refl; try done.
    + by apply prefix_app_r.
    + split; intros k x Hx; exists x; (split; [done|reflexivity]).
  - intros _ []. split; [by split|]. split; intros k x Hx; exists x; (split; [done|reflexivity]).
Qed.

Lemma report_engine json_value reporter event e d :
  db_ok d → wp any_error (report json_value reporter event) e d (λ _ d', engine_step d d').
Proof.
  intros Hok. apply (wp_mono _ _ _ _ (λ outcome d',
    (d' = d ∨ ∃ row, d' = with_progress d row ∧ progress_fresh d row) ∧ keeps_log d d')).
  - apply wp_and; [apply report_writes_log|]. intros i j.
    destruct (report json_value reporter event e (MkTxState d i j)) as [[o s]|err] eqn:E; [|done].
    intros Hlog. pose proof (wp_report json_value reporter event e d Hlog i j) as Hr.
    rewrite E in Hr. by apply (reported_keeps_log _ _ _ _ _ Hr).
  - intros outcome d' [[->|(row & -> & Hfk)] Hlog]; [by apply engine_step_refl|].
    destruct (with_progress_steps d row Hok Hfk) as (? & ? & ?). by split.
Qed.

Lemma engine_steps {A} (m : Tx A) e d :
  Engine m → db_ok d → wp any_error m e d (λ _ d', engine_step d d').
Proof.
  intros Hm Hok. destruct Hm;
    try (apply Evolves_engine; [typeclasses eauto|exact Hok]); try by apply report_engine.
  all: try match goal with Hreg : registry_transactional _ |- _ =>
    apply registry_transactional_evolves in Hreg end.
  all: eapply wp_mono; [|intros a d'; apply schedule_step_engine].
  - by apply reconcile_state_step.
  - by apply materialize_tick_step.
  - by apply set_schedule_paused_step.
  - apply (run_schedule_now_step registry); [done|congruence|done].
Qed.

(** One transaction, and any number of them. *)
Definition step (d d' : Db) : Prop :=
  ∃ A (m : Tx A) (e : Env), Engine m ∧ d' = (transaction e m d).2.
Definition steps : Db → Db → Prop := rtc step.
Definition reachable (d : Db) : Prop := steps empty_db d.

Lemma transaction_step {A} (m : Tx A) e d :
  Engine m → db_ok d → engine_step d (transaction e m d).2.
Proof.
  intros Hm Hok. pose proof (wp_transaction _ _ _ _ _ (engine_steps m e d Hm Hok)) as Ht.
  destruct (transaction e m d) as [[a|err] d']; [done|].
  destruct Ht as [_ ->]. by apply engine_step_refl.
Qed.

Lemma steps_step d d' : db_ok d → steps d d' → engine_step d d'.
Proof.
  intros Hok Hs. revert Hok. induction Hs as [d|d d1 d' Hstep _ IH]; intros Hok.
  - by apply engine_step_refl.
  - destruct Hstep as (A & m & e & Hm & ->). pose proof (transaction_step m e d Hm Hok) as Hd1.
    eapply engine_step_trans; [exact Hd1|]. apply IH. by destruct Hd1.
Qed.

Lemma steps_evolve d d' : db_ok d → steps d d' → db_ok d' ∧ tables_evolve d d'.
Proof. intros Hok Hs. by destruct (steps_step d d' Hok Hs). Qed.

Lemma empty_db_ok : db_ok empty_db.
Proof. split; simpl; try (intros; simplify_map_eq; done); try constructor; set_solver by lia. Qed.

Lemma reachable_ok d : reachable d → db_ok d.
Proof. intros Hd. by apply (steps_evolve empty_db d empty_db_ok). Qed.

Lemma empty_sched_ok : sched_ok empty_db.
Proof. by split. Qed.

Lemma empty_progress_ok : progress_ok empty_db.
Proof. split; [constructor|done]. Qed.

Lemma reachable_sched_ok d : ChronoLaws → reachable d → sched_ok d.
Proof.
  intros HC Hd. by destruct (es_schedules _ _ (steps_step _ _ empty_db_ok Hd) HC empty_sched_ok).
Qed.

Lemma reachable_progress_ok d : reachable d → progress_ok d.
Proof.
  intros Hd. by destruct (es_log _ _ (steps_step _ _ empty_db_ok Hd) empty_progress_ok).
Qed.

(** A row of a reachable table began as a fresh row and moved by steps. *)
Lemma reachable_workflow d id r :
  reachable d → db_workflow d !! id = Some r → ∃ r0, wf_new r0 ∧ rtc wf_step r0 r.
Proof.
  intros Hd Hr. destruct (steps_evolve _ _ empty_db_ok Hd) as [_ []].
  specialize (te_workflow id). by rewrite Hr in te_workflow.
Qed.

Lemma reachable_activity d id r :
  reachable d → db_activity d !! id = Some r → ∃ r0, ac_new r0 ∧ rtc ac_step r0 r.
Proof.
  intros Hd Hr. destruct (steps_evolve _ _ empty_db_ok Hd) as [_ []].
  specialize (te_activity id). by rewrite Hr in te_activity.
Qed.

Lemma reachable_attempt d key r :
  reachable d → db_attempt d !! key = Some r → ∃ r0, att_open r0 ∧ rtc att_step r0 r.
Proof.
  intros Hd Hr. destruct (steps_evolve _ _ empty_db_ok Hd) as [_ []].
  specialize (te_attempt key). by rewrite Hr in te_attempt.
Qed.

Lemma reachable_approval d id r :
  reachable d → db_approval d !! id = Some r → ∃ r0, ap_new r0 ∧ rtc ap_step r0 r.
Proof.
  intros Hd Hr. destruct (steps_evolve _ _ empty_db_ok Hd) as [_ []].
  specialize (te_approval id). by rewrite Hr in te_approval.
Qed.
End protocol.
