(* ===== verification/Scenario.v ===== *)
(** A concrete run of the engine, on which the theorems are instantiated: a
    codec with the laws the engine relies on, registered definitions, and the
    tables after each transaction of a small order workflow. *)
From stdpp Require Import base gmap list strings countable.
From Stdlib Require Import ZArith Lia Ascii.
From S2P Require Import Prelude.
From S2P Require Import Errors.
From S2P Require Import Status.
From S2P Require Import Rows.
From S2P Require Import Database.
From S2P Require Import Policy.
From S2P Require Import Transitions.
From S2P Require Import Registry.
From S2P Require Import Parents.
From S2P Require Import Store.
From S2P Require Import Coordinator.
From S2P Require Import Worker.
From S2P Require Import Temporal.
From S2P Require Import Control.

(** * A codec *)

(** A positive as a string of its binary digits, low bit first. *)
Fixpoint bits (p : positive) : string :=
  match p with
  | xH => "1"
  | xO p => String "o" (bits p)
  | xI p => String "i" (bits p)
  end.

Fixpoint of_bits (s : string) : option positive :=
  match s with
  | EmptyString => None
  | String c s' =>
      if Ascii.eqb c "1"%char then match s' with EmptyString => Some xH | _ => None end
      else if Ascii.eqb c "o"%char then xO <$> of_bits s'
      else if Ascii.eqb c "i"%char then xI <$> of_bits s'
      else None
  end.

Lemma of_bits_bits p : of_bits (bits p) = Some p.
Proof. induction p as [p IH|p IH|]; [..|done]; cbn; by rewrite IH. Qed.

Definition event_code (event : WorkflowEvent)
    : Z * (Z * (string * Z * string * string)) :=
  match event with
  | Started => (0, (0, ("", 0, "", "")))
  | ActivitySucceeded n (MkActivityResult k v o) => (1, (n, (k, v, o, "")))
  | ChildSucceeded n (MkChildResult k v o) => (2, (n, (k, v, o, "")))
  | ChildFailed n k v c m => (3, (n, (k, v, c, m)))
  | TimerFired n => (4, (n, ("", 0, "", "")))
  | ApprovalResolved n (MkApprovalResult k v p) => (5, (n, (k, v, p, "")))
  | ApprovalExpired n => (6, (n, ("", 0, "", "")))
  | Continued => (7, (0, ("", 0, "", "")))
  end%Z.

Definition event_decode (code : Z * (Z * (string * Z * string * string)))
    : WorkflowEvent :=
  match code with
  | (tag, (n, (k, v, a, b))) =>
      match tag with
      | 0%Z => Started
      | 1%Z => ActivitySucceeded n (MkActivityResult k v a)
      | 2%Z => ChildSucceeded n (MkChildResult k v a)
      | 3%Z => ChildFailed n k v a b
      | 4%Z => TimerFired n
      | 5%Z => ApprovalResolved n (MkApprovalResult k v a)
      | 6%Z => ApprovalExpired n
      | _ => Continued
      end
  end.

Definition policy_code (p : RetryPolicy) : Z + Z * Z * Z :=
  match backoff p with
  | Fixed d => inl d
  | Exponential i m j => inr (i, m, j)
  end.

Definition policy_decode (c : Z + Z * Z * Z) : BackoffPolicy :=
  match c with inl d => Fixed d | inr (i, m, j) => Exponential i m j end.

#[export] Instance scenario_codec : Codec := {
  event_to_json := λ event, bits (encode (event_code event));
  event_of_json := λ s, p ← of_bits s; event_decode <$> decode p;
  policy_to_json := λ p, bits (encode (policy_code p));
  stored_policy_of_json := λ s, p ← of_bits s; policy_decode <$> decode p;
  policy_error_text := λ _, "invalid";
  sha256 := λ seed, [Z.of_nat (str_len seed) mod 256; 0]%Z;
}.

#[export] Instance scenario_codec_laws : CodecLaws.
Proof.
  split.
  - intros event. cbn -[encode decode]. rewrite of_bits_bits. cbn -[encode decode].
    rewrite decode_encode. by destruct event as [|? []|? []| | |? []| |].
  - intros p. cbn -[encode decode]. rewrite of_bits_bits. cbn -[encode decode].
    rewrite decode_encode. by destruct p as [[]].
  - intros seed. simpl. repeat constructor; try lia; apply Z.mod_pos_bound; lia.
Qed.

(** * The definitions and the environment *)

(** The clock stands at [now]; UUIDs are numbered under [tag]; no row is
    held by another transaction. *)
Definition env_at (now : Z) (tag : string) : Env :=
  MkEnv (λ _, now) (λ n, tag +:+ fmt (Z.of_nat n)) (λ _, false) (λ _, false) (λ _, false).

Definition charge_type : ActivityType :=
  {| aty_kind := "charge"; aty_version := 1; aty_topic := "payments"; aty_max_attempts := 2;
     aty_timeout := 1000; aty_lease_duration := 5000;
     aty_retry_policy := {| backoff := Exponential 1 60 20 |} |}.

Definition charge_command : ActivityCommand :=
  {| cmd_kind := "charge"; cmd_version := 1; cmd_topic := "payments";
     cmd_payload_json := "7"; cmd_operation_key := None; cmd_max_attempts := 2;
     cmd_timeout_millis := 1000; cmd_lease_duration_millis := 5000;
     cmd_retry_policy := {| backoff := Exponential 1 60 20 |};
     cmd_continuation_priority := false |}.

(** The order workflow: charge, then ask for an approval, then complete. *)
Definition order_step (_ : option WorkflowId) (_ _ : string) (event : WorkflowEvent)
    : StepOutcome :=
  match event with
  | Started => Stepped (StRunActivity "charging" charge_command)
  | ActivitySucceeded _ _ => Stepped (StWaitForApproval "asking" "ship?" (Some 90000%Z))
  | _ => Stepped (StComplete "done")
  end.

Definition order_definition : WorkflowDefinition :=
  {| wd_kind := "order"; wd_version := 1; wd_step := order_step;
     wd_prepare_start := λ input, Ok (MkPreparedWorkflowStart "order" 1 input "new");
     wd_validate_approval := λ decision, Ok decision |}.

Definition workflows : WorkflowRegistry := {[ ("order", 1%Z) := order_definition ]}.
Definition activities : ActivityRegistry :=
  {| areg_definitions := {[ ("charge", 1%Z) :=
       {| ad_type := charge_type; ad_prepare_command := λ payload key,
            new_activity_command charge_type payload key |} ]};
     areg_topics := {[ ("charge", 1%Z) := "payments" ]} |}.
Definition topics : TopicRegistry := {[ "payments" := MkTopicDefinition "payments" 1 ]}.
Definition operator : Operator := MkOperator "7" "maintenance".

Example operator_is_valid : new_operator "7" "  maintenance " = Ok operator.
Proof. vm_compute. reflexivity. Qed.

(** * The run *)

Definition run {A} (now : Z) (tag : string) (m : Tx A) (d : Db) : Db :=
  (transaction (env_at now tag) m d).2.

(** The value of a transaction that committed, or a default. *)
Definition value {A} (default : A) (now : Z) (tag : string) (m : Tx A) (d : Db) : A :=
  match (transaction (env_at now tag) m d).1 with Ok a => a | Err _ => default end.

Definition payments_lock : TopicLockRow := MkTopicLockRow "payments" 1 1000.
Definition seeded : Db := run 1000 "s" (insert_topic_locks_if_absent [payments_lock]) empty_db.

Example seeded_by_start :
  seed_locks_once topics (env_at 1000 "s") (env_at 1000 "s") (env_at 1000 "s") empty_db
  = (Ok tt, seeded).
Proof. vm_compute. reflexivity. Qed.

Definition order_options : StartOptions := with_dedup_key default_options "order-7".
Definition start_order : Tx StartOutcome := start "order" 1 "7" "new" order_options.
Definition started : Db := run 2000 "a" start_order seeded.

Definition claim_order : Tx (option ClaimedRow) :=
  claim_row default_coordinator_config "worker-1" [("order", 1%Z)].
Definition claimed : Db := run 3000 "b" claim_order started.

Definition no_row : WorkflowRow := new_started_row "" 1 "" "" default_options 0 0%Z.
Definition no_claim : ClaimedRow := MkClaimedRow no_row "".
Definition order_claim : ClaimedRow :=
  default no_claim (value None 3000 "b" claim_order started).

Definition no_event : WorkflowEventRow :=
  MkWorkflowEventRow 0 0 0 None "" None None None None 0.
Definition order_event : WorkflowEventRow :=
  default no_event (value None 3000 "c" (next_delivery_event 1 0) claimed).

Definition commit_charge : Tx unit :=
  commit_on_connection default_coordinator_config order_claim order_event
    (StRunActivity "charging" charge_command).
Definition charging : Db := run 4000 "d" commit_charge claimed.

Definition claim_charge : Tx (option ActivityClaim) :=
  claim_one activities topics "worker-2" "payments" 0%Z.
Definition charge_claimed : Db := run 5000 "e" claim_charge charging.

Definition no_activity : ActivityRow :=
  new_activity_row 0 0 charge_command 0 0 0 0 0 0%Z.
Definition no_activity_claim : ActivityClaim :=
  MkActivityClaim no_activity None 0 "" 0 {| backoff := Fixed 1 |}.
Definition charge_claim : ActivityClaim :=
  default no_activity_claim (value None 5000 "e" claim_charge charging).

Definition finish_charge : Tx unit := finish_on_connection charge_claim (ExSucceeded "paid").
Definition charged : Db := run 6000 "f" finish_charge charge_claimed.

(** A permanent failure of the charge instead. *)
Definition fail_charge : Tx unit :=
  finish_on_connection charge_claim (ExPermanent (permanent "card" "declined")).
Definition blocked : Db := run 6000 "f" fail_charge charge_claimed.

Definition claim_order_again : Tx (option ClaimedRow) :=
  claim_row default_coordinator_config "worker-1" [("order", 1%Z)].
Definition reclaimed : Db := run 7000 "g" claim_order_again charged.
Definition order_reclaim : ClaimedRow :=
  default no_claim (value None 7000 "g" claim_order_again charged).
Definition charged_event : WorkflowEventRow :=
  default no_event (value None 7000 "g" (next_delivery_event 1 1) reclaimed).
Definition commit_approval : Tx unit :=
  commit_on_connection default_coordinator_config order_reclaim charged_event
    (StWaitForApproval "asking" "ship?" (Some 90000%Z)).
Definition asking : Db := run 8000 "h" commit_approval reclaimed.

Definition resolve_order : Tx (ApprovalId * WorkflowId * string) :=
  resolve_approval workflows 1 "yes" operator.
Definition resolved : Db := run 9000 "i" resolve_order asking.
Definition expired : Db := run 99000 "i" (expire_candidate 99000 1 1) asking.

Definition claim_order_last : Tx (option ClaimedRow) :=
  claim_row default_coordinator_config "worker-1" [("order", 1%Z)].
Definition last_claimed : Db := run 10000 "j" claim_order_last resolved.
Definition last_claim : ClaimedRow :=
  default no_claim (value None 10000 "j" claim_order_last resolved).
Definition resolved_event : WorkflowEventRow :=
  default no_event (value None 10000 "j" (next_delivery_event 1 2) last_claimed).
Definition commit_done : Tx unit :=
  commit_on_connection default_coordinator_config last_claim resolved_event
    (StComplete "done").
Definition completed : Db := run 11000 "k" commit_done last_claimed.

Definition status_of (d : Db) (id : WorkflowId) : option WorkflowStatus :=
  wf_status <$> db_workflow d !! id.

Example run_statuses :
  (λ d, status_of d 1%Z) <$> [started; claimed; charging; charge_claimed; charged; blocked;
    reclaimed; asking; resolved; expired; last_claimed; completed]
  = Some <$> [WfReady; WfRunning; WfWaitingActivity; WfWaitingActivity; WfReady; WfBlocked;
    WfRunning; WfWaitingApproval; WfReady; WfReady; WfRunning; WfSucceeded].
Proof. vm_compute. reflexivity. Qed.

(** The rows of the run. *)
Definition order_row (d : Db) : WorkflowRow := default no_row (db_workflow d !! 1%Z).
Definition charge_row (d : Db) : ActivityRow := default no_activity (db_activity d !! 1%Z).
Definition no_attempt : ActivityAttemptRow := new_attempt_row 0 0 "" "" 0.
Definition attempt_row (d : Db) : ActivityAttemptRow :=
  default no_attempt (db_attempt d !! (1%Z, 1%Z)).
Definition no_approval : ApprovalRow := new_approval_row no_claim 0 "" None 0 0%Z.
Definition approval_row (d : Db) : ApprovalRow := default no_approval (db_approval d !! 1%Z).
