(* ===== verification/Safety.v ===== *)
(** The safety theorems of the engine as a whole: the refinement of the
    documented state machines, and the invariants of every reachable state. *)
From stdpp Require Import base gmap list strings relations.
From Stdlib Require Import ZArith Lia.
From S2P Require Import Prelude.
From S2P Require Import Errors.
From S2P Require Import Status.
From S2P Require Import Rows.
From S2P Require Import Database.
From S2P Require Import TxLogic.
From S2P Require Import Lifecycle.
From S2P Require Import Invariants.
From S2P Require Import Evolution.
From S2P Require Import Policy.
From S2P Require Import Transitions.
From S2P Require Import Registry.
From S2P Require Import Parents.
From S2P Require Import Store.
From S2P Require Import Coordinator.
From S2P Require Import Worker.
From S2P Require Import Temporal.
From S2P Require Import Control.
From S2P Require Import Calendar.
From S2P Require Import ExampleCalendar.
From S2P Require Import SchedulesSteps.
From S2P Require Import ProgressSteps.
From S2P Require Import Protocol.
From S2P Require Import Scenario.

(** * The scenario is reachable *)

Lemma steps_run {A} now tag (m : Tx A) d0 d :
  Engine m → steps d0 d → steps d0 (run now tag m d).
Proof. intros Hm Hd. eapply rtc_r; [exact Hd|]. exists A, m, (env_at now tag). by split. Qed.

Lemma run_step {A} now tag (m : Tx A) d : Engine m → steps d (run now tag m d).
Proof. intros Hm. apply steps_run; [done|]. apply rtc_refl. Qed.

Lemma claimed_reachable : reachable claimed.
Proof.
  refine (steps_run _ _ _ _ _ (eng_claim _ _ _) _).
  refine (steps_run _ _ _ _ _ (eng_start _ _ _ _ _) _).
  refine (steps_run _ _ _ _ _ (eng_seed _) _). apply rtc_refl.
Qed.

Lemma charging_reachable : reachable charging.
Proof. exact (steps_run _ _ _ _ _ (eng_commit _ _ _ _) claimed_reachable). Qed.

Lemma charge_claimed_reachable : reachable charge_claimed.
Proof. exact (steps_run _ _ _ _ _ (eng_claim_one _ _ _ _ _) charging_reachable). Qed.

Lemma charged_reachable : reachable charged.
Proof. exact (steps_run _ _ _ _ _ (eng_finish _ _) charge_claimed_reachable). Qed.

Lemma blocked_reachable : reachable blocked.
Proof. exact (steps_run _ _ _ _ _ (eng_finish _ _) charge_claimed_reachable). Qed.

Lemma asking_reachable : reachable asking.
Proof.
  refine (steps_run _ _ _ _ _ (eng_commit _ _ _ _) _).
  exact (steps_run _ _ _ _ _ (eng_claim _ _ _) charged_reachable).
Qed.

Lemma resolved_reachable : reachable resolved.
Proof. exact (steps_run _ _ _ _ _ (eng_resolve _ _ _ _) asking_reachable). Qed.

Lemma completed_reachable : reachable completed.
Proof.
  refine (steps_run _ _ _ _ _ (eng_commit _ _ _ _) _).
  exact (steps_run _ _ _ _ _ (eng_claim _ _ _) resolved_reachable).
Qed.

Section safety.
Context `{Codec, Chrono}.

(** A row of one state, in a later state. *)
Lemma workflow_later d d' id r :
  reachable d → steps d d' → db_workflow d !! id = Some r →
  ∃ r', db_workflow d' !! id = Some r' ∧ rtc wf_step r r'.
Proof.
  intros Hd Hs Hr. destruct (steps_evolve _ _ (reachable_ok _ Hd) Hs) as [_ []].
  specialize (te_workflow id). rewrite Hr in te_workflow.
  destruct (db_workflow d' !! id) as [r'|]; [by exists r'|done].
Qed.

Lemma activity_later d d' id r :
  reachable d → steps d d' → db_activity d !! id = Some r →
  ∃ r', db_activity d' !! id = Some r' ∧ rtc ac_step r r'.
Proof.
  intros Hd Hs Hr. destruct (steps_evolve _ _ (reachable_ok _ Hd) Hs) as [_ []].
  specialize (te_activity id). rewrite Hr in te_activity.
  destruct (db_activity d' !! id) as [r'|]; [by exists r'|done].
Qed.

Lemma attempt_later d d' key r :
  reachable d → steps d d' → db_attempt d !! key = Some r →
  ∃ r', db_attempt d' !! key = Some r' ∧ rtc att_step r r'.
Proof.
  intros Hd Hs Hr. destruct (steps_evolve _ _ (reachable_ok _ Hd) Hs) as [_ []].
  specialize (te_attempt key). rewrite Hr in te_attempt.
  destruct (db_attempt d' !! key) as [r'|]; [by exists r'|done].
Qed.

Lemma approval_later d d' id r :
  reachable d → steps d d' → db_approval d !! id = Some r →
  ∃ r', db_approval d' !! id = Some r' ∧ rtc ap_step r r'.
Proof.
  intros Hd Hs Hr. destruct (steps_evolve _ _ (reachable_ok _ Hd) Hs) as [_ []].
  specialize (te_approval id). rewrite Hr in te_approval.
  destruct (db_approval d' !! id) as [r'|]; [by exists r'|done].
Qed.

(** C1: Refinement of the documented state machines. Every transaction of
    every actor, committed or rolled back, with any arguments and any claim,
    keeps the constraints of the schema and moves each workflow, activity,
    attempt and approval row only along the lines of the state tables of
    docs/INVARIANTS.md (sections 1.1 to 1.4), inserting them only in their
    initial state. It deletes no row of any table: events and progress rows are
    only appended, a topic lock never changes, a schedule keeps its row, whose
    version never decreases and whose fingerprint is fixed under one version,
    and a run keeps its occurrence, times and actor, changing its status only
    from [queued] to [started] and its reason only then. The progress logs stay
    numbered from one without gaps; and, with a calendar library that keeps its
    laws, the invariant of the schedule tables is kept and cursors only
    advance under one version. *)
Theorem engine_refines_lifecycle A (m : Tx A) (e : Env) (d : Db) :
  Engine m → db_ok d →
  let d' := (transaction e m d).2 in
  db_ok d' ∧ tables_evolve d d'
  ∧ (progress_ok d → progress_ok d')
  ∧ (ChronoLaws → sched_ok d → sched_ok d' ∧ sched_moves d d').
Proof.
  intros Hm Hok d'. destruct (transaction_step m e d Hm Hok) as [? ? Hs Hl].
  split_and!; [done|done| |done]. intros Hp. by apply Hl.
Qed.

(** S1. In every reachable state a workflow is [running] exactly when it
    holds a lease; the owner, token and expiry are set and cleared
    together. *)
Theorem running_iff_leased (d : Db) id r :
  reachable d → db_workflow d !! id = Some r →
  (wf_status r = WfRunning → wf_leased r) ∧ (wf_status r ≠ WfRunning → wf_unleased r).
Proof.
  intros Hd Hr. destruct (reachable_workflow _ _ _ Hd Hr) as (r0 & Hnew & Hs).
  pose proof (rtc_invariant _ _ wf_lease_step _ _ (wf_lease_new _ Hnew) Hs) as Hok.
  unfold wf_lease_ok in Hok. by case_decide.
Qed.

(** S6. Terminal workflow states are absorbing: no sequence of
    transactions changes any column of a workflow that succeeded, failed or
    was cancelled. *)
Theorem terminal_workflow_is_final (d d' : Db) id r :
  reachable d → steps d d' → db_workflow d !! id = Some r →
  is_terminal (wf_status r) = true → db_workflow d' !! id = Some r.
Proof.
  intros Hd Hs Hr Ht. destruct (workflow_later _ _ _ _ Hd Hs Hr) as (r' & Hr' & Hrtc).
  by rewrite Hr', (rtc_stuck _ _ _ (λ r', wf_terminal_stuck r r' Ht) Hrtc).
Qed.

(** S7, the part one row shows. In every reachable state the two wait
    columns are set together; [waiting_activity] and [blocked] wait on an
    activity, [waiting_child] on a child, [waiting_approval] on an approval,
    [sleeping] on a timer; and the timer of a live workflow refers to the
    workflow's current command. *)
Theorem wait_matches_status (d : Db) id r :
  reachable d → db_workflow d !! id = Some r →
  (wf_wait_kind r = None ↔ wf_wait_reference_id r = None)
  ∧ (∀ k, status_wait (wf_status r) = Some k → wf_wait_kind r = Some k)
  ∧ (is_terminal (wf_status r) = false → wf_wait_kind r = Some KindTimer →
     wf_wait_reference_id r = Some (wf_command_sequence r)).
Proof.
  intros Hd Hr. destruct (reachable_workflow _ _ _ Hd Hr) as (r0 & Hnew & Hs).
  exact (rtc_invariant _ _ wf_wait_step _ _ (wf_wait_new _ Hnew) Hs).
Qed.

(** C2: S1, S5, S7, S18, S19. Every reachable state is well formed. The
    constraints of the schema hold: ids are the keys, a workflow is unique
    under its kind and deduplication key, a source has one restart successor
    at most, activities and approvals are unique under their command, event
    and delivery sequences per workflow, and a row refers only to workflows
    inserted before it, so lineages have no cycle. A workflow is [running]
    exactly when it holds a lease, whose owner, token and expiry are set and
    cleared together. Its two wait columns are set together and name what its
    status waits on, and the timer of a live workflow is its current command. *)
Theorem reachable_states_are_well_formed (d : Db) :
  reachable d →
  db_ok d ∧ ∀ id r, db_workflow d !! id = Some r →
    (wf_status r = WfRunning → wf_leased r)
    ∧ (wf_status r ≠ WfRunning → wf_unleased r)
    ∧ (wf_wait_kind r = None ↔ wf_wait_reference_id r = None)
    ∧ (∀ k, status_wait (wf_status r) = Some k → wf_wait_kind r = Some k)
    ∧ (is_terminal (wf_status r) = false → wf_wait_kind r = Some KindTimer →
       wf_wait_reference_id r = Some (wf_command_sequence r)).
Proof.
  intros Hd. split; [by apply reachable_ok|]. intros id r Hr.
  destruct (running_iff_leased d id r Hd Hr). split; [done|]. split; [done|].
  by apply (wait_matches_status d id).
Qed.

(** S8. In every reachable state a workflow that is not terminal has
    activation attempts left: failures are counted from zero and the count
    stays below the row's maximum, so the next failure at the limit ends the
    workflow instead of passing it. *)
Theorem activation_budget (d : Db) id r :
  reachable d → db_workflow d !! id = Some r → is_terminal (wf_status r) = false →
  (0 ≤ wf_activation_attempts r < wf_max_activation_attempts r)%Z.
Proof.
  intros Hd Hr. destruct (reachable_workflow _ _ _ Hd Hr) as (r0 & Hnew & Hs).
  exact (rtc_invariant _ _ wf_budget_step _ _ (wf_budget_new _ Hnew) Hs).
Qed.

(** No transaction deletes a workflow or changes its identity: id, kind,
    version, input, deduplication key, schedule run, lineage (root, source,
    parent and command) and creation time. *)
Theorem workflow_identity_is_immutable (d d' : Db) id r :
  reachable d → steps d d' → db_workflow d !! id = Some r →
  ∃ r', db_workflow d' !! id = Some r' ∧ same_workflow r r'.
Proof.
  intros Hd Hs Hr. destruct (workflow_later _ _ _ _ Hd Hs Hr) as (r' & Hr' & Hrtc).
  exists r'. split; [done|]. by apply wf_steps_same.
Qed.

(** S9 and S12. In every reachable state an activity holds a lease
    exactly in [running] and [cancelling], its attempt count lies between
    zero and its maximum, and a leased or succeeded activity has used at
    least one attempt. *)
Theorem activity_lease_and_attempts (d : Db) id r :
  reachable d → db_activity d !! id = Some r →
  (holds_lease (ac_status r) = true → ac_leased r)
  ∧ (holds_lease (ac_status r) = false → ac_unleased r)
  ∧ (0 ≤ ac_attempt_count r ≤ ac_max_attempts r)%Z
  ∧ (holds_lease (ac_status r) = true ∨ ac_status r = ActSucceeded →
     (0 < ac_attempt_count r)%Z).
Proof.
  intros Hd Hr. destruct (reachable_activity _ _ _ Hd Hr) as (r0 & Hnew & Hs).
  pose proof (rtc_invariant _ _ ac_lease_step _ _ (ac_lease_new _ Hnew) Hs) as Hl.
  destruct (rtc_invariant _ _ ac_attempts_step _ _ (ac_attempts_new _ Hnew) Hs)
    as (Hle & _ & Hused).
  unfold ac_lease_ok in Hl.
  split_and!; [intros E; by rewrite E in Hl|intros E; by rewrite E in Hl|lia|lia|done].
Qed.

(** S14. An activity that succeeded or was cancelled never changes
    again; a dead-lettered one is either unchanged or, after a recoverable
    start of its lineage, cancelled. *)
Theorem settled_activity_is_final (d d' : Db) id r :
  reachable d → steps d d' → db_activity d !! id = Some r →
  activity_is_terminal (ac_status r) = true →
  ∃ r', db_activity d' !! id = Some r'
    ∧ (r' = r ∨ ac_status r = ActDeadLettered ∧ ac_status r' = ActCancelled).
Proof.
  intros Hd Hs Hr Ht. destruct (activity_later _ _ _ _ Hd Hs Hr) as (r' & Hr' & Hrtc).
  exists r'. split; [done|]. destruct (ac_status r) eqn:E; try done.
  - left. exact (rtc_stuck _ _ _ (λ r', ac_terminal_stuck r r' (or_introl E)) Hrtc).
  - destruct (ac_dead_letter_steps _ _ E Hrtc); auto.
  - left. exact (rtc_stuck _ _ _ (λ r', ac_terminal_stuck r r' (or_intror E)) Hrtc).
Qed.

(** S12. Attempts of an activity are only counted up, its maximum is
    never lowered, and its command (workflow, sequence, replacement, kind,
    version, topic, payload, bounds, policy and operation key) never
    changes. *)
Theorem activity_attempts_grow (d d' : Db) id r :
  reachable d → steps d d' → db_activity d !! id = Some r →
  ∃ r', db_activity d' !! id = Some r' ∧ same_activity r r'
    ∧ (ac_attempt_count r ≤ ac_attempt_count r')%Z
    ∧ (ac_max_attempts r ≤ ac_max_attempts r')%Z.
Proof.
  intros Hd Hs Hr. destruct (activity_later _ _ _ _ Hd Hs Hr) as (r' & Hr' & Hrtc).
  exists r'. split; [done|]. by apply ac_steps_grow.
Qed.

(** An attempt closes once: in every reachable state an attempt is
    finished exactly when it has an outcome, and a finished attempt never
    changes again. *)
Theorem attempt_closes_once (d d' : Db) key r :
  reachable d → steps d d' → db_attempt d !! key = Some r →
  (att_finished_at r = None ↔ att_outcome r = None)
  ∧ ∃ r', db_attempt d' !! key = Some r' ∧ same_attempt r r'
      ∧ (is_Some (att_finished_at r) → r' = r).
Proof.
  intros Hd Hs Hr. destruct (attempt_later _ _ _ _ Hd Hs Hr) as (r' & Hr' & Hrtc). split.
  - destruct (reachable_attempt _ _ _ Hd Hr) as (r0 & [Hf Ho] & Hs0).
    refine (rtc_invariant _ att_ok att_ok_step _ _ _ Hs0). split; congruence.
  - exists r'. split_and!; [done|by apply att_steps_same|]. intros Hf.
    exact (rtc_stuck _ _ _ (λ r', att_closed_stuck r r' Hf) Hrtc).
Qed.

(** S20. An approval is decided at most once: once it is resolved,
    expired or cancelled no transaction changes it; it carries a decision
    exactly when it is resolved, and a resolution time exactly when it is
    not pending. *)
Theorem approval_is_decided_once (d d' : Db) id r :
  reachable d → steps d d' → db_approval d !! id = Some r →
  (ap_status r ≠ ApprPending → db_approval d' !! id = Some r)
  ∧ (ap_status r = ApprResolved ↔ is_Some (ap_decision_payload_json r))
  ∧ (ap_status r = ApprPending ↔ ap_resolved_at r = None).
Proof.
  intros Hd Hs Hr. destruct (approval_later _ _ _ _ Hd Hs Hr) as (r' & Hr' & Hrtc). split.
  - intros Hp. by rewrite Hr', (rtc_stuck _ _ _ (λ r', ap_closed_stuck r r' Hp) Hrtc).
  - destruct (reachable_approval _ _ _ Hd Hr) as (r0 & Hnew & Hs0).
    exact (rtc_invariant _ _ ap_ok_step _ _ (ap_ok_new _ Hnew) Hs0).
Qed.

(** The event log is append-only: in any later state the events of a
    reachable state are a prefix of the log, unchanged and in order, and two
    events of one workflow never share a delivery sequence (S5a). *)
Theorem event_log_is_append_only (d d' : Db) :
  reachable d → steps d d' →
  db_event d `prefix_of` db_event d' ∧ NoDup (omap delivery_key (db_event d')).
Proof.
  intros Hd Hs. destruct (steps_evolve _ _ (reachable_ok _ Hd) Hs) as [[] []]. by split.
Qed.

(** C23: S6, S11, S14, S20. What is settled stays settled, over any sequence
    of transactions. A workflow that succeeded, failed or was cancelled never
    changes in any column. An activity that succeeded or was cancelled never
    changes again, and a dead-lettered one is unchanged or, after a
    recoverable start of its lineage, cancelled. An attempt is finished
    exactly when it has an outcome, and a finished attempt never changes. An
    approval that was resolved, expired or cancelled never changes; it carries
    a decision exactly when it is resolved. The events of the log are a prefix
    of the later log, unchanged and in order. *)
Theorem settled_rows_are_final (d d' : Db) :
  reachable d → steps d d' →
  (∀ id r, db_workflow d !! id = Some r → is_terminal (wf_status r) = true →
     db_workflow d' !! id = Some r)
  ∧ (∀ id r, db_activity d !! id = Some r → activity_is_terminal (ac_status r) = true →
       ∃ r', db_activity d' !! id = Some r'
         ∧ (r' = r ∨ ac_status r = ActDeadLettered ∧ ac_status r' = ActCancelled))
  ∧ (∀ key r, db_attempt d !! key = Some r →
       (att_finished_at r = None ↔ att_outcome r = None)
       ∧ (is_Some (att_finished_at r) → db_attempt d' !! key = Some r))
  ∧ (∀ id r, db_approval d !! id = Some r →
       (ap_status r = ApprResolved ↔ is_Some (ap_decision_payload_json r))
       ∧ (ap_status r ≠ ApprPending → db_approval d' !! id = Some r))
  ∧ db_event d `prefix_of` db_event d'.
Proof.
  intros Hd Hs. split_and!.
  - intros id r. by apply terminal_workflow_is_final.
  - intros id r. by apply settled_activity_is_final.
  - intros key r Hr. destruct (attempt_closes_once d d' key r Hd Hs Hr) as (Ho & r' & Hr' & _ & Hf).
    split; [done|]. intros Hfin. by rewrite Hr', (Hf Hfin).
  - intros id r Hr. by destruct (approval_is_decided_once d d' id r Hd Hs Hr) as (? & ? & _).
  - by apply event_log_is_append_only.
Qed.
End safety.

(** * The theorems on the scenario *)

Lemma engine_refines_lifecycle_witness :
  db_ok charging ∧ tables_evolve claimed charging ∧ progress_ok charging
  ∧ sched_ok charging ∧ sched_moves claimed charging.
Proof.
  destruct (engine_refines_lifecycle unit commit_charge (env_at 4000 "d") claimed)
    as (Hok & Hev & Hprogress & Hsched).
  - apply eng_commit.
  - apply reachable_ok, claimed_reachable.
  - split; [exact Hok|]. split; [exact Hev|]. split; [apply Hprogress|apply Hsched].
    + apply reachable_progress_ok, claimed_reachable.
    + exact ExampleChronoLaws.
    + apply reachable_sched_ok; [exact ExampleChronoLaws|exact claimed_reachable].
Defined.

Lemma reachable_states_are_well_formed_witness :
  db_ok claimed ∧ wf_status (order_row claimed) = WfRunning ∧ wf_leased (order_row claimed).
Proof.
  destruct (reachable_states_are_well_formed claimed claimed_reachable) as [Hok Hrows].
  split; [exact Hok|]. split; [vm_compute; reflexivity|].
  apply (Hrows 1%Z); vm_compute; reflexivity.
Defined.

(** A cancellation after the completion leaves the row alone. *)
Definition after_cancel : Db := run 12000 "l" (cancel_with_conn 1 "late") completed.

Lemma settled_rows_are_final_witness :
  db_workflow after_cancel !! 1%Z = Some (order_row completed)
  ∧ wf_status (order_row completed) = WfSucceeded
  ∧ (∃ r', db_activity after_cancel !! 1%Z = Some r'
       ∧ (r' = charge_row completed
          ∨ ac_status (charge_row completed) = ActDeadLettered ∧ ac_status r' = ActCancelled))
  ∧ db_attempt after_cancel !! (1%Z, 1%Z) = Some (attempt_row completed).
Proof.
  destruct (settled_rows_are_final completed after_cancel completed_reachable
    (run_step _ _ _ _ (eng_cancel _ _))) as (Hw & Ha & Hatt & _).
  split; [apply Hw; vm_compute; reflexivity|]. split; [vm_compute; reflexivity|]. split.
  - apply Ha; vm_compute; reflexivity.
  - apply (Hatt (1%Z, 1%Z) (attempt_row completed)); [vm_compute; reflexivity|].
    vm_compute. by eexists.
Defined.
