(* ===== verification/ScheduleSafety.v ===== *)
(** What holds of the schedules in every reachable state, and what one tick
    writes; with a nightly schedule as the example. *)
From stdpp Require Import base gmap list strings relations.
From Stdlib Require Import ZArith Lia.
From S2P Require Import Prelude.
From S2P Require Import Errors.
From S2P Require Import Status.
From S2P Require Import Rows.
From S2P Require Import Database.
From S2P Require Import TxLogic.
From S2P Require Import Evolution.
From S2P Require Import Transitions.
From S2P Require Import Store.
From S2P Require Import StoreSteps.
From S2P Require Import Control.
From S2P Require Import Calendar.
From S2P Require Import Schedules.
From S2P Require Import SchedulesSteps.
From S2P Require Import ScheduleTicks.
From S2P Require Import ExampleCalendar.
From S2P Require Import Protocol.
From S2P Require Import Scenario.
From S2P Require Import Safety.

Section schedules.
Context `{Codec, Chrono}.





(** C20: S26, S27, S29. In every reachable state an occurrence of a schedule
    has one run at most; every run that is not manual is before the cursor of
    its schedule, whose row exists; no run is left half made, a started run
    has its workflow, and a schedule has one queued run at most. The calendar
    library is assumed to print local times in their order and to read back
    what it printed. *)
Theorem schedule_rows_are_consistent (d : Db) :
  ChronoLaws → reachable d →
  (∀ i j r r', db_schedule_run d !! i = Some r → db_schedule_run d !! j = Some r' →
     sr_schedule_key r = sr_schedule_key r' →
     (sr_local_occurrence r = sr_local_occurrence r'
      ∨ sr_status r = RunQueued ∧ sr_status r' = RunQueued) → i = j)
  ∧ ∀ id r, db_schedule_run d !! id = Some r →
      ∃ s, db_schedule_state d !! sr_schedule_key r = Some s
        ∧ (is_manual r = false → key_lt (sr_local_occurrence r) (ss_next_local_occurrence s))
        ∧ sr_status r ≠ RunMaterializing
        ∧ (sr_status r = RunStarted → is_Some (sr_workflow_id r)).
Proof.
  intros HC Hd. destruct (reachable_sched_ok d HC Hd) as [_ Hr Hu Hc Hst Hq]. split.
  - intros i j r r' Hi Hj Hk [Ho|[Hs Hs']]; [by eapply Hu|by eapply Hq].
  - intros id r Hid. destruct (Hr id r Hid) as (_ & _ & [s Hs] & _). exists s.
    destruct (Hst id r Hid) as [Hm Hw]; [done|]. split_and!; [done| |done|done].
    intros Hman. by apply (Hc id r s).
Qed.

(** C21: S27, S30. From any reachable state on, a schedule and its runs stay;
    its definition version never decreases, and under one version its
    fingerprint is fixed and its cursor only advances. A run keeps its
    occurrence, and changes its status only when it is promoted from the
    queue. *)
Theorem schedules_only_advance (d d' : Db) :
  ChronoLaws → reachable d → steps d d' → sched_moves d d'.
Proof.
  intros HC Hd Hs. destruct (steps_step d d' (reachable_ok d Hd) Hs) as [_ _ Hk _].
  by destruct (Hk HC (reachable_sched_ok d HC Hd)).
Qed.
End schedules.

(** * A nightly schedule *)

Definition nightly : DurableSchedule :=
  {| ds_key := "nightly"; ds_version := 1; ds_cron := "@hourly"; ds_timezone := "Example/Forward";
     ds_misfire := CatchUp 2; ds_overlap := QueueOne; ds_misfire_grace := 60000000000 |}.

(** Its handler starts an order of the run. *)
Definition nightly_handler (run_id : ScheduleRunId) (_ : UtcMillis) : Tx WorkflowId :=
  let! outcome := start "order" 1 "7" "new" (MkStartOptions None (Some run_id) Fresh) in
  tx_ret (started_id outcome).

Definition nightly_registry : ScheduleRegistry :=
  match register_schedule ∅ nightly nightly_handler with Ok registry => registry | Err _ => ∅ end.

Lemma nightly_transactional : registry_transactional nightly_registry.
Proof.
  intros key definition run_id scheduled_for.
  assert (∃ md calendar, nightly_registry =
    <["nightly" := MkRegisteredSchedule md calendar nightly_handler]> ∅) as (md & calendar & ->).
  { unfold nightly_registry, register_schedule. cbn. eauto. }
  intros [[_ <-]|[_ Hd]]%lookup_insert_Some; [|done]. cbn. apply tr_bind; [apply tr_start|].
  intros outcome. apply tr_read. intros e d. by apply wp_ret.
Qed.


Definition nightly_md : ScheduleDefinitionMetadata :=
  MkScheduleDefinitionMetadata "nightly" 1 "@hourly/Example/Forward" "@hourly" "Example/Forward"
    (CatchUp 2) QueueOne 60000.

Definition nightly_calendar : ScheduleCalendar :=
  MkScheduleCalendar (3600%positive : CronSchedule) (MkExampleZone 7200000 3600000 : Tz).

(** Deployed at 00:00:01; a tick at 04:00, past the gap at 02:00. *)
Definition nightly_deployed : Db :=
  run 1000 "n" (reconcile_state nightly_registry "nightly" 1000) empty_db.
Definition nightly_tick : Tx ScheduleMaterializationReport :=
  materialize_tick nightly_registry "nightly" nightly_md nightly_calendar 14400000.
Definition nightly_ticked : Db := run 14400000 "t" nightly_tick nightly_deployed.

Lemma nightly_deployed_reachable : reachable nightly_deployed.
Proof. refine (steps_run _ _ _ _ _ (eng_reconcile _ _ _ nightly_transactional) _). apply rtc_refl. Qed.

Lemma nightly_ticked_reachable : reachable nightly_ticked.
Proof.
  exact (steps_run _ _ _ _ _ (eng_tick _ _ _ _ _ nightly_transactional) nightly_deployed_reachable).
Qed.

(** The tick: five occurrences, one in the gap, two over the catch-up limit,
    one started and one queued behind it. *)
Example nightly_runs :
  (λ id, (λ r, (sr_status r, sr_reason r, sr_workflow_id r))
           <$> db_schedule_run nightly_ticked !! id) <$> [1; 2; 3; 4; 5; 6]%Z
  = [Some (RunSkipped, Some "catch_up_limit", None); Some (RunSkipped, Some "dst_gap", None);
     Some (RunSkipped, Some "catch_up_limit", None); Some (RunStarted, None, Some 1%Z);
     Some (RunQueued, Some "overlap_queue_one", None); None].
Proof. vm_compute. reflexivity. Qed.


Lemma schedule_rows_are_consistent_witness :
  ∃ r s, db_schedule_run nightly_ticked !! 4%Z = Some r
    ∧ db_schedule_state nightly_ticked !! "nightly" = Some s
    ∧ key_lt (sr_local_occurrence r) (ss_next_local_occurrence s).
Proof.
  assert ((λ _, true) <$> db_schedule_run nightly_ticked !! 4%Z = Some true) as Hr
    by (vm_compute; reflexivity).
  destruct (db_schedule_run nightly_ticked !! 4%Z) as [r|] eqn:Er; [clear Hr|discriminate Hr].
  destruct (proj2 (schedule_rows_are_consistent nightly_ticked ExampleChronoLaws
    nightly_ticked_reachable) 4%Z r Er) as (s & Hs & Hlt & _).
  assert (sr_schedule_key r = "nightly" ∧ is_manual r = false) as [Ek Em].
  { enough ((λ r, (sr_schedule_key r, is_manual r)) <$> db_schedule_run nightly_ticked !! 4%Z
      = Some ("nightly", false)) as E
      by (rewrite Er in E; injection E as E1 E2; split; assumption).
    vm_compute. reflexivity. }
  rewrite Ek in Hs. exists r, s. split; [reflexivity|]. split; [exact Hs|exact (Hlt Em)].
Defined.

Lemma schedules_only_advance_witness : sched_moves nightly_deployed nightly_ticked.
Proof.
  apply (schedules_only_advance nightly_deployed nightly_ticked ExampleChronoLaws
    nightly_deployed_reachable).
  exact (run_step _ _ _ _ (eng_tick _ _ _ _ _ nightly_transactional)).
Defined.
