(* ===== verification/ProgressLog.v ===== *)
(** The progress log of an attempt in every reachable state, and what one
    report does. *)
From stdpp Require Import base gmap list strings relations.
From Stdlib Require Import ZArith Lia.
From S2P Require Import Prelude.
From S2P Require Import Errors.
From S2P Require Import Status.
From S2P Require Import Rows.
From S2P Require Import Database.
From S2P Require Import TxLogic.
From S2P Require Import Evolution.
From S2P Require Import Transitions.
From S2P Require Import Worker.
From S2P Require Import Calendar.
From S2P Require Import Progress.
From S2P Require Import ProgressSteps.
From S2P Require Import ExampleCalendar.
From S2P Require Import Protocol.
From S2P Require Import Scenario.
From S2P Require Import Safety.

Section progress.
Context `{Codec, Chrono}.

(** In every reachable state the progress log of an attempt is numbered
    1, 2, ... without gap or repetition, holds at most 100 rows, and each row
    passed the checks of its event: a code of 1 to 64 bytes, a description of
    at most 2048 whose length it records, and units with 0 <= completed <=
    total. From then on the log only grows at its end. *)
Theorem progress_log_is_bounded (d d' : Db) (activity_id : ActivityId) (attempt_number : Z) :
  reachable d → steps d d' →
  let log := progress_of d activity_id attempt_number in
  pr_sequence <$> log = seqZ 1 (Z.of_nat (length log))
  ∧ (Z.of_nat (length log) ≤ MAX_PROGRESS_EVENTS_PER_ATTEMPT)%Z
  ∧ Forall progress_row_ok log
  ∧ db_progress d `prefix_of` db_progress d'.
Proof.
  intros Hd Hs log. pose proof (reachable_progress_ok d Hd) as Hok.
  destruct (po_sequences d Hok activity_id attempt_number) as [Hseq Hle].
  destruct (es_log d d' (steps_step d d' (reachable_ok d Hd) Hs) Hok) as [_ Hpre].
  split_and!; [done|done| |done]. apply list.Forall_forall. intros r Hr.
  eapply (proj1 (list.Forall_forall _ _) (po_rows d Hok)).
  by apply list_elem_of_filter in Hr as [_ Hr].
Qed.

(** A report of an attempt either writes nothing, or appends exactly one
    row, the next of its log, and returns its number; it answers
    [LimitReached] exactly when the log is full. It writes only while its
    activity is running that attempt under its lease token: any other report
    of a valid event is fenced, and an invalid event is refused. *)
Theorem report_appends_next (json_value : string → bool) (reporter : ProgressReporter)
    (event : ProgressEvent) (e : Env) (d : Db) :
  reachable d →
  match transaction e (report json_value reporter event) d with
  | (Ok outcome, d') =>
      validate_event json_value event = Ok tt ∧ reported reporter event outcome d d'
  | (Err _, d') => d' = d
  end
  ∧ (validate_event json_value event = Ok tt →
     (∀ activity, db_activity d !! rep_activity_id reporter = Some activity →
        reporting reporter activity = false) →
     transaction e (report json_value reporter event) d = (Err FencedWrite, d))
  ∧ ∀ error, validate_event json_value event = Err error →
      transaction e (report json_value reporter event) d = (Err error, d).
Proof.
  intros Hd. assert (∀ error, validate_event json_value event = Err error →
    transaction e (report json_value reporter event) d = (Err error, d)) as Hbad.
  { intros error Hv. unfold transaction, report. cbn. by rewrite Hv. }
  split; [|split; [|done]].
  - pose proof (wp_transaction _ _ _ _ _
      (wp_report json_value reporter event e d (reachable_progress_ok d Hd))) as Hw.
    destruct (validate_event json_value event) as [[]|error] eqn:Hv;
      [|by rewrite (Hbad error eq_refl)].
    destruct (transaction e (report json_value reporter event) d) as [[outcome|error] d'];
      [done|by destruct Hw].
  - intros Hv Hf. unfold transaction, report. cbn. rewrite Hv. cbn.
    destruct (db_activity d !! rep_activity_id reporter) as [activity|] eqn:Ha; [|done].
    by rewrite (Hf activity eq_refl).
Qed.
End progress.

(** * The claimed charge of the order reports its progress *)

Definition charge_reporter : ProgressReporter :=
  MkProgressReporter (ac_id (acl_row charge_claim)) (acl_attempt_number charge_claim)
    (acl_lease_token charge_claim).

Definition halfway : ProgressEvent :=
  MkProgressEvent "charging" "half of the items" (Some 1%Z) (Some 2%Z) SeverityInfo None.

Definition report_halfway : Tx ProgressReportOutcome :=
  report (λ _, true) charge_reporter halfway.

Definition charge_reported : Db := run 5500 "p" report_halfway charge_claimed.

Lemma charge_reported_reachable : reachable charge_reported.
Proof. exact (steps_run _ _ _ _ _ (eng_report _ _ _) charge_claimed_reachable). Qed.

Lemma progress_log_is_bounded_witness :
  length (progress_of charge_reported 1 1) = 1%nat
  ∧ pr_sequence <$> progress_of charge_reported 1 1 = seqZ 1 1.
Proof.
  split; [vm_compute; reflexivity|].
  pose proof (progress_log_is_bounded charge_reported charge_reported 1 1
    charge_reported_reachable (rtc_refl _ _)) as (Hs & _).
  replace (length (progress_of charge_reported 1 1)) with 1%nat in Hs
    by (vm_compute; reflexivity). exact Hs.
Defined.

Lemma report_appends_next_witness :
  ∃ outcome d', transaction (env_at 5500 "p") report_halfway charge_claimed = (Ok outcome, d')
    ∧ reported charge_reporter halfway outcome charge_claimed d'.
Proof.
  pose proof (report_appends_next (λ _, true) charge_reporter halfway (env_at 5500 "p")
    charge_claimed charge_claimed_reachable) as [Hr _].
  fold report_halfway in Hr.
  assert (is_ok (transaction (env_at 5500 "p") report_halfway charge_claimed).1 = true) as Hok
    by (vm_compute; reflexivity).
  destruct (transaction (env_at 5500 "p") report_halfway charge_claimed)
    as [[outcome|err] d']; [|discriminate Hok].
  exists outcome, d'. split; [reflexivity|exact (proj2 Hr)].
Defined.
