(* ===== verification/HealthReports.v ===== *)
(** What readiness and the health scan report: the missing definitions are
    exactly those that the stored work needs, and a dead letter is reported
    until an activity of its replacement chain succeeds. *)
From stdpp Require Import base gmap list strings.
From Stdlib Require Import ZArith Lia.
From S2P Require Import Prelude.
From S2P Require Import Errors.
From S2P Require Import Status.
From S2P Require Import Rows.
From S2P Require Import Database.
From S2P Require Import TxLogic.
From S2P Require Import Evolution.
From S2P Require Import Transitions.
From S2P Require Import Registry.
From S2P Require Import Health.
From S2P Require Import Calendar.
From S2P Require Import ExampleCalendar.
From S2P Require Import Protocol.
From S2P Require Import Scenario.
From S2P Require Import Safety.

Definition no_error (_ : DurableError) : Prop := False.

Lemma wp_total_read {A} (m : Tx A) e d (Φ : A → Prop) :
  wp no_error m e d (λ a d', Φ a ∧ d' = d) →
  ∃ a, transaction e m d = (Ok a, d) ∧ Φ a.
Proof.
  intros Hm. pose proof (wp_transaction _ _ _ _ _ Hm) as Ht.
  destruct (transaction e m d) as [[a|err] d']; [|by destruct Ht].
  destruct Ht as [? ->]. eauto.
Qed.

Lemma dedup_nil {A} `{EqDecision A} (l : list A) : dedup l = [] ↔ l = [].
Proof.
  split; [|by intros ->]. induction l as [|x [|y l] IH]; [done|done|]. cbn [dedup].
  destruct (decide (x = y)); [|done]. intros ?. by apply IH in H.
Qed.

(** No element of a list is missing. *)
Lemma none_missing {A} `{EqDecision A} (le : A → A → bool) (P : A → Prop)
    `{!∀ x, Decision (P x)} (l : list A) :
  dedup (sort_by le (filter P l)) = [] ↔ ∀ x, x ∈ l → ¬ P x.
Proof.
  rewrite dedup_nil. split.
  - intros Hs x Hx HP. assert (x ∈ sort_by le (filter P l)) as Hin
      by (apply elem_of_sort_by, list_elem_of_filter; done).
    rewrite Hs in Hin. by apply elem_of_nil in Hin.
  - intros Hn. apply elem_of_nil_inv. intros x Hx.
    apply elem_of_sort_by, list_elem_of_filter in Hx as [HP Hx]. by apply (Hn x).
Qed.

Lemma elem_of_dedup {A} `{EqDecision A} (l : list A) x : x ∈ dedup l ↔ x ∈ l.
Proof.
  induction l as [|y [|z l] IH]; [done|done|]. cbn [dedup].
  destruct (decide (y = z)) as [->|]; [|set_solver]. rewrite IH. set_solver.
Qed.

(** * Readiness *)

(** Work that will run, or can be made to: an activity that is pending,
    running or cancelling, or a dead letter whose workflow is blocked or
    paused and waits on it. *)
Definition stored_work (d : Db) (r : ActivityRow) : Prop :=
  ac_status r = ActPending ∨ ac_status r = ActRunning ∨ ac_status r = ActCancelling
  ∨ ac_status r = ActDeadLettered
    ∧ ∃ w, db_workflow d !! ac_workflow_id r = Some w
        ∧ (wf_status w = WfBlocked ∨ wf_status w = WfPaused)
        ∧ wf_wait_kind w = Some KindActivity ∧ wf_wait_reference_id w = Some (ac_id r).

Definition all_registered (workflows : WorkflowRegistry) (activities : ActivityRegistry)
    (topics : TopicRegistry) (d : Db) : Prop :=
  (∀ id r, db_workflow d !! id = Some r →
     wf_status r ∉ [WfSucceeded; WfFailed; WfCancelled] →
     is_Some (workflows !! (wf_kind r, wf_version r)))
  ∧ (∀ id r, db_activity d !! id = Some r → stored_work d r →
       is_Some (areg_definitions activities !! (ac_kind r, ac_version r))
       ∧ is_Some (topics !! ac_topic r))
  ∧ (∀ key topic, areg_topics activities !! key = Some topic → is_Some (topics !! topic)).

(** What the two queries select. *)
Lemma stored_work_spec d r :
  stored_work d r
  ↔ set_contains NON_TERMINAL (ac_status r) = true ∨ recoverable (db_workflow d) r = true.
Proof.
  unfold stored_work, recoverable. split.
  - intros [->|[->|[->|(-> & w & -> & Hs & -> & ->)]]]; [by left..|right].
    rewrite !bool_decide_true by done. by destruct Hs as [-> | ->].
  - intros [Hn|[Hd%bool_decide_eq_true Hw]%andb_true_iff].
    + destruct (ac_status r); simpl in Hn; auto; discriminate.
    + do 3 right. split; [done|]. destruct (db_workflow d !! ac_workflow_id r) as [w|]; [|done].
      apply andb_true_iff in Hw as [[Hr%bool_decide_eq_true Hs]%andb_true_iff
        Hk%bool_decide_eq_true].
      exists w. split_and!; [done| |done|done]. destruct (wf_status w); simpl in Hs; auto; discriminate.
Qed.

Lemma contains_false {D} (registry : gmap DefinitionKey D) key :
  ¬ contains registry key.1 key.2 = false ↔ is_Some (registry !! key).
Proof.
  unfold contains. rewrite not_false_iff_true, bool_decide_eq_true. by destruct key.
Qed.

Lemma elem_of_required_topics activities topic :
  topic ∈ required_topics activities ↔ ∃ key, areg_topics activities !! key = Some topic.
Proof.
  unfold required_topics. rewrite elem_of_dedup, elem_of_sort_by, list_elem_of_fmap. split.
  - intros ([key t] & -> & Hk%elem_of_map_to_list). eauto.
  - intros [key Hk]. exists (key, topic). by rewrite elem_of_map_to_list.
Qed.

Lemma ensure_ready_ok report :
  ensure_ready report = Ok tt ↔
  missing_workflows report = [] ∧ missing_activities report = [] ∧ missing_topics report = [].
Proof. unfold ensure_ready. repeat case_match; naive_solver. Qed.

Lemma terminal_spec s :
  negb (set_contains TERMINAL s) = true ↔ s ∉ [WfSucceeded; WfFailed; WfCancelled].
Proof. destruct s; simpl; set_solver. Qed.

Lemma wp_readiness workflows activities topics e d :
  wp no_error (readiness_query workflows activities topics) e d
    (λ report d', (ensure_ready report = Ok tt ↔ all_registered workflows activities topics d)
       ∧ d' = d).
Proof.
  unfold readiness_query.
  apply wp_bind, wp_select_workflows. intros wfs Hwfs.
  apply wp_bind, wp_select_activities. intros stored Hstored.
  apply wp_bind, wp_get. apply wp_bind, wp_select_activities. intros dead Hdead.
  apply wp_ret. split; [|done]. rewrite ensure_ready_ok. cbn -[sort_by].
  rewrite !none_missing. setoid_rewrite contains_false.
  assert (∀ P : ActivityRow → Prop, (∀ id r, db_activity d !! id = Some r → stored_work d r → P r)
    ↔ (∀ r, r ∈ stored → P r) ∧ (∀ r, r ∈ dead → P r)) as Hwork.
  { intros P. setoid_rewrite stored_work_spec. setoid_rewrite Hstored. setoid_rewrite Hdead.
    naive_solver. }
  assert ((∀ r, r ∈ wfs → is_Some (workflows !! workflow_key r)) ↔
    ∀ id r, db_workflow d !! id = Some r → wf_status r ∉ [WfSucceeded; WfFailed; WfCancelled] →
      is_Some (workflows !! workflow_key r)) as Hwf.
  { setoid_rewrite Hwfs. setoid_rewrite terminal_spec. naive_solver. }
  unfold all_registered. setoid_rewrite (Hwork (λ r, _ ∧ _)).
  rewrite <- Hwf. clear. setoid_rewrite elem_of_app. setoid_rewrite elem_of_app.
  setoid_rewrite list_elem_of_fmap. setoid_rewrite elem_of_required_topics.
  setoid_rewrite <- not_eq_None_Some. split.
  - intros (Hw & Ha & Ht). split_and!; intros r; [|intros Hr..|];
      [intros; apply Hw; by eauto|split; [apply Ha|apply Ht]; by eauto 8..|].
    intros topic Hk. apply Ht. eauto.
  - intros (Hw & (Hs & Hd) & Ht). split_and!.
    + intros x (r & -> & Hr). by apply Hw.
    + intros x [(r & -> & Hr)|(r & -> & Hr)]; [by apply Hs|by apply Hd].
    + intros x [(k & Hk)|[(r & -> & Hr)|(r & -> & Hr)]]; [by eapply Ht|by apply Hs|by apply Hd].
Qed.

(** C31: readiness is exact. The readiness query only reads, and the check
    of its report ([ensure_ready]) succeeds exactly when the registries have
    the definition of every workflow that has not succeeded, failed or been
    cancelled, the definition and the topic of every activity that is pending,
    running or cancelling and of every dead letter whose workflow is blocked or
    paused and waits on it, and the topics of all registered activities. *)
Theorem readiness_is_exact workflows activities topics (e : Env) (d : Db) :
  ∃ report, transaction e (readiness_query workflows activities topics) d = (Ok report, d)
    ∧ (ensure_ready report = Ok tt ↔ all_registered workflows activities topics d).
Proof. apply wp_total_read, wp_readiness. Qed.

(** The charge of the scenario is a dead letter its order waits on: the
    registries of the scenario are ready for it, and without its definition
    they are not. *)
Lemma readiness_is_exact_witness :
  all_registered workflows activities topics blocked
  ∧ ¬ all_registered workflows (MkActivityRegistry ∅ ∅) topics blocked.
Proof.
  split.
  - destruct (readiness_is_exact workflows activities topics (env_at 7000 "g") blocked)
      as (report & Ht & Hr).
    apply Hr. vm_compute in Ht. injection Ht as <-. reflexivity.
  - destruct (readiness_is_exact workflows (MkActivityRegistry ∅ ∅) topics (env_at 7000 "g") blocked)
      as (report & Ht & Hr).
    intros Hall. apply Hr in Hall. vm_compute in Ht. injection Ht as <-. discriminate Hall.
Defined.

(** * Dead letters *)

(** No activity of the replacement chain of a dead letter has succeeded. *)
Definition unresolved (d : Db) (r : ActivityRow) : Prop :=
  ac_status r = ActDeadLettered ∧
  ∀ id r', db_activity d !! id = Some r' → ac_status r' = ActSucceeded →
    effective_root r' ≠ effective_root r.

Definition is_dead_letter_alert (alert : HealthAlert) : bool :=
  match alert with ActivityDeadLettered _ _ _ _ _ => true | _ => false end.

Definition dead_letters_of (alerts : list HealthAlert) : list HealthAlert :=
  filter (λ a, is_dead_letter_alert a = true) alerts.

(** The loop reports the first dead letters that are not resolved. *)
Lemma dead_letter_alerts_spec resolved limit unresolved l :
  (unresolved ≤ limit)%nat →
  dead_letter_alerts resolved limit unresolved l
  = dead_letter_alert <$> take (limit - unresolved)
      (filter (λ r, effective_root r ∉ resolved) l).
Proof.
  revert unresolved. induction l as [|r l IH]; intros unresolved Hle; cbn [dead_letter_alerts].
  { by rewrite filter_nil, take_nil. }
  rewrite filter_cons. case_bool_decide as Hin.
  - rewrite decide_False by naive_solver. by apply IH.
  - rewrite decide_True by done. destruct (Nat.leb_spec limit unresolved).
    + by replace (limit - unresolved)%nat with 0%nat by lia.
    + replace (limit - unresolved)%nat with (S (limit - S unresolved)) by lia. cbn.
      rewrite IH by lia. done.
Qed.

Lemma dead_letters_of_app l l' :
  dead_letters_of (l ++ l') = dead_letters_of l ++ dead_letters_of l'.
Proof. apply filter_app. Qed.

Lemma no_dead_letters {A} (f : A → HealthAlert) l :
  (∀ x, is_dead_letter_alert (f x) = false) → dead_letters_of (f <$> l) = [].
Proof.
  intros Hf. induction l as [|x l IH]; [done|]. csimpl. unfold dead_letters_of.
  rewrite filter_cons, decide_False by (by rewrite Hf). done.
Qed.

Lemma all_dead_letters l : dead_letters_of (dead_letter_alert <$> l) = dead_letter_alert <$> l.
Proof.
  induction l as [|x l IH]; [done|]. csimpl. unfold dead_letters_of.
  rewrite filter_cons, decide_True by done. f_equal. exact IH.
Qed.

Lemma wp_scan_dead_letters workflows activities topics stale_after limit captured_at e d :
  in_i64 stale_after = true →
  wp no_error (scan_once workflows activities topics stale_after limit captured_at) e d
    (λ alerts d', (∃ l, dead_letters_of alerts = dead_letter_alert <$> take limit l
       ∧ ∀ r, r ∈ l ↔ unresolved d r ∧ ∃ id, db_activity d !! id = Some r) ∧ d' = d).
Proof.
  intros Hs. unfold scan_once. apply wp_bind.
  eapply wp_mono; [apply wp_readiness|]. intros report ? [_ ->].
  apply wp_bind, wp_lift; unfold i64_try_from; rewrite Hs; [done|]. intros ? [= <-].
  apply wp_bind, wp_select_workflows. intros exhausted _.
  apply wp_bind, wp_select_activities. intros dead Hdead.
  apply wp_bind, wp_select_activities. intros resolved Hresolved.
  apply wp_bind, wp_select_workflows. intros stale_w _.
  apply wp_bind, wp_select_activities. intros stale_a _.
  apply wp_ret. split; [|done].
  exists (filter (λ r, effective_root r ∉ effective_root <$> resolved)
            (sort_by activity_id_le dead)). split.
  - unfold readiness_alerts. rewrite dead_letter_alerts_spec, Nat.sub_0_r by lia.
    rewrite !dead_letters_of_app, all_dead_letters, !no_dead_letters by done.
    by rewrite ?app_nil_l, ?app_nil_r.
  - intros r. rewrite list_elem_of_filter, elem_of_sort_by, Hdead, bool_decide_eq_true.
    unfold unresolved. split.
    + intros (Hnot & Hdl & id & Hr). split; [|by eauto]. split; [done|].
      intros id' r' Hr' Hok Heq. apply Hnot. rewrite <- Heq. apply list_elem_of_fmap_2, Hresolved.
      split; [|by eauto]. rewrite (bool_decide_true _ Hok). cbn. unfold effective_root in *.
      assert (default (ac_id r) (ac_root_activity_id r) ∈ effective_root <$> sort_by activity_id_le dead) as Hc.
      { apply (list_elem_of_fmap_2 effective_root). apply elem_of_sort_by, Hdead.
        rewrite bool_decide_true by done. eauto. }
      rewrite <- Heq in Hc. destruct (ac_root_activity_id r'); cbn in Hc.
      * by rewrite bool_decide_true.
      * by rewrite (bool_decide_true _ Hc).
    + intros [[Hdl Hall] (id & Hr)]. split_and!; [|done|by eauto].
      intros (r' & Heq & Hr')%list_elem_of_fmap. apply Hresolved in Hr' as [Hp [id' Hid']].
      apply andb_true_iff in Hp as [Hok%bool_decide_eq_true _].
      by apply (Hall id' r' Hid' Hok).
Qed.

Lemma dead_letter_alert_inj r r' : dead_letter_alert r = dead_letter_alert r' → ac_id r = ac_id r'.
Proof. by intros [=]. Qed.

(** The health scan reports a dead letter exactly as long as no activity
    of its replacement chain has succeeded: an alert is for such a dead
    letter, there are at most [max_alerts_per_kind] of them, and when there
    are fewer none is left out. *)
Theorem health_scan_reports_dead_letters workflows activities topics stale_after limit captured_at
    (e : Env) (d : Db) :
  db_ok d → in_i64 stale_after = true →
  ∃ alerts,
    transaction e (scan_once workflows activities topics stale_after limit captured_at) d
    = (Ok alerts, d)
    ∧ (length (dead_letters_of alerts) ≤ limit)%nat
    ∧ ∀ id r, db_activity d !! id = Some r →
        (dead_letter_alert r ∈ alerts → unresolved d r)
        ∧ ((length (dead_letters_of alerts) < limit)%nat → unresolved d r →
           dead_letter_alert r ∈ alerts).
Proof.
  intros Hok Hs. destruct (wp_total_read _ _ _ _ (wp_scan_dead_letters workflows activities topics
    stale_after limit captured_at e d Hs)) as (alerts & Ht & l & Hl & Hmem).
  exists alerts. split; [done|]. rewrite Hl, length_fmap, length_take. split; [lia|].
  intros id r Hr.
  assert (dead_letter_alert r ∈ alerts ↔ dead_letter_alert r ∈ dead_letters_of alerts) as ->.
  { unfold dead_letters_of. rewrite list_elem_of_filter. naive_solver. }
  rewrite Hl. split.
  - intros (r' & Heq & Hin)%list_elem_of_fmap. apply elem_of_take_in, Hmem in Hin as [Hu [id' Hr']].
    apply dead_letter_alert_inj in Heq. destruct (ok_activity _ Hok _ _ Hr) as [Hid _].
    destruct (ok_activity _ Hok _ _ Hr') as [Hid' _].
    assert (r = r') as -> by congruence. done.
  - intros Hlen Hu. rewrite take_ge by lia. apply list_elem_of_fmap_2, Hmem. eauto.
Qed.

(** The charge of the scenario is dead-lettered, and nothing replaced it. *)
Lemma health_scan_reports_dead_letters_witness :
  ∃ alerts,
    transaction (env_at 7000 "g") (scan_once workflows activities topics 300000 25 7000) blocked
    = (Ok alerts, blocked)
    ∧ (length (dead_letters_of alerts) ≤ 25)%nat
    ∧ ∀ id r, db_activity blocked !! id = Some r →
        (dead_letter_alert r ∈ alerts → unresolved blocked r)
        ∧ ((length (dead_letters_of alerts) < 25)%nat → unresolved blocked r →
           dead_letter_alert r ∈ alerts).
Proof.
  apply health_scan_reports_dead_letters.
  - apply reachable_ok, blocked_reachable.
  - reflexivity.
Defined.

Example blocked_charge_is_reported :
  transaction (env_at 7000 "g") (scan_once workflows activities topics 300000 25 7000) blocked
  = (Ok [dead_letter_alert (charge_row blocked)], blocked).
Proof. vm_compute. reflexivity. Qed.
