(* ===== verification/Fencing.v ===== *)
(** Fencing: a worker whose lease was lost, recovered, revoked or paused away
    cannot write (S2, S10, S36). *)
From stdpp Require Import base gmap list strings relations.
From Stdlib Require Import ZArith Lia.
From S2P Require Import Prelude.
From S2P Require Import Errors.
From S2P Require Import Status.
From S2P Require Import Rows.
From S2P Require Import Database.
From S2P Require Import TxLogic.
From S2P Require Import Lifecycle.
From S2P Require Import Invariants.
From S2P Require Import Evolution.
From S2P Require Import Policy.
From S2P Require Import Transitions.
From S2P Require Import Registry.
From S2P Require Import Parents.
From S2P Require Import Store.
From S2P Require Import StoreSteps.
From S2P Require Import Coordinator.
From S2P Require Import CoordinatorSteps.
From S2P Require Import Worker.
From S2P Require Import WorkerSteps.
From S2P Require Import Temporal.
From S2P Require Import Control.
From S2P Require Import ControlSteps.
From S2P Require Import Reads.
From S2P Require Import Calendar.
From S2P Require Import ExampleCalendar.
From S2P Require Import Protocol.
From S2P Require Import Scenario.
From S2P Require Import Safety.

(** The claim's token is not the live lease of its workflow. *)
Definition stale_claim (d : Db) (claim : ClaimedRow) : Prop :=
  ∀ r, db_workflow d !! wf_id (cl_row claim) = Some r → fenced (cl_lease_token claim) r = false.

Definition stale_activity_claim (d : Db) (claim : ActivityClaim) : Prop :=
  ∀ r, db_activity d !! ac_id (acl_row claim) = Some r → leased_activity claim r = false.

Lemma stale_claim_dec d claim :
  stale_claim d claim
  ∨ ∃ r, db_workflow d !! wf_id (cl_row claim) = Some r ∧ fenced (cl_lease_token claim) r = true.
Proof.
  unfold stale_claim. destruct (db_workflow d !! wf_id (cl_row claim)) as [r|]; [|by left].
  destruct (fenced (cl_lease_token claim) r) eqn:E; [by right; exists r|].
  left. by intros ? [= <-].
Qed.

(** A new row is not leased, so it makes no stale claim live. *)
Lemma stale_with_workflow d claim row :
  stale_claim d claim → wf_new row → stale_claim (with_workflow d row) claim.
Proof.
  intros Hst (Hs & _) r. simpl. intros [[_ <-]|[_ Hr]]%lookup_insert_Some; [|by apply Hst].
  apply bool_decide_eq_false. rewrite Hs. naive_solver.
Qed.

(** Closes a run whose fenced update must fail. *)
Ltac stale :=
  try match goal with
  | Hst : stale_claim _ ?claim, Hr : db_workflow _ !! wf_id (cl_row ?claim) = Some _,
    Hf : fenced _ _ = true |- _ =>
      exfalso; pose proof (Hst _ Hr); congruence
  | Hst : stale_activity_claim _ ?claim,
    Hr : db_activity _ !! ac_id (acl_row ?claim) = Some _,
    Hf : leased_activity _ _ = true |- _ =>
      exfalso; pose proof (Hst _ Hr); congruence
  end.

Section fencing.
Context `{Codec}.

(** Starting the child of a stale claim leaves it stale. *)
Lemma wp_insert_child_stale e d claim child key parent command root Φ :
  stale_claim d claim → (∀ a d', stale_claim d' claim → Φ a d') →
  wp any_error (insert_child child key parent command root) e d Φ.
Proof.
  intros Hst HΦ. unfold insert_child, insert_new_child, insert_started.
  repeat run_step; apply HΦ; try done;
    by apply (stale_with_workflow d claim), new_workflow.
Qed.

Lemma wp_commit_child_stale e d claim delivered command state child now :
  stale_claim d claim →
  wp any_error (commit_child claim delivered command state child now) e d (λ _ _, False).
Proof.
  intros Hst. unfold commit_child. cbv zeta. apply wp_bind.
  apply (wp_insert_child_stale _ _ claim); [done|]. intros a d' Hst'.
  unfold set_child_wait. repeat run_step; stale.
Qed.

Lemma wp_commit_stale e d config claim event transition :
  stale_claim d claim →
  wp any_error (commit_on_connection config claim event transition) e d (λ _ _, False).
Proof.
  intros Hst. unfold commit_on_connection, commit_wait_transition, commit_activity, lock_fence.
  repeat lazymatch goal with
  | |- wp _ (commit_child _ _ _ _ _ _) _ _ _ => by apply wp_commit_child_stale
  | _ => run_step
  end; stale.
Qed.

(** C6: S2. A stale workflow lease can neither commit nor count a failure.
    When the workflow is no longer [running] under the token of the claim (it
    was recovered, paused, cancelled or claimed again), the commit of any
    transition, with all it would insert, ends in an error, the record of an
    activation failure is refused as [FencedWrite], and both leave every table
    as it was. *)
Theorem stale_activation_is_rejected config claim event transition message (e : Env) (d : Db) :
  stale_claim d claim →
  (∃ err, transaction e (commit_on_connection config claim event transition) d = (Err err, d))
  ∧ transaction e (record_activation_failure config claim message) d = (Err FencedWrite, d).
Proof.
  intros Hst. split.
  { destruct (wp_rejected _ _ _ _ (wp_commit_stale e d config claim event transition Hst))
      as (err & _ & Ht). by exists err. }
  assert (wp (λ err, err = FencedWrite) (record_activation_failure config claim message) e d
            (λ _ _, False)) as Hwp.
  { unfold record_activation_failure.
    apply wp_bind, wp_find_workflow; [intros _|intros ???; stale].
    apply wp_bind, wp_lift; [by intros err [= <-]|done]. }
  by destruct (wp_rejected _ _ _ _ Hwp) as (err & -> & Ht).
Qed.

(** C9: S10. A stale activity lease can neither renew itself nor finish the
    attempt, whatever the handler returned: both end in an error and leave
    every table as it was; the finish says [FencedWrite], unless the workflow
    row itself is missing. *)
Theorem stale_attempt_is_rejected claim outcome started (e : Env) (d : Db) :
  stale_activity_claim d claim →
  (∃ err, transaction e (heartbeat_once claim started) d = (Err err, d))
  ∧ ∃ err, transaction e (finish_on_connection claim outcome) d = (Err err, d)
      ∧ (err = FencedWrite ∨ err = Database DieselNotFound).
Proof.
  intros Hst. split.
  - assert (wp any_error (heartbeat_once claim started) e d (λ _ _, False)) as Hwp.
    { unfold heartbeat_once. repeat run_step; stale. }
    destruct (wp_rejected _ _ _ _ Hwp) as (err & _ & Ht). by exists err.
  - assert (wp (λ err, err = FencedWrite ∨ err = Database DieselNotFound)
              (finish_on_connection claim outcome) e d (λ _ _, False)) as Hwp.
    { unfold finish_on_connection.
      apply wp_bind, wp_find_workflow; [intros _|intros w _ _];
        (apply wp_bind, wp_first_or_not_found; [by right|]); [done|].
      intros ? _. apply wp_bind, wp_now. intros i.
      apply wp_bind, wp_find_activity; [intros _|intros ???; stale].
      apply wp_bind, wp_lift; [intros err [= <-]; by left|done]. }
    destruct (wp_rejected _ _ _ _ Hwp) as (err & HΨ & Ht). by exists err.
Qed.

(** A worker that finishes a revoked attempt which reconciliation has
    already settled succeeds without a write: the revoked result is
    dropped. *)
Theorem revoked_finish_is_benign claim (e : Env) (d : Db) :
  stale_activity_claim d claim → is_Some (db_workflow d !! ac_workflow_id (acl_row claim)) →
  finish_claim e claim ExRevoked d = (Ok tt, d).
Proof.
  intros Hst [w Hw]. unfold finish_claim.
  assert (wp (λ err, err = FencedWrite) (finish_on_connection claim ExRevoked) e d
            (λ _ _, False)) as Hwp.
  { unfold finish_on_connection. intros i j. unfold tx_bind, find_workflow, tx_get, tx_ret.
    cbn. rewrite Hw. cbn. unfold find_activity. cbn.
    destruct (db_activity d !! ac_id (acl_row claim)) as [r|] eqn:Er; [|done].
    by rewrite (Hst _ Er). }
  by destruct (wp_rejected _ _ _ _ Hwp) as (err & -> & ->).
Qed.

(** What a committed pause leaves. *)
Lemma wp_pause_workflow e d id operator :
  db_ok d →
  wp any_error (pause_workflow id operator) e d (λ _ d',
    ∃ r now, db_workflow d !! id = Some r ∧ is_terminal (wf_status r) = false
    ∧ db_workflow d' !! id = Some (paused_row now r)
    ∧ ∀ aid a, wf_wait r = Ok (Some (WaitActivity aid)) → db_activity d !! aid = Some a →
        ac_status a = ActRunning →
        db_activity d' !! aid
        = Some (paused_activity_row (ac_max_attempts a + 1) operator now a)).
Proof.
  intros Hok. unfold pause_workflow, lock_workflow, append_operator_event, pause_activity.
  repeat run_step; same_rows;
    match goal with
    | H : db_workflow d !! id = Some ?r |- context [paused_row ?now ?r] =>
        destruct (ok_workflow _ Hok _ _ H) as [Hid _]; exists r, now
    end;
    (split_and!; [done|done|simpl; by rewrite Hid, lookup_insert_eq|]);
    match goal with H : wf_wait _ = Ok _ |- _ => rename H into Hwait end;
    intros aid act Hw Ha Hrun; rewrite Hwait in Hw; simplify_eq; try congruence;
    try (match goal with Hn : ∀ r, _ |- _ => discriminate (Hn _ Ha) end).
  match goal with
  | H : i32_checked_add _ _ = Some _ |- _ => apply i32_checked_add_Some in H as [-> _]
  end.
  match goal with
  | Ha : db_activity d !! aid = Some _ |- _ => destruct (ok_activity _ Hok _ _ Ha) as [-> _]
  end.
  simpl. by rewrite lookup_insert_eq.
Qed.

(** S36. A pause fences the work in flight. After it commits, the
    workflow is [paused] without a lease, so no claim issued before can
    commit a transition; and when the workflow waits on a running activity
    that attempt is revoked: it is [cancelling] under its old lease, with one
    attempt more in its budget. *)
Theorem pause_fences_work (e : Env) (d d' : Db) id operator result :
  db_ok d → transaction e (pause_workflow id operator) d = (Ok result, d') →
  (∃ r', db_workflow d' !! id = Some r' ∧ wf_status r' = WfPaused ∧ wf_unleased r')
  ∧ (∀ config claim event transition e', wf_id (cl_row claim) = id →
       ∃ err, transaction e' (commit_on_connection config claim event transition) d'
              = (Err err, d'))
  ∧ (∀ r aid a, db_workflow d !! id = Some r → wf_wait r = Ok (Some (WaitActivity aid)) →
       db_activity d !! aid = Some a → ac_status a = ActRunning →
       ∃ a', db_activity d' !! aid = Some a' ∧ ac_status a' = ActCancelling
         ∧ keeps_ac_lease a a' ∧ ac_attempt_count a' = ac_attempt_count a
         ∧ ac_max_attempts a' = (ac_max_attempts a + 1)%Z).
Proof.
  intros Hok Ht.
  destruct (wp_committed _ _ _ _ _ _ _ (wp_pause_workflow e d id operator Hok) Ht)
    as (r & now & Hr & Hnt & Hr' & Hact).
  split_and!.
  - eexists. split; [exact Hr'|]. columns.
  - intros config claim event transition e' Hid.
    assert (stale_claim d' claim) as Hst.
    { intros r1. rewrite Hid, Hr'. intros [= <-]. by apply bool_decide_eq_false; intros []. }
    destruct (wp_rejected _ _ _ _ (wp_commit_stale e' d' config claim event transition Hst))
      as (err & _ & Hrej). by exists err.
  - intros r1 aid a Hr1 Hw Ha Hrun. simplify_eq. eexists. split; [by apply Hact|]. columns.
Qed.
End fencing.

(** * The theorems on the scenario *)

(** Decides that a claim is stale by evaluating the row it names. *)
Ltac stale_here := intros ? Hr; vm_compute in Hr; injection Hr as <-; vm_compute; reflexivity.

(** The order's first claim, presented again after its commit. *)
Lemma stale_activation_is_rejected_witness :
  (∃ err, transaction (env_at 5000 "x") commit_charge charging = (Err err, charging))
  ∧ transaction (env_at 5000 "x")
      (record_activation_failure default_coordinator_config order_claim "boom") charging
    = (Err FencedWrite, charging).
Proof.
  apply (stale_activation_is_rejected default_coordinator_config order_claim order_event
    (StRunActivity "charging" charge_command) "boom" (env_at 5000 "x") charging).
  stale_here.
Defined.

(** The charge's claim, presented again after its finish. *)
Lemma stale_attempt_is_rejected_witness :
  (∃ err, transaction (env_at 6500 "x") (heartbeat_once charge_claim 0) charged
          = (Err err, charged))
  ∧ ∃ err, transaction (env_at 6500 "x") finish_charge charged = (Err err, charged)
      ∧ (err = FencedWrite ∨ err = Database DieselNotFound).
Proof.
  apply (stale_attempt_is_rejected charge_claim (ExSucceeded "paid") 0 (env_at 6500 "x") charged).
  stale_here.
Defined.

Lemma revoked_finish_is_benign_witness :
  finish_claim (env_at 6500 "x") charge_claim ExRevoked charged = (Ok tt, charged).
Proof.
  apply (revoked_finish_is_benign charge_claim (env_at 6500 "x") charged).
  - stale_here.
  - vm_compute. eexists. reflexivity.
Defined.

(** A pause while the charge runs. *)
Definition pause_order : Tx (WorkflowId * string) := pause_workflow 1 operator.
Definition paused : Db := run 5500 "p" pause_order charge_claimed.

Lemma pause_fences_work_witness :
  ∃ a', db_activity paused !! 1%Z = Some a' ∧ ac_status a' = ActCancelling
    ∧ keeps_ac_lease (charge_row charge_claimed) a'
    ∧ ac_attempt_count a' = ac_attempt_count (charge_row charge_claimed)
    ∧ ac_max_attempts a' = (ac_max_attempts (charge_row charge_claimed) + 1)%Z.
Proof.
  apply (pause_fences_work (env_at 5500 "p") charge_claimed paused 1 operator
    (1%Z, "paused") (reachable_ok _ charge_claimed_reachable)) with
    (r := order_row charge_claimed).
  all: vm_compute; reflexivity.
Defined.
