(* ===== verification/Effects.v ===== *)
(** What a committed transaction of the coordinator or the activity worker
    does to the rows it is about (S4, S8, S15, S16, S36). *)
From stdpp Require Import base gmap list strings relations.
From Stdlib Require Import ZArith Lia.
From S2P Require Import Prelude.
From S2P Require Import Errors.
From S2P Require Import Status.
From S2P Require Import Rows.
From S2P Require Import Database.
From S2P Require Import TxLogic.
From S2P Require Import Lifecycle.
From S2P Require Import Invariants.
From S2P Require Import Evolution.
From S2P Require Import Policy.
From S2P Require Import Transitions.
From S2P Require Import Registry.
From S2P Require Import Parents.
From S2P Require Import Store.
From S2P Require Import StoreSteps.
From S2P Require Import Coordinator.
From S2P Require Import CoordinatorSteps.
From S2P Require Import Worker.
From S2P Require Import WorkerSteps.
From S2P Require Import Temporal.
From S2P Require Import Control.
From S2P Require Import ControlSteps.
From S2P Require Import Reads.
From S2P Require Import Calendar.
From S2P Require Import ExampleCalendar.
From S2P Require Import Protocol.
From S2P Require Import Scenario.
From S2P Require Import Safety.
From S2P Require Import Fencing.

(** [P] holds of the row [id] of the workflows. *)
Definition workflow_is (id : WorkflowId) (P : WorkflowRow → Prop) (d : Db) : Prop :=
  ∃ r, db_workflow d !! id = Some r ∧ P r.

Lemma workflow_is_insert id P d row :
  P row → workflow_is id P (d <| db_workflow := <[id := row]> (db_workflow d) |>).
Proof. intros HP. exists row. simpl. by rewrite lookup_insert_eq. Qed.




(** ** What a commit does besides *)







Section effects.
Context `{Codec}.






(** The delivery of a child's outcome touches a row only by waking it. *)
Lemma wp_wake_keeps e d id P child outcome now :
  (∀ r t, P r → awaits_child (wf_status r) = true →
     P (woken (woken_status (wf_status r)) t r)) →
  workflow_is id P d →
  wp any_error (wake_waiting_parents_on_child_terminal child outcome now) e d
    (λ _ d', workflow_is id P d').
Proof.
  intros Hwoken Hd. unfold wake_waiting_parents_on_child_terminal.
  apply wp_bind, wp_select_workflows. intros rows _.
  apply (wp_for _ _ _ (workflow_is id P)); [done| |done].
  intros parent d1 _ (r & Hr & HP). unfold wake_loaded_parent_on_child_terminal.
  repeat run_step; try (by exists r).
  match goal with
  | Hrow : db_workflow _ !! wf_id parent = Some ?r1, Hs : same_wait parent ?r1 = true |- _ =>
      apply same_wait_spec in Hs as (Es & _); simpl in Hrow
  end.
  destruct (decide (wf_id parent = id)) as [Hid|Hne].
  - simplify_eq. apply workflow_is_insert. rewrite <- Es in *. auto.
  - exists r. simpl. by rewrite lookup_insert_ne.
Qed.



(** ** The effects *)















Lemma duration_millis_Ok x y : duration_millis x = Ok y → y = x.
Proof. unfold duration_millis, i64_try_from. by case_match; intros [= ->]. Qed.



(** The rows after a success was recorded. *)
Definition success_recorded (claim : ActivityClaim) (output : string) (d d' : Db) : Prop :=
  (∃ a', db_activity d' !! ac_id (acl_row claim) = Some a' ∧ ac_status a' = ActSucceeded
     ∧ ac_unleased a' ∧ ac_provider_result_json a' = Some output)
  ∧ (∃ t', db_attempt d' !! (ac_id (acl_row claim), acl_attempt_number claim) = Some t'
     ∧ is_Some (att_finished_at t') ∧ att_outcome t' = Some OutSucceeded)
  ∧ ∃ w w' ev, db_workflow d !! ac_workflow_id (acl_row claim) = Some w
     ∧ waits_on_activity (ac_id (acl_row claim)) w = true
     ∧ db_workflow d' !! ac_workflow_id (acl_row claim) = Some w'
     ∧ wf_status w' = WfReady ∧ no_wait w'
     ∧ db_event d' = db_event d ++ [ev]
     ∧ ev_workflow_id ev = ac_workflow_id (acl_row claim)
     ∧ ev_delivery_sequence ev
       = Some (i32_saturating_add (wf_delivered_event_sequence w) 1)
     ∧ ev_metadata_json ev
       = Some (event_to_json (ActivitySucceeded (ac_command_sequence (acl_row claim))
           (MkActivityResult (ac_kind (acl_row claim)) (ac_version (acl_row claim)) output))).

(** C8: S16. Finishing a running attempt with an output is one atomic
    delivery: when it commits, the activity has succeeded with that output
    and holds no lease, the attempt is closed as succeeded, the workflow,
    which waited on this activity, is ready and waits on nothing, and exactly
    one event was appended: the result of this command as the workflow's
    next delivery. *)
Theorem finish_delivers_the_result claim output (e : Env) (d d' : Db) a :
  db_activity d !! ac_id (acl_row claim) = Some a → ac_status a = ActRunning →
  transaction e (finish_on_connection claim (ExSucceeded output)) d = (Ok tt, d') →
  success_recorded claim output d d'.
Proof.
  intros Ha Hrun Ht. committed Ht.
  unfold finish_on_connection, finish_attempt, wake_workflow.
  repeat run_step; simplify_eq; try congruence.
  match goal with H : u32_try_from _ = Some _ |- _ => apply u32_try_from_Some in H as [-> _] end.
  match goal with
  | H : new_activity_result _ _ _ = Ok _ |- _ =>
      unfold new_activity_result in H; apply res_bind_Ok in H as (? & _ & [= <-])
  end.
  unfold success_recorded. simpl in *. simplify_eq. split_and!.
  - eexists. simpl. rewrite lookup_insert_eq. split_and!; try done; columns.
  - eexists. simpl. rewrite lookup_insert_eq. split_and!; try done; columns.
  - do 3 eexists. simpl. rewrite lookup_insert_eq. split_and!; try done; columns.
Qed.

(** The activation budget of a workflow is the smaller of its own and the
    coordinator's. *)
Definition exhausts (config : CoordinatorConfig) (r : WorkflowRow) : bool :=
  (Z.min (wf_max_activation_attempts r) (i32_or_max (cfg_max_activation_attempts config))
   <=? i32_saturating_add (wf_activation_attempts r) 1)%Z.

(** The row after a failed activation was counted against [r]. *)
Definition failure_counted (config : CoordinatorConfig) (e : Env) (r r' : WorkflowRow) : Prop :=
  wf_activation_attempts r' = i32_saturating_add (wf_activation_attempts r) 1
  ∧ wf_unleased r' ∧ is_Some (wf_error_message r')
  ∧ wf_delivered_event_sequence r' = wf_delivered_event_sequence r
  ∧ wf_state_json r' = wf_state_json r
  ∧ if exhausts config r
    then wf_status r' = WfFailed ∧ is_Some (wf_completed_at r')
    else wf_status r' = WfReady ∧ wf_completed_at r' = None
      ∧ ∃ i delay percentile,
          delay_for_attempt (cfg_activation_retry_policy config)
            (default u32_max (u32_try_from (wf_activation_attempts r'))) percentile = Ok delay
          ∧ wf_available_at r' = saturating_plus_millis (env_clock e i) (delay * 1000).

Lemma wp_activation_failure e d config claim message r :
  db_workflow d !! wf_id (cl_row claim) = Some r → wf_id r = wf_id (cl_row claim) →
  wp any_error (record_activation_failure config claim message) e d
    (λ _, workflow_is (wf_id (cl_row claim)) (failure_counted config e r)).
Proof.
  intros Hr Hid. unfold record_activation_failure, append_history. cbv zeta.
  apply wp_bind, wp_find_workflow; [intros _; by repeat run_step|].
  intros r0 Hr0 Hf. simplify_eq. apply wp_bind, wp_ret.
  fold (exhausts config r). rewrite Hid.
  destruct (exhausts config r) eqn:Hx;
    repeat lazymatch goal with
    | |- wp _ (wake_waiting_parents_on_child_terminal _ _ _) _ _ _ =>
        apply wp_wake_keeps; [intros ? ? Hp Haw; unfold failure_counted in Hp; rewrite Hx in Hp;
          destruct Hp as (_ & _ & _ & _ & _ & Es & _); rewrite Es in Haw; discriminate|]
    | _ => run_step
    end; apply workflow_is_insert; unfold failure_counted; rewrite Hx; columns.
  match goal with Hms : duration_millis _ = Ok _ |- _ => apply duration_millis_Ok in Hms as -> end.
  eauto.
Qed.

(** S8, the step. Recording a failed activation consumes nothing and
    counts exactly one attempt: the lease is cleared, the event stays
    undelivered and the state is kept, and the workflow is ready again after
    the policy's delay, or failed for good when the count reaches the smaller
    of its own and the coordinator's budget. *)
Theorem activation_failure_is_counted config claim message (e : Env) (d d' : Db) r :
  db_workflow d !! wf_id (cl_row claim) = Some r → wf_id r = wf_id (cl_row claim) →
  transaction e (record_activation_failure config claim message) d = (Ok tt, d') →
  ∃ r', db_workflow d' !! wf_id (cl_row claim) = Some r' ∧ failure_counted config e r r'.
Proof.
  intros Hr Hid Ht.
  exact (wp_committed _ _ _ _ _ _ _ (wp_activation_failure e d config claim message r Hr Hid) Ht).
Qed.

(** The attempt ends in a dead letter: a permanent failure, or a retryable
    one on the last attempt. *)
Definition dead_letters (claim : ActivityClaim) (outcome : ExecutionOutcome)
    (error : ActivityError) : Prop :=
  outcome = ExPermanent error
  ∨ outcome = ExRetryable error
    ∧ (ac_max_attempts (acl_row claim) ≤ acl_attempt_number claim)%Z.

(** A running attempt that fails permanently, or retryably on its last
    attempt, dead-letters the activity and blocks the workflow in one
    transaction: the activity is [dead_lettered] without a lease and with
    the error, the attempt is closed as dead-lettered, and the workflow,
    which waited on the activity, is [blocked] on it with the same error. *)
Theorem failure_blocks_the_workflow claim outcome error (e : Env) (d d' : Db) a :
  db_activity d !! ac_id (acl_row claim) = Some a → ac_status a = ActRunning →
  ac_id a = ac_id (acl_row claim) → dead_letters claim outcome error →
  transaction e (finish_on_connection claim outcome) d = (Ok tt, d') →
  (∃ a', db_activity d' !! ac_id (acl_row claim) = Some a' ∧ ac_status a' = ActDeadLettered
     ∧ ac_unleased a' ∧ ac_last_error_message a' = Some (activity_error_parts error).2)
  ∧ (∃ t', db_attempt d' !! (ac_id (acl_row claim), acl_attempt_number claim) = Some t'
     ∧ is_Some (att_finished_at t') ∧ att_outcome t' = Some OutDeadLettered)
  ∧ ∃ w w', db_workflow d !! ac_workflow_id a = Some w
     ∧ waits_on_activity (ac_id (acl_row claim)) w = true
     ∧ db_workflow d' !! ac_workflow_id a = Some w' ∧ wf_status w' = WfBlocked
     ∧ keeps_wait w w' ∧ wf_error_message w' = Some (activity_error_parts error).2.
Proof.
  intros Ha Hrun Hid Hdead Ht. committed Ht.
  unfold finish_on_connection, dead_letter, finish_attempt, block_workflow,
    append_activity_history.
  destruct Hdead as [->|[-> Hlast]]; repeat run_step; simplify_eq; try congruence; try lia.
  all: rewrite Hid in *.
  all: split_and!; [eexists; simpl; split; [by rewrite lookup_insert_eq|columns]..|].
  all: do 2 eexists; simpl; rewrite lookup_insert_eq; columns.
Qed.

(** S36, N2. A revoked attempt settles when its handler stops, whatever
    the handler returned: its result is not applied; the attempt closes with
    the outcome the revoke recorded, the lease is released, and the activity
    is cancelled if its workflow is terminal and pending again otherwise. *)
Theorem revoked_attempt_settles claim outcome (e : Env) (d d' : Db) a w :
  db_activity d !! ac_id (acl_row claim) = Some a → ac_status a = ActCancelling →
  ac_id a = ac_id (acl_row claim) →
  db_workflow d !! ac_workflow_id a = Some w →
  transaction e (finish_on_connection claim outcome) d = (Ok tt, d') →
  (∃ a', db_activity d' !! ac_id (acl_row claim) = Some a' ∧ ac_unleased a'
     ∧ ac_status a' = (if is_terminal (wf_status w) then ActCancelled else ActPending)
     ∧ ac_provider_result_json a' = ac_provider_result_json a)
  ∧ (∃ t' revoke, db_attempt d' !! (ac_id (acl_row claim), ac_attempt_count a) = Some t'
     ∧ is_Some (att_finished_at t') ∧ att_outcome t' = Some revoke
     ∧ (as_str <$> Some revoke) = ac_last_error_category a)
  ∧ db_workflow d' = db_workflow d.
Proof.
  intros Ha Hcan Hid Hw Ht. committed Ht.
  unfold finish_on_connection, settle_revoked, close_attempt, append_activity_history.
  repeat run_step; simpl in *; simplify_eq; try congruence.
  rewrite Hid in *. simplify_eq. split_and!; [..|done].
  - eexists. rewrite lookup_insert_eq. split_and!; try done; columns.
  - do 2 eexists. rewrite lookup_insert_eq. split_and!; try done; columns.
    match goal with
    | Hp : status_try_from _ = Ok _ |- _ => apply status_try_from_Ok in Hp as [<- _]
    end. done.
Qed.
End effects.

(** * The theorems on the scenario *)



Lemma finish_delivers_the_result_witness :
  success_recorded charge_claim "paid" charge_claimed charged.
Proof.
  apply (finish_delivers_the_result charge_claim "paid" (env_at 6000 "f") charge_claimed charged
    (charge_row charge_claimed)).
  all: vm_compute; reflexivity.
Defined.

(** The first activation of the order fails. *)
Definition fail_order : Tx unit :=
  record_activation_failure default_coordinator_config order_claim "boom".
Definition order_failed : Db := run 4000 "d" fail_order claimed.

Lemma activation_failure_is_counted_witness :
  ∃ r', db_workflow order_failed !! 1%Z = Some r'
    ∧ failure_counted default_coordinator_config (env_at 4000 "d") (order_row claimed) r'
    ∧ wf_status (order_row order_failed) = WfReady.
Proof.
  destruct (activation_failure_is_counted default_coordinator_config order_claim "boom"
    (env_at 4000 "d") claimed order_failed (order_row claimed)) as (r' & Hr' & Hc);
    [vm_compute; reflexivity..|].
  exists r'. split; [exact Hr'|]. split; [exact Hc|]. vm_compute. reflexivity.
Defined.

Lemma failure_blocks_the_workflow_witness :
  ∃ t', db_attempt blocked !! (1%Z, 1%Z) = Some t'
    ∧ is_Some (att_finished_at t') ∧ att_outcome t' = Some OutDeadLettered.
Proof.
  apply (failure_blocks_the_workflow charge_claim (ExPermanent (permanent "card" "declined"))
    (permanent "card" "declined") (env_at 6000 "f") charge_claimed blocked
    (charge_row charge_claimed)).
  4: by left.
  all: vm_compute; reflexivity.
Defined.

(** The paused charge's handler returns a result too late. *)
Definition settled : Db := run 6000 "f" finish_charge paused.

Lemma revoked_attempt_settles_witness :
  ∃ a', db_activity settled !! 1%Z = Some a' ∧ ac_unleased a' ∧ ac_status a' = ActPending
    ∧ ac_provider_result_json a' = None.
Proof.
  apply (revoked_attempt_settles charge_claim (ExSucceeded "paid") (env_at 6000 "f") paused
    settled (charge_row paused) (order_row paused)).
  all: vm_compute; reflexivity.
Defined.
