(* ===== verification/Walks.v ===== *)
(** The loops of the engine over the restart and parent chains: they end
    within the fuel of the model, and they find what they look for. *)
From stdpp Require Import base gmap list strings relations.
From Stdlib Require Import ZArith Lia.
From S2P Require Import Prelude.
From S2P Require Import Errors.
From S2P Require Import Status.
From S2P Require Import Rows.
From S2P Require Import Database.
From S2P Require Import TxLogic.
From S2P Require Import Lifecycle.
From S2P Require Import Evolution.
From S2P Require Import Policy.
From S2P Require Import Transitions.
From S2P Require Import Registry.
From S2P Require Import Parents.
From S2P Require Import Store.
From S2P Require Import Coordinator.
From S2P Require Import Worker.
From S2P Require Import Control.
From S2P Require Import Reads.
From S2P Require Import Calendar.
From S2P Require Import ExampleCalendar.
From S2P Require Import Protocol.
From S2P Require Import Scenario.
From S2P Require Import Safety.

(** The error condition of a total specification. *)
Definition no_error (_ : DurableError) : Prop := False.

Lemma wp_total {A} (m : Tx A) e d Φ :
  wp no_error m e d Φ → ∃ a d', transaction e m d = (Ok a, d') ∧ Φ a d'.
Proof.
  intros Hm. pose proof (wp_transaction _ _ _ _ _ Hm) as Ht.
  destruct (transaction e m d) as [[a|err] d']; [eauto|]. by destruct Ht.
Qed.

(** * Measures: the rows on one side of an id *)

Definition rows_above {V} (m : gmap Z V) (i : Z) : nat :=
  size (filter (λ p : Z * V, (i < p.1)%Z) m).
Definition rows_below {V} (m : gmap Z V) (i : Z) : nat :=
  size (filter (λ p : Z * V, (p.1 < i)%Z) m).

Lemma rows_above_lt {V} (m : gmap Z V) i j :
  (i < j)%Z → is_Some (m !! j) → (rows_above m j < rows_above m i)%nat.
Proof.
  intros Hij [v Hv]. apply (size_filter_lt _ _ _ j v); simpl; [|done|done|lia].
  intros [k x]; simpl; lia.
Qed.

Lemma rows_above_dom {V} (m m' : gmap Z V) i :
  (∀ j v', m' !! j = Some v' → is_Some (m !! j)) → (rows_above m' i ≤ rows_above m i)%nat.
Proof.
  intros Hdom. unfold rows_above. rewrite <- !size_dom. apply subseteq_size. intros j.
  rewrite !elem_of_dom. intros [v' [[v Hv]%Hdom Hlt]%map_lookup_filter_Some].
  exists v. by apply map_lookup_filter_Some.
Qed.

Lemma rows_below_lt {V} (m : gmap Z V) i j :
  (j < i)%Z → is_Some (m !! j) → (rows_below m j < rows_below m i)%nat.
Proof.
  intros Hij [v Hv]. apply (size_filter_lt _ _ _ j v); simpl; [|done|done|lia].
  intros [k x]; simpl; lia.
Qed.

(** * The newest generation *)

(** [r'] was restarted from [r]. *)
Definition successor (d : Db) (r r' : WorkflowRow) : Prop :=
  db_workflow d !! wf_id r' = Some r' ∧ wf_restarted_from_workflow_id r' = Some (wf_id r).

Lemma wp_lock_successor Ψ e d row (Φ : option WorkflowRow → Db → Prop) :
  db_ok d → ((∀ r', ¬ successor d row r') → Φ None d) →
  (∀ r', successor d row r' → Φ (Some r') d) → wp Ψ (lock_successor row) e d Φ.
Proof.
  intros Hok HN HS. unfold lock_successor. apply wp_bind, wp_select_workflows.
  intros rows Hrows. apply wp_ret. destruct rows as [|r rows]; simpl.
  - apply HN. intros r' [Hr' Hfrom].
    apply (not_elem_of_nil r'), Hrows. rewrite bool_decide_eq_true. eauto.
  - destruct (proj1 (Hrows r) (list_elem_of_here _ _)) as [Hfrom [id Hid]].
    rewrite bool_decide_eq_true in Hfrom. apply HS.
    destruct (ok_workflow _ Hok _ _ Hid) as [Heq _]. by split; [rewrite Heq|].
Qed.

Lemma wp_newest_generation e d fuel row (Φ : WorkflowRow → Db → Prop) :
  db_ok d → (rows_above (db_workflow d) (wf_id row) < fuel)%nat →
  (∀ r, rtc (successor d) row r → (∀ r', ¬ successor d r r') → Φ r d) →
  wp no_error (lock_newest_generation fuel row) e d Φ.
Proof.
  intros Hok. revert row Φ. induction fuel as [|fuel IH]; intros row Φ Hfuel HΦ; [lia|].
  simpl. apply wp_bind, wp_lock_successor; [done| |].
  - intros Hlast. by apply wp_ret, HΦ.
  - intros r' Hr'. pose proof Hr' as [Hrow Hfrom]. apply IH.
    + destruct (ok_lineage _ Hok _ _ _ Hrow (or_introl Hfrom)) as [Hlt _].
      pose proof (rows_above_lt (db_workflow d) _ _ Hlt (ex_intro _ _ Hrow)). lia.
    + intros r Hr. apply HΦ. by eapply rtc_l.
Qed.

Section walks.
Context `{Codec}.

(** The walk to the newest generation ends and is right. From any row of
    tables in order it returns, without a write, the row at the end of the
    restart chain: one reached by successors that has no successor itself. *)
Theorem newest_generation_is_found (e : Env) (d : Db) (row : WorkflowRow) :
  db_ok d → db_workflow d !! wf_id row = Some row →
  ∃ r, transaction e (let! fuel := db_fuel in lock_newest_generation fuel row) d = (Ok r, d)
    ∧ rtc (successor d) row r ∧ ∀ r', ¬ successor d r r'.
Proof.
  intros Hok Hrow.
  assert (wp no_error (let! fuel := db_fuel in lock_newest_generation fuel row) e d
    (λ r d', d' = d ∧ rtc (successor d) row r ∧ ∀ r', ¬ successor d r r')) as Hwp.
  { apply wp_bind. unfold db_fuel. apply wp_bind, wp_get, wp_ret, wp_newest_generation; [done| |].
    - unfold rows_above. pose proof (size_filter_le (db_workflow d)
        (λ p, (wf_id row < p.1)%Z)). lia.
    - eauto. }
  destruct (wp_total _ _ _ _ Hwp) as (r & d' & Ht & -> & Hr). eauto.
Qed.

(** * Ancestors *)

(** The row the walk of [is_caller_or_ancestor] visits after [id]: the parent,
    or without one the generation it was restarted from. *)
Definition up (d : Db) (id next : WorkflowId) : Prop :=
  ∃ r, db_workflow d !! id = Some r
    ∧ (match wf_parent_workflow_id r with
       | Some parent => Some parent
       | None => wf_restarted_from_workflow_id r
       end) = Some next.

Lemma up_lt d id next : db_ok d → up d id next → (next < id)%Z ∧ is_Some (db_workflow d !! next).
Proof.
  intros Hok (r & Hr & Hn). apply (ok_lineage _ Hok id r); [done|].
  destruct (wf_parent_workflow_id r); naive_solver.
Qed.

Lemma up_functional d id n n' : up d id n → up d id n' → n = n'.
Proof. intros (r & Hr & Hn) (r' & Hr' & Hn'). simplify_eq. congruence. Qed.

(** The claim's row agrees with the table on the lineage. *)
Definition claim_of (d : Db) (claim : ClaimedRow) : Prop :=
  ∃ r, db_workflow d !! wf_id (cl_row claim) = Some r ∧ same_workflow r (cl_row claim).

Lemma wp_ancestor_walk e d fuel claim target id (Φ : bool → Db → Prop) :
  db_ok d → claim_of d claim → is_Some (db_workflow d !! id) →
  (rows_below (db_workflow d) id < fuel)%nat →
  (∀ b, (b = true ↔ rtc (up d) id target) → Φ b d) →
  wp no_error (ancestor_walk fuel claim target (Some id)) e d Φ.
Proof.
  intros Hok (r0 & Hr0 & Hsame). revert id Φ.
  induction fuel as [|fuel IH]; intros id Φ [r Hr] Hfuel HΦ; [lia|]. simpl.
  case_bool as [->|Hne]; [apply wp_ret, HΦ; by split|].
  apply wp_bind. apply (wp_mono _ _ _ _ (λ row d', d' = d ∧ same_workflow r row)).
  { case_bool as [->|_].
    - apply wp_ret. by simplify_eq.
    - apply wp_bind, wp_find_workflow; [|intros r1 Hr1 _].
      + intros Hnone. by specialize (Hnone _ Hr).
      + simpl. apply wp_ret. simplify_eq. split; [done|]. columns. }
  intros row d' [-> (_ & _ & _ & _ & _ & _ & _ & _ & Eres & Epar & _)]. rewrite Epar, Eres.
  destruct (match wf_parent_workflow_id r with
            | Some parent => Some parent
            | None => wf_restarted_from_workflow_id r
            end) as [next|] eqn:Enext.
  - assert (up d id next) as Hup by (by exists r).
    destruct (up_lt _ _ _ Hok Hup) as [Hlt Hsome].
    pose proof (rows_below_lt (db_workflow d) id next Hlt Hsome).
    apply IH; [done|lia|]. intros b Hb. apply HΦ. rewrite Hb. split.
    + intros Hr1. by eapply rtc_l.
    + intros [|(next' & Hup' & Hr1)]%rtc_inv; [done|]. by rewrite (up_functional _ _ _ _ Hup Hup').
  - assert (wp no_error (tx_ret false) e d Φ) as Hend.
    { apply wp_ret, HΦ. split; [done|].
      intros [|(next & (r1 & Hr1 & Hn) & _)]%rtc_inv; [done|]. simplify_eq; congruence. }
    by destruct fuel.
Qed.

(** The cycle check of a child command ends and is right (G8). For a claim
    of a row of tables in order it answers, without a write, whether the target
    is the caller or one of its ancestors along parents and, from a row without
    a parent, the generation it was restarted from. *)
Theorem ancestors_are_decided (e : Env) (d : Db) claim target :
  db_ok d → claim_of d claim →
  ∃ b, transaction e (is_caller_or_ancestor claim target) d = (Ok b, d)
    ∧ (b = true ↔ rtc (up d) (wf_id (cl_row claim)) target).
Proof.
  intros Hok Hclaim.
  assert (wp no_error (is_caller_or_ancestor claim target) e d
    (λ b d', d' = d ∧ (b = true ↔ rtc (up d) (wf_id (cl_row claim)) target))) as Hwp.
  { unfold is_caller_or_ancestor, db_fuel. apply wp_bind, wp_bind, wp_get, wp_ret.
    apply wp_ancestor_walk; [done|done| | |by auto].
    - destruct Hclaim as (r & Hr & _). by exists r.
    - unfold rows_below. pose proof (size_filter_le (db_workflow d)
        (λ p, (p.1 < wf_id (cl_row claim))%Z)). lia. }
  destruct (wp_total _ _ _ _ Hwp) as (b & d' & Ht & -> & Hb). eauto.
Qed.
End walks.

(** * The theorems on the scenario *)

(** A restart of the completed order, and its generations. *)
Definition restart_order : Tx WorkflowRestartOutcome := restart workflows 1 None operator.
Definition restarted_order : Db := run 12000 "m" restart_order completed.

Lemma restarted_order_ok : db_ok restarted_order.
Proof. exact (reachable_ok _ (steps_run _ _ _ _ _ (eng_restart _ _ _ _) completed_reachable)). Qed.

Lemma newest_generation_is_found_witness :
  ∃ r, transaction (env_at 13000 "n")
         (let! fuel := db_fuel in lock_newest_generation fuel (order_row restarted_order))
         restarted_order = (Ok r, restarted_order)
    ∧ rtc (successor restarted_order) (order_row restarted_order) r
    ∧ ∀ r', ¬ successor restarted_order r r'.
Proof.
  apply (newest_generation_is_found (env_at 13000 "n") restarted_order
    (order_row restarted_order)).
  - exact restarted_order_ok.
  - vm_compute. reflexivity.
Defined.

Lemma ancestors_are_decided_witness :
  ∃ b, transaction (env_at 4000 "d") (is_caller_or_ancestor order_claim 1) claimed
       = (Ok b, claimed)
    ∧ (b = true ↔ rtc (up claimed) (wf_id (cl_row order_claim)) 1%Z).
Proof.
  apply (ancestors_are_decided (env_at 4000 "d") claimed order_claim 1).
  - apply reachable_ok, claimed_reachable.
  - exists (order_row claimed). vm_compute. repeat split.
Defined.
