(* ===== verification/Claims.v ===== *)
(** The coordinator's claim (T-C1): its scan for expired leases ends and is
    complete, and a claim takes the oldest due workflow it can run. *)
From stdpp Require Import base gmap list strings relations.
From Stdlib Require Import ZArith Lia.
From S2P Require Import Prelude.
From S2P Require Import Errors.
From S2P Require Import Status.
From S2P Require Import Rows.
From S2P Require Import Database.
From S2P Require Import TxLogic.
From S2P Require Import Lifecycle.
From S2P Require Import Invariants.
From S2P Require Import Evolution.
From S2P Require Import Policy.
From S2P Require Import Transitions.
From S2P Require Import Registry.
From S2P Require Import Parents.
From S2P Require Import Store.
From S2P Require Import Coordinator.
From S2P Require Import Worker.
From S2P Require Import Control.
From S2P Require Import Reads.
From S2P Require Import Calendar.
From S2P Require Import ExampleCalendar.
From S2P Require Import Protocol.
From S2P Require Import Scenario.
From S2P Require Import Safety.
From S2P Require Import Walks.

(** * The orders of the scans *)

Ltac order_lia :=
  intros;
  rewrite ?orb_true_iff, ?andb_true_iff, ?Z.ltb_lt, ?Z.eqb_eq, ?Z.leb_le in *; lia.

Lemma expiry_le_total a b : expiry_le a b = true ∨ expiry_le b a = true.
Proof. unfold expiry_le. order_lia. Qed.

Lemma expiry_le_trans a b c : expiry_le a b = true → expiry_le b c = true → expiry_le a c = true.
Proof. unfold expiry_le. order_lia. Qed.

Lemma available_le_total a b : available_le a b = true ∨ available_le b a = true.
Proof. unfold available_le. order_lia. Qed.

Lemma available_le_trans a b c :
  available_le a b = true → available_le b c = true → available_le a c = true.
Proof. unfold available_le. order_lia. Qed.

(** A later row of the scan is after the cursor at an earlier one. *)
Lemma expiry_le_after now a b :
  expired_lease now b = true → expiry_le a b = true → wf_id a ≠ wf_id b →
  after_cursor (Some (default 0%Z (wf_lease_expires_at a), wf_id a)) b = true.
Proof.
  unfold expired_lease, expiry_le, after_cursor. destruct (wf_lease_expires_at b); simpl;
    rewrite ?orb_true_iff, ?andb_true_iff, ?Z.ltb_lt, ?Z.eqb_eq, ?Z.leb_le; [lia|].
  by intros [_ ?].
Qed.

Lemma after_cursor_irrefl a :
  after_cursor (Some (default 0%Z (wf_lease_expires_at a), wf_id a)) a = false.
Proof.
  unfold after_cursor. destruct (wf_lease_expires_at a); simpl; [|done].
  rewrite orb_false_iff, andb_false_iff, !Z.ltb_ge. lia.
Qed.

Lemma after_cursor_trans now cursor a b :
  expired_lease now a = true → after_cursor cursor a = true →
  after_cursor (Some (default 0%Z (wf_lease_expires_at a), wf_id a)) b = true →
  after_cursor cursor b = true.
Proof.
  unfold expired_lease, after_cursor. destruct cursor as [[x i]|]; [|done].
  destruct (wf_lease_expires_at a), (wf_lease_expires_at b); simpl; try done;
    rewrite ?orb_true_iff, ?andb_true_iff, ?Z.ltb_lt, ?Z.eqb_eq, ?Z.leb_le; lia.
Qed.

(** * The scan for expired leases *)

Lemma wp_relock_expired Ψ e d now page (Φ : option WorkflowRow → Db → Prop) :
  db_ok d →
  ((∀ id r, id ∈ page → db_workflow d !! id = Some r → expired_lease now r = true →
     env_locked_workflow e id = true) → Φ None d) →
  (∀ r, db_workflow d !! wf_id r = Some r → expired_lease now r = true →
     env_locked_workflow e (wf_id r) = false → Φ (Some r) d) →
  wp Ψ (relock_expired now page) e d Φ.
Proof.
  intros Hok. revert Φ. induction page as [|id page IH]; intros Φ HN HS; simpl.
  - apply wp_ret, HN. by intros id r ?%elem_of_nil.
  - apply wp_bind. unfold find_workflow_skip_locked. apply wp_bind, wp_env.
    destruct (env_locked_workflow e id) eqn:El.
    + apply wp_ret, IH; [|done]. intros Hrest. apply HN.
      intros i r [->|Hi]%elem_of_cons; eauto.
    + apply wp_find_workflow; [intros Hnone|intros r Hr _].
      * apply IH; [|done]. intros Hrest. apply HN.
        intros i r [->|Hi]%elem_of_cons Hr; [|by eauto]. by specialize (Hnone _ Hr).
      * destruct (ok_workflow _ Hok _ _ Hr) as [Hid _].
        destruct (expired_lease now r) eqn:Ex.
        { apply wp_ret, HS; [|done|]; by rewrite Hid. }
        apply IH; [|done]. intros Hrest. apply HN.
        intros i r1 [->|Hi]%elem_of_cons Hr1 Hx; [|by eauto]. congruence.
Qed.

(** The rows the scan has not passed. *)
Definition expired_after (d : Db) (now : DbMillis) (cursor : option (DbMillis * WorkflowId))
    : nat :=
  size (filter (λ p : Z * WorkflowRow,
    expired_lease now p.2 && after_cursor cursor p.2 = true) (db_workflow d)).

Lemma expired_after_lt d now cursor a :
  db_workflow d !! wf_id a = Some a → expired_lease now a = true → after_cursor cursor a = true →
  (expired_after d now (Some (default 0%Z (wf_lease_expires_at a), wf_id a))
   < expired_after d now cursor)%nat.
Proof.
  intros Ha Hx Hc. apply (size_filter_lt _ _ _ (wf_id a) a); cbn [fst snd]; [|done| |].
  - intros [i r]; cbn [fst snd]. rewrite !andb_true_iff. intros [? ?].
    split; [done|]. by apply (after_cursor_trans now cursor a r Hx Hc).
  - by rewrite Hx, Hc.
  - by rewrite after_cursor_irrefl, andb_false_r.
Qed.

(** The page of a scan: what is not on a short page does not exist, and what
    is not on a full one comes after its last row. *)
Lemma page_rest now rows a r :
  last (take PAGE (sort_by expiry_le rows)) = Some a → r ∈ rows → expired_lease now r = true →
  r ∈ take PAGE (sort_by expiry_le rows)
  ∨ ((length (take PAGE (sort_by expiry_le rows)) <? PAGE)%nat = false
     ∧ (wf_id a = wf_id r
        ∨ after_cursor (Some (default 0%Z (wf_lease_expires_at a), wf_id a)) r = true)).
Proof.
  intros Hlast Hr Hx. set (l := sort_by expiry_le rows) in *.
  assert (r ∈ take PAGE l ++ drop PAGE l) as [Ht|Hd]%elem_of_app.
  { rewrite take_drop. by apply elem_of_sort_by. }
  { by left. }
  right. split.
  { apply Nat.ltb_ge. rewrite length_take.
    destruct (Nat.le_gt_cases (length l) PAGE) as [Hle|]; [|lia].
    by rewrite drop_ge in Hd by done; apply elem_of_nil in Hd. }
  destruct (decide (wf_id a = wf_id r)); [by left|right].
  apply (expiry_le_after now); [done| |done].
  eapply (sort_by_app expiry_le expiry_le_total expiry_le_trans rows (take PAGE l) (drop PAGE l));
    [by rewrite take_drop|by apply last_take_elem|done].
Qed.

Lemma wp_scan_expired Ψ e d now fuel cursor (Φ : option WorkflowRow → Db → Prop) :
  db_ok d → (expired_after d now cursor < fuel)%nat →
  (∀ id r, db_workflow d !! id = Some r → expired_lease now r = true →
     env_locked_workflow e id = false → after_cursor cursor r = true) →
  ((∀ id r, db_workflow d !! id = Some r → expired_lease now r = true →
     env_locked_workflow e id = true) → Φ None d) →
  (∀ r, db_workflow d !! wf_id r = Some r → expired_lease now r = true →
     env_locked_workflow e (wf_id r) = false → Φ (Some r) d) →
  wp Ψ (scan_expired fuel now cursor) e d Φ.
Proof.
  intros Hok Hfuel Hafter HN HS. revert cursor Hfuel Hafter.
  induction fuel as [|fuel IH]; intros cursor Hfuel Hafter; [lia|]. simpl.
  apply wp_bind, wp_select_workflows. intros rows Hrows.
  assert (∀ id r, db_workflow d !! id = Some r → expired_lease now r = true →
    env_locked_workflow e id = false → r ∈ rows) as Hin.
  { intros id r Hr Hx Hl. apply Hrows. rewrite Hx, (Hafter _ _ Hr Hx Hl). eauto. }
  destruct (last (take PAGE (sort_by expiry_le rows))) as [a|] eqn:Elast.
  - assert (a ∈ rows) as Ha.
    { by eapply (elem_of_sort_by expiry_le), elem_of_take_in, last_take_elem. }
    apply Hrows in Ha as [[Hxa Hca]%andb_true_iff [ida Ha]].
    destruct (ok_workflow _ Hok _ _ Ha) as [Hida _].
    apply wp_bind, wp_relock_expired; [done| |by intros r; intros; apply wp_ret, HS].
    intros Hpage.
    assert (∀ id r, db_workflow d !! id = Some r → expired_lease now r = true →
      env_locked_workflow e id = false →
      (length (take PAGE (sort_by expiry_le rows)) <? PAGE)%nat = false
      ∧ after_cursor (Some (default 0%Z (wf_lease_expires_at a), wf_id a)) r = true) as Hrest.
    { intros id r Hr Hx Hl. destruct (ok_workflow _ Hok _ _ Hr) as [Hid _].
      assert (∀ r', r' ∈ take PAGE (sort_by expiry_le rows) → wf_id r' = id → False) as Hoff.
      { intros r' Ht Hid'. assert (env_locked_workflow e id = true); [|congruence].
        apply (Hpage id r); [|done|done]. apply list_elem_of_fmap. eauto. }
      destruct (page_rest now rows a r Elast (Hin _ _ Hr Hx Hl) Hx) as [Ht|[Hlen [Heq|Haf]]].
      - by destruct (Hoff r Ht).
      - destruct (Hoff a); [by apply last_take_elem|congruence].
      - done. }
    destruct (length _ <? PAGE)%nat eqn:Elen.
    + apply wp_ret, HN. intros id r Hr Hx. apply not_false_iff_true. intros Hl.
      by destruct (Hrest _ _ Hr Hx Hl).
    + apply IH.
      * subst ida. pose proof (expired_after_lt d now cursor a Ha Hxa Hca). lia.
      * intros id r Hr Hx Hl. by destruct (Hrest _ _ Hr Hx Hl).
  - apply wp_ret, HN. intros id r Hr Hx. apply not_false_iff_true. intros Hl.
    specialize (Hin _ _ Hr Hx Hl). apply (elem_of_sort_by expiry_le) in Hin.
    apply last_None in Elast. destruct (sort_by expiry_le rows); [by apply elem_of_nil in Hin|done].
Qed.

(** * History rows *)

(** The event sequences have not reached the end of their column. *)
Definition sequences_fit (d : Db) : Prop :=
  ∀ ev, ev ∈ db_event d → (0 < ev_sequence ev < i32_max)%Z.

Lemma sequences_fit_test d :
  forallb (λ ev, (0 <? ev_sequence ev)%Z && (ev_sequence ev <? i32_max)%Z) (db_event d) = true →
  sequences_fit d.
Proof.
  rewrite forallb_forall. intros Hall ev Hev%list_elem_of_In%Hall. norm_tests. lia.
Qed.

Lemma next_sequence_fits d id :
  sequences_fit d →
  let current := default 0%Z (max_of (ev_sequence <$> events_of d id)) in
  i32_checked_add current 1 = Some (current + 1)%Z
  ∧ (current + 1)%Z ∉ ev_sequence <$> events_of d id.
Proof.
  intros Hfit. cbv zeta.
  assert (∀ n, n ∈ ev_sequence <$> events_of d id → (0 < n < i32_max)%Z) as Hin.
  { intros n (ev & -> & [_ Hev]%list_elem_of_filter)%list_elem_of_fmap. by apply Hfit. }
  destruct (max_of (ev_sequence <$> events_of d id)) as [m|] eqn:Em; simpl.
  - pose proof (Hin m (max_of_elem _ _ Em)). split.
    + by ranges.
    + intros ?%(max_of_bound _ _ _ Em). lia.
  - apply max_of_None in Em. rewrite Em. split; [done|]. apply not_elem_of_nil.
Qed.

(** A row for an existing workflow is always appended. *)
Lemma wp_append_next Ψ e d id (row : Z → Z → WorkflowEventRow) (Φ : unit → Db → Prop) :
  (∀ n k, ev_workflow_id (row n k) = id ∧ ev_sequence (row n k) = n
          ∧ ev_delivery_sequence (row n k) = None) →
  sequences_fit d → is_Some (db_workflow d !! id) →
  (∀ n, Φ tt (with_event d (row n (db_next_event d)))) →
  wp Ψ (let! sequence := next_event_sequence id in append_event (row sequence)) e d Φ.
Proof.
  intros Hrow Hfit [w Hw] HΦ. destruct (next_sequence_fits d id Hfit) as [Hadd Hnew].
  unfold next_event_sequence, append_event. apply wp_bind, wp_bind, wp_get. cbv zeta. rewrite Hadd.
  apply wp_lift; [done|]. intros n [= <-]. apply wp_bind, wp_get.
  destruct (Hrow (default 0 (max_of (ev_sequence <$> events_of d id)) + 1)%Z (db_next_event d))
    as (E1 & E2 & E3). rewrite E1, E2, E3.
  rewrite bool_decide_false by done. rewrite bool_decide_false by (by intros [[] _]).
  rewrite bool_decide_false by congruence. apply wp_put, HΦ.
Qed.

Lemma wp_append_history Ψ e d id event_type now (Φ : unit → Db → Prop) :
  sequences_fit d → is_Some (db_workflow d !! id) →
  (∀ ev, history_of id event_type now ev → Φ tt (with_event d ev)) →
  wp Ψ (append_history id event_type now) e d Φ.
Proof. intros Hfit Hw HΦ. apply (wp_append_next _ _ _ id); [done..|]. intros n. by apply HΦ. Qed.

(** An update of a row that is there. *)
Lemma wp_update_workflow_hit Ψ e d id p f r (Φ : nat → Db → Prop) :
  db_workflow d !! id = Some r → p r = true →
  Φ 1 (d <| db_workflow := <[id := f r]> (db_workflow d) |>) →
  wp Ψ (update_workflow id p f) e d Φ.
Proof. intros Hr Hp HΦ i j. unfold update_workflow. cbn. by rewrite Hr, Hp. Qed.

(** * The claim *)

(** The lease fits the clock. *)
Definition lease_fits (config : CoordinatorConfig) (e : Env) : Prop :=
  (0 ≤ cfg_lease_duration config ≤ i64_max)%Z
  ∧ ∀ i, (i64_min ≤ env_clock e i)%Z ∧ (env_clock e i + cfg_lease_duration config ≤ i64_max)%Z.

Definition runnable (definitions : list DefinitionKey) (now : DbMillis) (r : WorkflowRow) : bool :=
  local_definition definitions (wf_kind r) (wf_version r) && due now r.

(** A workflow the worker can start at [now]: it runs the definition, and the
    row is ready and due. *)
Definition startable (definitions : list DefinitionKey) (now : DbMillis) (r : WorkflowRow)
    : Prop :=
  (wf_kind r, wf_version r) ∈ definitions ∧ wf_status r = WfReady
  ∧ (wf_available_at r ≤ now)%Z.

Lemma runnable_spec definitions now r :
  runnable definitions now r = true ↔ startable definitions now r.
Proof.
  unfold runnable, local_definition, due, startable.
  by rewrite !andb_true_iff, !bool_decide_eq_true, Z.leb_le.
Qed.

(** A running workflow whose lease has ended at [now]. *)
Definition lease_ended (now : DbMillis) (r : WorkflowRow) : Prop :=
  wf_status r = WfRunning ∧ ∃ expiry, wf_lease_expires_at r = Some expiry ∧ (expiry ≤ now)%Z.

Lemma expired_lease_spec now r : expired_lease now r = true ↔ lease_ended now r.
Proof.
  unfold expired_lease, lease_ended. rewrite andb_true_iff, bool_decide_eq_true.
  destruct (wf_lease_expires_at r) as [x|]; [rewrite Z.leb_le|].
  - split; [intros []; eauto|]. by intros [? (? & [= <-] & ?)].
  - split; [by intros []|by intros (_ & ? & ? & _)].
Qed.

(** The order of two rows by a time and then by id. *)
Definition no_later (time : WorkflowRow → Z) (a b : WorkflowRow) : Prop :=
  (time a < time b ∨ time a = time b ∧ wf_id a ≤ wf_id b)%Z.

Lemma available_le_spec a b : available_le a b = true ↔ no_later wf_available_at a b.
Proof. unfold available_le, no_later. order_lia. Qed.

Definition lease_end (r : WorkflowRow) : Z := default 0%Z (wf_lease_expires_at r).

Lemma expiry_le_spec a b : expiry_le a b = true ↔ no_later lease_end a b.
Proof. unfold expiry_le, no_later, lease_end. order_lia. Qed.

(** The recovery of a claim at [now]: when some lease has ended, the row whose
    lease ended first gives it up and is ready at once, and its history says
    so; when none has, nothing changes. *)
Definition lease_recovery (now : DbMillis) (d d1 : Db) : Prop :=
  (d1 = d ∧ ∀ id r, db_workflow d !! id = Some r → ¬ lease_ended now r)
  ∨ ∃ r ev, db_workflow d !! wf_id r = Some r ∧ lease_ended now r
      ∧ (∀ id r', db_workflow d !! id = Some r' → lease_ended now r' → no_later lease_end r r')
      ∧ history_of (wf_id r) "lease_recovered" now ev
      ∧ d1 = with_event (d <| db_workflow := <[wf_id r :=
               r <| wf_status := WfReady |> <| wf_available_at := now |>
                 <| wf_lease_owner := None |> <| wf_lease_token := None |>
                 <| wf_lease_expires_at := None |> <| wf_updated_at := now |>]>
               (db_workflow d) |>) ev.

(** What a claim at [now] does to the tables [d1] its recovery left. *)
Definition claimed_at (now : DbMillis) (config : CoordinatorConfig) (worker : string)
    (definitions : list DefinitionKey) (d1 : Db) (result : option ClaimedRow) (d' : Db) : Prop :=
  match result with
  | None => d' = d1 ∧ ∀ id r, db_workflow d1 !! id = Some r → ¬ startable definitions now r
  | Some claim =>
      let expires := (now + cfg_lease_duration config)%Z in
      ∃ r, db_workflow d1 !! wf_id r = Some r ∧ startable definitions now r
        ∧ (∀ id r', db_workflow d1 !! id = Some r' → startable definitions now r' →
             no_later wf_available_at r r')
        ∧ cl_row claim = r <| wf_status := WfRunning |>
                           <| wf_lease_token := Some (cl_lease_token claim) |>
                           <| wf_lease_expires_at := Some expires |>
        ∧ d' = d1 <| db_workflow := <[wf_id r :=
                 r <| wf_status := WfRunning |> <| wf_lease_owner := Some worker |>
                   <| wf_lease_token := Some (cl_lease_token claim) |>
                   <| wf_lease_expires_at := Some expires |> <| wf_updated_at := now |>]>
                 (db_workflow d1) |>
  end.

(** The recovery takes no startable workflow away. *)
Lemma recovery_keeps_startable definitions now d d1 id r :
  lease_recovery now d d1 → db_workflow d !! id = Some r → startable definitions now r →
  db_workflow d1 !! id = Some r.
Proof.
  intros [[-> _]|(r0 & ev & Hr0 & [Hrun _] & _ & _ & ->)] Hr (_ & Hready & _); [done|].
  simpl. rewrite lookup_insert_ne; [done|]. intros <-. simplify_eq. congruence.
Qed.

(** The second half of the claim, on the tables [d1] after the recovery. *)
Definition claim_due (worker_id : string) (definitions : list DefinitionKey)
    (now lease_expires_at : DbMillis) : Tx (option ClaimedRow) :=
  match definitions with
  | [] => tx_ret None
  | _ :: _ =>
      let! rows := select_workflows (λ r,
          local_definition definitions (wf_kind r) (wf_version r) && due now r) in
      let candidate_ids := wf_id <$> take PAGE (sort_by available_le rows) in
      let! claimed := lock_first_due now candidate_ids in
      match claimed with
      | None => tx_ret None
      | Some row =>
          let! lease_token := new_uuid in
          let! changed := update_workflow (wf_id row)
              (λ r, bool_decide (wf_status r = WfReady))
              (claimed_row worker_id lease_token lease_expires_at now) in
          do! ensure_fenced changed in
          tx_ret (Some (MkClaimedRow
            (row <| wf_status := WfRunning |> <| wf_lease_token := Some lease_token |>
                 <| wf_lease_expires_at := Some lease_expires_at |>) lease_token))
      end
  end.

(** With no row held by others, the oldest runnable row is claimed. *)
Lemma wp_claim_due Ψ e d worker definitions now expires (Φ : option ClaimedRow → Db → Prop) :
  (∀ id r, db_workflow d !! id = Some r → wf_id r = id) →
  (∀ id, env_locked_workflow e id = false) →
  ((∀ id r, db_workflow d !! id = Some r → runnable definitions now r = false) → Φ None d) →
  (∀ row token, db_workflow d !! wf_id row = Some row → runnable definitions now row = true →
    (∀ id r, db_workflow d !! id = Some r → runnable definitions now r = true →
       available_le row r = true) →
    Φ (Some (MkClaimedRow
        (row <| wf_status := WfRunning |> <| wf_lease_token := Some token |>
             <| wf_lease_expires_at := Some expires |>) token))
      (d <| db_workflow := <[wf_id row := claimed_row worker token expires now row]>
              (db_workflow d) |>)) →
  wp Ψ (claim_due worker definitions now expires) e d Φ.
Proof.
  intros Hids Hfree HN HS. unfold claim_due. destruct definitions as [|key keys].
  { apply wp_ret, HN. intros id r _. unfold runnable, local_definition.
    by rewrite bool_decide_false by (apply not_elem_of_nil). }
  set (definitions := key :: keys) in *. apply wp_bind, wp_select_workflows. intros rows Hrows.
  destruct (sort_by available_le rows) as [|row rest] eqn:Esort; simpl.
  - apply wp_bind, wp_ret, wp_ret, HN. intros id r Hr. apply not_true_iff_false. intros Hrun.
    apply (not_elem_of_nil r). rewrite <- Esort. apply elem_of_sort_by, Hrows. eauto.
  - assert (row ∈ rows) as [Hrun [id Hid]]%Hrows.
    { apply (elem_of_sort_by available_le). rewrite Esort. apply list_elem_of_here. }
    pose proof (Hids _ _ Hid) as Heq. rewrite <- Heq in Hid.
    assert (due now row = true) as Hdue by (by apply andb_true_iff in Hrun as [_ ?]).
    apply wp_bind, wp_bind. unfold find_workflow_skip_locked. apply wp_bind, wp_env.
    rewrite Hfree. apply wp_find_workflow; [intros Hn; specialize (Hn _ Hid); congruence|].
    intros ? ? _. simplify_eq. apply wp_ret, wp_bind, wp_uuid. intros j.
    apply wp_bind, (wp_update_workflow_hit _ _ _ _ _ _ row); [done| |].
    { by apply andb_true_iff in Hdue as [? _]. }
    apply wp_bind, wp_ret, wp_ret, HS; [done|done|]. intros id' r Hr Hrun'.
    apply (sort_by_head available_le available_le_total available_le_trans rows row rest r Esort).
    apply Hrows. eauto.
Qed.

(** With no row held by others, the scan finds the lease that ended first. *)
Lemma wp_scan_free Ψ e d now fuel (Φ : option WorkflowRow → Db → Prop) :
  (∀ id r, db_workflow d !! id = Some r → wf_id r = id) →
  (∀ id, env_locked_workflow e id = false) →
  ((∀ id r, db_workflow d !! id = Some r → expired_lease now r = false) → Φ None d) →
  (∀ r, db_workflow d !! wf_id r = Some r → expired_lease now r = true →
     (∀ id r', db_workflow d !! id = Some r' → expired_lease now r' = true →
        expiry_le r r' = true) → Φ (Some r) d) →
  wp Ψ (scan_expired (S fuel) now None) e d Φ.
Proof.
  intros Hids Hfree HN HS. cbn [scan_expired]. apply wp_bind, wp_select_workflows.
  intros rows Hrows.
  assert (∀ r, r ∈ rows ↔ expired_lease now r = true ∧ ∃ id, db_workflow d !! id = Some r) as Hin.
  { intros r. rewrite (Hrows r), andb_true_r. done. }
  destruct (sort_by expiry_le rows) as [|r rest] eqn:Esort.
  - apply wp_ret, HN. intros id r Hr. apply not_true_iff_false. intros Hx.
    apply (not_elem_of_nil r). rewrite <- Esort. apply elem_of_sort_by, Hin. eauto.
  - assert (r ∈ rows) as [Hx [id Hid]]%Hin.
    { apply (elem_of_sort_by expiry_le). rewrite Esort. apply list_elem_of_here. }
    pose proof (Hids _ _ Hid) as Heq. rewrite <- Heq in Hid.
    destruct (last (take PAGE (r :: rest))) as [a|] eqn:El;
      [|by apply last_None in El].
    apply wp_bind. cbn [take fmap list_fmap PAGE relock_expired]. apply wp_bind.
    unfold find_workflow_skip_locked. apply wp_bind, wp_env. rewrite Hfree.
    apply wp_find_workflow; [intros Hn; specialize (Hn _ Hid); congruence|].
    intros ? ? _. simplify_eq. rewrite Hx. apply wp_ret, wp_ret, HS; [done|done|].
    intros id' r' Hr' Hx'.
    apply (sort_by_head expiry_le expiry_le_total expiry_le_trans rows r rest r' Esort).
    apply Hin. eauto.
Qed.

Section claims.
Context `{Codec, Chrono}.

Lemma running_has_token d id r :
  reachable d → db_workflow d !! id = Some r → wf_status r = WfRunning →
  is_Some (wf_lease_token r).
Proof.
  intros Hd Hr Hrun. destruct (reachable_workflow _ _ _ Hd Hr) as (r0 & Hnew & Hs).
  pose proof (rtc_invariant _ _ wf_lease_step _ _ (wf_lease_new _ Hnew) Hs) as Hok.
  unfold wf_lease_ok in Hok. rewrite decide_True in Hok by done. by destruct Hok as (_ & ? & _).
Qed.

(** The scan for expired leases ends and is complete. It returns, without
    a write, an expired lease whose row no other transaction holds, and when
    it returns none then every expired lease is on a row that is held. *)
Theorem expired_scan_is_complete (e : Env) (d : Db) now :
  db_ok d →
  ∃ found, transaction e (let! fuel := db_fuel in scan_expired fuel now None) d = (Ok found, d)
    ∧ match found with
      | Some r => db_workflow d !! wf_id r = Some r ∧ expired_lease now r = true
                  ∧ env_locked_workflow e (wf_id r) = false
      | None => ∀ id r, db_workflow d !! id = Some r → expired_lease now r = true →
                  env_locked_workflow e id = true
      end.
Proof.
  intros Hok.
  assert (wp no_error (let! fuel := db_fuel in scan_expired fuel now None) e d (λ found d',
    d' = d ∧ match found with
      | Some r => db_workflow d !! wf_id r = Some r ∧ expired_lease now r = true
                  ∧ env_locked_workflow e (wf_id r) = false
      | None => ∀ id r, db_workflow d !! id = Some r → expired_lease now r = true →
                  env_locked_workflow e id = true
      end)) as Hwp.
  { unfold db_fuel. apply wp_bind, wp_bind, wp_get, wp_ret, wp_scan_expired; auto.
    pose proof (size_filter_le (db_workflow d) (λ p,
      expired_lease now p.2 && after_cursor None p.2 = true)). unfold expired_after. lia. }
  destruct (wp_total _ _ _ _ Hwp) as (found & d' & Ht & -> & Hf). eauto.
Qed.

(** The claim on the tables its recovery left. *)
Lemma wp_claim_due_at e d1 config worker definitions now :
  (∀ id r, db_workflow d1 !! id = Some r → wf_id r = id) →
  (∀ id, env_locked_workflow e id = false) →
  wp no_error (claim_due worker definitions now (now + cfg_lease_duration config)) e d1
    (claimed_at now config worker definitions d1).
Proof.
  intros Hids Hfree. apply wp_claim_due; [done|done| |].
  - intros Hnone. split; [done|]. intros id r Hr Hs%runnable_spec.
    rewrite (Hnone _ _ Hr) in Hs. done.
  - intros row token Hrow Hrun%runnable_spec Hmin. exists row. split_and!; try done.
    intros id r' Hr' Hs%runnable_spec. by eapply available_le_spec, Hmin.
Qed.

(** The recovery of the lease that the scan found. *)
Lemma wp_recover_expired e d now r (Φ : unit → Db → Prop) :
  reachable d → sequences_fit d → db_workflow d !! wf_id r = Some r → expired_lease now r = true →
  (∀ ev, history_of (wf_id r) "lease_recovered" now ev →
     Φ tt (with_event (d <| db_workflow := <[wf_id r := recovered_row now r]> (db_workflow d) |>) ev)) →
  wp no_error (recover_expired now r) e d Φ.
Proof.
  intros Hd Hfit Hr [Hrun _]%expired_lease_spec HΦ. unfold recover_expired.
  apply wp_bind, (wp_update_workflow_hit _ _ _ _ _ _ r); [done| |].
  { apply bool_decide_eq_true. split_and!; [done|done|]. by eapply running_has_token. }
  apply wp_bind, wp_ret, wp_append_history; [done| |done].
  exists (recovered_row now r). simpl. by rewrite lookup_insert_eq.
Qed.

Lemma wp_claim_row config worker definitions (e : Env) (d : Db) :
  reachable d → sequences_fit d → lease_fits config e →
  (∀ id, env_locked_workflow e id = false) →
  wp no_error (claim_row config worker definitions) e d
    (λ result d', ∃ i d1, lease_recovery (env_clock e i) d d1
       ∧ claimed_at (env_clock e i) config worker definitions d1 result d').
Proof.
  intros Hd Hfit [Hlease Hclock] Hfree. pose proof (reachable_ok _ Hd) as Hok.
  assert (∀ id r, db_workflow d !! id = Some r → wf_id r = id) as Hids
    by (intros id r Hr; by apply (ok_workflow _ Hok)).
  unfold claim_row. apply wp_bind. unfold duration_millis.
  replace (i64_try_from (cfg_lease_duration config)) with (Some (cfg_lease_duration config))
    by (ranges; done).
  apply wp_ret, wp_bind, wp_now. intros i. destruct (Hclock i) as [Hlo Hhi].
  apply wp_bind. unfold checked_plus_millis.
  replace (i64_checked_add (env_clock e i) (cfg_lease_duration config))
    with (Some (env_clock e i + cfg_lease_duration config)%Z) by (ranges; done).
  set (now := env_clock e i) in *. apply wp_ret, wp_bind, wp_bind, wp_get, wp_ret, wp_bind.
  apply wp_scan_free; [done|done|intros Hnone|intros r Hr Hx Hmin].
  - apply wp_bind, wp_ret. eapply wp_mono; [by apply wp_claim_due_at|].
    intros result d' Hc. exists i, d. split; [left; split; [done|]|done].
    intros id r Hr Hx%expired_lease_spec. specialize (Hnone _ _ Hr). unfold now in Hnone. congruence.
  - apply wp_bind, wp_recover_expired; [done..|]. intros ev Hev.
    eapply wp_mono; [apply wp_claim_due_at; [|done]|].
    { simpl. intros id r1 [[<- <-]|[_ Hr1]]%lookup_insert_Some; [done|]. by apply Hids. }
    intros result d' Hc. exists i. eexists. split; [right|exact Hc].
    exists r, ev. split_and!; [done|by apply expired_lease_spec| |done|done].
    intros id r' Hr' Hx'%expired_lease_spec. by eapply expiry_le_spec, Hmin.
Qed.

(** C15: L1, L2. When no other transaction holds a workflow row, and the event
    sequences and the lease fit their columns, the claim succeeds. First it
    recovers a lease: if some running workflow's lease has ended at the
    database's time, the one whose lease ended first (the smaller id on a
    tie), and only that one, gives its lease up, is ready at that time and has
    one [lease_recovered] row appended to its history; if none has ended
    nothing changes. Then, on these tables, it takes the oldest due work: if
    some workflow of a definition the worker runs is ready and due, the one
    that no other precedes in due time and id, and only that one, is running
    for this worker under the returned token until the lease duration has
    passed. A claim that returns none left nothing that could be started. *)
Theorem claim_takes_the_oldest_due config worker definitions (e : Env) (d : Db) :
  reachable d → sequences_fit d → lease_fits config e →
  (∀ id, env_locked_workflow e id = false) →
  ∃ i d1 result d', transaction e (claim_row config worker definitions) d = (Ok result, d')
    ∧ lease_recovery (env_clock e i) d d1
    ∧ claimed_at (env_clock e i) config worker definitions d1 result d'.
Proof.
  intros Hd Hfit Hlease Hfree.
  destruct (wp_total _ _ _ _ (wp_claim_row config worker definitions e d Hd Hfit Hlease Hfree))
    as (result & d' & Ht & i & d1 & Hr & Hc). eauto 10.
Qed.
End claims.

(** * The theorems on the scenario *)

Lemma expired_scan_is_complete_witness :
  ∃ found, transaction (env_at 99000 "x") (let! fuel := db_fuel in scan_expired fuel 99000 None)
             claimed = (Ok found, claimed)
    ∧ match found with
      | Some r => db_workflow claimed !! wf_id r = Some r ∧ expired_lease 99000 r = true
                  ∧ env_locked_workflow (env_at 99000 "x") (wf_id r) = false
      | None => ∀ id r, db_workflow claimed !! id = Some r → expired_lease 99000 r = true →
                  env_locked_workflow (env_at 99000 "x") id = true
      end.
Proof.
  apply (expired_scan_is_complete (env_at 99000 "x") claimed 99000).
  apply reachable_ok, claimed_reachable.
Defined.

(** A second worker recovers and claims the order after the first one's lease
    ended. *)
Lemma claim_takes_the_oldest_due_witness :
  lease_ended 99000 (order_row claimed) ∧
  ∃ i d1 result d',
    transaction (env_at 99000 "x")
      (claim_row default_coordinator_config "worker-2" [("order", 1%Z)]) claimed = (Ok result, d')
    ∧ lease_recovery (env_clock (env_at 99000 "x") i) claimed d1
    ∧ claimed_at (env_clock (env_at 99000 "x") i) default_coordinator_config "worker-2"
        [("order", 1%Z)] d1 result d'.
Proof.
  split; [apply expired_lease_spec; vm_compute; reflexivity|].
  apply (claim_takes_the_oldest_due default_coordinator_config "worker-2" [("order", 1%Z)]
    (env_at 99000 "x") claimed).
  - exact claimed_reachable.
  - apply sequences_fit_test. vm_compute. reflexivity.
  - split; [|intros i]; vm_compute; split; congruence.
  - reflexivity.
Defined.
