(* ===== verification/Topics.v ===== *)
(** The topic concurrency cap (S17): a claim transaction of the activity
    worker never takes the live slot holders of a topic above the limit of its
    lock row. *)
From stdpp Require Import base gmap list strings relations.
From Stdlib Require Import ZArith Lia.
From S2P Require Import Prelude.
From S2P Require Import Errors.
From S2P Require Import Status.
From S2P Require Import Rows.
From S2P Require Import Database.
From S2P Require Import TxLogic.
From S2P Require Import Lifecycle.
From S2P Require Import Evolution.
From S2P Require Import Policy.
From S2P Require Import Transitions.
From S2P Require Import Registry.
From S2P Require Import Parents.
From S2P Require Import Store.
From S2P Require Import Coordinator.
From S2P Require Import Worker.
From S2P Require Import WorkerSteps.
From S2P Require Import Control.
From S2P Require Import Reads.
From S2P Require Import Calendar.
From S2P Require Import ExampleCalendar.
From S2P Require Import Protocol.
From S2P Require Import Scenario.
From S2P Require Import Safety.

(** * Counting slots *)

(** Running or cancelling on [topic] with a lease that is live at [now]. *)
Definition live_slot (topic : string) (now : DbMillis) (r : ActivityRow) : bool :=
  bool_decide (ac_topic r = topic)
  && bool_decide (ac_status r = ActRunning ∨ ac_status r = ActCancelling)
  && match ac_lease_expires_at r with Some expiry => (now <? expiry)%Z | None => false end.

(** The slots that the count of a claim includes. *)
Lemma live_slot_counted topic now r : live_slot topic now r = slot_counted topic [] now r.
Proof.
  unfold live_slot, slot_counted. rewrite (bool_decide_false (ac_id r ∈ [])), orb_false_r
    by apply not_elem_of_nil. by destruct (ac_status r).
Qed.

Definition live_slots (topic : string) (now : DbMillis) (m : gmap Z ActivityRow) : nat :=
  size (filter (λ p : Z * ActivityRow, live_slot topic now p.2 = true) m).

Lemma length_select {V} (p : V → bool) (m : gmap Z V) :
  length (filter (λ r, p r = true) (snd <$> map_to_list m))
  = size (filter (λ x : Z * V, p x.2 = true) m).
Proof.
  induction m as [|i x m Hi IH] using map_ind; [done|].
  rewrite (map_to_list_insert _ _ _ Hi). rewrite fmap_cons, filter_cons. simpl.
  destruct (p x) eqn:Ep.
  - rewrite decide_True by done. simpl. rewrite IH.
    rewrite map_filter_insert_True by done. rewrite map_size_insert_None; [done|].
    apply map_lookup_filter_None. by left.
  - rewrite decide_False by congruence. rewrite IH.
    rewrite map_filter_insert_False by (simpl; congruence). by rewrite delete_id.
Qed.

Lemma live_slots_insert topic now m id r r' :
  m !! id = Some r →
  (live_slots topic now (<[id := r']> m)
   ≤ live_slots topic now m + if live_slot topic now r' then 1 else 0)%nat.
Proof.
  intros Hr. unfold live_slots. destruct (live_slot topic now r') eqn:E.
  - rewrite map_filter_insert_True by done. rewrite map_size_insert. case_match; simpl; lia.
  - rewrite map_filter_insert_False by (simpl; congruence).
    rewrite map_filter_delete, map_size_delete. case_match; simpl; lia.
Qed.

(** From [m] to [m'] at most the activities of [claims] took a slot; no
    activity changed its id or topic and none was added. *)
Record slots_grow (now : DbMillis) (claims : list ActivityClaim) (m m' : gmap Z ActivityRow)
    : Prop := {
  grow_slots : ∀ topic, (live_slots topic now m'
    ≤ live_slots topic now m + length (filter (λ c, ac_topic (acl_row c) = topic) claims))%nat;
  grow_rows : ∀ id r', m' !! id = Some r' →
    ∃ r, m !! id = Some r ∧ ac_topic r' = ac_topic r ∧ ac_id r' = ac_id r;
}.

(** A row is stored under its id. *)
Definition ids_ok (m : gmap Z ActivityRow) : Prop := ∀ id r, m !! id = Some r → ac_id r = id.

Lemma slots_grow_ids now claims m m' : slots_grow now claims m m' → ids_ok m → ids_ok m'.
Proof. intros [_ Hrows] Hm id r' (r & Hr & _ & ->)%Hrows. by apply Hm. Qed.

Lemma slots_grow_refl now m : slots_grow now [] m m.
Proof. split; [intros; simpl; lia|eauto]. Qed.

Lemma slots_grow_trans now claims1 claims2 m1 m2 m3 :
  slots_grow now claims1 m1 m2 → slots_grow now claims2 m2 m3 →
  slots_grow now (claims1 ++ claims2) m1 m3.
Proof.
  intros [H1 T1] [H2 T2]. split.
  - intros topic. specialize (H1 topic). specialize (H2 topic).
    rewrite filter_app, length_app. lia.
  - intros id r (r2 & Hr2 & E2 & I2)%T2. destruct (T1 _ _ Hr2) as (r1 & Hr1 & E1 & I1).
    exists r1. split_and!; [done|congruence..].
Qed.

(** An update that gives its row no slot. *)
Lemma slots_grow_released now m0 m id r r' :
  slots_grow now [] m0 m → m !! id = Some r → ac_topic r' = ac_topic r ∧ ac_id r' = ac_id r →
  set_contains SLOT_HOLDERS (ac_status r') = false →
  slots_grow now [] m0 (<[id := r']> m).
Proof.
  intros Hm Hr [Ht Hi] Hs. apply (slots_grow_trans now [] [] _ m); [done|]. split.
  - intros topic. pose proof (live_slots_insert topic now m id r r' Hr) as Hle.
    assert (live_slot topic now r' = false) as Hl.
    { rewrite live_slot_counted. unfold slot_counted. by rewrite Hs, andb_false_r. }
    rewrite Hl in Hle. simpl. lia.
  - intros i x [[<- <-]|[_ Hx]]%lookup_insert_Some; eauto.
Qed.

(** The claim of one row. *)
Lemma slots_grow_claimed now m id r r' claim :
  m !! id = Some r → ac_topic r' = ac_topic r ∧ ac_id r' = ac_id r →
  ac_topic (acl_row claim) = ac_topic r → slots_grow now [claim] m (<[id := r']> m).
Proof.
  intros Hr [Ht Hi] Hc. split.
  - intros topic. pose proof (live_slots_insert topic now m id r r' Hr) as Hle.
    rewrite filter_cons, Hc. rewrite live_slot_counted in Hle. unfold slot_counted in Hle. rewrite Ht in Hle.
    case_bool as [->|Hne].
    + rewrite decide_True by done. simpl in *. case_match; lia.
    + simpl in Hle. lia.
  - intros i x [[<- <-]|[_ Hx]]%lookup_insert_Some; eauto.
Qed.

Lemma reconciled_row_released exhausted available_at now r :
  set_contains SLOT_HOLDERS (ac_status (reconciled_row exhausted available_at now r)) = false.
Proof. by destruct exhausted. Qed.

Lemma settled_row_released terminal available_at now r :
  set_contains SLOT_HOLDERS (ac_status (settled_row terminal available_at now r)) = false.
Proof. by destruct terminal. Qed.

(** Closes a run that gave up slots or took none. *)
Ltac released :=
  repeat lazymatch goal with
  | |- slots_grow _ _ ?m ?m => apply slots_grow_refl
  | |- slots_grow _ _ _ (<[_ := reconciled_row _ _ _ _]> _) =>
      eapply slots_grow_released; [|eassumption|split; reflexivity|apply reconciled_row_released]
  | |- slots_grow _ _ _ (<[_ := settled_row _ _ _ _]> _) =>
      eapply slots_grow_released; [|eassumption|split; reflexivity|apply settled_row_released]
  | |- slots_grow _ _ _ (<[_ := quarantined_row _ _ _]> _) =>
      eapply slots_grow_released; [|eassumption|split; reflexivity|reflexivity]
  end.

(** * The operations of the claim transaction *)

Section cap.
Context `{Codec}.
Context (now : DbMillis).

Lemma wp_reconcile_candidate e d topic candidate :
  wp any_error (reconcile_candidate topic now candidate) e d
    (λ _ d', slots_grow now [] (db_activity d) (db_activity d')
             ∧ db_topic_lock d' = db_topic_lock d).
Proof.
  unfold reconcile_candidate, reconcile_running, settle_revoked, close_attempt,
    block_workflow, append_activity_history.
  repeat run_step; simpl in *; (split; [|done]); released.
Qed.

Lemma wp_reconcile_candidates e d topic candidates :
  wp any_error (reconcile_candidates topic now candidates) e d
    (λ _ d', slots_grow now [] (db_activity d) (db_activity d')
             ∧ db_topic_lock d' = db_topic_lock d).
Proof.
  revert d. induction candidates as [|c cs IH]; intros d; simpl.
  - apply wp_ret. split; [apply slots_grow_refl|done].
  - apply wp_bind. eapply wp_mono; [apply wp_reconcile_candidate|]. intros b d1 [Hs1 Hl1].
    apply wp_bind. eapply wp_mono; [apply IH|]. intros ids d2 [Hs2 Hl2]. apply wp_ret.
    split; [|congruence]. by apply (slots_grow_trans now [] [] _ (db_activity d1)).
Qed.

Lemma wp_reconcile_expired e d topic :
  wp any_error (reconcile_expired topic now) e d
    (λ _ d', slots_grow now [] (db_activity d) (db_activity d')
             ∧ db_topic_lock d' = db_topic_lock d).
Proof. unfold reconcile_expired. run_step. run_step. apply wp_reconcile_candidates. Qed.

(** The count the cap is compared with is at least the live slots. *)
Lemma wp_in_flight e d topic unsettled (Φ : Z → Db → Prop) :
  (∀ n, (Z.of_nat (live_slots topic now (db_activity d)) ≤ n)%Z → Φ n d) →
  wp any_error (in_flight topic unsettled now) e d Φ.
Proof.
  intros HΦ i j. unfold in_flight, select_activities. cbn. apply HΦ.
  rewrite length_select. unfold live_slots. apply Nat2Z.inj_le, size_filter_mono. intros [id r]. simpl.
  rewrite live_slot_counted. unfold slot_counted. rewrite !andb_true_iff, !orb_true_iff, !bool_decide_eq_true.
  intros [? [?|?%elem_of_nil]]; [|done]. auto.
Qed.

Lemma wp_claim_locked_candidate e d activities id workflow started worker :
  ids_ok (db_activity d) →
  wp any_error (claim_locked_candidate activities id workflow now started worker) e d
    (λ claim d', slots_grow now (option_list claim) (db_activity d) (db_activity d')
       ∧ db_topic_lock d' = db_topic_lock d
       ∧ ∀ c, claim = Some c → ∃ r, db_activity d !! id = Some r
                                ∧ ac_topic (acl_row c) = ac_topic r).
Proof.
  intros Hids. unfold claim_locked_candidate, quarantine_candidate, claim_row_locked, block_workflow,
    append_activity_history.
  repeat run_step; simpl in *; (split; [|split; [done|]]); try done; try released;
    (match goal with
     | H : db_activity d !! id = Some ?r |- _ => rewrite (Hids _ _ H) in *
     end); simplify_eq.
  - by eapply slots_grow_claimed; [eassumption|split; reflexivity|].
  - intros c [= <-]. eauto.
Qed.
(** * Candidates and their claims *)

(** The candidates are activities of [topic]. *)
Definition of_topic (topic : string) (m : gmap Z ActivityRow)
    (candidates : list (ActivityId * WorkflowId)) : Prop :=
  ∀ c r, c ∈ candidates → m !! c.1 = Some r → ac_topic r = topic.

Lemma of_topic_grow topic claims m m' candidates :
  slots_grow now claims m m' → of_topic topic m candidates → of_topic topic m' candidates.
Proof. intros [_ Hrows] Hm c r' Hc (r & Hr & -> & _)%Hrows. by apply (Hm c). Qed.

Lemma of_topic_tail topic m c candidates :
  of_topic topic m (c :: candidates) → of_topic topic m candidates.
Proof. intros Hm c' r Hc'. apply Hm. by right. Qed.

Lemma wp_select_candidates e d definitions topic :
  ids_ok (db_activity d) →
  wp any_error (select_candidates definitions topic now) e d
    (λ candidates d', d' = d ∧ of_topic topic (db_activity d) candidates).
Proof.
  intros Hids. unfold select_candidates. run_step. run_step. run_step. run_step. run_step.
  split; [done|]. intros c r (row & -> & Hrow)%list_elem_of_fmap Hr. simpl in Hr.
  apply elem_of_take_in, elem_of_sort_by in Hrow.
  match goal with H : ∀ r, r ∈ _ ↔ _ |- _ => apply H in Hrow as [Hc [id Hid]] end.
  rewrite (Hids _ _ Hid) in Hr. simplify_eq. unfold candidate in Hc. norm_tests. done.
Qed.

Lemma wp_claim_first e d activities topic candidates started worker :
  ids_ok (db_activity d) → of_topic topic (db_activity d) candidates →
  wp any_error (claim_first activities candidates now started worker) e d
    (λ claim d', slots_grow now (option_list claim) (db_activity d) (db_activity d')
       ∧ ∀ c, c ∈ option_list claim → ac_topic (acl_row c) = topic).
Proof.
  revert d. induction candidates as [|[id workflow] cs IH]; intros d Hids Htopic; simpl.
  - apply wp_ret. split; [apply slots_grow_refl|]. by intros c ?%elem_of_nil.
  - apply wp_bind. eapply wp_mono; [by apply wp_claim_locked_candidate|].
    intros [claim|] d1 (Hs & _ & Hclaim).
    + apply wp_ret. split; [done|]. intros c ->%list_elem_of_singleton.
      destruct (Hclaim claim eq_refl) as (r & Hr & ->).
      apply (Htopic (id, workflow)); [by left|done].
    + eapply wp_mono; [apply IH; [by eapply slots_grow_ids|]|].
      { eapply of_topic_grow; [done|]. by eapply of_topic_tail. }
      intros claim d2 [Hs2 Hc]. split; [|done].
      by apply (slots_grow_trans now [] _ _ (db_activity d1)).
Qed.

(** The claims of [topic]. *)
Definition claims_of (topic : string) (claims : list ActivityClaim) : nat :=
  length (filter (λ c, ac_topic (acl_row c) = topic) claims).

Lemma claims_of_app topic l l' : claims_of topic (l ++ l') = (claims_of topic l + claims_of topic l')%nat.
Proof. unfold claims_of. by rewrite filter_app, length_app. Qed.

Lemma claims_of_other topic topic' claims :
  topic ≠ topic' → (∀ c, c ∈ claims → ac_topic (acl_row c) = topic) → claims_of topic' claims = 0%nat.
Proof.
  intros Hne Hall. unfold claims_of. induction claims as [|c cs IH]; [done|].
  rewrite filter_cons, decide_False.
  - apply IH. intros c' Hc'. apply Hall. by right.
  - rewrite (Hall c) by (by left). done.
Qed.

Lemma wp_claim_candidates e d activities topic limit wanted candidates started worker claims :
  ids_ok (db_activity d) → of_topic topic (db_activity d) candidates →
  wp any_error (claim_candidates activities topic limit wanted candidates now started worker
                  claims) e d
    (λ claims' d', ∃ new, claims' = claims ++ new
       ∧ slots_grow now new (db_activity d) (db_activity d')
       ∧ (∀ c, c ∈ new → ac_topic (acl_row c) = topic)
       ∧ (claims_of topic claims' ≤ Nat.max (claims_of topic claims) wanted)%nat).
Proof.
  revert d claims. induction candidates as [|[id workflow] cs IH]; intros d claims Hids Htopic; simpl.
  - apply wp_ret. exists []. rewrite app_nil_r. split_and!; [done|apply slots_grow_refl| |lia].
    by intros c ?%elem_of_nil.
  - destruct (_ || _) eqn:Estop.
    { apply wp_ret. exists []. rewrite app_nil_r. split_and!; [done|apply slots_grow_refl| |lia].
      by intros c ?%elem_of_nil. }
    apply orb_false_iff in Estop as [_ Hroom%Nat.leb_gt]. fold (claims_of topic claims) in Hroom.
    apply wp_bind. eapply wp_mono; [by apply wp_claim_locked_candidate|].
    intros claim d1 (Hs & _ & Hclaim).
    eapply wp_mono; [apply IH; [by eapply slots_grow_ids|]|].
    { eapply of_topic_grow; [done|]. by eapply of_topic_tail. }
    intros claims' d2 (new & -> & Hs2 & Hnew & Hmax). exists (option_list claim ++ new).
    assert (∀ c, c ∈ option_list claim → ac_topic (acl_row c) = topic) as Hone.
    { intros c. destruct claim as [c1|]; simpl; [|by intros ?%elem_of_nil].
      intros ->%list_elem_of_singleton. destruct (Hclaim c1 eq_refl) as (r & Hr & ->).
      apply (Htopic (id, workflow)); [by left|done]. }
    split_and!.
    + destruct claim; simpl; by rewrite <- ?app_assoc.
    + by eapply slots_grow_trans.
    + intros c [Hc|Hc]%elem_of_app; auto.
    + destruct claim as [c|]; [|done]. rewrite !claims_of_app in *.
      assert (claims_of topic [c] ≤ 1)%nat; [|lia].
      unfold claims_of. rewrite filter_cons. case_decide; simpl; lia.
Qed.

(** * The caps *)

(** No topic has more live slots than before, or its count is within a limit
    of [limits]. *)
Definition within_limits (limits : list (string * Z)) (m m' : gmap Z ActivityRow) : Prop :=
  ∀ topic, (live_slots topic now m' ≤ live_slots topic now m)%nat
    ∨ ∃ limit, (topic, limit) ∈ limits ∧ (Z.of_nat (live_slots topic now m') ≤ limit)%Z.

Lemma within_limits_grow limits m m' : slots_grow now [] m m' → within_limits limits m m'.
Proof. intros [Hs _] topic. left. specialize (Hs topic). simpl in Hs. lia. Qed.

Lemma within_limits_trans limits limits' m1 m2 m3 :
  within_limits limits m1 m2 → within_limits limits' m2 m3 →
  within_limits (limits ++ limits') m1 m3.
Proof.
  intros H1 H2 topic. destruct (H2 topic) as [Hle|(l & Hl & Hle)].
  - destruct (H1 topic) as [Hle1|(l & Hl & Hle1)]; [left; lia|].
    right. exists l. split; [apply elem_of_app; by left|lia].
  - right. exists l. split; [apply elem_of_app; by right|done].
Qed.

Lemma within_limits_mono limits limits' m m' :
  (∀ x, x ∈ limits → x ∈ limits') → within_limits limits m m' → within_limits limits' m m'.
Proof. intros Hsub Hm topic. destruct (Hm topic) as [?|(l & Hl & ?)]; eauto 6. Qed.

(** The claims of one topic fit the room that was counted. *)
Lemma within_limits_claims topic limit new m m' :
  slots_grow now new m m' → (∀ c, c ∈ new → ac_topic (acl_row c) = topic) →
  (claims_of topic new = 0%nat
   ∨ (Z.of_nat (live_slots topic now m + claims_of topic new) ≤ limit)%Z) →
  within_limits [(topic, limit)] m m'.
Proof.
  intros [Hs _] Hnew Hroom topic'. specialize (Hs topic'). fold (claims_of topic' new) in Hs.
  destruct (decide (topic = topic')) as [<-|Hne].
  - destruct Hroom as [Hz|Hle]; [left; lia|]. right. exists limit. split; [set_solver|lia].
  - left. rewrite (claims_of_other _ _ _ Hne Hnew) in Hs. lia.
Qed.

Lemma wanted_room persisted in_flight capacity limit claimed :
  (0 < wanted_of persisted in_flight capacity limit claimed)%nat →
  (in_flight + Z.of_nat (wanted_of persisted in_flight capacity limit claimed) ≤ persisted)%Z.
Proof. unfold wanted_of, i64_saturating_sub, clamp, i64_min, i64_max. lia. Qed.

Lemma wp_claim_topics e d activities locked capacity limit started worker claims :
  ids_ok (db_activity d) →
  wp any_error (claim_topics activities locked capacity limit now started worker claims) e d
    (λ _ d', within_limits locked (db_activity d) (db_activity d')).
Proof.
  revert d claims. induction locked as [|[topic persisted] rest IH]; intros d claims Hids; simpl.
  { apply wp_ret, within_limits_grow, slots_grow_refl. }
  apply wp_bind. eapply wp_mono; [apply wp_reconcile_expired|]. intros unsettled d1 [Hs1 _].
  pose proof (slots_grow_ids _ _ _ _ Hs1 Hids) as Hids1.
  assert (∀ d2, within_limits ((topic, persisted) :: rest) (db_activity d1) (db_activity d2) →
    within_limits ((topic, persisted) :: rest) (db_activity d) (db_activity d2)) as Hfrom.
  { intros d2. apply (within_limits_trans [] _ _ (db_activity d1)). by apply within_limits_grow. }
  apply wp_bind, wp_in_flight. intros n Hn. destruct (_ =? 0)%nat eqn:Ewanted.
  { eapply wp_mono; [by apply IH|]. intros a d2 H2. apply Hfrom.
    apply (within_limits_mono rest); [|exact H2]. intros x. apply list_elem_of_further. }
  apply Nat.eqb_neq in Ewanted.
  destruct (definition_keys (areg_definitions activities)) as [|key keys].
  { by apply wp_ret, within_limits_grow. }
  apply wp_bind. eapply wp_mono; [by apply wp_select_candidates|]. intros candidates ? [-> Htopic].
  apply wp_bind. eapply wp_mono; [by apply wp_claim_candidates|].
  intros claims' d2 (new & -> & Hs2 & Hnew & Hmax).
  eapply wp_mono; [by eapply IH, slots_grow_ids|]. intros a d3 H3. apply Hfrom.
  apply (within_limits_trans [(topic, persisted)] rest _ (db_activity d2)); [|done].
  apply (within_limits_claims _ _ new); [done|done|]. rewrite claims_of_app in Hmax.
  pose proof (wanted_room persisted n (default 0%nat (capacity !! topic)) limit (length claims)
    ltac:(lia)). lia.
Qed.
End cap.

Section caps.
Context `{Codec}.

(** The caps of the topic locks hold from [d] to [d'] at [now]: a topic has
    no more live slot holders than its lock row allows, or none were added. *)
Definition caps_hold (now : DbMillis) (d d' : Db) : Prop :=
  ∀ topic, (live_slots topic now (db_activity d') ≤ live_slots topic now (db_activity d))%nat
    ∨ ∃ lock, db_topic_lock d !! topic = Some lock
        ∧ (Z.of_nat (live_slots topic now (db_activity d')) ≤ tl_max_concurrency lock)%Z.

Lemma db_ok_ids d : db_ok d → ids_ok (db_activity d).
Proof. intros Hok id r Hr. by destruct (ok_activity _ Hok _ _ Hr). Qed.

Lemma caps_hold_limits now limits d d' :
  (∀ topic limit, (topic, limit) ∈ limits →
     ∃ lock, db_topic_lock d !! topic = Some lock ∧ tl_max_concurrency lock = limit) →
  within_limits now limits (db_activity d) (db_activity d') → caps_hold now d d'.
Proof.
  intros Hlocks Hd topic. destruct (Hd topic) as [?|(l & Hl & ?)]; [by left|].
  destruct (Hlocks _ _ Hl) as (lock & ? & <-). eauto.
Qed.

(** S17. A single-topic claim respects the cap. When [claim_one] commits,
    then at the clock sample it used every topic has at most as many running
    or cancelling activities with a live lease as its lock row allows, unless
    it had more before, and then it has not gained any. *)
Theorem claim_one_respects_the_cap activities topics worker topic started (e : Env) (d d' : Db)
    result :
  db_ok d →
  transaction e (claim_one activities topics worker topic started) d = (Ok result, d') →
  ∃ i, caps_hold (env_clock e i) d d'.
Proof.
  intros Hids%db_ok_ids Ht. committed Ht. unfold claim_one.
  run_step. run_step. run_step. run_step. set (now := env_clock e i). do 4 run_step.
  match goal with H : db_topic_lock d !! topic = Some ?l |- _ => rename l into lock, H into Hl end.
  assert (∀ d', within_limits now [(topic, tl_max_concurrency lock)] (db_activity d)
    (db_activity d') → ∃ i, caps_hold (env_clock e i) d d') as Hcaps.
  { intros d' Hd. exists i. apply (caps_hold_limits now [(topic, tl_max_concurrency lock)]); [|done].
    intros t l [= -> ->]%list_elem_of_singleton. eauto. }
  apply wp_bind. eapply wp_mono; [apply (wp_reconcile_expired now)|]. intros unsettled d1 [Hs1 _].
  apply wp_bind, (wp_in_flight now). intros n Hn.
  destruct (tl_max_concurrency lock <=? n)%Z eqn:Ecap.
  { by apply wp_ret, Hcaps, within_limits_grow. }
  destruct (definition_keys (areg_definitions activities)) as [|key keys].
  { by apply wp_ret, Hcaps, within_limits_grow. }
  pose proof (slots_grow_ids _ _ _ _ Hs1 Hids) as Hids1. apply Z.leb_gt in Ecap.
  apply wp_bind. eapply wp_mono; [by apply (wp_select_candidates now)|].
  intros candidates ? [-> Htopic]. eapply wp_mono; [by apply (wp_claim_first now _ _ _ topic)|].
  intros claim d2 [Hs2 Hclaim]. apply Hcaps.
  apply (within_limits_trans now [] _ _ (db_activity d1)); [by apply within_limits_grow|].
  apply (within_limits_claims now _ _ (option_list claim)); [done|done|]. right.
  assert (claims_of topic (option_list claim) ≤ 1)%nat; [|lia].
  unfold claims_of. destruct claim; simpl; [|lia]. rewrite filter_cons. case_decide; simpl; lia.
Qed.

(** C17: S17. A batch claim respects the caps: when [claim_batch] commits, the
    same holds of all topics at once, over all its topics, candidates and
    reconciled leases. *)
Theorem claim_batch_respects_the_caps activities topics worker limit capacity started (e : Env)
    (d d' : Db) result :
  db_ok d →
  transaction e (claim_batch activities topics worker limit capacity started) d
  = (Ok result, d') →
  ∃ i, caps_hold (env_clock e i) d d'.
Proof.
  intros Hids%db_ok_ids Ht. committed Ht. unfold claim_batch, lock_topics.
  assert (∃ i, caps_hold (env_clock e i) d d) as Hsame by (exists 0; intros t; left; lia).
  run_step; [by run_step|]. do 6 run_step. run_step; [by run_step|]. run_step. run_step.
  eapply wp_mono; [by apply wp_claim_topics|]. intros claims d' Hd. exists i.
  eapply caps_hold_limits; [|exact Hd]. intros t l Hl.
  apply list_elem_of_omap in Hl as (t' & _ & Hl). destruct (env_locked_topic e t'); [done|].
  apply fmap_Some in Hl as (lock & Hlock & [= -> ->]). eauto.
Qed.
End caps.

(** * The theorems on the scenario *)

Lemma claim_one_respects_the_cap_witness :
  ∃ i, caps_hold (env_clock (env_at 5000 "e") i) charging charge_claimed.
Proof.
  apply (claim_one_respects_the_cap activities topics "worker-2" "payments" 0%Z
    (env_at 5000 "e") charging charge_claimed (Some charge_claim)).
  - apply reachable_ok, charging_reachable.
  - vm_compute. reflexivity.
Defined.

Definition claim_charges : Tx (list ActivityClaim) :=
  claim_batch activities topics "worker-2" 4 {[ "payments" := 4%nat ]} 0%Z.
Definition charges_claimed : Db := run 5000 "e" claim_charges charging.

Lemma claim_batch_respects_the_caps_witness :
  ∃ i, caps_hold (env_clock (env_at 5000 "e") i) charging charges_claimed.
Proof.
  apply (claim_batch_respects_the_caps activities topics "worker-2" 4
    {[ "payments" := 4%nat ]} 0%Z (env_at 5000 "e") charging charges_claimed [charge_claim]).
  - apply reachable_ok, charging_reachable.
  - vm_compute. reflexivity.
Defined.
