(* ===== verification/Dispatch.v ===== *)
(** The dispatcher of activities ([TaskSpec::ActivityDispatcher] of
    [runtime/supervisor.rs]): what it asks [claim_batch] for from a snapshot of
    the running executions, and that the executions of a process stay within
    its local limits. *)
From stdpp Require Import base gmap list strings relations.
From Stdlib Require Import ZArith Lia.
From S2P Require Import Prelude.
From S2P Require Import Errors.
From S2P Require Import Rows.
From S2P Require Import Database.
From S2P Require Import TxLogic.
From S2P Require Import Lifecycle.
From S2P Require Import Evolution.
From S2P Require Import Transitions.
From S2P Require Import Registry.
From S2P Require Import Worker.
From S2P Require Import WorkerSteps.
From S2P Require Import Supervisor.
From S2P Require Import Reads.
From S2P Require Import Calendar.
From S2P Require Import ExampleCalendar.
From S2P Require Import Protocol.
From S2P Require Import Scenario.
From S2P Require Import Safety.
From S2P Require Import Topics.

(** * A sweep *)

Section sweep.
Variables (topics : TopicRegistry) (config : RuntimeConfig) (overrides : gmap string Z).

Definition configured (topic : TopicDefinition) : nat :=
  local_topic_limit (td_key topic) (td_max_concurrency topic)
    (rc_max_workers_per_topic config) overrides.

Definition dispatch_capacity : nat := sum_list (configured <$> topic_definitions topics).

(** [capacity.saturating_sub(snapshot.total)]. *)
Definition dispatch_available (snapshot : ActivityExecutionSnapshot) : nat :=
  usize_saturating_sub dispatch_capacity (sn_total snapshot).

Definition local_topic_capacity (snapshot : ActivityExecutionSnapshot) : gmap string nat :=
  list_to_map ((λ topic, (td_key topic,
      usize_saturating_sub (configured topic)
        (default 0%nat (sn_active_by_topic snapshot !! td_key topic))))
    <$> topic_definitions topics).

(** The spawns of the claims; the [JoinSet] gives the executions their ids. *)
Fixpoint spawn_claims (c : Collector) (generation : Z) (claims : list (TaskId * ActivityClaim))
    : Collector :=
  match claims with
  | [] => c
  | (task_id, claim) :: rest =>
      spawn_claims (spawn_execution c task_id (ac_topic (acl_row claim)) generation)
        generation rest
  end.
End sweep.

(** A registry holds each topic under its key. *)
Definition topics_keyed (topics : TopicRegistry) : Prop :=
  ∀ key topic, topics !! key = Some topic → td_key topic = key.

Lemma register_topic_keyed topics key max_concurrency topics' :
  topics_keyed topics → register_topic topics key max_concurrency = Ok topics' →
  topics_keyed topics'.
Proof.
  unfold register_topic. intros Hk. repeat case_match; intros; simplify_eq; try done.
  intros key' topic'. rewrite lookup_insert_Some. naive_solver.
Qed.

Lemma topic_definitions_NoDup topics :
  topics_keyed topics → NoDup (td_key <$> topic_definitions topics).
Proof.
  intros Hk. unfold topic_definitions. rewrite sort_by_perm, <- list_fmap_compose.
  assert (td_key ∘ snd <$> map_to_list topics = fst <$> map_to_list topics) as ->.
  { apply list_fmap_ext. intros i [key topic] Hi. apply Hk.
    apply elem_of_map_to_list. by eapply list_elem_of_lookup_2. }
  apply NoDup_fst_map_to_list.
Qed.

Lemma elem_of_topic_definitions topics topic :
  topics_keyed topics →
  topic ∈ topic_definitions topics ↔ topics !! td_key topic = Some topic.
Proof.
  intros Hk. unfold topic_definitions. rewrite elem_of_sort_by, list_elem_of_fmap. split.
  - intros ([key t] & -> & Ht%elem_of_map_to_list). cbn. by rewrite (Hk _ _ Ht).
  - intros Ht. exists (td_key topic, topic). by rewrite elem_of_map_to_list.
Qed.

Lemma lookup_local_capacity topics config overrides snapshot topic :
  topics_keyed topics → topic ∈ topic_definitions topics →
  local_topic_capacity topics config overrides snapshot !! td_key topic
  = Some (usize_saturating_sub (configured config overrides topic)
            (default 0%nat (sn_active_by_topic snapshot !! td_key topic))).
Proof.
  intros Hk Ht. apply elem_of_list_to_map.
  - rewrite <- list_fmap_compose. by apply topic_definitions_NoDup.
  - apply list_elem_of_fmap. by exists topic.
Qed.

Lemma local_capacity_registered topics config overrides snapshot key n :
  local_topic_capacity topics config overrides snapshot !! key = Some n →
  key ∈ td_key <$> topic_definitions topics.
Proof.
  intros Hn%elem_of_list_to_map_2. apply list_elem_of_fmap in Hn as (topic & [= -> _] & Ht).
  by apply list_elem_of_fmap_2.
Qed.

(** * The local share of a batch *)

Section batch.
Context `{Codec}.

Lemma claims_of_all topic claims :
  (∀ c, c ∈ claims → ac_topic (acl_row c) = topic) → claims_of topic claims = length claims.
Proof.
  unfold claims_of. induction claims as [|c cs IH]; intros Hall; [done|].
  rewrite filter_cons, decide_True by (apply Hall; by left). simpl. f_equal.
  apply IH. intros c' ?. apply Hall. by right.
Qed.

(** A batch has at most [limit] claims, and of each topic at most the local
    capacity. *)
Lemma wp_claim_topics_local now e d activities locked capacity limit started worker claims :
  ids_ok (db_activity d) → NoDup locked.*1 →
  (∀ topic, topic ∈ locked.*1 → claims_of topic claims = 0%nat) → (length claims ≤ limit)%nat →
  wp any_error (claim_topics activities locked capacity limit now started worker claims) e d
    (λ claims' _, (length claims' ≤ limit)%nat ∧ ∀ topic,
       (claims_of topic claims' ≤ claims_of topic claims
        + (if decide (topic ∈ locked.*1) then default 0 (capacity !! topic) else 0))%nat).
Proof.
  revert d claims. induction locked as [|[topic persisted] rest IH];
    intros d claims Hids Hnd Hnew Hlen; simpl.
  { apply wp_ret. split; [done|]. intros. lia. }
  cbn in Hnd. apply NoDup_cons in Hnd as [Hfresh Hnd].
  apply wp_bind. eapply wp_mono; [apply wp_reconcile_expired|]. intros unsettled d1 [Hs1 _].
  pose proof (slots_grow_ids _ _ _ _ Hs1 Hids) as Hids1.
  apply wp_bind, wp_in_flight. intros n Hn.
  assert (∀ t, t ∈ rest.*1 → claims_of t claims = 0%nat) as Hrest
    by (intros t Ht; apply Hnew; by right).
  destruct (_ =? 0)%nat eqn:Ewanted.
  { eapply wp_mono; [by apply IH|]. intros claims' d2 [Hl Hc]. split; [done|].
    intros t. specialize (Hc t). repeat case_decide; set_solver by lia. }
  destruct (definition_keys (areg_definitions activities)) as [|key keys].
  { apply wp_ret. split; [done|]. intros. lia. }
  apply wp_bind. eapply wp_mono; [by apply wp_select_candidates|]. intros candidates ? [-> Htopic].
  apply wp_bind. eapply wp_mono; [by apply wp_claim_candidates|].
  intros claims' d2 (new & -> & Hs2 & Hof & Hmax).
  rewrite claims_of_app, (Hnew topic), (claims_of_all _ _ Hof) in Hmax by (by left).
  set (wanted := wanted_of _ _ _ _ _) in *.
  assert (wanted ≤ default 0 (capacity !! topic) ∧ wanted ≤ limit - length claims)%nat
    as [Hcap Hlim] by (unfold wanted, wanted_of, usize_saturating_sub; lia).
  assert (∀ t, t ≠ topic → claims_of t new = 0%nat) as Hothers
    by (intros t Hne; apply (claims_of_other topic); [congruence|done]).
  eapply wp_mono; [apply IH; [by eapply slots_grow_ids|done| |]|].
  - intros t Ht. rewrite claims_of_app, (Hrest t Ht), Hothers; [done|]. by intros ->.
  - rewrite length_app. lia.
  - intros claims' d3 [Hl Hc]. split; [done|]. intros t. specialize (Hc t).
    rewrite claims_of_app in Hc. destruct (decide (t = topic)) as [->|Hne].
    + rewrite (claims_of_all _ _ Hof), decide_False in Hc by done.
      rewrite decide_True by (by left). lia.
    + rewrite (Hothers t Hne) in Hc.
      repeat case_decide; set_solver by lia.
Qed.

Lemma locked_NoDup {V} (locked : string → bool) (limit : V → Z) (m : gmap string V) keys :
  NoDup keys →
  NoDup (omap (λ key, if locked key then None else (λ r, (key, limit r)) <$> m !! key) keys).*1.
Proof.
  induction 1 as [|key keys Hkey Hnd IH]; [constructor|]. csimpl.
  destruct (locked key); [done|]. destruct (m !! key) as [r|]; [|done]. csimpl.
  apply NoDup_cons. split; [|done]. intros ([k l] & -> & Hin)%list_elem_of_fmap. cbn in Hkey.
  apply list_elem_of_omap in Hin as (k' & Hk' & Hin). destruct (locked k'); [done|].
  by apply fmap_Some in Hin as (? & _ & [= -> _]).
Qed.

Lemma wp_claim_batch_local e d activities topics worker limit capacity started :
  ids_ok (db_activity d) → topics_keyed topics →
  wp any_error (claim_batch activities topics worker limit capacity started) e d
    (λ claims _, (length claims ≤ limit)%nat
       ∧ ∀ topic, (claims_of topic claims ≤ default 0 (capacity !! topic))%nat).
Proof.
  intros Hids Hk. unfold claim_batch, lock_topics.
  assert ((length (@nil ActivityClaim) ≤ limit)%nat ∧ ∀ topic,
    (claims_of topic [] ≤ default 0 (capacity !! topic))%nat) as Hnone by (cbn; split; [|intros]; lia).
  run_step; [by run_step|]. do 6 run_step. run_step; [by run_step|]. run_step. run_step.
  eapply wp_mono; [apply wp_claim_topics_local; [done| |done|cbn; lia]|].
  - by apply locked_NoDup, topic_definitions_NoDup.
  - intros claims d' [Hl Hc]. split; [done|]. intros topic. specialize (Hc topic).
    cbn in Hc. case_decide; lia.
Qed.
End batch.

(** * Spawning *)

Lemma spawn_claims_ok c generation claims :
  collector_ok c → NoDup claims.*1 → (∀ id, id ∈ claims.*1 → id ∉ co_executions c) →
  let c' := spawn_claims c generation claims in
  collector_ok c'
  ∧ sn_total (co_snapshot c') = (sn_total (co_snapshot c) + length claims)%nat
  ∧ ∀ topic, running_of (λ t, et_topic t = topic) (co_tasks_by_id c')
      = (running_of (λ t, et_topic t = topic) (co_tasks_by_id c) + claims_of topic claims.*2)%nat.
Proof.
  revert c. induction claims as [|[id claim] claims IH]; intros c Hok Hnd Hfresh; csimpl.
  { split_and!; [done|lia|]. intros topic. cbn. lia. }
  csimpl in *. apply NoDup_cons in Hnd as [Hid Hnd].
  assert (id ∉ co_executions c) as Hidc by (apply Hfresh; by left).
  destruct (IH (spawn_execution c id (ac_topic (acl_row claim)) generation))
    as (Hok' & Htotal & Hcount).
  - by apply spawn_execution_ok.
  - done.
  - intros id' Hid'. cbn. assert (id' ∉ co_executions c) by (apply Hfresh; by right). set_solver.
  - split_and!; [done|rewrite Htotal; cbn; lia|]. intros topic. rewrite Hcount. cbn [co_tasks_by_id spawn_execution bump_changes].
    rewrite running_of_insert.
    + unfold claims_of. rewrite filter_cons. cbn [et_topic]. case_decide; cbn [length]; lia.
    + apply not_elem_of_dom. by rewrite (cok_executions _ Hok).
Qed.

(** * The local limits *)

(** The executions of a topic that run in this process. *)
Definition local_running (topic : string) (c : Collector) : nat :=
  running_of (λ t, et_topic t = topic) (co_tasks_by_id c).

(** C26: a process runs no more activities of a topic than its local limit,
    the smaller of the topic's concurrency and the configured number of
    workers, nor more in all than the sum of these limits. A sweep of the
    dispatcher keeps this: it takes a snapshot of the execution manager,
    claims a batch for the room that is left, and spawns the claims while
    executions that were running may have completed. *)
Theorem dispatch_respects_local_limits `{Codec} activities topics config overrides worker started
    (e : Env) (d d' : Db) (c0 c : Collector) generation (claims : list (TaskId * ActivityClaim)) :
  topics_keyed topics → db_ok d → collector_reachable c0 → collector_reachable c →
  (∀ topic, (local_running topic c ≤ local_running topic c0)%nat) →
  (sn_total (co_snapshot c) ≤ sn_total (co_snapshot c0) ≤ dispatch_capacity topics config overrides)%nat →
  (∀ topic, topic ∈ topic_definitions topics →
     (local_running (td_key topic) c0 ≤ configured config overrides topic)%nat) →
  transaction e (claim_batch activities topics worker
    (dispatch_available topics config overrides (co_snapshot c0))
    (local_topic_capacity topics config overrides (co_snapshot c0)) started) d
  = (Ok claims.*2, d') →
  NoDup claims.*1 → (∀ id, id ∈ claims.*1 → id ∉ co_executions c) →
  let c' := spawn_claims c generation claims in
  (∀ topic, topic ∈ topic_definitions topics →
     (local_running (td_key topic) c' ≤ configured config overrides topic)%nat)
  ∧ (size (co_executions c') ≤ dispatch_capacity topics config overrides)%nat.
Proof.
  intros Hk Hids%db_ok_ids Hr0%collector_reachable_ok Hr%collector_reachable_ok
    Hless Htotal Hlimits Ht Hnd Hfresh.
  pose proof (wp_committed _ _ _ _ _ _ _
    (wp_claim_batch_local _ _ _ _ _ _ _ _ Hids Hk) Ht) as [Hlen Hclaims].
  destruct (spawn_claims_ok c generation claims Hr Hnd Hfresh) as (Hok & Hsize & Hcount).
  split.
  - intros topic Htopic. unfold local_running in *. rewrite Hcount.
    specialize (Hclaims (td_key topic)). rewrite lookup_local_capacity in Hclaims by done.
    cbn in Hclaims. rewrite (cok_topic _ Hr0) in Hclaims. unfold usize_saturating_sub in Hclaims.
    specialize (Hless (td_key topic)). specialize (Hlimits topic Htopic). lia.
  - rewrite <- (cok_executions _ Hok), size_dom, <- (cok_total _ Hok), Hsize.
    rewrite length_fmap in Hlen. unfold dispatch_available, usize_saturating_sub in Hlen. lia.
Qed.

(** * The theorem on the scenario *)

Definition sweep_claims : list (TaskId * ActivityClaim) := [(1%Z, charge_claim)].

Definition swept : Db :=
  run 5000 "e" (claim_batch activities topics "worker-2"
    (dispatch_available topics default_runtime_config ∅ (co_snapshot collector_new))
    (local_topic_capacity topics default_runtime_config ∅ (co_snapshot collector_new)) 0%Z)
    charging.

Lemma dispatch_respects_local_limits_witness :
  let c' := spawn_claims collector_new 1 sweep_claims in
  (∀ topic, topic ∈ topic_definitions topics →
     (local_running (td_key topic) c' ≤ configured default_runtime_config ∅ topic)%nat)
  ∧ (size (co_executions c') ≤ dispatch_capacity topics default_runtime_config ∅)%nat.
Proof.
  apply (dispatch_respects_local_limits activities topics default_runtime_config ∅ "worker-2" 0%Z
    (env_at 5000 "e") charging swept collector_new collector_new 1 sweep_claims).
  - apply (register_topic_keyed ∅ "payments" 1); [done|]. vm_compute. reflexivity.
  - apply reachable_ok, charging_reachable.
  - constructor.
  - constructor.
  - intros topic. reflexivity.
  - vm_compute. split; lia.
  - intros topic _. cbn. apply Nat.le_0_l.
  - vm_compute. reflexivity.
  - repeat constructor. set_solver.
  - set_solver.
Defined.
