(* ===== verification/Starts.v ===== *)
(** Starting workflows (T-X1): a start inserts one ready workflow with its
    first delivery, and a repeated start finds it again (S18). *)
From stdpp Require Import base gmap list strings relations.
From Stdlib Require Import ZArith Lia.
From S2P Require Import Prelude.
From S2P Require Import Errors.
From S2P Require Import Status.
From S2P Require Import Rows.
From S2P Require Import Database.
From S2P Require Import TxLogic.
From S2P Require Import Lifecycle.
From S2P Require Import Evolution.
From S2P Require Import Policy.
From S2P Require Import Transitions.
From S2P Require Import Registry.
From S2P Require Import Parents.
From S2P Require Import Store.
From S2P Require Import Coordinator.
From S2P Require Import Worker.
From S2P Require Import Control.
From S2P Require Import Reads.
From S2P Require Import Calendar.
From S2P Require Import ExampleCalendar.
From S2P Require Import Protocol.
From S2P Require Import Scenario.
From S2P Require Import Safety.
From S2P Require Import Walks.

(** The key finds at most one row. *)
Lemma wp_find_by_key Ψ e d kind key (Φ : option WorkflowRow → Db → Prop) :
  db_ok d →
  ((∀ id r, db_workflow d !! id = Some r → has_deduplication_key kind key r = false) → Φ None d) →
  (∀ r, db_workflow d !! wf_id r = Some r → has_deduplication_key kind key r = true →
     Φ (Some r) d) →
  wp Ψ (find_by_deduplication_key kind key) e d Φ.
Proof.
  intros Hok HN HS. unfold find_by_deduplication_key.
  apply wp_bind, wp_select_workflows. intros rows Hrows. apply wp_ret.
  destruct rows as [|r rows]; simpl.
  - apply HN. intros id r Hr. apply not_true_iff_false. intros Hk.
    apply (not_elem_of_nil r), Hrows. eauto.
  - destruct (proj1 (Hrows r) (list_elem_of_here _ _)) as [Hk [id Hid]].
    apply HS; [|done]. by destruct (ok_workflow _ Hok _ _ Hid) as [-> _].
Qed.

(** An insert that no constraint refuses. *)
Lemma wp_insert_workflow_fresh Ψ e d new_row (Φ : WorkflowInsert → Db → Prop) :
  let row := new_row (db_next_workflow d) in
  (0 < wf_version row)%Z → (0 < wf_state_version row)%Z →
  (∀ id r, db_workflow d !! id = Some r → is_Some (wf_deduplication_key row) →
     wf_kind r = wf_kind row → wf_deduplication_key r = wf_deduplication_key row → False) →
  wf_restarted_from_workflow_id row = None → wf_root_workflow_id row = None →
  wf_parent_workflow_id row = None →
  Φ (WorkflowInserted (wf_id row)) (with_workflow d row) →
  wp Ψ (insert_workflow new_row) e d Φ.
Proof.
  cbv zeta. set (row := new_row (db_next_workflow d)).
  intros Hv Hsv Hkey Hres Hroot Hpar HΦ i j.
  unfold insert_workflow, insert_workflow_row. cbn -[fmt]. fold row.
  rewrite Hres, Hroot, Hpar. replace (_ || _) with false by lia.
  destruct (bool_decide (is_Some (wf_deduplication_key row)) && _) eqn:Edup; [|exact HΦ].
  exfalso. apply andb_true_iff in Edup as [Hsome%bool_decide_eq_true Hex].
  apply existsb_exists in Hex as (r & Hr%list_elem_of_In & [Hk Hd]%bool_decide_eq_true).
  apply list_elem_of_fmap in Hr as ([id r'] & -> & Hr%elem_of_map_to_list). by eapply Hkey.
Qed.

(** The first event of a workflow that has none. *)
Lemma wp_append_first Ψ e d event (Φ : unit → Db → Prop) :
  let row := event (db_next_event d) in
  (∀ ev, ev ∈ db_event d → ev_workflow_id ev ≠ ev_workflow_id row) →
  is_Some (db_workflow d !! ev_workflow_id row) →
  Φ tt (with_event d row) → wp Ψ (append_event event) e d Φ.
Proof.
  cbv zeta. set (row := event (db_next_event d)). intros Hnone [w Hw] HΦ.
  unfold append_event. apply wp_bind, wp_get. fold row.
  assert (events_of d (ev_workflow_id row) = []) as ->.
  { apply elem_of_nil_inv. intros ev [Hid Hev]%list_elem_of_filter. by apply (Hnone ev). }
  rewrite !bool_decide_false; [by apply wp_put|congruence|set_solver|set_solver].
Qed.

(** What a start that inserted leaves: one new ready row, and its first
    delivery. *)
Definition started_row (kind : string) (version : Z) (input_json state_json : string)
    (options : StartOptions) (id : WorkflowId) (d d' : Db) : Prop :=
  db_workflow d !! id = None
  ∧ (∃ r, db_workflow d' !! id = Some r ∧ wf_status r = WfReady
       ∧ wf_kind r = kind ∧ wf_version r = version ∧ wf_input_json r = input_json
       ∧ wf_state_json r = state_json ∧ wf_unleased r ∧ no_wait r
       ∧ wf_deduplication_key r = deduplication_key options
       ∧ wf_delivered_event_sequence r = 0%Z)
  ∧ (∀ i, i ≠ id → db_workflow d' !! i = db_workflow d !! i)
  ∧ ∃ ev, db_event d' = db_event d ++ [ev] ∧ ev_workflow_id ev = id
      ∧ ev_delivery_sequence ev = Some 1%Z ∧ decode_event ev = Ok Started.

Section starts.
Context `{Codec}.

(** S18. A start with a deduplication key that exists is idempotent: it
    returns the existing workflow as not inserted, and changes no table,
    whatever the input, the state and the definition version it carries. *)
Theorem duplicate_start_is_idempotent kind version input state options key (e : Env) (d : Db) r :
  db_ok d → is_ok (prepare_start kind version input state options) = true →
  deduplication_key options = Some key →
  db_workflow d !! wf_id r = Some r → wf_kind r = kind → wf_deduplication_key r = Some key →
  transaction e (start kind version input state options) d
  = (Ok (MkStartOutcome (wf_id r) false), d).
Proof.
  intros Hok Hprep Hkey Hr Hkind Hdup.
  assert (wp no_error (start kind version input state options) e d
    (λ out d', out = MkStartOutcome (wf_id r) false ∧ d' = d)) as Hwp.
  { unfold start, insert_prepared, insert_prepared_untraced. rewrite Hkey.
    destruct (prepare_start _ _ _ _ _) as [prepared|err]; [|done].
    apply wp_bind, wp_ret, wp_bind, wp_find_by_key; [done| |].
    - intros Hnone. specialize (Hnone _ _ Hr). unfold has_deduplication_key in Hnone.
      by rewrite bool_decide_true in Hnone.
    - intros r' Hr' [Hk' Hd']%bool_decide_eq_true. apply wp_ret.
      assert (wf_id r' = wf_id r) as ->; [|done].
      apply (ok_dedup _ Hok _ _ r' r key); congruence. }
  destruct (wp_total _ _ _ _ Hwp) as (? & ? & Ht & -> & ->). done.
Qed.

Lemma prepare_start_Ok kind version input state options prepared :
  prepare_start kind version input state options = Ok prepared →
  prepared = (input, state) ∧ (0 < version)%Z.
Proof.
  unfold prepare_start. intros (u & Hv & Hp)%res_bind_Ok.
  repeat apply res_bind_Ok in Hp as (? & _ & Hp). injection Hp as <-.
  unfold validate_workflow_definition in Hv. destruct (_ || _) eqn:E; [done|].
  apply orb_false_iff in E as [_ ?%Z.leb_gt]. done.
Qed.

(** C25: T-X1. A start whose arguments are valid and whose key is new always
    succeeds: it inserts exactly one workflow, ready, with the definition,
    input and state of the start, no lease, no wait and nothing delivered, and
    appends exactly its first delivery, which decodes to [Started]; no other
    workflow changes. *)
Theorem fresh_start_is_deliverable kind version input state options (e : Env) (d : Db) :
  db_ok d → is_ok (prepare_start kind version input state options) = true →
  restarted_from_workflow_id options = None →
  (∀ id r, db_workflow d !! id = Some r → wf_kind r = kind →
     is_Some (deduplication_key options) →
     wf_deduplication_key r ≠ deduplication_key options) →
  ∃ id d', transaction e (start kind version input state options) d
           = (Ok (MkStartOutcome id true), d')
    ∧ started_row kind version input state options id d d'.
Proof.
  intros Hok Hprep Hfrom Hnew.
  assert (root_workflow_id options = None) as Hroot.
  { unfold root_workflow_id, restarted_from_workflow_id in *. by destruct (so_lineage options). }
  assert (db_workflow d !! db_next_workflow d = None) as Hnone.
  { apply eq_None_not_Some. intros [r Hr]. destruct (ok_workflow _ Hok _ _ Hr). lia. }
  assert (wp no_error (start kind version input state options) e d
    (λ out d', out = MkStartOutcome (db_next_workflow d) true
       ∧ started_row kind version input state options (db_next_workflow d) d d')) as Hwp.
  { unfold start, insert_prepared, insert_prepared_untraced.
    destruct (prepare_start _ _ _ _ _) as [prepared|err] eqn:Ep; [|done].
    apply prepare_start_Ok in Ep as [-> Hversion]. apply wp_bind, wp_ret, wp_bind. simpl.
    apply (wp_mono _ _ _ _ (λ found d', found = None ∧ d' = d)).
    { destruct (deduplication_key options) as [key|] eqn:Ek; [|by apply wp_ret].
      apply wp_find_by_key; [done|done|].
      intros r Hr [Hk Hd]%bool_decide_eq_true. by destruct (Hnew _ _ Hr Hk). }
    intros found d0 [-> ->]. apply wp_bind, wp_now. intros i. apply wp_bind.
    unfold insert_started. cbv zeta.
    apply wp_bind, wp_insert_workflow_fresh; simpl; [done|done| |done|done|done|].
    { intros id r Hr Hs Hk Hd. by apply (Hnew _ _ Hr Hk Hs). }
    apply wp_bind, wp_now. intros i'. apply wp_bind, wp_append_first; simpl.
    - intros ev [w Hw]%(ok_event _ Hok) Hid. rewrite Hid in Hw. congruence.
    - rewrite lookup_insert_eq. eauto.
    - apply wp_ret, wp_ret. split; [done|]. split_and!; [done| | |].
      + eexists. simpl. rewrite lookup_insert_eq. split_and!; done.
      + intros j Hj. simpl. by rewrite lookup_insert_ne.
      + eexists. split_and!; [done|done|done|done]. }
  destruct (wp_total _ _ _ _ Hwp) as (? & d' & Ht & -> & Hd'). eauto.
Qed.
End starts.

(** * The theorems on the scenario *)

Lemma duplicate_start_is_idempotent_witness :
  transaction (env_at 9000 "x") (start "order" 2 "8" "other" order_options) charging
  = (Ok (MkStartOutcome 1 false), charging).
Proof.
  apply (duplicate_start_is_idempotent "order" 2 "8" "other" order_options "order-7"
    (env_at 9000 "x") charging (order_row charging)).
  - apply reachable_ok, charging_reachable.
  - vm_compute. reflexivity.
  - vm_compute. reflexivity.
  - vm_compute. reflexivity.
  - vm_compute. reflexivity.
  - vm_compute. reflexivity.
Defined.

Lemma fresh_start_is_deliverable_witness :
  ∃ id d', transaction (env_at 2000 "a") (start "order" 1 "7" "new" order_options) empty_db
           = (Ok (MkStartOutcome id true), d')
    ∧ started_row "order" 1 "7" "new" order_options id empty_db d'.
Proof.
  apply (fresh_start_is_deliverable "order" 1 "7" "new" order_options (env_at 2000 "a") empty_db).
  - exact empty_db_ok.
  - vm_compute. reflexivity.
  - vm_compute. reflexivity.
  - intros id r Hr. vm_compute in Hr. discriminate Hr.
Defined.
