(* ===== verification/Deliveries.v ===== *)
(** The wakes of waiting workflows: a timer that fires (T-T1), an approval
    that expires (T-A1) or is resolved (T-A7) is delivered as the workflow's
    next event, in the transaction that ends the wait (S20, S22). *)
From stdpp Require Import base gmap list strings relations.
From Stdlib Require Import ZArith Lia.
From S2P Require Import Prelude.
From S2P Require Import Errors.
From S2P Require Import Status.
From S2P Require Import Rows.
From S2P Require Import Database.
From S2P Require Import TxLogic.
From S2P Require Import Lifecycle.
From S2P Require Import Evolution.
From S2P Require Import Policy.
From S2P Require Import Transitions.
From S2P Require Import Registry.
From S2P Require Import Parents.
From S2P Require Import Store.
From S2P Require Import Coordinator.
From S2P Require Import Worker.
From S2P Require Import Temporal.
From S2P Require Import Control.
From S2P Require Import Reads.
From S2P Require Import Calendar.
From S2P Require Import ExampleCalendar.
From S2P Require Import Protocol.
From S2P Require Import Scenario.
From S2P Require Import Safety.
From S2P Require Import Walks.
From S2P Require Import Claims.

Section deliveries.
Context `{CodecLaws}.

(** [event] is appended as the next delivery of the workflow [id], which no
    longer waits: it is ready, or still paused. *)
Definition delivers (id : WorkflowId) (event : WorkflowEvent) (d d' : Db) : Prop :=
  ∃ r r' ev, db_workflow d !! id = Some r ∧ db_workflow d' !! id = Some r'
    ∧ wf_status r' = woken_status (wf_status r) ∧ no_wait r'
    ∧ db_event d' = db_event d ++ [ev] ∧ ev_workflow_id ev = id
    ∧ ev_delivery_sequence ev = Some (wf_delivered_event_sequence r + 1)%Z
    ∧ decode_event ev = Ok event.

(** An event with its own JSON decodes to itself. *)
Lemma decode_event_json ev event :
  ev_event_type ev ≠ "started" → ev_event_type ev ≠ "continued" →
  ev_metadata_json ev = Some (event_to_json event) → decode_event ev = Ok event.
Proof.
  intros Hs Hc Hm. unfold decode_event. rewrite (proj2 (String.eqb_neq _ _) Hs),
    (proj2 (String.eqb_neq _ _) Hc), Hm. simpl. by rewrite event_json_roundtrip.
Qed.

(** The results of the checked conversions. *)
Ltac checked :=
  repeat match goal with
  | Hn : i32_checked_add _ _ = Some _ |- _ => apply i32_checked_add_Some in Hn as [-> _]
  | Hn : u32_try_from _ = Some _ |- _ => apply u32_try_from_Some in Hn as [-> _]
  end.

(** A committed transaction that returned [Some]. *)
Lemma committed_some {A} (m : Tx (option A)) e d d' (Φ : A → Db → Prop) :
  wp any_error m e d (λ o d', ∀ a, o = Some a → Φ a d') →
  ∀ a, transaction e m d = (Ok (Some a), d') → Φ a d'.
Proof. intros Hm a Ht. exact (wp_committed _ _ _ _ _ _ _ Hm Ht a eq_refl). Qed.

(** * Timers *)

Definition due_free (e : Env) (now : DbMillis) (r : WorkflowRow) : bool :=
  due_timer now r && negb (env_locked_workflow e (wf_id r)).

(** What a run of the timer materializer at [now] leaves. *)
Definition timer_fired (e : Env) (now : DbMillis) (d : Db) (result : option WorkflowId) (d' : Db)
    : Prop :=
  match result with
  | None => d' = d ∧ ∀ id r, db_workflow d !! id = Some r → due_free e now r = false
  | Some id => ∃ r, db_workflow d !! id = Some r ∧ due_free e now r = true
      ∧ wf_wait r = Ok (Some (WaitTimer (wf_command_sequence r)))
      ∧ (∀ i r', db_workflow d !! i = Some r' → due_free e now r' = true →
           available_le r r' = true)
      ∧ delivers id (TimerFired (wf_command_sequence r)) d d'
  end.

Lemma wait_command_timer r n :
  wf_wait_kind r = Some KindTimer → wait_command_sequence r = Ok n →
  n = wf_command_sequence r ∧ wf_wait r = Ok (Some (WaitTimer (wf_command_sequence r))).
Proof.
  intros Hk. unfold wait_command_sequence. intros (w & Hw & (u & Hu & Hn)%res_bind_Ok)%res_bind_Ok.
  rewrite Hw. apply ok_or_Ok, u32_try_from_Some in Hn as [-> _]. split; [done|].
  destruct w as [w|].
  - apply wf_wait_Some in Hw as [Hk' _]. destruct w; simpl in *; try congruence.
    by destruct (_ =? _)%Z eqn:E in Hu; [apply Z.eqb_eq in E as ->|].
  - done.
Qed.

Lemma wp_materialize_timer e d now :
  db_ok d → wp any_error (materialize_timer now) e d (timer_fired e now d).
Proof.
  intros Hok. unfold materialize_timer, append_delivery_event, clear_wait.
  apply wp_bind, wp_env, wp_bind, wp_select_workflows. intros rows Hrows.
  destruct (sort_by available_le rows) as [|r rest] eqn:Esort.
  - apply wp_ret. split; [done|]. intros id r Hr. apply not_true_iff_false. intros Hf.
    apply (not_elem_of_nil r). rewrite <- Esort. apply elem_of_sort_by, Hrows. eauto.
  - assert (r ∈ rows) as [Hf [id Hr]]%Hrows.
    { apply (elem_of_sort_by available_le). rewrite Esort. apply list_elem_of_here. }
    destruct (ok_workflow _ Hok _ _ Hr) as [Hid _]. rewrite <- Hid in Hr.
    assert (due_free e now r = true) as Hfree by exact Hf.
    pose proof Hf as [[[Hst Hk]%bool_decide_eq_true _]%andb_true_iff _]%andb_true_iff.
    repeat run_step; same_rows.
    match goal with Hn : wait_command_sequence r = Ok _ |- _ =>
      apply wait_command_timer in Hn as [-> Hw]; [|done] end.
    exists r. split_and!; [done|done|done| |].
    + intros i r' Hr' Hf'. apply (sort_by_head available_le available_le_total
        available_le_trans rows r rest r' Esort), Hrows. eauto.
    + checked. do 3 eexists. simpl. rewrite lookup_insert_eq. split_and!; try done; columns.
      by apply decode_event_json.
Qed.

(** S22, T-T1. A run of the timer materializer fires the earliest due
    timer no other transaction holds, if there is one: its workflow was
    sleeping, never paused, on the timer of its current command, and becomes
    ready without a wait, with exactly one event appended: the firing of that
    command as its next delivery. With none due it changes nothing. *)
Theorem timer_fires_the_earliest (e : Env) (d d' : Db) now result :
  db_ok d → transaction e (materialize_timer now) d = (Ok result, d') →
  timer_fired e now d result d'.
Proof.
  intros Hok Ht. exact (wp_committed _ _ _ _ _ _ _ (wp_materialize_timer e d now Hok) Ht).
Qed.

(** * Approvals *)

(** The workflow awaits the approval [a]. *)
Definition awaits (a : ApprovalRow) (r : WorkflowRow) : Prop :=
  awaits_approval (wf_status r) = true ∧ wf_wait r = Ok (Some (WaitApproval (ap_id a)))
  ∧ wf_kind r = ap_kind a ∧ wf_version r = ap_version a.

Definition approval_expired_at (now : DbMillis) (a : ApprovalRow) : Prop :=
  ∃ t, ap_expires_at a = Some t ∧ (t ≤ now)%Z.

(** S20. A committed resolution decides a pending approval that has not
    expired at the transaction's clock sample and is awaited by its workflow:
    the approval is resolved with the decision the definition validated and
    the actor, and the decision is delivered to the workflow. *)
Theorem resolution_is_delivered workflows id decision operator (e : Env) (d d' : Db) result :
  db_ok d →
  transaction e (resolve_approval workflows id decision operator) d = (Ok result, d') →
  ∃ a w a' valid actor i, operator_actor_id operator = Ok actor
    ∧ db_approval d !! id = Some a ∧ ap_status a = ApprPending
    ∧ ¬ approval_expired_at (env_clock e i) a
    ∧ db_workflow d !! ap_workflow_id a = Some w ∧ awaits a w
    ∧ validate_approval_exact workflows (wf_kind w) (wf_version w) decision = Ok valid
    ∧ db_approval d' !! id = Some a' ∧ ap_status a' = ApprResolved
    ∧ ap_decision_payload_json a' = Some valid ∧ ap_decided_by a' = Some actor
    ∧ delivers (ap_workflow_id a) (ApprovalResolved (ap_command_sequence a)
        (MkApprovalResult (wf_kind w) (wf_version w) valid)) d d'.
Proof.
  intros Hok Ht. committed Ht. unfold resolve_approval, lock_workflow.
  repeat run_step; same_rows.
  match goal with
  | Ha : db_approval d !! id = Some ?a, Hw : db_workflow d !! ap_workflow_id ?a = Some ?w |- _ =>
      destruct (ok_approval _ Hok _ _ Ha) as [Hid _];
      destruct (ok_workflow _ Hok _ _ Hw) as [Hwid _]; simpl in *; rewrite Hid in *;
      simplify_eq; exists a, w
  end.
  checked. do 3 eexists. exists i. rewrite lookup_insert_eq. split_and!; try done; try columns.
  - intros (t & Ht & Hle). rewrite Ht in *. norm_tests. lia.
  - do 3 eexists. simpl. rewrite Hwid, lookup_insert_eq. split_and!; try done; columns.
    by apply decode_event_json.
Qed.

(** The approval [expired], which is [id], was expired and its workflow told. *)
Definition approval_expiry (now : DbMillis) (id : ApprovalId) (workflow : WorkflowId) (d : Db)
    (expired : ApprovalId) (d' : Db) : Prop :=
  expired = id
  ∧ ∃ a w a', db_approval d !! id = Some a ∧ ap_status a = ApprPending
    ∧ approval_expired_at now a
    ∧ db_workflow d !! workflow = Some w ∧ awaits a w
    ∧ db_approval d' !! id = Some a' ∧ ap_status a' = ApprExpired
    ∧ ap_decision_payload_json a' = ap_decision_payload_json a
    ∧ delivers workflow (ApprovalExpired (ap_command_sequence a)) d d'.

(** S20, T-A1. A committed expiry that reports an approval decides a
    pending approval whose deadline has passed and which its workflow awaits:
    the approval is expired, without a decision, and the expiry of its command
    is delivered to the workflow. *)
Theorem expiry_is_delivered now id workflow (e : Env) (d d' : Db) expired :
  db_ok d → transaction e (expire_candidate now id workflow) d = (Ok (Some expired), d') →
  approval_expiry now id workflow d expired d'.
Proof.
  intros Hok. revert expired. apply committed_some.
  unfold expire_candidate, lock_workflow_by_id, append_delivery_event, clear_wait.
  repeat run_step; try done; same_rows. intros ? [= <-].
  match goal with
  | Ha : db_approval d !! id = Some ?a, Hw : db_workflow d !! workflow = Some ?w,
    Hx : expiring_approval now ?a = true |- _ =>
      destruct (ok_approval _ Hok _ _ Ha) as [Hid _];
      destruct (ok_workflow _ Hok _ _ Hw) as [Hwid _]; simpl in *; rewrite Hid in *;
      simplify_eq; split; [done|]; exists a, w; unfold expiring_approval in Hx
  end.
  checked. norm_tests. eexists. simpl. rewrite lookup_insert_eq.
  split_and!; try done; try columns.
  - destruct (ap_expires_at _) as [t|] eqn:Ex; [|done]. norm_tests. by exists t.
  - do 3 eexists. simpl. rewrite lookup_insert_eq. split_and!; try done; columns.
    by apply decode_event_json.
Qed.
End deliveries.

(** * The theorems on the scenario *)

(** An order that sleeps instead of charging. *)
Definition commit_sleep : Tx unit :=
  commit_on_connection default_coordinator_config order_claim order_event
    (StSleepUntil "sleeping" 50000).
Definition sleeping : Db := run 4000 "d" commit_sleep claimed.

Lemma timer_fires_the_earliest_witness :
  timer_fired (env_at 60000 "t") 60000 sleeping (Some 1%Z)
    (run 60000 "t" (materialize_timer 60000) sleeping).
Proof.
  apply (timer_fires_the_earliest (env_at 60000 "t") sleeping
    (run 60000 "t" (materialize_timer 60000) sleeping) 60000 (Some 1%Z)).
  - apply reachable_ok. exact (steps_run _ _ _ _ _ (eng_commit _ _ _ _) claimed_reachable).
  - vm_compute. reflexivity.
Defined.

Lemma resolution_is_delivered_witness :
  ∃ a w a' valid actor i, operator_actor_id operator = Ok actor
    ∧ db_approval asking !! 1%Z = Some a ∧ ap_status a = ApprPending
    ∧ ¬ approval_expired_at (env_clock (env_at 9000 "i") i) a
    ∧ db_workflow asking !! ap_workflow_id a = Some w ∧ awaits a w
    ∧ validate_approval_exact workflows (wf_kind w) (wf_version w) "yes" = Ok valid
    ∧ db_approval resolved !! 1%Z = Some a' ∧ ap_status a' = ApprResolved
    ∧ ap_decision_payload_json a' = Some valid ∧ ap_decided_by a' = Some actor
    ∧ delivers (ap_workflow_id a) (ApprovalResolved (ap_command_sequence a)
        (MkApprovalResult (wf_kind w) (wf_version w) valid)) asking resolved.
Proof.
  apply (resolution_is_delivered workflows 1 "yes" operator (env_at 9000 "i") asking resolved
    (1%Z, 1%Z, "resolved")).
  - apply reachable_ok, asking_reachable.
  - vm_compute. reflexivity.
Defined.

Lemma expiry_is_delivered_witness : approval_expiry 99000 1 1 asking 1 expired.
Proof.
  apply (expiry_is_delivered 99000 1 1 (env_at 99000 "i") asking expired 1).
  - apply reachable_ok, asking_reachable.
  - vm_compute. reflexivity.
Defined.
