(* ===== verification/Cancel.v ===== *)
(** Cancellation (T-X3, S25): it ends, and it reaches all the work of the
    workflow and of the children it owns, in every generation, and theirs. *)
From stdpp Require Import base gmap list strings relations.
From Stdlib Require Import ZArith Lia.
From S2P Require Import Prelude.
From S2P Require Import Errors.
From S2P Require Import Status.
From S2P Require Import Rows.
From S2P Require Import Database.
From S2P Require Import TxLogic.
From S2P Require Import Lifecycle.
From S2P Require Import Evolution.
From S2P Require Import Policy.
From S2P Require Import Transitions.
From S2P Require Import Registry.
From S2P Require Import Parents.
From S2P Require Import Store.
From S2P Require Import StoreSteps.
From S2P Require Import Coordinator.
From S2P Require Import Worker.
From S2P Require Import Control.
From S2P Require Import Reads.
From S2P Require Import Calendar.
From S2P Require Import ExampleCalendar.
From S2P Require Import Protocol.
From S2P Require Import Scenario.
From S2P Require Import Safety.
From S2P Require Import Walks.

(** * Errors that are not the model's fuel *)

Definition not_fuel (err : DurableError) : Prop := err ≠ InvalidState "model fuel exhausted".

(** A partial specification of a run that cannot exhaust fuel. *)
Lemma wp_not_fuel {A} (m : Tx A) e d Φ :
  wp not_fuel m e d (λ _ _, True) → wp any_error m e d Φ → wp not_fuel m e d Φ.
Proof.
  intros Hf Hm i j. specialize (Hf i j). specialize (Hm i j).
  by destruct (m e (MkTxState d i j)) as [[a s]|err].
Qed.

(** A run that only fails with errors of its own. *)
Class FuelFree {A} (m : Tx A) : Prop := fuel_free : ∀ e d, wp not_fuel m e d (λ _ _, True).

Lemma wp_fuel_free {A} (m : Tx A) `{!FuelFree m} e d Φ :
  wp any_error m e d Φ → wp not_fuel m e d Φ.
Proof. by apply wp_not_fuel. Qed.

Lemma fuel_free_bind {A B} (m : Tx A) (f : A → Tx B) :
  FuelFree m → (∀ a, FuelFree (f a)) → FuelFree (tx_bind m f).
Proof. intros Hm Hf e d. apply wp_bind. eapply wp_mono; [apply Hm|]. intros a d' _. apply Hf. Qed.

Lemma fuel_free_lift {A} (r : Result A) :
  (∀ err, r = Err err → not_fuel err) → FuelFree (tx_lift r).
Proof. intros Hr e d. by apply wp_lift. Qed.

Lemma fuel_free_for {B} (l : list B) (body : B → Tx unit) :
  (∀ x, FuelFree (body x)) → FuelFree (tx_for l body).
Proof.
  intros Hb e d. apply (wp_for _ _ _ (λ _, True)); [done| |done].
  intros x d' _ _. apply Hb.
Qed.

Lemma not_fuel_ok_or {A} (o : option A) err0 err :
  not_fuel err0 → ok_or o err0 = Err err → not_fuel err.
Proof. destruct o; simpl; congruence. Qed.

(** Splits an operation into its parts; the messages of its errors differ
    from the fuel's. *)
Ltac fuel_free :=
  repeat lazymatch goal with
  | |- FuelFree (tx_bind _ _) => apply fuel_free_bind; [|intros ?]
  | |- FuelFree (tx_ret _) => intros ? ?; by apply wp_ret
  | |- FuelFree (tx_fail _) => intros ? ?; apply wp_fail; discriminate
  | |- FuelFree (db_fail _ _) => intros ? ?; apply wp_fail; discriminate
  | |- FuelFree (tx_lift (ok_or _ _)) =>
      apply fuel_free_lift; intros ?; apply not_fuel_ok_or; discriminate
  | |- FuelFree (tx_lift _) => apply fuel_free_lift
  | |- FuelFree tx_get => intros ? ?; by apply wp_get
  | |- FuelFree (tx_put _) => intros ? ?; by apply wp_put
  | |- FuelFree database_now_millis => intros ? ?; by apply wp_now
  | |- FuelFree (ensure_fenced _) => intros ? ?; by apply wp_ensure_fenced; intros; try discriminate
  | |- FuelFree (first_or_not_found _) => intros ? ?; apply wp_first_or_not_found; [discriminate|done]
  | |- FuelFree (select_workflows _) => intros ? ?; by apply wp_select_workflows
  | |- FuelFree (select_activities _) => intros ? ?; by apply wp_select_activities
  | |- FuelFree (select_approvals _) => intros ? ?; by apply wp_select_approvals
  | |- FuelFree (find_workflow _ _) => intros ? ?; by apply wp_find_workflow
  | |- FuelFree (update_workflow _ _ _) => intros ? ?; by apply wp_update_workflow
  | |- FuelFree (update_activity _ _ _) => intros ? ?; by apply wp_update_activity
  | |- FuelFree (update_approval _ _ _) => intros ? ?; by apply wp_update_approval
  | |- FuelFree (tx_for _ _) => apply fuel_free_for; intros ?
  | |- FuelFree (match ?x with _ => _ end) => destruct x
  | |- FuelFree (next_event_sequence _) => unfold next_event_sequence; cbv zeta
  | |- FuelFree (append_event _) => unfold append_event; cbv zeta
  | |- FuelFree (if ?b then _ else _) => destruct b
  end.

#[export] Instance cancel_activities_fuel_free id reason outcome now :
  FuelFree (cancel_activities id reason outcome now).
Proof. unfold cancel_activities, cancel_activity. fuel_free. Qed.

#[export] Instance cancel_approvals_fuel_free id reason now :
  FuelFree (cancel_approvals id reason now).
Proof. unfold cancel_approvals. fuel_free. Qed.

#[export] Instance owned_children_fuel_free id : FuelFree (owned_children id).
Proof. unfold owned_children. fuel_free. Qed.

#[export] Instance lock_successor_fuel_free row : FuelFree (lock_successor row).
Proof. unfold lock_successor. fuel_free. Qed.

#[export] Instance lock_workflow_by_id_fuel_free id : FuelFree (lock_workflow_by_id id).
Proof. unfold lock_workflow_by_id. fuel_free. Qed.

Lemma wf_wait_not_fuel r err : wf_wait r = Err err → not_fuel err.
Proof.
  unfold wf_wait, wait_parse, new_id. destruct (wf_wait_kind r) as [k|], (wf_wait_reference_id r) as [n|];
    try done; [|by intros [= <-]..].
  destruct k; simpl.
  - destruct (u32_try_from n); simpl; [done|]. by intros [= <-].
  - destruct (0 <? n)%Z; simpl; [done|]. by intros [= <-].
  - destruct (0 <? n)%Z; simpl; [done|]. by intros [= <-].
  - destruct (0 <? n)%Z; simpl; [done|]. by intros [= <-].
Qed.

Section fuel.
Context `{Codec}.

#[export] Instance wake_fuel_free child outcome now :
  FuelFree (wake_waiting_parents_on_child_terminal child outcome now).
Proof.
  unfold wake_waiting_parents_on_child_terminal, wake_loaded_parent_on_child_terminal.
  fuel_free.
  - intros err. apply wf_wait_not_fuel.
  - intros err. unfold child_event, new_child_result, ensure_size.
    destruct outcome as [output|[? ?]]; [|done]. cbv zeta. destruct (_ <? _)%nat; simpl; congruence.
Qed.

#[export] Instance cancel_one_workflow_fuel_free workflow reason operator now :
  FuelFree (cancel_one_workflow workflow reason operator now).
Proof.
  unfold cancel_one_workflow. cbv zeta. fuel_free; apply _.
Qed.
End fuel.

(** * The work of one workflow *)

(** Work the engine may still start: a pending or running activity, a pending
    approval. *)
Definition in_hand (a : ActivityRow) : Prop := ac_status a = ActPending ∨ ac_status a = ActRunning.
Definition awaiting (a : ApprovalRow) : Prop := ap_status a = ApprPending.

(** From [d] to [d'] no work is added. *)
Record retires (d d' : Db) : Prop := {
  re_activity : ∀ i a', db_activity d' !! i = Some a' →
    ∃ a, db_activity d !! i = Some a ∧ ac_id a' = ac_id a
         ∧ ac_workflow_id a' = ac_workflow_id a ∧ (in_hand a' → in_hand a);
  re_approval : ∀ i a', db_approval d' !! i = Some a' →
    ∃ a, db_approval d !! i = Some a ∧ ap_id a' = ap_id a
         ∧ ap_workflow_id a' = ap_workflow_id a ∧ (awaiting a' → awaiting a);
}.

#[export] Instance retires_refl : Reflexive retires.
Proof. intros d. split; eauto. Qed.

#[export] Instance retires_trans : Transitive retires.
Proof.
  intros d1 d2 d3 [A1 P1] [A2 P2]. split.
  - intros i a3 (a2 & Ha2 & J2 & E2 & I2)%A2. destruct (A1 _ _ Ha2) as (a1 & Ha1 & J1 & E1 & I1).
    exists a1. split_and!; [done|congruence|congruence|auto].
  - intros i a3 (a2 & Ha2 & J2 & E2 & I2)%P2. destruct (P1 _ _ Ha2) as (a1 & Ha1 & J1 & E1 & I1).
    exists a1. split_and!; [done|congruence|congruence|auto].
Qed.

(** The workflow [id] has no work left. *)
Definition idle (id : WorkflowId) (d : Db) : Prop :=
  (∀ i a, db_activity d !! i = Some a → ac_workflow_id a = id → ¬ in_hand a)
  ∧ ∀ i a, db_approval d !! i = Some a → ap_workflow_id a = id → ¬ awaiting a.

Lemma idle_retires id d d' : retires d d' → idle id d → idle id d'.
Proof.
  intros [A P] [Ha Hp]. split.
  - intros i a' (a & Hi & _ & E & Ih)%A Hid Hin. rewrite E in Hid. by apply (Ha i a Hi Hid), Ih.
  - intros i a' (a & Hi & _ & E & Ih)%P Hid Hin. rewrite E in Hid. by apply (Hp i a Hi Hid), Ih.
Qed.

(** The same workflows; the activities and approvals retire. *)
Definition settles (d d' : Db) : Prop := retires d d' ∧ db_workflow d' = db_workflow d.

#[export] Instance settles_refl : Reflexive settles.
Proof. by split. Qed.
#[export] Instance settles_trans : Transitive settles.
Proof. intros d1 d2 d3 [] []. split; [by etrans|congruence]. Qed.

Lemma settles_activity d id a a' :
  db_activity d !! id = Some a → ac_id a' = ac_id a → ac_workflow_id a' = ac_workflow_id a → ¬ in_hand a' →
  settles d (d <| db_activity := <[id := a']> (db_activity d) |>).
Proof.
  intros Ha Heq Hid Hin. split; [split|done]; [|eauto]. simpl.
  intros i x [[<- <-]|[_ Hx]]%lookup_insert_Some; [|eauto]. exists a. split_and!; [done|done|done|].
  intros Hh. by destruct (Hin Hh).
Qed.

Lemma settles_approval d id a a' :
  db_approval d !! id = Some a → ap_id a' = ap_id a → ap_workflow_id a' = ap_workflow_id a → ¬ awaiting a' →
  settles d (d <| db_approval := <[id := a']> (db_approval d) |>).
Proof.
  intros Ha Heq Hid Hin. split; [split|done]; [eauto|]. simpl.
  intros i x [[<- <-]|[_ Hx]]%lookup_insert_Some; [|eauto]. exists a. split_and!; [done|done|done|].
  intros Hh. by destruct (Hin Hh).
Qed.

(** The activity or approval stored under an id is settled. *)
Definition activity_settled (x : ActivityRow) (d : Db) : Prop :=
  ∀ a, db_activity d !! ac_id x = Some a → ¬ in_hand a.
Definition approval_settled (x : ApprovalRow) (d : Db) : Prop :=
  ∀ a, db_approval d !! ap_id x = Some a → ¬ awaiting a.

Lemma wp_cancel_activity e d x reason outcome now :
  wp any_error (cancel_activity x reason outcome now) e d
    (λ _ d', settles d d' ∧ activity_settled x d').
Proof.
  unfold cancel_activity.
  repeat run_step; (split; [eapply settles_activity; [eassumption|done|done|by intros []]|]);
    intros ?; simpl; rewrite lookup_insert_eq; intros [= <-]; by intros [].
Qed.

Lemma wp_cancel_activities e d id reason outcome now :
  (∀ i a, db_activity d !! i = Some a → ac_id a = i) →
  wp any_error (cancel_activities id reason outcome now) e d (λ _ d', settles d d'
    ∧ ∀ i a, db_activity d' !! i = Some a → ac_workflow_id a = id → ¬ in_hand a).
Proof.
  intros Hids. unfold cancel_activities. apply wp_bind, wp_select_activities. intros rows Hrows.
  eapply wp_mono; [apply (wp_for_each _ _ _ settles activity_settled); try apply _|].
  - intros x d1 d2 [[A _] _] Hx a (a1 & Ha1 & _ & _ & I)%A Hin. by apply (Hx a1 Ha1), I.
  - intros x d1 _. apply wp_cancel_activity.
  - intros [] d' [Hs Hset]. split; [done|]. intros i a' Ha' Hid Hin.
    destruct Hs as [[A _] _]. destruct (A _ _ Ha') as (a & Ha & _ & E & I).
    refine (Hset a _ a' _ Hin); [|by rewrite (Hids _ _ Ha)]. apply Hrows. split; [|eauto].
    rewrite bool_decide_true by congruence. by destruct (I Hin) as [-> | ->].
Qed.

Lemma wp_cancel_approvals e d id reason now :
  (∀ i a, db_approval d !! i = Some a → ap_id a = i) →
  wp any_error (cancel_approvals id reason now) e d (λ _ d', settles d d'
    ∧ ∀ i a, db_approval d' !! i = Some a → ap_workflow_id a = id → ¬ awaiting a).
Proof.
  intros Hids. unfold cancel_approvals. apply wp_bind, wp_select_approvals. intros rows Hrows.
  eapply wp_mono; [apply (wp_for_each _ _ _ settles approval_settled); try apply _|].
  - intros x d1 d2 [[_ P] _] Hx a (a1 & Ha1 & _ & _ & I)%P Hin. by apply (Hx a1 Ha1), I.
  - intros x d1 _. repeat run_step. split; [eapply settles_approval; [eassumption|done|done|done]|].
    intros ?; simpl. rewrite lookup_insert_eq. by intros [= <-].
  - intros [] d' [Hs Hset]. split; [done|]. intros i a' Ha' Hid Hin.
    destruct Hs as [[_ P] _]. destruct (P _ _ Ha') as (a & Ha & _ & E & I).
    refine (Hset a _ a' _ Hin); [|by rewrite (Hids _ _ Ha)]. apply Hrows. split; [|eauto].
    rewrite bool_decide_true; [done|]. split; [congruence|by apply I].
Qed.

(** * The workflows *)

(** The rows that are not terminal. *)
Definition live_rows (m : gmap Z WorkflowRow) : nat :=
  size (filter (λ p : Z * WorkflowRow, is_terminal (wf_status p.2) = false) m).

Definition terminal_in (m : gmap Z WorkflowRow) (i : WorkflowId) : Prop :=
  ∃ r, m !! i = Some r ∧ is_terminal (wf_status r) = true.

(** From [m] to [m'] exactly the live workflows [ids] became terminal; what
    was terminal did not change, and no row changed its identity. *)
Record cancels (ids : list WorkflowId) (m m' : gmap Z WorkflowRow) : Prop := {
  ca_rows : ∀ i r', m' !! i = Some r' → ∃ r, m !! i = Some r ∧ same_workflow r r';
  ca_keep : ∀ i r, m !! i = Some r → ∃ r', m' !! i = Some r';
  ca_final : ∀ i r, m !! i = Some r → is_terminal (wf_status r) = true → m' !! i = Some r;
  ca_ids : ∀ i, terminal_in m' i ↔ terminal_in m i ∨ i ∈ ids;
  ca_live : (length ids + live_rows m' ≤ live_rows m)%nat;
}.

Lemma same_workflow_refl r : same_workflow r r.
Proof. repeat split. Qed.

Lemma same_workflow_trans r1 r2 r3 :
  same_workflow r1 r2 → same_workflow r2 r3 → same_workflow r1 r3.
Proof. unfold same_workflow. intros. destruct_and?. split_and!; congruence. Qed.

Lemma cancels_refl m : cancels [] m m.
Proof.
  split; eauto using same_workflow_refl. intros i. split; [by left|].
  intros [?|?%elem_of_nil]; done.
Qed.

Lemma cancels_trans ids1 ids2 m1 m2 m3 :
  cancels ids1 m1 m2 → cancels ids2 m2 m3 → cancels (ids1 ++ ids2) m1 m3.
Proof.
  intros [R1 K1 F1 T1 L1] [R2 K2 F2 T2 L2]. split.
  - intros i r3 (r2 & Hr2 & S2)%R2. destruct (R1 _ _ Hr2) as (r1 & Hr1 & S1).
    exists r1. split; [done|]. by eapply same_workflow_trans.
  - intros i r (r2 & Hr2)%K1. eauto.
  - intros i r Hr Ht. eauto.
  - intros i. rewrite T2, T1, elem_of_app. tauto.
  - rewrite length_app. lia.
Qed.

Lemma live_rows_insert m id r r' :
  m !! id = Some r → is_terminal (wf_status r) = false →
  (live_rows (<[id := r']> m) + (if is_terminal (wf_status r') then 1 else 0) = live_rows m)%nat.
Proof.
  intros Hr Hl. unfold live_rows.
  assert (filter (λ p : Z * WorkflowRow, is_terminal (wf_status p.2) = false) m !! id = Some r)
    as Hf by (by apply map_lookup_filter_Some).
  destruct (is_terminal (wf_status r')) eqn:Et.
  - rewrite map_filter_insert_False by (simpl; congruence).
    rewrite map_filter_delete, map_size_delete, Hf.
    assert (size (filter (λ p : Z * WorkflowRow, is_terminal (wf_status p.2) = false) m) ≠ 0)%nat.
    { rewrite map_size_non_empty_iff. intros E. rewrite E in Hf. by rewrite lookup_empty in Hf. }
    lia.
  - rewrite map_filter_insert_True by done. rewrite map_size_insert, Hf. simpl. lia.
Qed.

(** An update of a live row. *)
Lemma cancels_update m id r r' :
  m !! id = Some r → is_terminal (wf_status r) = false → same_workflow r r' →
  cancels (if is_terminal (wf_status r') then [id] else []) m (<[id := r']> m).
Proof.
  intros Hr Hl Hs. split.
  - intros i x [[<- <-]|[_ Hx]]%lookup_insert_Some; eauto using same_workflow_refl.
  - intros i x Hx. destruct (decide (id = i)) as [<-|].
    + rewrite lookup_insert_eq. eauto.
    + rewrite lookup_insert_ne by done. eauto.
  - intros i x Hx Ht. rewrite lookup_insert_ne; [done|]. intros <-. congruence.
  - intros i. unfold terminal_in. destruct (decide (id = i)) as [<-|Hne].
    + rewrite lookup_insert_eq. split.
      * intros (x & [= <-] & Ht). right. rewrite Ht. by left.
      * intros [(x & Hx & Ht)|Hin]; [congruence|].
        destruct (is_terminal (wf_status r')) eqn:E; [eauto|by apply elem_of_nil in Hin].
    + rewrite lookup_insert_ne by done. split; [by left|]. intros [?|Hin]; [done|].
      destruct (is_terminal (wf_status r')); [|by apply elem_of_nil in Hin].
      by apply list_elem_of_singleton in Hin as ->.
  - pose proof (live_rows_insert m id r r' Hr Hl). destruct (is_terminal (wf_status r')); simpl; lia.
Qed.

(** * Cancelling one workflow *)

(** Every row is stored under its id, and a restart is unique and newer than
    its source. *)
Record shape (d : Db) : Prop := {
  sh_workflow : ∀ i r, db_workflow d !! i = Some r → wf_id r = i;
  sh_activity : ∀ i a, db_activity d !! i = Some a → ac_id a = i;
  sh_approval : ∀ i a, db_approval d !! i = Some a → ap_id a = i;
  sh_newer : ∀ i r p, db_workflow d !! i = Some r →
    wf_restarted_from_workflow_id r = Some p → (p < i)%Z;
  sh_unique : ∀ i j r r' p, db_workflow d !! i = Some r → db_workflow d !! j = Some r' →
    wf_restarted_from_workflow_id r = Some p → wf_restarted_from_workflow_id r' = Some p → i = j;
}.

Lemma db_ok_shape d : db_ok d → shape d.
Proof.
  intros Hok. split.
  - intros i r Hr. by apply (ok_workflow _ Hok).
  - intros i a Ha. by apply (ok_activity _ Hok).
  - intros i a Ha. by apply (ok_approval _ Hok).
  - intros i r p Hr Hp. by apply (ok_lineage _ Hok i r p Hr (or_introl Hp)).
  - apply (ok_restart _ Hok).
Qed.

(** A run of the cancellation: the workflows [ids] end, and no work is added. *)
Record cancelling (ids : list WorkflowId) (d d' : Db) : Prop := {
  cg_workflows : cancels ids (db_workflow d) (db_workflow d');
  cg_retires : retires d d';
  cg_idle : ∀ i, i ∈ ids → idle i d';
}.

Lemma cancelling_refl d : cancelling [] d d.
Proof. split; [apply cancels_refl|done|]. by intros i ?%elem_of_nil. Qed.

Lemma cancelling_trans ids1 ids2 d1 d2 d3 :
  cancelling ids1 d1 d2 → cancelling ids2 d2 d3 → cancelling (ids1 ++ ids2) d1 d3.
Proof.
  intros [C1 R1 I1] [C2 R2 I2]. split; [by eapply cancels_trans|by etrans|].
  intros i [Hi|Hi]%elem_of_app; [|auto]. eapply idle_retires; [done|auto].
Qed.

Lemma cancelling_shape ids d d' : cancelling ids d d' → shape d → shape d'.
Proof.
  intros [[R K F T L] [A P] _] []. split.
  - intros i r' (r & Hr & (-> & _))%R. eauto.
  - intros i a' (a & Ha & -> & _)%A. eauto.
  - intros i a' (a & Ha & -> & _)%P. eauto.
  - intros i r' p (r & Hr & (_ & _ & _ & _ & _ & _ & _ & _ & -> & _))%R. eauto.
  - intros i j r r' p (x & Hx & (_ & _ & _ & _ & _ & _ & _ & _ & -> & _))%R
      (y & Hy & (_ & _ & _ & _ & _ & _ & _ & _ & -> & _))%R. eauto.
Qed.

Lemma cancelling_settles d d' : settles d d' → cancelling [] d d'.
Proof.
  intros [Hr Hw]. split; [rewrite Hw; apply cancels_refl|done|]. by intros i ?%elem_of_nil.
Qed.

(** An update of a live workflow row. *)
Lemma cancelling_update d id r r' :
  db_workflow d !! id = Some r → is_terminal (wf_status r) = false →
  is_terminal (wf_status r') = false → same_workflow r r' →
  cancelling [] d (d <| db_workflow := <[id := r']> (db_workflow d) |>).
Proof.
  intros Hr Hl Hl' Hs. split; [|by split; eauto|by intros i ?%elem_of_nil].
  pose proof (cancels_update _ id r r' Hr Hl Hs) as Hc. by rewrite Hl' in Hc.
Qed.

Lemma woken_status_live s : awaits_child s = true → is_terminal (woken_status s) = false.
Proof. by destruct s. Qed.

Section one.
Context `{Codec}.

Lemma wp_wake_cancelling e d child outcome now :
  wp any_error (wake_waiting_parents_on_child_terminal child outcome now) e d
    (λ _ d', cancelling [] d d').
Proof.
  unfold wake_waiting_parents_on_child_terminal. apply wp_bind, wp_select_workflows. intros rows _.
  apply (wp_for _ _ _ (cancelling [] d)); [apply cancelling_refl| |done].
  intros parent d1 _ H1. eapply wp_mono with (Φ := λ _ d2, cancelling [] d1 d2);
    [|intros ? d2 H2; by apply (cancelling_trans [] [] d d1 d2)].
  unfold wake_loaded_parent_on_child_terminal. repeat run_step; try apply cancelling_refl.
  match goal with
  | Hs : same_wait parent ?r = true, Ha : awaits_child (wf_status parent) = true |- _ =>
      apply same_wait_spec in Hs as (Es & _); rewrite <- Es in Ha
  end.
  match goal with
  | |- cancelling [] _ (fset db_workflow _ (with_event ?d ?ev)) =>
      apply (cancelling_trans [] [] d1 (with_event d ev));
        [apply cancelling_settles; split; [split; eauto|done]|]
  end.
  eapply cancelling_update; [eassumption| | |repeat split].
  - by destruct (wf_status r).
  - simpl. rewrite <- Es. by apply woken_status_live.
Qed.

(** The cancelled workflow has ended without a lease or a wait, and has no
    work left. *)
Lemma wp_cancel_one e d workflow reason operator now :
  shape d → db_workflow d !! wf_id workflow = Some workflow →
  is_terminal (wf_status workflow) = false →
  wp any_error (cancel_one_workflow workflow reason operator now) e d (λ _ d',
    cancelling [wf_id workflow] d d'
    ∧ db_workflow d' !! wf_id workflow = Some (cancelled_row now workflow)).
Proof.
  intros Hsh Hw Hl. unfold cancel_one_workflow. cbv zeta.
  apply wp_bind. eapply wp_mono; [by apply wp_cancel_activities, Hsh|]. intros [] d1 [S1 A1].
  pose proof (cancelling_settles _ _ S1) as C1.
  apply wp_bind. eapply wp_mono; [apply wp_cancel_approvals; by apply (cancelling_shape [] d d1)|].
  intros [] d2 [S2 P2]. pose proof (cancelling_settles _ _ S2) as C2.
  assert (idle (wf_id workflow) d2) as Hidle.
  { split; [|done]. destruct S2 as [[A _] _]. intros i a' (a & Ha & _ & E & I)%A Hid Hin.
    rewrite E in Hid. by apply (A1 i a Ha Hid), I. }
  assert (db_workflow d2 !! wf_id workflow = Some workflow) as Hw2.
  { destruct S1 as [_ E1], S2 as [_ E2]. by rewrite E2, E1. }
  apply wp_bind, wp_update_workflow; [by repeat run_step|]. intros r Hr _. simplify_eq.
  set (d3 := d2 <| db_workflow := <[wf_id workflow := cancelled_row now workflow]>
                                    (db_workflow d2) |>).
  assert (∀ ev, cancelling [wf_id workflow] d2 (with_event d3 ev)) as C3.
  { intros ev. split; [|split; eauto|].
    - apply (cancels_update _ _ workflow (cancelled_row now workflow) Hw2 Hl). repeat split.
    - by intros i ->%list_elem_of_singleton. }
  do 6 run_step. eapply wp_mono; [apply wp_wake_cancelling|]. intros [] d4 C4. split.
  - apply (cancelling_trans [] _ d d1 d4 C1), (cancelling_trans [] _ d1 d2 d4 C2).
    by eapply (cancelling_trans [_] [] d2 _ d4); [apply C3|].
  - apply (ca_final _ _ _ (cg_workflows _ _ _ C4)); [|done]. simpl. by rewrite lookup_insert_eq.
Qed.
End one.

(** * The generations of an owned child *)

(** [j] was restarted from [i]. *)
Definition generation (m : gmap Z WorkflowRow) (i j : WorkflowId) : Prop :=
  ∃ r, m !! j = Some r ∧ wf_restarted_from_workflow_id r = Some i.

(** [c] is a child the engine keyed for the command of its parent [p]. *)
Definition owned (m : gmap Z WorkflowRow) (p c : WorkflowId) : Prop :=
  ∃ r, m !! c = Some r ∧ wf_parent_workflow_id r = Some p ∧ owned_child p r = true.

(** The lineage does not change. *)
Lemma cancels_row_back ids m m' i r :
  cancels ids m m' → m !! i = Some r → ∃ r', m' !! i = Some r' ∧ same_workflow r r'.
Proof.
  intros Hc Hr. destruct (ca_keep _ _ _ Hc _ _ Hr) as [r' Hr'].
  destruct (ca_rows _ _ _ Hc _ _ Hr') as (x & Hx & Hs). simplify_eq. eauto.
Qed.

Lemma cancels_generation ids m m' i j :
  cancels ids m m' → generation m' i j ↔ generation m i j.
Proof.
  intros Hc. split.
  - intros (r' & Hr' & Hf). destruct (ca_rows _ _ _ Hc _ _ Hr') as (r & Hr & Hs).
    destruct Hs as (_ & _ & _ & _ & _ & _ & _ & _ & E & _). exists r. by rewrite <- E.
  - intros (r & Hr & Hf). destruct (cancels_row_back _ _ _ _ _ Hc Hr) as (r' & Hr' & Hs).
    destruct Hs as (_ & _ & _ & _ & _ & _ & _ & _ & E & _). exists r'. by rewrite E.
Qed.

Lemma cancels_generations ids m m' i j :
  cancels ids m m' → rtc (generation m) i j → rtc (generation m') i j.
Proof. intros Hc. induction 1; [done|]. eapply rtc_l; [|done]. by eapply cancels_generation. Qed.

Lemma owned_child_same p r r' : same_workflow r r' → owned_child p r' = owned_child p r.
Proof.
  intros (_ & _ & _ & _ & _ & E1 & _ & _ & _ & _ & E2 & _). unfold owned_child. by rewrite E1, E2.
Qed.

Lemma cancels_owned ids m m' p c : cancels ids m m' → owned m p c → owned m' p c.
Proof.
  intros Hc (r & Hr & Hp & Ho). destruct (cancels_row_back _ _ _ _ _ Hc Hr) as (r' & Hr' & Hs).
  exists r'. split_and!; [done| |by rewrite (owned_child_same p r r')].
  destruct Hs as (_ & _ & _ & _ & _ & _ & _ & _ & _ & E & _). by rewrite E.
Qed.

Lemma cancels_terminal ids m m' i : cancels ids m m' → terminal_in m i → terminal_in m' i.
Proof. intros Hc Hi. apply (ca_ids _ _ _ Hc). by left. Qed.

Lemma string_app_assoc s t u : s +:+ (t +:+ u) = (s +:+ t) +:+ u.
Proof. induction s as [|c s IH]; [done|]. change (String c (s +:+ (t +:+ u)) = String c ((s +:+ t) +:+ u)). by rewrite IH. Qed.

(** The read finds every owned child: the prefix test excludes none. *)
Lemma wp_owned_children Ψ e d p (Φ : list WorkflowId → Db → Prop) :
  shape d → (∀ children, (∀ c, owned (db_workflow d) p c → c ∈ children) → Φ children d) →
  wp Ψ (owned_children p) e d Φ.
Proof.
  intros Hsh HΦ. unfold owned_children. apply wp_bind, wp_select_workflows. intros rows Hrows.
  apply wp_ret, HΦ. intros c (r & Hr & Hp & Ho). rewrite <- (sh_workflow _ Hsh _ _ Hr).
  apply list_elem_of_fmap_2, list_elem_of_filter. split; [done|]. apply elem_of_sort_by, Hrows.
  split; [|eauto]. rewrite bool_decide_true by done. unfold owned_child in Ho.
  destruct (wf_parent_command_sequence r) as [command|]; [|done].
  apply bool_decide_eq_true in Ho as ->. unfold child_key. simpl.
  rewrite (string_app_assoc (fmt p) ":"). apply (starts_with_app ("child:" +:+ fmt p +:+ ":")).
Qed.

(** Every generation of every child [p] owns has ended. *)
Definition reached (m m' : gmap Z WorkflowRow) (p : WorkflowId) : Prop :=
  ∀ c j, owned m p c → rtc (generation m) c j → terminal_in m' j.

Lemma reached_before ids m1 m2 m3 p :
  cancels ids m1 m2 → reached m2 m3 p → reached m1 m3 p.
Proof.
  intros Hc Hr c j Ho Hg. apply (Hr c j); [by eapply cancels_owned|by eapply cancels_generations].
Qed.

Lemma reached_after ids m1 m2 m3 p :
  cancels ids m2 m3 → reached m1 m2 p → reached m1 m3 p.
Proof. intros Hc Hr c j Ho Hg. eapply cancels_terminal; eauto. Qed.

Section cascade.
Context `{Codec}.
Context (reason : string) (operator : option string) (now : DbMillis).

(** The optional cancellation of one generation. *)
Lemma wp_cancel_if_live e d g text (Φ : list WorkflowId → Db → Prop) :
  shape d → db_workflow d !! wf_id g = Some g →
  (∀ ids d', cancelling ids d d' → terminal_in (db_workflow d') (wf_id g) → Φ ids d') →
  wp not_fuel (if is_terminal (wf_status g) then tx_ret []
               else do! cancel_one_workflow g text operator now in tx_ret [wf_id g]) e d Φ.
Proof.
  intros Hsh Hg HΦ. destruct (is_terminal (wf_status g)) eqn:Et.
  - apply wp_ret, HΦ; [apply cancelling_refl|]. by exists g.
  - apply wp_bind, wp_fuel_free; [apply _|]. eapply wp_mono; [by apply wp_cancel_one|].
    intros [] d' [Hc Hrow]. intros i j. apply HΦ; [done|]. by eexists.
Qed.

Lemma wp_cancel_generations e d fuel g text (Φ : list WorkflowId → Db → Prop) :
  shape d → db_workflow d !! wf_id g = Some g →
  (rows_above (db_workflow d) (wf_id g) < fuel)%nat →
  (∀ ids d', cancelling ids d d' →
     (∀ j, rtc (generation (db_workflow d)) (wf_id g) j → terminal_in (db_workflow d') j) →
     Φ ids d') →
  wp not_fuel (cancel_generations fuel g text operator now) e d Φ.
Proof.
  revert d g Φ. induction fuel as [|fuel IH]; intros d g Φ Hsh Hg Hfuel HΦ; [lia|]. simpl.
  apply wp_bind, wp_cancel_if_live; [done|done|]. intros ids d1 C1 T1.
  pose proof (cg_workflows _ _ _ C1) as W1. pose proof (cancelling_shape _ _ _ C1 Hsh) as Hsh1.
  apply wp_bind. unfold lock_successor. apply wp_bind, wp_select_workflows. intros rows Hrows.
  apply wp_ret. destruct rows as [|g' rows]; simpl.
  - apply wp_ret, HΦ; [done|]. intros j [<-|(k & Hk & _)]%rtc_inv; [done|].
    apply (cancels_generation _ _ _ _ _ W1) in Hk as (r & Hr & Hf).
    destruct (not_elem_of_nil r). apply Hrows. rewrite bool_decide_true by done. eauto.
  - destruct (proj1 (Hrows g') (list_elem_of_here _ _)) as [Hf%bool_decide_eq_true [k Hk]].
    pose proof (sh_workflow _ Hsh1 _ _ Hk) as Hid. rewrite <- Hid in Hk.
    destruct (ca_rows _ _ _ W1 _ _ Hk) as (g0 & Hg0 & _).
    apply wp_bind, IH; [done|done| |].
    + pose proof (rows_above_dom (db_workflow d) (db_workflow d1) (wf_id g')) as Hle.
      specialize (Hle (λ i r' Hr', let '(ex_intro _ r (conj Hr _)) := ca_rows _ _ _ W1 i r' Hr' in
        ex_intro _ r Hr)).
      assert (wf_id g < wf_id g')%Z as Hlt by (by eapply (sh_newer _ Hsh1)).
      pose proof (rows_above_lt (db_workflow d) _ _ Hlt (ex_intro _ _ Hg0)). lia.
    + intros ids2 d2 C2 T2. apply wp_ret, HΦ; [by eapply cancelling_trans|].
      intros j [<-|(k' & Hk' & Hrest)]%rtc_inv.
      * eapply cancels_terminal; [apply C2|done].
      * assert (k' = wf_id g') as ->; [|by eapply T2, cancels_generations].
        apply (cancels_generation _ _ _ _ _ W1) in Hk' as (r & Hr & Hf').
        by eapply (sh_unique _ Hsh1).
Qed.

Lemma wp_cancel_children e d children text (Φ : list (WorkflowId * string) → Db → Prop) :
  shape d →
  (∀ pushed d', cancelling pushed.*1 d d' →
     (∀ c j, c ∈ children → rtc (generation (db_workflow d)) c j →
        terminal_in (db_workflow d') j) → Φ pushed d') →
  wp not_fuel (cancel_children children text operator now) e d Φ.
Proof.
  revert d Φ. induction children as [|c cs IH]; intros d Φ Hsh HΦ; simpl.
  { apply wp_ret, HΦ; [apply cancelling_refl|]. by intros c j ?%elem_of_nil. }
  apply wp_bind. unfold lock_workflow_by_id. apply wp_bind, wp_find_workflow; [intros _|intros g Hg _].
  { by apply wp_first_or_not_found. }
  pose proof (sh_workflow _ Hsh _ _ Hg) as Hid. rewrite <- Hid in Hg. apply wp_ret.
  apply wp_bind. unfold db_fuel. apply wp_bind, wp_get, wp_ret.
  apply wp_bind, wp_cancel_generations; [done|done| |].
  { unfold rows_above. pose proof (size_filter_le (db_workflow d)
      (λ p : Z * WorkflowRow, (wf_id g < p.1)%Z)). lia. }
  intros ids d1 C1 T1. pose proof (cg_workflows _ _ _ C1) as W1.
  apply wp_bind, IH; [by eapply cancelling_shape|]. intros pushed d2 C2 T2. apply wp_ret, HΦ.
  - rewrite fmap_app, <- list_fmap_compose, list_fmap_id. by eapply cancelling_trans.
  - intros c' j [->|Hc]%elem_of_cons Hgen.
    + eapply cancels_terminal; [apply C2|]. apply T1. by rewrite Hid.
    + apply (T2 c'); [done|]. by eapply cancels_generations.
Qed.

(** The work list: all the parents on it, and all the workflows it cancels,
    have their children ended. *)
Lemma wp_cancel_worklist e d fuel parents (Φ : unit → Db → Prop) :
  shape d → (length parents + live_rows (db_workflow d) ≤ fuel)%nat →
  (∀ ids d', cancelling ids d d' →
     (∀ p, p ∈ parents.*1 ∨ p ∈ ids → reached (db_workflow d) (db_workflow d') p) → Φ tt d') →
  wp not_fuel (cancel_worklist fuel parents operator now) e d Φ.
Proof.
  revert d parents Φ. induction fuel as [|fuel IH]; intros d [|[p why] parents] Φ Hsh Hfuel HΦ;
    simpl in *; try lia;
    try (apply wp_ret, (HΦ []); [apply cancelling_refl|by intros q [?%elem_of_nil|?%elem_of_nil]]).
  apply wp_bind, wp_owned_children; [done|]. intros children Hall.
  apply wp_bind, wp_cancel_children; [done|]. intros pushed d1 C1 T1.
  pose proof (cg_workflows _ _ _ C1) as W1. apply IH; [by eapply cancelling_shape| |].
  { rewrite length_app, length_reverse. pose proof (ca_live _ _ _ W1) as Hl.
    rewrite length_fmap in Hl. lia. }
  intros ids d2 C2 R2. pose proof (cg_workflows _ _ _ C2) as W2.
  apply (HΦ (pushed.*1 ++ ids)); [by eapply cancelling_trans|].
  assert (∀ q, q ∈ pushed.*1 ∨ q ∈ parents.*1 ∨ q ∈ ids →
    reached (db_workflow d) (db_workflow d2) q) as Hrest.
  { intros q Hq. eapply reached_before; [done|]. apply R2.
    rewrite fmap_app, elem_of_app, fmap_reverse, elem_of_reverse. tauto. }
  intros q. rewrite elem_of_cons, elem_of_app. intros [[->|Hq]|[Hq|Hq]]; auto.
  eapply reached_after; [done|]. intros c j Ho Hgen. apply (T1 c); auto.
Qed.
End cascade.

(** * The transaction *)

(** From [d] to [d'] the workflow [id] was cancelled, with its work and the
    children it owns, and theirs. *)
Definition cancelled_with_children (id : WorkflowId) (d d' : Db) : Prop :=
  ∃ ids, id ∈ ids ∧ cancelling ids d d'
    ∧ ∀ p, p ∈ ids → reached (db_workflow d) (db_workflow d') p.

Section cancel.
Context `{Codec}.

Lemma wp_cancel_locked e d workflow reason operator now :
  shape d → db_workflow d !! wf_id workflow = Some workflow →
  is_terminal (wf_status workflow) = false →
  wp not_fuel (cancel_locked_workflow workflow reason operator now) e d (λ _ d',
    db_workflow d' !! wf_id workflow = Some (cancelled_row now workflow)
    ∧ cancelled_with_children (wf_id workflow) d d').
Proof.
  intros Hsh Hw Hl. unfold cancel_locked_workflow.
  apply wp_bind, wp_fuel_free; [apply _|]. eapply wp_mono; [by apply wp_cancel_one|].
  intros [] d1 [C1 Hrow]. pose proof (cg_workflows _ _ _ C1) as W1.
  unfold cancel_owned_descendants, db_fuel. apply wp_bind, wp_bind, wp_get, wp_ret.
  apply wp_cancel_worklist; [by eapply cancelling_shape| |].
  { simpl. pose proof (size_filter_le (db_workflow d1) (λ p : Z * WorkflowRow,
      is_terminal (wf_status p.2) = false)). unfold live_rows. lia. }
  intros ids d2 C2 R2. split.
  { by apply (ca_final _ _ _ (cg_workflows _ _ _ C2)). }
  exists (wf_id workflow :: ids). split; [by left|].
  split; [by apply (cancelling_trans [_] ids d d1 d2)|].
  intros p Hp. eapply reached_before; [done|]. apply R2. simpl.
  apply elem_of_cons in Hp as [->|Hp]; [left; by left|by right].
Qed.

(** C22: S25, G11. A cancellation ends, and is complete. When it commits on a
    live workflow, that workflow is cancelled without a lease or a wait, and
    for it and for every other workflow the transaction ended: none of its
    activities is pending or running any more, none of its approvals is
    pending, and every generation of every child the engine keyed for one of
    its commands has ended. What had ended before did not change, and on a
    workflow that had ended nothing changes. When it fails, nothing changes,
    and never because a loop did not end. *)
Theorem cancellation_is_complete id reason (e : Env) (d : Db) :
  db_ok d →
  match transaction e (cancel_with_conn id reason) d with
  | (Ok _, d') => ∃ r, db_workflow d !! id = Some r
      ∧ if is_terminal (wf_status r) then d' = d
        else (∃ r', db_workflow d' !! id = Some r' ∧ wf_status r' = WfCancelled
                ∧ wf_unleased r' ∧ no_wait r')
             ∧ cancelled_with_children id d d'
  | (Err err, d') => d' = d ∧ not_fuel err
  end.
Proof.
  intros Hok.
  assert (wp not_fuel (cancel_with_conn id reason) e d (λ _ d', ∃ r, db_workflow d !! id = Some r
    ∧ if is_terminal (wf_status r) then d' = d
      else (∃ r', db_workflow d' !! id = Some r' ∧ wf_status r' = WfCancelled
              ∧ wf_unleased r' ∧ no_wait r')
           ∧ cancelled_with_children id d d')) as Hwp.
  { unfold cancel_with_conn. cbv zeta. destruct (_ || _); [by apply wp_fail|].
    apply wp_bind, wp_find_workflow; [intros _; by apply wp_bind, wp_fail|].
    intros r Hr _. apply wp_bind, wp_ret. destruct (is_terminal (wf_status r)) eqn:Et.
    { apply wp_ret. exists r. by rewrite Et. }
    apply wp_bind, wp_now. intros i. destruct (ok_workflow _ Hok _ _ Hr) as [Hid _].
    rewrite <- Hid in Hr. eapply wp_mono; [by apply wp_cancel_locked; [apply db_ok_shape| |]|].
    intros [] d' [Hrow Hc]. rewrite Hid in *. exists r. rewrite Et. split; [done|].
    split; [|done]. eexists. split; [done|]. columns. }
  pose proof (wp_transaction _ _ _ _ _ Hwp) as Ht.
  destruct (transaction e (cancel_with_conn id reason) d) as [[]]; naive_solver.
Qed.
End cancel.

(** * The theorem on the scenario *)

(** The order is cancelled while its charge runs. *)
Lemma cancellation_is_complete_witness :
  ∃ d', transaction (env_at 5500 "c") (cancel_with_conn 1 "customer left") charge_claimed
        = (Ok tt, d')
    ∧ ∃ r, db_workflow charge_claimed !! 1%Z = Some r
      ∧ if is_terminal (wf_status r) then d' = charge_claimed
        else (∃ r', db_workflow d' !! 1%Z = Some r' ∧ wf_status r' = WfCancelled
                ∧ wf_unleased r' ∧ no_wait r')
             ∧ cancelled_with_children 1 charge_claimed d'.
Proof.
  assert (transaction (env_at 5500 "c") (cancel_with_conn 1 "customer left") charge_claimed
    = (Ok tt, run 5500 "c" (cancel_with_conn 1 "customer left") charge_claimed)) as Ht
    by (vm_compute; reflexivity).
  pose proof (cancellation_is_complete 1 "customer left" (env_at 5500 "c") charge_claimed
    (reachable_ok _ charge_claimed_reachable)) as Hc.
  rewrite Ht in Hc. eexists. split; [exact Ht|exact Hc].
Defined.
