(* ===== verification/Links.v ===== *)
(** How the rows of the tables hold on to each other ([docs/INVARIANTS.md],
    S7, S11, S15, S21, S24): a workflow that waits refers to a row that can
    still answer, a live activity or approval is the one its workflow waits
    on, and a lease has its one open attempt. This file states the invariants
    on the tables and how they change with one workflow; the transactions are
    in [LinkSteps]. *)
From stdpp Require Import base gmap list strings.
From Stdlib Require Import ZArith Lia.
From S2P Require Import Prelude.
From S2P Require Import Errors.
From S2P Require Import Status.
From S2P Require Import Rows.
From S2P Require Import Database.

(** * Workflows and what they wait on *)

(** The statuses a workflow and the activity it waits on may have together:
    a claimable or leased activity while waiting, a parked one while paused,
    a dead-lettered one while blocked. *)
Definition activity_wait_ok (s : WorkflowStatus) (t : ActivityStatus) : bool :=
  match s, t with
  | WfWaitingActivity, (ActPending | ActRunning | ActCancelling) => true
  | WfPaused, (ActPending | ActCancelling | ActDeadLettered) => true
  | WfBlocked, ActDeadLettered => true
  | _, _ => false
  end.

(** A status that waits on nothing. *)
Definition no_wait_ok (s : WorkflowStatus) : bool :=
  match s with WfReady | WfRunning | WfPaused => true | _ => false end.

Definition timer_wait_ok (s : WorkflowStatus) : bool :=
  match s with WfSleeping | WfPaused => true | _ => false end.

Section tables.
Context (x : option WorkflowId).
Context (W : gmap Z WorkflowRow) (A : gmap Z ActivityRow) (P : gmap Z ApprovalRow).

(** The wait of a live workflow can still be answered: its timer is its
    current command, its activity is its own and in a matching status, its
    approval is its own and pending under the current command, its child is
    not terminal. While the parents of a
    workflow [x] that just ended are woken, [x] is excepted. *)
Definition wait_live (r : WorkflowRow) : Prop :=
  match wf_wait_kind r, wf_wait_reference_id r with
  | None, None => no_wait_ok (wf_status r) = true
  | Some KindTimer, Some n =>
      timer_wait_ok (wf_status r) = true ∧ n = wf_command_sequence r ∧ u32_try_from n = Some n
  | Some KindActivity, Some a =>
      ∃ ac, A !! a = Some ac ∧ ac_workflow_id ac = wf_id r
        ∧ activity_wait_ok (wf_status r) (ac_status ac) = true
  | Some KindApproval, Some p =>
      awaits_approval (wf_status r) = true
      ∧ ∃ ap, P !! p = Some ap ∧ ap_workflow_id ap = wf_id r ∧ ap_status ap = ApprPending
          ∧ ap_command_sequence ap = wf_command_sequence r
  | Some KindChild, Some c =>
      awaits_child (wf_status r) = true
      ∧ ∃ child, W !! c = Some child ∧ (is_terminal (wf_status child) = false ∨ x = Some c)
  | _, _ => False
  end.

Definition workflow_linked (w : WorkflowId) (r : WorkflowRow) : Prop :=
  wf_id r = w ∧ (is_terminal (wf_status r) = false → wait_live r).

(** An activity that is not terminal is the one its workflow waits on, or is
    a revoked attempt of a workflow that ended. *)
Definition activity_linked (a : ActivityId) (ac : ActivityRow) : Prop :=
  ac_id ac = a
  ∧ (is_non_terminal (ac_status ac) = true →
     ∃ r, W !! ac_workflow_id ac = Some r
       ∧ if is_terminal (wf_status r) then ac_status ac = ActCancelling
         else wf_wait_kind r = Some KindActivity ∧ wf_wait_reference_id r = Some a).

(** A pending approval is the one its live workflow waits on. *)
Definition approval_linked (p : ApprovalId) (ap : ApprovalRow) : Prop :=
  ap_id ap = p
  ∧ (ap_status ap = ApprPending →
     ∃ r, W !! ap_workflow_id ap = Some r ∧ is_terminal (wf_status r) = false
       ∧ wf_wait_kind r = Some KindApproval ∧ wf_wait_reference_id r = Some p).

Record linked : Prop := {
  lk_workflow : ∀ w r, W !! w = Some r → workflow_linked w r;
  lk_activity : ∀ a ac, A !! a = Some ac → activity_linked a ac;
  lk_approval : ∀ p ap, P !! p = Some ap → approval_linked p ap;
}.
End tables.

(** Every child that may be waited on stays so. *)
Definition children_stay (x x' : option WorkflowId) (W W' : gmap Z WorkflowRow) : Prop :=
  ∀ c child, W !! c = Some child → is_terminal (wf_status child) = false ∨ x = Some c →
    ∃ child', W' !! c = Some child' ∧ (is_terminal (wf_status child') = false ∨ x' = Some c).

Lemma children_stay_refl x W : children_stay x x W W.
Proof. intros c child Hc Hl. eauto. Qed.

Lemma children_stay_insert x x' W w r' :
  (x = None ∨ x = x') → is_terminal (wf_status r') = false ∨ x' = Some w →
  children_stay x x' W (<[w := r']> W).
Proof.
  intros Hx Hr' c child Hc Hl. destruct (decide (w = c)) as [<-|].
  - rewrite lookup_insert_eq. eauto.
  - rewrite lookup_insert_ne by done. exists child. naive_solver.
Qed.

(** A change of one workflow, of its activities and of its approvals. *)
Lemma linked_move x x' w W W' A A' P P' :
  linked x W A P → children_stay x x' W W' →
  (∀ i, i ≠ w → W' !! i = W !! i) →
  (∀ a ac, ac_workflow_id ac ≠ w → A' !! a = Some ac ↔ A !! a = Some ac) →
  (∀ p ap, ap_workflow_id ap ≠ w → P' !! p = Some ap ↔ P !! p = Some ap) →
  (∀ r, W' !! w = Some r → workflow_linked x' W' A' P' w r) →
  (∀ a ac, A' !! a = Some ac → ac_workflow_id ac = w → activity_linked W' a ac) →
  (∀ p ap, P' !! p = Some ap → ap_workflow_id ap = w → approval_linked W' p ap) →
  linked x' W' A' P'.
Proof.
  intros [HW HA HP] Hch EW EA EP Hw Ha Hp. split.
  - intros i r Hr. destruct (decide (i = w)) as [->|Hne]; [auto|]. rewrite EW in Hr by done.
    destruct (HW i r Hr) as [Hid Hlive]. split; [done|]. intros Ht. specialize (Hlive Ht).
    unfold wait_live in *. destruct (wf_wait_kind r) as [[]|], (wf_wait_reference_id r); try done.
    + destruct Hlive as (ac & Hac & Ho & Hs). exists ac. split; [|done]. apply EA; [congruence|done].
    + destruct Hlive as (Hs & child & Hc & Hl). split; [done|]. by eapply Hch.
    + destruct Hlive as (Hs & ap & Hap & Ho & Hq). split; [done|]. exists ap. split; [|done].
      apply EP; [congruence|done].
  - intros a ac Hac. destruct (decide (ac_workflow_id ac = w)) as [|Hne]; [auto|].
    apply EA in Hac; [|done]. destruct (HA a ac Hac) as [Hid Hl]. split; [done|]. by rewrite EW.
  - intros p ap Hap. destruct (decide (ap_workflow_id ap = w)) as [|Hne]; [auto|].
    apply EP in Hap; [|done]. destruct (HP p ap Hap) as [Hid Hl]. split; [done|]. by rewrite EW.
Qed.

(** The live activity and the pending approval of a live workflow. *)
Lemma live_activity_awaited x W A P w r a ac :
  linked x W A P → W !! w = Some r → is_terminal (wf_status r) = false →
  A !! a = Some ac → ac_workflow_id ac = w → is_non_terminal (ac_status ac) = true →
  wf_wait_kind r = Some KindActivity ∧ wf_wait_reference_id r = Some a.
Proof.
  intros [_ HA _] Hr Ht Hac <- Hn. destruct (HA a ac Hac) as [_ Hl].
  destruct (Hl Hn) as (r' & Hr' & Hw). simplify_eq. by rewrite Ht in Hw.
Qed.

Lemma pending_approval_awaited x W A P w r p ap :
  linked x W A P → W !! w = Some r → P !! p = Some ap → ap_workflow_id ap = w →
  ap_status ap = ApprPending →
  is_terminal (wf_status r) = false ∧ wf_wait_kind r = Some KindApproval
  ∧ wf_wait_reference_id r = Some p.
Proof.
  intros [_ _ HP] Hr Hap <- Hn. destruct (HP p ap Hap) as [_ Hl].
  destruct (Hl Hn) as (r' & Hr' & Hw). by simplify_eq.
Qed.

(** What a workflow waits on. *)
Definition waits_on (k : WaitKind) (n : Z) (r : WorkflowRow) : Prop :=
  wf_wait_kind r = Some k ∧ wf_wait_reference_id r = Some n.

Definition same_waits (r r' : WorkflowRow) : Prop :=
  wf_wait_kind r' = wf_wait_kind r ∧ wf_wait_reference_id r' = wf_wait_reference_id r.

(** * Updates of one live workflow *)

(** The row alone changes: its wait stays, or it waited on no row of its own. *)
Lemma linked_workflow x x' W A P w r r' :
  linked x W A P → W !! w = Some r → is_terminal (wf_status r) = false → wf_id r' = w →
  (x = None ∨ x = x') → is_terminal (wf_status r') = false ∨ x' = Some w →
  (is_terminal (wf_status r') = false → wait_live x' (<[w := r']> W) A P r') →
  (is_terminal (wf_status r') = false ∧ same_waits r r')
    ∨ (wf_wait_kind r ≠ Some KindActivity ∧ wf_wait_kind r ≠ Some KindApproval) →
  linked x' (<[w := r']> W) A P.
Proof.
  intros HL Hr Ht Hid Hx Hend Hlive Hwait.
  eapply (linked_move x x' w); [exact HL|by apply children_stay_insert|..]; try done.
  - intros i Hi. by rewrite lookup_insert_ne.
  - intros r0. rewrite lookup_insert_eq. intros [= <-]. by split.
  - intros a ac Hac Ho. split; [by apply (lk_activity _ _ _ _ HL)|]. intros Hn.
    destruct (live_activity_awaited _ _ _ _ _ _ _ _ HL Hr Ht Hac Ho Hn) as [E1 E2].
    exists r'. rewrite Ho, lookup_insert_eq. split; [done|].
    destruct Hwait as [[-> [-> ->]]|[? _]]; [by split|congruence].
  - intros p ap Hap Ho. split; [by apply (lk_approval _ _ _ _ HL)|]. intros Hn.
    destruct (pending_approval_awaited _ _ _ _ _ _ _ _ HL Hr Hap Ho Hn) as (_ & E1 & E2).
    exists r'. rewrite Ho, lookup_insert_eq. split; [done|].
    destruct Hwait as [[-> [-> ->]]|[_ ?]]; [by split|congruence].
Qed.

(** A new workflow. *)
Lemma linked_new_workflow x W A P w r :
  linked x W A P → W !! w = None → wf_id r = w → is_terminal (wf_status r) = false →
  wf_wait_kind r = None → wf_wait_reference_id r = None → no_wait_ok (wf_status r) = true →
  linked x (<[w := r]> W) A P.
Proof.
  intros HL Hnone Hid Ht Ek Er Hs. pose proof HL as [_ HA HP].
  eapply (linked_move x x w); [exact HL| |..]; try done.
  - apply children_stay_insert; auto.
  - intros i Hi. by rewrite lookup_insert_ne.
  - intros r0. rewrite lookup_insert_eq. intros [= <-]. split; [done|]. intros _.
    unfold wait_live. by rewrite Ek, Er.
  - intros a ac Hac Ho. destruct (HA a ac Hac) as [Hac' Hl]. split; [done|]. intros Hn.
    destruct (Hl Hn) as (? & ? & _). congruence.
  - intros p ap Hap Ho. destruct (HP p ap Hap) as [Hap' Hl]. split; [done|]. intros Hn.
    destruct (Hl Hn) as (? & ? & _). congruence.
Qed.

Lemma insert_owned {R} (owner : R → Z) (m : gmap Z R) k v w :
  owner v = w → (∀ u, m !! k = Some u → owner u = w) →
  ∀ i u, owner u ≠ w → <[k := v]> m !! i = Some u ↔ m !! i = Some u.
Proof.
  intros Hv Hold i u Hu. destruct (decide (k = i)) as [<-|].
  - rewrite lookup_insert_eq. split; [congruence|]. intros Hk. by destruct (Hu (Hold _ Hk)).
  - by rewrite lookup_insert_ne.
Qed.

(** An activity of the workflow and its row: the row waited on this activity,
    on one that is settled, or on none. *)
Lemma linked_activity x W A P w r r' a ac' :
  linked x W A P → W !! w = Some r → is_terminal (wf_status r) = false →
  (∀ b bc, waits_on KindActivity b r → A !! b = Some bc → is_non_terminal (ac_status bc) = true →
     b = a) → wf_wait_kind r ≠ Some KindApproval →
  wf_id r' = w → is_terminal (wf_status r') = false →
  ac_workflow_id ac' = w → ac_id ac' = a → (∀ ac, A !! a = Some ac → ac_workflow_id ac = w) →
  (is_non_terminal (ac_status ac') = true → waits_on KindActivity a r') →
  wait_live x (<[w := r']> W) (<[a := ac']> A) P r' →
  linked x (<[w := r']> W) (<[a := ac']> A) P.
Proof.
  intros HL Hr Ht Hone Hnap Hid Ht' Ho Hac' Hold Hn' Hlive.
  eapply (linked_move x x w); [exact HL|apply children_stay_insert; auto|..]; try done.
  - intros i Hi. by rewrite lookup_insert_ne.
  - by apply insert_owned.
  - intros r0. rewrite lookup_insert_eq. intros [= <-]. by split.
  - intros b bc [[<- <-]|[Hne Hb]]%lookup_insert_Some Hbo.
    + split; [done|]. intros Hn. exists r'. rewrite Hbo, lookup_insert_eq. split; [done|].
      rewrite Ht'. by apply Hn'.
    + split; [by apply (lk_activity _ _ _ _ HL)|]. intros Hn. exfalso. apply Hne. symmetry.
      eapply Hone; [|done|done]. by eapply live_activity_awaited.
  - intros p ap Hap Hpo. split; [by apply (lk_approval _ _ _ _ HL)|]. intros Hn.
    by destruct (pending_approval_awaited _ _ _ _ _ _ _ _ HL Hr Hap Hpo Hn) as (_ & ? & _).
Qed.

(** An approval of the workflow and its row. *)
Lemma linked_approval x W A P w r r' p ap' :
  linked x W A P → W !! w = Some r → is_terminal (wf_status r) = false →
  (∀ q, waits_on KindApproval q r → q = p) → wf_wait_kind r ≠ Some KindActivity →
  wf_id r' = w → is_terminal (wf_status r') = false →
  ap_workflow_id ap' = w → ap_id ap' = p → (∀ ap, P !! p = Some ap → ap_workflow_id ap = w) →
  (ap_status ap' = ApprPending → waits_on KindApproval p r') →
  wait_live x (<[w := r']> W) A (<[p := ap']> P) r' →
  linked x (<[w := r']> W) A (<[p := ap']> P).
Proof.
  intros HL Hr Ht Hone Hnac Hid Ht' Ho Hap' Hold Hn' Hlive.
  eapply (linked_move x x w); [exact HL|apply children_stay_insert; auto|..]; try done.
  - intros i Hi. by rewrite lookup_insert_ne.
  - by apply insert_owned.
  - intros r0. rewrite lookup_insert_eq. intros [= <-]. by split.
  - intros a ac Hac Hao. split; [by apply (lk_activity _ _ _ _ HL)|]. intros Hn.
    by destruct (live_activity_awaited _ _ _ _ _ _ _ _ HL Hr Ht Hac Hao Hn).
  - intros q aq [[<- <-]|[Hne Hq]]%lookup_insert_Some Hqo.
    + split; [done|]. intros Hn. exists r'. rewrite Hqo, lookup_insert_eq. split; [done|].
      split; [done|]. by apply Hn'.
    + split; [by apply (lk_approval _ _ _ _ HL)|]. intros Hn. exfalso. apply Hne. symmetry.
      apply Hone. by destruct (pending_approval_awaited _ _ _ _ _ _ _ _ HL Hr Hq Hqo Hn).
Qed.

(** The end of a workflow with its work: its parents are woken after it. *)
Lemma linked_ended W A A' P P' w r' :
  linked None W A P → wf_id r' = w → is_terminal (wf_status r') = true →
  (∀ a ac, ac_workflow_id ac ≠ w → A' !! a = Some ac ↔ A !! a = Some ac) →
  (∀ p ap, ap_workflow_id ap ≠ w → P' !! p = Some ap ↔ P !! p = Some ap) →
  (∀ a ac, A' !! a = Some ac → ac_workflow_id ac = w →
     ac_id ac = a ∧ (is_non_terminal (ac_status ac) = true → ac_status ac = ActCancelling)) →
  (∀ p ap, P' !! p = Some ap → ap_workflow_id ap = w →
     ap_id ap = p ∧ ap_status ap ≠ ApprPending) →
  linked (Some w) (<[w := r']> W) A' P'.
Proof.
  intros HL Hid Ht EA EP Ha Hp.
  eapply (linked_move None (Some w) w); [exact HL|apply children_stay_insert; auto|..]; try done.
  - intros i Hi. by rewrite lookup_insert_ne.
  - intros r0. rewrite lookup_insert_eq. intros [= <-]. split; [done|]. congruence.
  - intros a ac Hac Ho. destruct (Ha a ac Hac Ho) as [? Hc]. split; [done|]. intros Hn.
    exists r'. rewrite Ho, lookup_insert_eq, Ht. auto.
  - intros p ap Hap Ho. destruct (Hp p ap Hap Ho) as [? Hc]. by split.
Qed.

(** The exception ends when no workflow waits on [c]. *)
Lemma linked_close c W A P :
  linked (Some c) W A P →
  (∀ w r, W !! w = Some r → is_terminal (wf_status r) = false → ¬ waits_on KindChild c r) →
  linked None W A P.
Proof.
  intros [HW HA HP] Hno. split; [|done..]. intros w r Hr. destruct (HW w r Hr) as [Hid Hl].
  split; [done|]. intros Ht. specialize (Hl Ht). specialize (Hno w r Hr Ht).
  unfold wait_live, waits_on in *.
  destruct (wf_wait_kind r) as [[]|], (wf_wait_reference_id r) as [n|]; try done.
  destruct Hl as (Hs & child & Hc & Hlive). split; [done|]. exists child. split; [done|].
  destruct Hlive as [|[= ->]]; [by left|]. by destruct Hno.
Qed.

(** An exception more is no harm. *)
Lemma linked_weaken x W A P : linked None W A P → linked x W A P.
Proof.
  intros [HW HA HP]. split; [|done..]. intros w r Hr. destruct (HW w r Hr) as [Hid Hl].
  split; [done|]. intros Ht. specialize (Hl Ht). unfold wait_live in *.
  destruct (wf_wait_kind r) as [[]|], (wf_wait_reference_id r) as [n|]; naive_solver.
Qed.

(** * Updates of one activity *)

Lemma awaited_status x W A P a ac r :
  linked x W A P → A !! a = Some ac → is_non_terminal (ac_status ac) = true →
  W !! ac_workflow_id ac = Some r → is_terminal (wf_status r) = false →
  waits_on KindActivity a r ∧ activity_wait_ok (wf_status r) (ac_status ac) = true.
Proof.
  intros HL Hac Hn Hr Ht.
  destruct (live_activity_awaited _ _ _ _ _ _ _ _ HL Hr Ht Hac eq_refl Hn) as [E1 E2].
  split; [done|]. destruct (lk_workflow _ _ _ _ HL _ _ Hr) as [_ Hl]. specialize (Hl Ht).
  unfold wait_live in Hl. rewrite E1, E2 in Hl. destruct Hl as (ac' & Hac' & _ & Hs). by simplify_eq.
Qed.

(** A live activity takes a status that fits its workflow. *)
Lemma linked_activity_only x W A P a ac ac' :
  linked x W A P → A !! a = Some ac → is_non_terminal (ac_status ac) = true →
  ac_id ac' = ac_id ac → ac_workflow_id ac' = ac_workflow_id ac →
  (∀ r, W !! ac_workflow_id ac = Some r →
     if is_terminal (wf_status r)
     then is_non_terminal (ac_status ac') = true → ac_status ac' = ActCancelling
     else activity_wait_ok (wf_status r) (ac_status ac') = true) →
  linked x W (<[a := ac']> A) P.
Proof.
  intros HL Hac Hn Hid Ho Hst. pose proof (lk_activity _ _ _ _ HL _ _ Hac) as [Haid Hl].
  destruct (Hl Hn) as (r & Hr & _). specialize (Hst r Hr).
  destruct (is_terminal (wf_status r)) eqn:Ht.
  - eapply (linked_move x x (ac_workflow_id ac)); [exact HL|apply children_stay_refl|..]; try done.
    + apply insert_owned; [done|]. intros ?. by rewrite Hac; intros [= <-].
    + intros r0 Hr0. destruct (lk_workflow _ _ _ _ HL _ _ Hr0) as [? _]. split; [done|].
      intros. congruence.
    + intros b bc [[<- <-]|[Hne Hb]]%lookup_insert_Some Hbo; [|by apply (lk_activity _ _ _ _ HL)].
      split; [congruence|]. intros Hn'. exists r. rewrite Hbo, Ht. auto.
    + intros p ap Hap _. by apply (lk_approval _ _ _ _ HL).
  - destruct (awaited_status _ _ _ _ _ _ _ HL Hac Hn Hr Ht) as [[E1 E2] _].
    rewrite <- (insert_id W (ac_workflow_id ac) r Hr).
    assert (wf_id r = ac_workflow_id ac) as Hwid by apply (lk_workflow _ _ _ _ HL _ _ Hr).
    apply (linked_activity _ _ _ _ _ r); try done; try congruence.
    + intros b bc [_ E] _ _. congruence.
    + unfold wait_live. rewrite E1, E2. exists ac'. rewrite lookup_insert_eq.
      split_and!; [done|congruence|done].
Qed.

(** A row with another status, lease or text, of a workflow that is not
    concerned. *)
Lemma linked_same_activity x W A P a ac ac' :
  linked x W A P → A !! a = Some ac → is_non_terminal (ac_status ac) = true →
  ac_id ac' = ac_id ac → ac_workflow_id ac' = ac_workflow_id ac → ac_status ac' = ac_status ac →
  linked x W (<[a := ac']> A) P.
Proof.
  intros HL Hac Hn Hid Ho Hs. eapply linked_activity_only; try done. intros r Hr. rewrite Hs.
  destruct (is_terminal (wf_status r)) eqn:Ht.
  - intros _. destruct (lk_activity _ _ _ _ HL _ _ Hac) as [_ Hl].
    destruct (Hl Hn) as (r' & Hr' & Hc). simplify_eq. by rewrite Ht in Hc.
  - by destruct (awaited_status _ _ _ _ _ _ _ HL Hac Hn Hr Ht).
Qed.

(** A running activity is awaited by a workflow in [waiting_activity]. *)
Lemma running_awaited x W A P a ac :
  linked x W A P → A !! a = Some ac → ac_status ac = ActRunning →
  ∃ r, W !! ac_workflow_id ac = Some r ∧ wf_status r = WfWaitingActivity ∧ waits_on KindActivity a r.
Proof.
  intros HL Hac Hs. assert (is_non_terminal (ac_status ac) = true) as Hn by (by rewrite Hs).
  destruct (lk_activity _ _ _ _ HL _ _ Hac) as [_ Hl]. destruct (Hl Hn) as (r & Hr & Hc).
  exists r. split; [done|]. destruct (is_terminal (wf_status r)) eqn:Et; [congruence|].
  destruct (awaited_status _ _ _ _ _ _ _ HL Hac Hn Hr Et) as [Hw Hok].
  split; [|done]. rewrite Hs in Hok. by destruct (wf_status r).
Qed.

(** It goes back to the queue, or is revoked. *)
Lemma linked_running_moves x W A P a ac ac' :
  linked x W A P → A !! a = Some ac → ac_status ac = ActRunning →
  ac_id ac' = ac_id ac → ac_workflow_id ac' = ac_workflow_id ac →
  activity_wait_ok WfWaitingActivity (ac_status ac') = true →
  linked x W (<[a := ac']> A) P.
Proof.
  intros HL Hac Hs Hid Ho Hok. eapply linked_activity_only; [exact HL|exact Hac|by rewrite Hs|done..|].
  intros r Hr. destruct (running_awaited _ _ _ _ _ _ HL Hac Hs) as (r' & Hr' & Hs' & _).
  simplify_eq. by rewrite Hs'.
Qed.

(** * Leases and attempts *)

Section attempts.
Context (T : gmap (ActivityId * Z) ActivityAttemptRow).

(** The attempts of an activity are numbered from one to its count; the one
    that is open, if any, is the last, under the token of the lease; and a
    lease has it. *)
Record attempts_linked (a : ActivityId) (ac : ActivityRow) : Prop := {
  al_numbers : ∀ n, is_Some (T !! (a, n)) ↔ (1 ≤ n ≤ ac_attempt_count ac)%Z;
  al_open : ∀ n t, T !! (a, n) = Some t → att_finished_at t = None →
    holds_lease (ac_status ac) = true ∧ n = ac_attempt_count ac
    ∧ ac_lease_token ac = Some (att_lease_token t);
  al_leased : holds_lease (ac_status ac) = true →
    ∃ t, T !! (a, ac_attempt_count ac) = Some t ∧ att_finished_at t = None
      ∧ ac_lease_token ac = Some (att_lease_token t);
}.

Definition attempts_ok (A : gmap Z ActivityRow) : Prop :=
  (∀ a n, is_Some (T !! (a, n)) → is_Some (A !! a))
  ∧ ∀ a ac, A !! a = Some ac → attempts_linked a ac.
End attempts.

(** The same lease and count. *)
Definition lease_same (ac ac' : ActivityRow) : Prop :=
  ac_attempt_count ac' = ac_attempt_count ac
  ∧ holds_lease (ac_status ac') = holds_lease (ac_status ac)
  ∧ (holds_lease (ac_status ac) = true → ac_lease_token ac' = ac_lease_token ac).

Lemma lease_same_refl ac : lease_same ac ac.
Proof. by split_and!. Qed.

Lemma lease_same_trans a b c : lease_same a b → lease_same b c → lease_same a c.
Proof. intros (E1 & E2 & E3) (F1 & F2 & F3). split_and!; [congruence|congruence|]. intros H.
  rewrite F3 by congruence. auto. Qed.

Lemma attempts_linked_same T a ac ac' :
  lease_same ac ac' → attempts_linked T a ac → attempts_linked T a ac'.
Proof.
  intros (E1 & E2 & E3) [Hn Ho Hl]. split; rewrite E1.
  - done.
  - intros n t Ht Hf. destruct (Ho n t Ht Hf) as (Hh & -> & Htok). rewrite E2, E3; done.
  - rewrite E2. intros Hh. rewrite E3 by done. auto.
Qed.

(** A change of one activity and its attempts. *)
Lemma attempts_move T T' A a ac' :
  attempts_ok T A → (∀ b n, b ≠ a → T' !! (b, n) = T !! (b, n)) →
  attempts_linked T' a ac' → attempts_ok T' (<[a := ac']> A).
Proof.
  intros [He Hl] ET Ha. split.
  - intros b n Hb. rewrite lookup_insert_is_Some'. destruct (decide (a = b)) as [|]; [by left|].
    right. rewrite ET in Hb by done. eauto.
  - intros b bc [[<- <-]|[Hne Hb]]%lookup_insert_Some; [done|].
    destruct (Hl b bc Hb) as [Hn Ho Hle]. split.
    + intros n. by rewrite ET.
    + intros n t. rewrite ET by done. eauto.
    + intros Hh. destruct (Hle Hh) as (t & Ht & ?). exists t. by rewrite ET.
Qed.

Lemma attempts_same T A a ac ac' :
  attempts_ok T A → A !! a = Some ac → lease_same ac ac' → attempts_ok T (<[a := ac']> A).
Proof.
  intros HT Hac Hs. apply (attempts_move T); [done|done|].
  eapply attempts_linked_same; [done|]. by apply HT.
Qed.

Lemma attempts_fmap T A (p : ActivityRow → bool) f :
  attempts_ok T A → (∀ ac, p ac = true → lease_same ac (f ac)) →
  attempts_ok T ((λ ac, if p ac then f ac else ac) <$> A).
Proof.
  intros [He Hl] Hf. split.
  - intros a n Hn. rewrite lookup_fmap, fmap_is_Some. eauto.
  - intros a ac'. rewrite lookup_fmap, fmap_Some. intros (ac & Hac & ->).
    eapply attempts_linked_same; [|by apply Hl]. destruct (p ac) eqn:E; [auto|apply lease_same_refl].
Qed.

Lemma attempts_new T A a ac :
  attempts_ok T A → A !! a = None → ac_attempt_count ac = 0%Z →
  holds_lease (ac_status ac) = false → attempts_ok T (<[a := ac]> A).
Proof.
  intros HT Hnone Hc Hh. assert (∀ n, T !! (a, n) = None) as Hno.
  { intros n. apply eq_None_not_Some. intros Hs%HT. rewrite Hnone in Hs. by destruct Hs. }
  apply (attempts_move T); [done|done|]. split.
  - intros n. rewrite Hno, Hc. split; [by intros []|lia].
  - intros n t. by rewrite Hno.
  - by rewrite Hh.
Qed.

(** The claim of the next attempt. *)
Lemma attempts_claim T A a ac ac' n t :
  attempts_ok T A → A !! a = Some ac → holds_lease (ac_status ac) = false →
  n = (ac_attempt_count ac + 1)%Z → (0 < n)%Z → ac_attempt_count ac' = n →
  ac_lease_token ac' = Some (att_lease_token t) → att_finished_at t = None →
  holds_lease (ac_status ac') = true →
  attempts_ok (<[(a, n) := t]> T) (<[a := ac']> A).
Proof.
  intros HT Hac Hh Hn Hpos Hc Htok Hf Hh'. destruct (proj2 HT a ac Hac) as [Hnum Hopen _].
  apply (attempts_move T); [done| |].
  { intros b m Hb. rewrite lookup_insert_ne; [done|]. congruence. }
  split; rewrite Hc.
  - intros m. rewrite lookup_insert_is_Some'. rewrite Hnum. split.
    + intros [[= ->]|?]; lia.
    + intros Hm. destruct (decide (m = n)) as [->|]; [by left|right; lia].
  - intros m t0 [[[= <-] <-]|[_ Ht0]]%lookup_insert_Some Hf0; [done|].
    destruct (Hopen m t0 Ht0 Hf0) as (? & _). congruence.
  - intros _. exists t. by rewrite lookup_insert_eq.
Qed.

(** The end of an attempt with its lease. *)
Lemma attempts_close T A a ac ac' n t t' :
  attempts_ok T A → A !! a = Some ac → ac_attempt_count ac' = ac_attempt_count ac →
  n = ac_attempt_count ac → T !! (a, n) = Some t → is_Some (att_finished_at t') →
  holds_lease (ac_status ac') = false →
  attempts_ok (<[(a, n) := t']> T) (<[a := ac']> A).
Proof.
  intros HT Hac Hc -> Ht [f Hf] Hh'. destruct (proj2 HT a ac Hac) as [Hnum Hopen _].
  apply (attempts_move T); [done| |].
  { intros b m Hb. rewrite lookup_insert_ne; [done|]. congruence. }
  split; rewrite Hc.
  - intros m. rewrite lookup_insert_is_Some', <- Hnum. split; [|by right].
    intros [[= <-]|?]; [|done]. by eexists.
  - intros m t0 [[[= <-] <-]|[Hne Ht0]]%lookup_insert_Some Hf0; [congruence|].
    destruct (Hopen m t0 Ht0 Hf0) as (_ & -> & _). by destruct Hne.
  - by rewrite Hh'.
Qed.

(** A heartbeat. *)
Lemma attempts_beat T A a ac ac' n t t' :
  attempts_ok T A → A !! a = Some ac → lease_same ac ac' → T !! (a, n) = Some t →
  att_finished_at t' = att_finished_at t → att_lease_token t' = att_lease_token t →
  attempts_ok (<[(a, n) := t']> T) (<[a := ac']> A).
Proof.
  intros HT Hac Hs Ht Ef Ek. destruct (proj2 HT a ac Hac) as [Hnum Hopen Hl].
  apply (attempts_move T); [done| |].
  { intros b m Hb. rewrite lookup_insert_ne; [done|]. congruence. }
  apply (attempts_linked_same _ a ac); [done|]. split.
  - intros m. rewrite lookup_insert_is_Some', <- Hnum. split; [|by right].
    intros [[= ->]|?]; [|done]. by eexists.
  - intros m t0 [[[= <-] <-]|[_ Ht0]]%lookup_insert_Some; [|eauto].
    rewrite Ef, Ek. eauto.
  - intros Hh. destruct (Hl Hh) as (t0 & Ht0 & Hf0 & Htok).
    destruct (decide (n = ac_attempt_count ac)) as [->|Hne].
    + exists t'. rewrite lookup_insert_eq. split_and!; congruence.
    + exists t0. rewrite lookup_insert_ne by congruence. done.
Qed.

(** * The invariant of the tables *)

Definition coupled_but (x : option WorkflowId) (d : Db) : Prop :=
  linked x (db_workflow d) (db_activity d) (db_approval d)
  ∧ attempts_ok (db_attempt d) (db_activity d).

Abbreviation coupled := (coupled_but None).
