(* ===== verification/LinkSteps.v ===== *)
(** Every transaction of the engine keeps the rows linked ([Links]): one lemma
    per operation, composed the way the code composes them. *)
From stdpp Require Import base gmap list strings.
From Stdlib Require Import ZArith Lia.
From S2P Require Import Prelude.
From S2P Require Import Errors.
From S2P Require Import Status.
From S2P Require Import Rows.
From S2P Require Import Database.
From S2P Require Import TxLogic.
From S2P Require Import Lifecycle.
From S2P Require Import Evolution.
From S2P Require Import Policy.
From S2P Require Import Transitions.
From S2P Require Import Registry.
From S2P Require Import Parents.
From S2P Require Import Store.
From S2P Require Import StoreSteps.
From S2P Require Import Coordinator.
From S2P Require Import Worker.
From S2P Require Import Temporal.
From S2P Require Import Control.
From S2P Require Import Reads.
From S2P Require Import Links.

(** An operation that keeps the tables coupled, whatever they hold else. *)
Class Couples {A} (m : Tx A) : Prop :=
  couples : ∀ e d, coupled d → wp any_error m e d (λ _ d', coupled d').

(** Events link nothing. *)
Lemma coupled_event c d row : coupled_but c d → coupled_but c (with_event d row).
Proof. by intros [HL HT]; split. Qed.

(** * The wake of the parents *)

Lemma waits_on_child_spec c r :
  waits_on_child c r = true ↔ awaits_child (wf_status r) = true ∧ waits_on KindChild c r.
Proof.
  unfold waits_on_child, waits_on. rewrite andb_true_iff, bool_decide_eq_true.
  destruct (wf_status r); simpl; naive_solver.
Qed.

Lemma wf_wait_child r c wait :
  waits_on KindChild c r → wf_wait r = Ok wait → wait = Some (WaitChild c).
Proof.
  intros [E1 E2]. unfold wf_wait, wait_parse. rewrite E1, E2. simpl. unfold new_id.
  destruct (0 <? c)%Z; simpl; congruence.
Qed.

(** From [d] to [d'] only waits on [c] end, and [I] holds on. *)
Definition releases (I : Db → Prop) (c : WorkflowId) (d d' : Db) : Prop :=
  (I d → I d')
  ∧ ∀ w r', db_workflow d' !! w = Some r' → waits_on_child c r' = true →
      db_workflow d !! w = Some r'.

#[export] Instance releases_refl I c : Reflexive (releases I c).
Proof. by intros d. Qed.
#[export] Instance releases_trans I c : Transitive (releases I c).
Proof. intros d1 d2 d3 [H1 W1] [H2 W2]. split; eauto. Qed.

Definition released (c : WorkflowId) (x : WorkflowRow) (d : Db) : Prop :=
  ∀ r, db_workflow d !! wf_id x = Some r → waits_on_child c r = false.

Lemma released_mono I c x d d' : releases I c d d' → released c x d → released c x d'.
Proof.
  intros [_ HW] Hx r Hr. destruct (waits_on_child c r) eqn:E; [|done].
  by rewrite <- E, (Hx r (HW _ _ Hr E)).
Qed.

(** When all that waited on [c] are released the exception ends. *)
Lemma released_all (I : Db → Prop) c d d' (rows : list WorkflowRow) :
  (∀ d, I d → coupled_but (Some c) d) → I d →
  (∀ r, r ∈ rows ↔ waits_on_child c r = true ∧ ∃ id, db_workflow d !! id = Some r) →
  releases I c d d' → (∀ x, x ∈ rows → released c x d') → coupled d'.
Proof.
  intros HI Hd Hrows [HR HW] Hall. destruct (HI d' (HR Hd)) as [HL' HT']. split; [|done].
  apply (linked_close c); [done|]. intros w r Hr Ht Hwait.
  destruct (lk_workflow _ _ _ _ HL' _ _ Hr) as [Hid Hlive]. specialize (Hlive Ht).
  assert (waits_on_child c r = true) as Hc.
  { apply waits_on_child_spec. split; [|done]. destruct Hwait as [E1 E2].
    unfold wait_live in Hlive. rewrite E1, E2 in Hlive. by destruct Hlive. }
  assert (r ∈ rows) as Hin by (apply Hrows; eauto).
  specialize (Hall r Hin). unfold released in Hall. rewrite Hid in Hall.
  by rewrite (Hall r Hr) in Hc.
Qed.

Lemma woken_keeps c d id r s now :
  db_workflow d !! id = Some r → is_terminal (wf_status r) = false →
  wf_wait_kind r ≠ Some KindActivity → wf_wait_kind r ≠ Some KindApproval →
  no_wait_ok s = true → coupled_but c d →
  coupled_but c (d <| db_workflow := <[id := woken s now r]> (db_workflow d) |>).
Proof.
  intros Hr Ht Hna Hnp Hs [HL HT]. split; [|done].
  assert (wf_id r = id) as Hid by apply (lk_workflow _ _ _ _ HL _ _ Hr).
  assert (is_terminal s = false) as Hs' by (by destruct s).
  eapply linked_workflow; [exact HL|exact Hr|done|done|by right|by left| |by right].
  intros _. done.
Qed.

Section parents.
Context `{Codec}.

Lemma wp_wake_loaded e d c parent kind version outcome now :
  waits_on_child c parent = true →
  wp any_error (wake_loaded_parent_on_child_terminal parent c kind version outcome now) e d
    (λ _ d', releases (coupled_but (Some c)) c d d' ∧ released c parent d').
Proof.
  intros [Hs Hw]%waits_on_child_spec. unfold wake_loaded_parent_on_child_terminal.
  repeat run_step; try congruence.
  - exfalso. eauto using wf_wait_child.
  - match goal with
    | Hs : same_wait parent ?r = true |- _ => apply same_wait_spec in Hs as (Es & Ek & Er)
    end.
    rewrite <- Es in *. destruct Hw as [E1 E2]. split; [split|].
    + intros Hd. apply woken_keeps; try done; try congruence; try (by destruct (wf_status r)).
    + intros w r'. simpl. intros [[<- <-]|[_ Hr']]%lookup_insert_Some; [|done].
      rewrite waits_on_child_spec. by intros [_ [? _]].
    + intros r0. simpl. rewrite lookup_insert_eq. by intros [= <-].
Qed.

Lemma wp_wake_couples e d child outcome now :
  coupled_but (Some (wf_id child)) d →
  wp any_error (wake_waiting_parents_on_child_terminal child outcome now) e d
    (λ _ d', coupled d').
Proof.
  intros Hd. unfold wake_waiting_parents_on_child_terminal. apply wp_bind, wp_select_workflows.
  intros rows Hrows.
  eapply wp_mono; [apply (wp_for_each _ _ _ (releases (coupled_but (Some (wf_id child))) (wf_id child))
    (released (wf_id child))); try apply _|].
  - intros x d1 d2. apply released_mono.
  - intros x d1 [Hx _]%Hrows. by apply wp_wake_loaded.
  - intros [] d' [HR HQ]. by eapply (released_all (coupled_but (Some (wf_id child)))).
Qed.
End parents.

(** * Cancellation *)

(** The activities under [ids] are revoked or cancelled, nothing else moves. *)
Record revokes (ids : list ActivityId) (d d' : Db) : Prop := {
  rv_workflow : db_workflow d' = db_workflow d;
  rv_approval : db_approval d' = db_approval d;
  rv_attempts : attempts_ok (db_attempt d) (db_activity d) →
    attempts_ok (db_attempt d') (db_activity d');
  rv_others : ∀ a, a ∉ ids → db_activity d' !! a = db_activity d !! a;
  rv_row : ∀ a ac', db_activity d' !! a = Some ac' →
    ∃ ac, db_activity d !! a = Some ac ∧ ac_id ac' = ac_id ac
      ∧ ac_workflow_id ac' = ac_workflow_id ac
      ∧ (is_non_terminal (ac_status ac') = true →
         is_non_terminal (ac_status ac) = true
         ∧ (ac_status ac' = ac_status ac ∨ ac_status ac' = ActCancelling));
}.

#[export] Instance revokes_refl ids : Reflexive (revokes ids).
Proof. intros d. split; naive_solver. Qed.
#[export] Instance revokes_trans ids : Transitive (revokes ids).
Proof.
  intros d1 d2 d3 [W1 P1 T1 O1 R1] [W2 P2 T2 O2 R2]. split; [congruence|congruence|auto| |].
  - intros a Ha. by rewrite O2, O1.
  - intros a ac3 (ac2 & H2 & E2 & F2 & S2)%R2. destruct (R1 a ac2 H2) as (ac1 & H1 & E1 & F1 & S1).
    exists ac1. split_and!; [done|congruence|congruence|]. intros Hn.
    destruct (S2 Hn) as [Hn2 Hs2], (S1 Hn2) as [Hn1 Hs1]. naive_solver congruence.
Qed.

Lemma revokes_update ids d a ac ac' :
  db_activity d !! a = Some ac → a ∈ ids → ac_id ac' = ac_id ac →
  ac_workflow_id ac' = ac_workflow_id ac → lease_same ac ac' →
  (is_non_terminal (ac_status ac') = true →
     is_non_terminal (ac_status ac) = true ∧ ac_status ac' = ActCancelling) →
  revokes ids d (d <| db_activity := <[a := ac']> (db_activity d) |>).
Proof.
  intros Hac Hin Hid Ho Hl Hs. split; simpl; [done|done| | |].
  - intros HT. by eapply attempts_same.
  - intros b Hb. rewrite lookup_insert_ne; [done|]. congruence.
  - intros b bc [[<- <-]|[_ Hb]]%lookup_insert_Some; [|naive_solver].
    exists ac. split_and!; [done|done|done|]. naive_solver.
Qed.

(** The activity stored under the id of [x] runs no more, or is revoked. *)
Definition revoked (x : ActivityRow) (d : Db) : Prop :=
  ∀ ac, db_activity d !! ac_id x = Some ac → is_non_terminal (ac_status ac) = true →
    ac_status ac = ActCancelling.

Lemma revoked_mono ids x d d' : revokes ids d d' → revoked x d → revoked x d'.
Proof.
  intros [_ _ _ _ HR] Hx ac' (ac & Hac & _ & _ & Hs)%HR Hn. destruct (Hs Hn) as [Hn' [->|]]; [|done].
  by apply Hx.
Qed.

Lemma wp_cancel_activity_revokes e d ids x reason outcome now :
  ac_id x ∈ ids →
  wp any_error (cancel_activity x reason outcome now) e d
    (λ _ d', revokes ids d d' ∧ revoked x d').
Proof.
  intros Hin. unfold cancel_activity. repeat run_step;
    (split; [eapply revokes_update; [eassumption|done|done|done| |]
            |intros ?; simpl; rewrite lookup_insert_eq; by intros [= <-]]).
  all: repeat match goal with E : ac_status ?r = _ |- _ => rewrite E in *; clear E end; simpl; try done.
  all: unfold lease_same; simpl; repeat match goal with E : ac_status ?r = _ |- _ => rewrite E end;
    by split_and!.
Qed.

(** The approvals under [ids] are cancelled, nothing else moves. *)
Record withdraws (ids : list ApprovalId) (d d' : Db) : Prop := {
  wd_workflow : db_workflow d' = db_workflow d;
  wd_activity : db_activity d' = db_activity d;
  wd_attempt : db_attempt d' = db_attempt d;
  wd_others : ∀ p, p ∉ ids → db_approval d' !! p = db_approval d !! p;
  wd_row : ∀ p ap', db_approval d' !! p = Some ap' →
    ∃ ap, db_approval d !! p = Some ap ∧ ap_id ap' = ap_id ap
      ∧ ap_workflow_id ap' = ap_workflow_id ap
      ∧ (ap_status ap' = ApprPending → ap_status ap = ApprPending);
}.

#[export] Instance withdraws_refl ids : Reflexive (withdraws ids).
Proof. intros d. split; naive_solver. Qed.
#[export] Instance withdraws_trans ids : Transitive (withdraws ids).
Proof.
  intros d1 d2 d3 [W1 A1 T1 O1 R1] [W2 A2 T2 O2 R2]. split; [congruence..| |].
  - intros a Ha. by rewrite O2, O1.
  - intros a ac3 (ac2 & H2 & E2 & F2 & S2)%R2. destruct (R1 a ac2 H2) as (ac1 & H1 & E1 & F1 & S1).
    exists ac1. split_and!; [done|congruence|congruence|auto].
Qed.

Definition withdrawn (x : ApprovalRow) (d : Db) : Prop :=
  ∀ ap, db_approval d !! ap_id x = Some ap → ap_status ap ≠ ApprPending.

(** The work of [w] has ended, and only that. *)
Record work_ended (w : WorkflowId) (d d' : Db) : Prop := {
  we_workflow : db_workflow d' = db_workflow d;
  we_attempts : attempts_ok (db_attempt d') (db_activity d');
  we_activity_others : ∀ a ac, ac_workflow_id ac ≠ w →
    db_activity d' !! a = Some ac ↔ db_activity d !! a = Some ac;
  we_approval_others : ∀ p ap, ap_workflow_id ap ≠ w →
    db_approval d' !! p = Some ap ↔ db_approval d !! p = Some ap;
  we_activity : ∀ a ac, db_activity d' !! a = Some ac → ac_workflow_id ac = w →
    ac_id ac = a ∧ (is_non_terminal (ac_status ac) = true → ac_status ac = ActCancelling);
  we_approval : ∀ p ap, db_approval d' !! p = Some ap → ap_workflow_id ap = w →
    ap_id ap = p ∧ ap_status ap ≠ ApprPending;
}.

Lemma wp_cancel_activities_revokes e d w reason outcome now (Φ : unit → Db → Prop) :
  coupled d →
  (∀ d' ids, revokes ids d d' →
     (∀ a, a ∈ ids → ∃ ac, db_activity d !! a = Some ac ∧ ac_workflow_id ac = w) →
     (∀ a ac, db_activity d' !! a = Some ac → ac_workflow_id ac = w →
        is_non_terminal (ac_status ac) = true → ac_status ac = ActCancelling) → Φ tt d') →
  wp any_error (cancel_activities w reason outcome now) e d Φ.
Proof.
  intros [HL _] HΦ. unfold cancel_activities. apply wp_bind, wp_select_activities. intros rows Hrows.
  eapply wp_mono;
    [apply (wp_for_each _ _ _ (revokes (ac_id <$> rows)) revoked); try apply _|].
  - intros x d1 d2. apply revoked_mono.
  - intros x d1 Hx. apply wp_cancel_activity_revokes. by apply list_elem_of_fmap_2.
  - intros [] d' [HR HQ]. apply (HΦ d' (ac_id <$> rows)); [done| |].
    + intros a (ac & -> & [Hp (i & Hi)]%Hrows)%list_elem_of_fmap. norm_tests. exists ac.
      destruct (lk_activity _ _ _ _ HL _ _ Hi) as [-> _]. done.
    + intros a ac' Hac' Ho Hn. destruct (rv_row _ _ _ HR _ _ Hac') as (ac & Hac & E & Eo & Hs).
      destruct (Hs Hn) as [Hn0 _]. destruct (lk_activity _ _ _ _ HL _ _ Hac) as [Hid _].
      apply (HQ ac); [|by rewrite Hid|done]. apply Hrows. split; [|eauto].
      rewrite bool_decide_true by congruence. by destruct (ac_status ac).
Qed.

Lemma wp_cancel_approvals_withdraws e d w reason now (Φ : unit → Db → Prop) :
  (∀ p ap, db_approval d !! p = Some ap → ap_id ap = p) →
  (∀ d' ids, withdraws ids d d' →
     (∀ p, p ∈ ids → ∃ ap, db_approval d !! p = Some ap ∧ ap_workflow_id ap = w) →
     (∀ p ap, db_approval d' !! p = Some ap → ap_workflow_id ap = w →
        ap_status ap ≠ ApprPending) → Φ tt d') →
  wp any_error (cancel_approvals w reason now) e d Φ.
Proof.
  intros Hids HΦ. unfold cancel_approvals. apply wp_bind, wp_select_approvals. intros rows Hrows.
  eapply wp_mono;
    [apply (wp_for_each _ _ _ (withdraws (ap_id <$> rows)) withdrawn); try apply _|].
  - intros x d1 d2 [_ _ _ _ HR] Hx ap' (ap & Hap & _ & _ & Hs)%HR Hp. by apply (Hx ap Hap), Hs.
  - intros x d1 Hx. repeat run_step. split.
    + split; simpl; [done..| |].
      * intros p Hp. rewrite lookup_insert_ne; [done|]. intros <-. by apply Hp, list_elem_of_fmap_2.
      * intros p ap' [[<- <-]|[_ Hp]]%lookup_insert_Some; [|naive_solver]. eexists. by split_and!.
    + intros ?. simpl. rewrite lookup_insert_eq. by intros [= <-].
  - intros [] d' [HR HQ]. apply (HΦ d' (ap_id <$> rows)); [done| |].
    + intros p (ap & -> & [Hp (i & Hi)]%Hrows)%list_elem_of_fmap. norm_tests. exists ap.
      by rewrite (Hids _ _ Hi).
    + intros p ap' Hap' Ho Hn. destruct (wd_row _ _ _ HR _ _ Hap') as (ap & Hap & E & Eo & Hs).
      specialize (Hs Hn). apply (HQ ap) with ap'; [|by rewrite (Hids _ _ Hap)|done].
      apply Hrows. split; [|eauto]. rewrite bool_decide_true; [done|]. split; [congruence|done].
Qed.

(** A table whose rows keep their owner changes for [w] alone. *)
Lemma others_owned {R} (owner : R → Z) (m m' : gmap Z R) (ids : list Z) w :
  (∀ i, i ∉ ids → m' !! i = m !! i) →
  (∀ i, i ∈ ids → ∃ r, m !! i = Some r ∧ owner r = w) →
  (∀ i r', m' !! i = Some r' → ∃ r, m !! i = Some r ∧ owner r' = owner r) →
  ∀ i r, owner r ≠ w → m' !! i = Some r ↔ m !! i = Some r.
Proof.
  intros Hout Hin Hrow i r Ho. destruct (decide (i ∈ ids)) as [Hi|Hi]; [|by rewrite Hout].
  destruct (Hin i Hi) as (r0 & Hr0 & Hw). split; intros Hr.
  - destruct (Hrow i r Hr) as (r1 & Hr1 & E). congruence.
  - congruence.
Qed.

Lemma wp_end_work {B} e d w reason outcome now (k : Tx B) (Φ : B → Db → Prop) :
  coupled d → (∀ d', work_ended w d d' → wp any_error k e d' Φ) →
  wp any_error (do! cancel_activities w reason outcome now in
                do! cancel_approvals w reason now in k) e d Φ.
Proof.
  intros Hd Hk. pose proof Hd as [HL HT]. apply wp_bind, wp_cancel_activities_revokes; [done|].
  intros d1 ids1 [W1 P1 T1 O1 R1] Hids1 Hend1. apply wp_bind, wp_cancel_approvals_withdraws.
  { intros p ap Hap. rewrite P1 in Hap. by apply (lk_approval _ _ _ _ HL). }
  intros d2 ids2 [W2 A2 T2 O2 R2] Hids2 Hend2. apply Hk. split.
  - congruence.
  - rewrite T2, A2. auto.
  - rewrite A2. apply (others_owned _ _ _ ids1); [done|done|]. naive_solver.
  - apply (others_owned _ _ _ ids2).
    + intros i Hi. by rewrite O2, P1.
    + intros i Hi. rewrite <- P1. auto.
    + intros i r Hr. rewrite <- P1. naive_solver.
  - intros a ac Hac Ho. rewrite A2 in Hac. split; [|eauto].
    destruct (R1 a ac Hac) as (ac0 & Hac0 & -> & _). by apply (lk_activity _ _ _ _ HL).
  - intros p ap Hap Ho. split; [|eauto]. destruct (R2 p ap Hap) as (ap0 & Hap0 & -> & _).
    rewrite P1 in Hap0. by apply (lk_approval _ _ _ _ HL).
Qed.

(** The row of the workflow ends after its work. *)
Lemma ended_couples w d d' r' :
  coupled d → work_ended w d d' → wf_id r' = w → is_terminal (wf_status r') = true →
  coupled_but (Some w) (d' <| db_workflow := <[w := r']> (db_workflow d') |>).
Proof.
  intros [HL HT] [EW Ht EA EP Ha Hp] Hid Hterm. split; [|done]. simpl. rewrite EW.
  by eapply linked_ended.
Qed.

(** A loop or a walk keeps the links when its steps do. *)
Lemma wp_couples {A} (m : Tx A) `{!Couples m} e d (Φ : A → Db → Prop) :
  coupled d → (∀ a d', coupled d' → Φ a d') → wp any_error m e d Φ.
Proof. intros Hd HΦ. eapply wp_mono; [by apply couples|auto]. Qed.

#[export] Instance couples_read {A} (m : Tx A) : ReadOnly m → Couples m | 20.
Proof. intros Hm e d Hd. eapply wp_mono; [apply Hm|]. by intros a d' ->. Qed.

(** The links hold on in tables that differ in the events only. *)
Ltac still := repeat apply coupled_event; assumption.

(** The steps of a run: an operation by its [Couples] instance, a read by its
    own, and the rest by the rules. *)
Ltac link_call :=
  lazymatch goal with
  | |- wp _ ?m _ _ _ =>
      lazymatch m with
      | next_event_sequence _ => read_call
      | append_event _ => read_call
      | insert_workflow _ => read_call
      | insert_activity _ => read_call
      | insert_approval _ => read_call
      | insert_attempt _ => read_call
      | _ => first
          [ apply (wp_read m); intros ?
          | match goal with
            | Hd : coupled ?d |- _ =>
                apply (wp_couples m); [solve [still]|clear dependent d; intros ? ? ?]
            end
          | apply (wp_couples m); [|intros ? ? ?] ]
      end
  end.

Ltac link_step := wp_step ltac:(fun _ => link_call).
Ltac links := intros ? ? ?; cbv zeta; repeat link_step; try done; try still.

Section cancel.
Context `{Codec}.

Lemma wp_cancel_one_couples e d workflow reason operator now :
  coupled d → is_terminal (wf_status workflow) = false →
  wp any_error (cancel_one_workflow workflow reason operator now) e d (λ _ d', coupled d').
Proof.
  intros Hd Hl. unfold cancel_one_workflow. cbv zeta. apply wp_end_work; [done|]. intros d1 Hd1.
  apply wp_bind, wp_update_workflow; [by repeat run_step|]. intros r Hr _.
  assert (wf_id r = wf_id workflow) as Hid.
  { rewrite (we_workflow _ _ _ Hd1) in Hr. apply (lk_workflow _ _ _ _ (proj1 Hd) _ _ Hr). }
  pose proof (ended_couples _ _ _ (cancelled_row now r) Hd Hd1 Hid eq_refl) as Hd2.
  do 6 run_step. by apply wp_wake_couples.
Qed.

#[export] Instance cancel_generations_couples fuel generation reason operator now :
  Couples (cancel_generations fuel generation reason operator now).
Proof.
  revert generation. induction fuel as [|fuel IH]; intros generation; simpl; [links|].
  intros e d Hd. apply wp_bind. eapply wp_mono with (Φ := λ _ d', coupled d').
  - destruct (is_terminal _) eqn:Et; [by apply wp_ret|]. apply wp_bind.
    eapply wp_mono; [by apply wp_cancel_one_couples|]. intros [] d' Hd'. by apply wp_ret.
  - clear d Hd. intros cancelled d Hd. repeat link_step; done.
Qed.

#[export] Instance cancel_children_couples children reason operator now :
  Couples (cancel_children children reason operator now).
Proof. induction children; simpl; links. Qed.

#[export] Instance cancel_worklist_couples fuel parents operator now :
  Couples (cancel_worklist fuel parents operator now).
Proof. revert parents. induction fuel; intros [|[id text] parents]; simpl; links. Qed.

#[export] Instance cancel_owned_descendants_couples parent reason operator now :
  Couples (cancel_owned_descendants parent reason operator now).
Proof. unfold cancel_owned_descendants. links. Qed.

Lemma wp_cancel_locked_couples e d workflow reason operator now :
  coupled d → is_terminal (wf_status workflow) = false →
  wp any_error (cancel_locked_workflow workflow reason operator now) e d (λ _ d', coupled d').
Proof.
  intros Hd Hl. unfold cancel_locked_workflow. apply wp_bind.
  eapply wp_mono; [by apply wp_cancel_one_couples|]. clear d Hd. intros [] d Hd. by link_step.
Qed.

#[export] Instance cancel_with_conn_couples id reason : Couples (cancel_with_conn id reason).
Proof.
  unfold cancel_with_conn. cbv zeta. intros e d Hd.
  repeat link_step; [done|by apply wp_cancel_locked_couples].
Qed.

#[export] Instance lock_workflow_reads id : ReadOnly (lock_workflow id).
Proof. unfold lock_workflow. reads. Qed.

#[export] Instance cancel_workflow_couples id operator : Couples (cancel_workflow id operator).
Proof.
  unfold cancel_workflow. intros e d Hd. repeat link_step.
  eapply wp_mono; [by apply wp_cancel_locked_couples|]. intros [] d' Hd'. by apply wp_ret.
Qed.

Lemma wp_supersede_couples e d source operator now :
  coupled d → is_terminal (wf_status source) = false →
  wp any_error (supersede_by_restart source operator now) e d (λ _ d', coupled d').
Proof.
  intros Hd Hl. unfold supersede_by_restart. apply wp_end_work; [done|]. intros d1 Hd1.
  apply wp_bind, wp_update_workflow; [by repeat run_step|]. intros r Hr _.
  assert (wf_id r = wf_id source) as Hid.
  { rewrite (we_workflow _ _ _ Hd1) in Hr. apply (lk_workflow _ _ _ _ (proj1 Hd) _ _ Hr). }
  pose proof (ended_couples _ _ _ (superseded_row now r) Hd Hd1 Hid eq_refl) as Hd2.
  do 3 run_step. unfold append_operator_event. do 4 run_step.
  eapply wp_mono; [by apply wp_wake_couples|]. clear d Hd Hd1 Hd2. intros [] d Hd. by link_step.
Qed.
End cancel.

(** * Starts *)

(** A live workflow was added under [id]. *)
Record adds (id : WorkflowId) (d d' : Db) : Prop := {
  ad_coupled : coupled d';
  ad_fresh : db_workflow d !! id = None;
  ad_workflow : ∃ row, db_workflow d' = <[id := row]> (db_workflow d)
    ∧ is_terminal (wf_status row) = false;
  ad_activity : db_activity d' = db_activity d;
  ad_approval : db_approval d' = db_approval d;
  ad_attempt : db_attempt d' = db_attempt d;
}.

Lemma with_workflow_adds d row :
  db_ok d → coupled d → wf_new row → wf_id row = db_next_workflow d →
  adds (wf_id row) d (with_workflow d row).
Proof.
  intros Hok [HL HT] (Hs & _ & [Hk Hr] & _) Hid.
  assert (db_workflow d !! wf_id row = None) as Hnone.
  { apply eq_None_not_Some. intros [r [_ ?]%(ok_workflow _ Hok)]. lia. }
  split; [|done| |done..].
  - split; [|done]. simpl. apply linked_new_workflow; try done; by rewrite Hs.
  - exists row. by rewrite Hs.
Qed.

Lemma wp_insert_started_couples e d new_row `{!NewWorkflow new_row} (Φ : StartedInsert → Db → Prop) :
  db_ok d → coupled d → (∀ id d', adds id d d' → Φ (StartInserted id) d') →
  (∀ row, wf_deduplication_key (new_row 0%Z) ≠ None →
     db_workflow d !! wf_id row = Some row → Φ (StartExisting row) d) →
  wp any_error (insert_started new_row) e d Φ.
Proof.
  intros Hok Hd HI HE. unfold insert_started. cbv zeta. apply wp_bind, wp_insert_workflow.
  - apply wp_bind, wp_lift; [done|]. intros key Hkey. apply ok_or_Ok in Hkey.
    unfold find_by_deduplication_key_for_update, find_by_deduplication_key.
    repeat run_step. apply HE; [congruence|].
    match goal with
    | Hr : ∀ _, _ ↔ _, Eh : head _ = Some _ |- _ =>
        apply head_Some_elem_of, Hr in Eh as [_ [id Hid]]
    end.
    by rewrite (proj1 (ok_workflow _ Hok _ _ Hid)).
  - intros Hfresh. repeat run_step. apply HI.
    destruct (with_workflow_adds d (new_row (db_next_workflow d)) Hok Hd) as [A1 A2 A3 A4 A5 A6].
    + apply new_workflow.
    + apply new_workflow_id.
    + by split.
Qed.

Lemma wp_insert_prepared_couples e d kind version input state options (Φ : StartOutcome → Db → Prop) :
  db_ok d → coupled d → (∀ id d', adds id d d' → Φ (MkStartOutcome id true) d') →
  (∀ id, deduplication_key options ≠ None → Φ (MkStartOutcome id false) d) →
  wp any_error (insert_prepared_untraced kind version input state options) e d Φ.
Proof.
  intros Hok Hd HI HE. unfold insert_prepared_untraced. apply wp_bind.
  destruct (deduplication_key options) as [key|] eqn:Ek.
  - unfold find_by_deduplication_key. repeat run_step.
    + by apply HE.
    + apply wp_insert_started_couples; [apply _|done|done| |].
      * intros id d' Hd'. by apply wp_ret, HI.
      * intros row _ _. by apply wp_ret, HE.
  - repeat run_step. apply wp_insert_started_couples; [apply _|done|done| |].
    + intros id d' Hd'. by apply wp_ret, HI.
    + intros row Hne. simpl in Hne. congruence.
Qed.

(** * Recovery *)

Definition live_in (d : Db) (id : WorkflowId) : Prop :=
  ∃ r, db_workflow d !! id = Some r ∧ is_terminal (wf_status r) = false.

(** The dead letters of a workflow that a recovery replaces. *)
Definition dead_letter_of (w : WorkflowId) (r : ActivityRow) : bool :=
  bool_decide (ac_workflow_id r = w ∧ ac_status r = ActDeadLettered).
Definition letters_cancelled (w : WorkflowId) (now : DbMillis) (A : gmap Z ActivityRow) :=
  (λ r, if dead_letter_of w r then cancelled_activity_pending now r else r) <$> A.

Lemma letters_cancelled_others w now A a ac :
  ac_workflow_id ac ≠ w → letters_cancelled w now A !! a = Some ac ↔ A !! a = Some ac.
Proof.
  intros Ho. unfold letters_cancelled. rewrite lookup_fmap, fmap_Some. split.
  - intros (ac0 & Hac & ->). destruct (dead_letter_of w ac0) eqn:E; [|done].
    unfold dead_letter_of in E. norm_tests. by destruct Ho.
  - intros Hac. exists ac. split; [done|]. destruct (dead_letter_of w ac) eqn:E; [|done].
    unfold dead_letter_of in E. norm_tests. by destruct Ho.
Qed.

Lemma letters_cancelled_row w now A a ac' :
  letters_cancelled w now A !! a = Some ac' →
  ∃ ac, A !! a = Some ac ∧ ac_id ac' = ac_id ac ∧ ac_workflow_id ac' = ac_workflow_id ac
    ∧ (is_non_terminal (ac_status ac') = true → ac' = ac).
Proof.
  unfold letters_cancelled. rewrite lookup_fmap, fmap_Some. intros (ac & Hac & ->). exists ac.
  by destruct (dead_letter_of w ac).
Qed.

Lemma letters_cancelled_attempts T A w now :
  attempts_ok T A → attempts_ok T (letters_cancelled w now A).
Proof.
  intros HT. apply attempts_fmap; [done|]. intros ac Hac. unfold dead_letter_of in Hac. norm_tests.
  unfold lease_same. simpl. match goal with E : ac_status ac = _ |- _ => rewrite E end. by split_and!.
Qed.

(** A workflow that ended has them cancelled. *)
Lemma letters_cancelled_ended x W A P w r now :
  linked x W A P → W !! w = Some r → is_terminal (wf_status r) = true →
  linked x W (letters_cancelled w now A) P.
Proof.
  intros HL Hr Ht.
  eapply (linked_move x x w); [exact HL|apply children_stay_refl|..]; try done.
  - exact (letters_cancelled_others w now A).
  - intros r0 Hr0. simplify_eq. split; [by apply (lk_workflow _ _ _ _ HL)|]. congruence.
  - intros a ac' (ac & Hac & E1 & E2 & En)%letters_cancelled_row Ho.
    destruct (lk_activity _ _ _ _ HL _ _ Hac) as [Hid Hl]. split; [congruence|]. intros Hn.
    pose proof (En Hn) as ->. auto.
  - intros p ap Hap _. by apply (lk_approval _ _ _ _ HL).
Qed.

(** A blocked workflow ends with them. *)
Lemma letters_cancelled_blocked W A P w r r' now :
  linked None W A P → W !! w = Some r → wf_status r = WfBlocked → wf_id r' = w →
  is_terminal (wf_status r') = true →
  linked (Some w) (<[w := r']> W) (letters_cancelled w now A) P.
Proof.
  intros HL Hr Hs Hid Ht.
  assert (is_terminal (wf_status r) = false) as Hlive by (by rewrite Hs).
  eapply linked_ended; [exact HL|done|done|exact (letters_cancelled_others w now A)|done| |].
  - intros a ac' (ac & Hac & E1 & E2 & En)%letters_cancelled_row Ho.
    split; [rewrite E1; by apply (lk_activity _ _ _ _ HL)|]. intros Hn. exfalso.
    pose proof (En Hn) as ->. rewrite <- Ho in Hr. destruct (awaited_status _ _ _ _ _ _ _ HL Hac Hn Hr Hlive) as [_ Hok].
    rewrite Hs in Hok. by destruct (ac_status ac).
  - intros p ap Hap Ho. split; [by apply (lk_approval _ _ _ _ HL)|]. intros Hn.
    destruct (pending_approval_awaited _ _ _ _ _ _ _ _ HL Hr Hap Ho Hn) as (_ & E1 & E2).
    destruct (lk_workflow _ _ _ _ HL _ _ Hr) as [_ Hl]. specialize (Hl Hlive).
    unfold wait_live in Hl. rewrite E1, E2, Hs in Hl. by destruct Hl.
Qed.

Section recovery.
Context `{Codec}.

Lemma wp_hand_couples e d superseded successor version now :
  coupled_but (Some (wf_id superseded)) d → live_in d successor → successor ≠ wf_id superseded →
  wp any_error (hand_waiting_parents_to_successor superseded successor version now) e d
    (λ _ d', coupled d').
Proof.
  intros Hd Hlive Hne. unfold hand_waiting_parents_to_successor.
  destruct (bool_decide _); [by apply wp_wake_couples|]. apply wp_bind, wp_select_workflows. intros rows Hrows.
  set (I := λ d', coupled_but (Some (wf_id superseded)) d' ∧ live_in d' successor).
  eapply wp_mono; [apply (wp_for_each _ _ _ (releases I (wf_id superseded))
    (released (wf_id superseded))); try apply _|].
  - intros x d1 d2. apply released_mono.
  - intros parent d1 [[Hs _]%waits_on_child_spec _]%Hrows. clear d Hd Hlive Hrows rows.
    repeat run_step. split; [split|].
    + match goal with
      | Hr : db_workflow d1 !! wf_id parent = Some ?r, Es : wf_status ?r = _ |- _ =>
          rename Hr into Hrow; rewrite <- Es in Hs
      end.
      assert (is_terminal (wf_status r) = false) as Ht by (by destruct (wf_status r)).
      intros [[HL HT] (child & Hc & Hlive)]. pose proof (lk_workflow _ _ _ _ HL _ _ Hrow) as [Hid _].
      split; [split; [|done]|].
      * simpl. eapply linked_workflow; [exact HL|exact Hrow|done|done|by right|by left| |right; split; congruence].
        intros _. split; [done|]. simpl. destruct (decide (wf_id parent = successor)) as [<-|].
        -- rewrite lookup_insert_eq. eexists. split; [done|]. by left.
        -- rewrite lookup_insert_ne by done. eauto.
      * unfold live_in. simpl. destruct (decide (wf_id parent = successor)) as [<-|].
        -- rewrite lookup_insert_eq. eexists. by split.
        -- rewrite lookup_insert_ne by done. eauto.
    + intros w r'. simpl. intros [[<- <-]|[_ Hr']]%lookup_insert_Some; [|done].
      rewrite waits_on_child_spec. intros [_ [_ E]]. simpl in E. congruence.
    + intros r0. simpl. rewrite lookup_insert_eq. intros [= <-].
      apply not_true_iff_false. rewrite waits_on_child_spec. intros [_ [_ E]]. simpl in E. congruence.
  - intros [] d' [HR HQ]. eapply (released_all I); try done. by intros ? [].
Qed.

Lemma wp_recoverable_couples e d kind version input state options :
  db_ok d → coupled d →
  wp any_error (recoverable_start_in kind version input state options) e d (λ _ d', coupled d').
Proof.
  intros Hok Hd. unfold recoverable_start_in.
  assert (∀ options, wp any_error (insert_prepared_untraced kind version input state options) e d
    (λ _ d', coupled d')) as Hins.
  { intros o. apply wp_insert_prepared_couples; [done|done| |done]. by intros id d' []. }
  destruct (deduplication_key options) as [key|]; [|apply Hins].
  apply wp_bind. unfold find_by_deduplication_key. apply wp_bind, wp_select_workflows.
  intros rows Hrows. apply wp_ret. destruct (head rows) as [original|] eqn:Eh; [|apply Hins].
  apply head_Some_elem_of, Hrows in Eh as [_ [id Hid]].
  assert (db_workflow d !! wf_id original = Some original) as Hcur
    by (by rewrite (proj1 (ok_workflow _ Hok _ _ Hid))).
  cbv zeta. do 2 run_step. apply wp_bind, wp_newest_current; [done|done|]. intros latest Hlatest.
  run_step; [by apply wp_ret|]. apply wp_bind, wp_insert_prepared_couples; [done|done| |done].
  intros succ d1 [Hd1 Hnone (row & EW & Hrow) EA EP ET].
  assert (succ ≠ wf_id latest) as Hne by congruence.
  assert (db_workflow d1 !! wf_id latest = Some latest) as Hlatest1
    by (by rewrite EW, lookup_insert_ne).
  apply wp_bind, wp_now. intros i. apply wp_bind, wp_update_activities. destruct Hd1 as [HL1 HT1].
  pose proof (letters_cancelled_attempts _ _ (wf_id latest) (env_clock e i) HT1) as HT2.
  apply wp_bind. case_bool_decide as Hb.
  - repeat run_step.
    match goal with
    | Hr : db_workflow (fset db_activity _ _) !! wf_id latest = Some ?r |- _ =>
        change (db_workflow d1 !! wf_id latest = Some r) in Hr; assert (r = latest) as -> by congruence
    end.
    pose proof (lk_workflow _ _ _ _ HL1 _ _ Hlatest1) as [Hlid _].
    eapply wp_mono; [apply wp_hand_couples; [split; [|exact HT2]| |done]|].
    + exact (letters_cancelled_blocked (db_workflow d1) (db_activity d1) (db_approval d1) _ latest
        (superseded_row (env_clock e i) latest) (env_clock e i) HL1 Hlatest1 Hb Hlid eq_refl).
    + exists row. split; [|done]. simpl. by rewrite lookup_insert_ne, EW, lookup_insert_eq.
    + intros [] d2 Hd2. by repeat link_step.
  - repeat run_step. split; [|exact HT2]. eapply letters_cancelled_ended; [exact HL1|done|].
    by destruct (wf_status latest).
Qed.

Lemma wp_start_or_restart_couples e d kind version input state options :
  db_ok d → coupled d →
  wp any_error (start_or_restart_recoverable kind version input state options) e d
    (λ _ d', coupled d').
Proof.
  intros Hok Hd. unfold start_or_restart_recoverable. repeat run_step.
  by apply wp_recoverable_couples.
Qed.

Lemma wp_start_couples e d kind version input state options :
  db_ok d → coupled d →
  wp any_error (start kind version input state options) e d (λ _ d', coupled d').
Proof.
  intros Hok Hd. unfold start. repeat run_step.
  apply wp_insert_prepared_couples; [done|done| |done]. by intros id d' [].
Qed.

Lemma wp_start_prepared_couples e d prepared options :
  db_ok d → coupled d →
  wp any_error (start_prepared_with_conn prepared options) e d (λ _ d', coupled d').
Proof.
  intros Hok Hd. unfold start_prepared_with_conn, start_prepared_in. repeat run_step.
  apply wp_insert_prepared_couples; [done|done| |done]. by intros id d' [].
Qed.
End recovery.
