(* ===== verification/LinkRuns.v ===== *)
(** The links of the rows ([Links]) through the transactions of the
    coordinator, the activity worker, the materializers and the operator. *)
From stdpp Require Import base gmap list strings.
From Stdlib Require Import ZArith Lia.
From S2P Require Import Prelude.
From S2P Require Import Errors.
From S2P Require Import Status.
From S2P Require Import Rows.
From S2P Require Import Database.
From S2P Require Import TxLogic.
From S2P Require Import Lifecycle.
From S2P Require Import Evolution.
From S2P Require Import Policy.
From S2P Require Import Transitions.
From S2P Require Import Registry.
From S2P Require Import Parents.
From S2P Require Import Store.
From S2P Require Import StoreSteps.
From S2P Require Import Coordinator.
From S2P Require Import Worker.
From S2P Require Import Temporal.
From S2P Require Import Control.
From S2P Require Import Reads.
From S2P Require Import Links.
From S2P Require Import LinkSteps.
From S2P Require Import Invariants.
From S2P Require Import CoordinatorSteps.
From S2P Require Import WorkerSteps.
From S2P Require Import TemporalSteps.
From S2P Require Import ControlSteps.

(** * Rows that wait on nothing *)

(** A ready or running workflow has no wait. *)
Lemma unwaiting x W A P w r :
  linked x W A P → W !! w = Some r → wf_status r = WfReady ∨ wf_status r = WfRunning →
  wf_wait_kind r = None ∧ wf_wait_reference_id r = None.
Proof.
  intros HL Hr Hs. destruct (lk_workflow _ _ _ _ HL _ _ Hr) as [_ Hl].
  assert (is_terminal (wf_status r) = false) as Ht by (by destruct Hs as [-> | ->]).
  specialize (Hl Ht). unfold wait_live in Hl.
  destruct (wf_wait_kind r) as [[]|], (wf_wait_reference_id r); try done;
    exfalso; destruct Hs as [E|E]; rewrite E in Hl; simpl in Hl; naive_solver.
Qed.

(** It moves on without one. *)
Lemma unwaiting_moves c d id r r' :
  coupled_but c d → db_workflow d !! id = Some r → wf_status r = WfReady ∨ wf_status r = WfRunning →
  wf_id r' = wf_id r → no_wait_ok (wf_status r') = true →
  wf_wait_kind r' = wf_wait_kind r → wf_wait_reference_id r' = wf_wait_reference_id r →
  coupled_but c (d <| db_workflow := <[id := r']> (db_workflow d) |>).
Proof.
  intros [HL HT] Hr Hs Hid Hs' Ek Er. split; [|done].
  destruct (unwaiting _ _ _ _ _ _ HL Hr Hs) as [E1 E2].
  pose proof (lk_workflow _ _ _ _ HL _ _ Hr) as [Hrid _].
  eapply linked_workflow; [exact HL|exact Hr| |congruence|by right| | |].
  - by destruct Hs as [-> | ->].
  - left. by destruct (wf_status r').
  - intros _. unfold wait_live. by rewrite Ek, Er, E1, E2.
  - right. by rewrite E1.
Qed.

(** It ends; its parents are woken after it. *)
Lemma unwaiting_ends d id r r' :
  coupled d → db_workflow d !! id = Some r → wf_status r = WfReady ∨ wf_status r = WfRunning →
  wf_id r' = wf_id r → is_terminal (wf_status r') = true →
  coupled_but (Some id) (d <| db_workflow := <[id := r']> (db_workflow d) |>).
Proof.
  intros [HL HT] Hr Hs Hid Ht. split; [|done].
  destruct (unwaiting _ _ _ _ _ _ HL Hr Hs) as [E1 E2].
  pose proof (lk_workflow _ _ _ _ HL _ _ Hr) as [Hrid _].
  eapply linked_workflow; [exact HL|exact Hr| |congruence|by left|by right|congruence|].
  - by destruct Hs as [-> | ->].
  - right. by rewrite E1.
Qed.

(** It waits on a timer or a child. *)
Lemma unwaiting_waits c d id r r' :
  coupled_but c d → db_workflow d !! id = Some r → wf_status r = WfReady ∨ wf_status r = WfRunning →
  wf_id r' = wf_id r → is_terminal (wf_status r') = false →
  wait_live c (<[id := r']> (db_workflow d)) (db_activity d) (db_approval d) r' →
  coupled_but c (d <| db_workflow := <[id := r']> (db_workflow d) |>).
Proof.
  intros [HL HT] Hr Hs Hid Ht Hlive. split; [|done].
  destruct (unwaiting _ _ _ _ _ _ HL Hr Hs) as [E1 E2].
  pose proof (lk_workflow _ _ _ _ HL _ _ Hr) as [Hrid _].
  eapply linked_workflow; [exact HL|exact Hr| |congruence|by right|by left|done|].
  - by destruct Hs as [-> | ->].
  - right. by rewrite E1.
Qed.

Lemma fenced_running token r : fenced token r = true → wf_status r = WfRunning.
Proof. unfold fenced. rewrite bool_decide_eq_true. by intros []. Qed.

(** * T-C1 *)

#[export] Instance append_history_couples id event_type now :
  Couples (append_history id event_type now).
Proof. unfold append_history. links.
 Qed.

#[export] Instance recover_expired_couples now expired : Couples (recover_expired now expired).
Proof.
  unfold recover_expired. intros e d Hd. repeat link_step; try done; try still.
  eapply unwaiting_moves; [exact Hd|eassumption|by right|done..].
Qed.

#[export] Instance claim_row_couples config worker definitions :
  Couples (claim_row config worker definitions).
Proof.
  unfold claim_row. intros e d Hd. repeat link_step; try done; try still.
  all: eapply unwaiting_moves; [eassumption|eassumption|by left|done..].
Qed.

(** * T-C2 *)

(** A running workflow waits on the activity it schedules. *)
Lemma unwaiting_schedules c d id r r' ac :
  coupled_but c d → db_workflow d !! id = Some r → wf_status r = WfRunning →
  db_activity d !! ac_id ac = None → wf_id r' = wf_id r → wf_status r' = WfWaitingActivity →
  waits_on KindActivity (ac_id ac) r' → ac_workflow_id ac = id → ac_status ac = ActPending →
  ac_attempt_count ac = 0%Z →
  coupled_but c ((with_activity d ac)
    <| db_workflow := <[id := r']> (db_workflow (with_activity d ac)) |>).
Proof.
  intros [HL HT] Hr Hs Hnone Hid Hs' [Ek Er] Ho Hp Hcount.
  destruct (unwaiting _ _ _ _ _ _ HL Hr (or_intror Hs)) as [E1 E2].
  pose proof (lk_workflow _ _ _ _ HL _ _ Hr) as [Hrid _]. split; simpl.
  - eapply linked_activity; [exact HL|exact Hr| | |by rewrite E1|congruence|..]; try done.
    + by rewrite Hs.
    + intros b bc [? _]. congruence.
    + by rewrite Hs'.
    + congruence.
    + unfold wait_live. rewrite Ek, Er. exists ac. rewrite lookup_insert_eq, Hs', Hp.
      split_and!; [done|congruence|done].
  - apply attempts_new; [done|done|done|]. by rewrite Hp.
Qed.

(** It waits on the approval it asks for. *)
Lemma unwaiting_asks c d id r r' ap :
  coupled_but c d → db_workflow d !! id = Some r → wf_status r = WfRunning →
  db_approval d !! ap_id ap = None → wf_id r' = wf_id r → wf_status r' = WfWaitingApproval →
  waits_on KindApproval (ap_id ap) r' → ap_workflow_id ap = id →
  ap_status ap = ApprPending → ap_command_sequence ap = wf_command_sequence r' →
  coupled_but c ((with_approval d ap)
    <| db_workflow := <[id := r']> (db_workflow (with_approval d ap)) |>).
Proof.
  intros [HL HT] Hr Hs Hnone Hid Hs' [Ek Er] Ho Hp Hcmd.
  destruct (unwaiting _ _ _ _ _ _ HL Hr (or_intror Hs)) as [E1 E2].
  pose proof (lk_workflow _ _ _ _ HL _ _ Hr) as [Hrid _]. split; [|done]. simpl.
  eapply linked_approval; [exact HL|exact Hr| | |by rewrite E1|congruence|..]; try done.
  - by rewrite Hs.
  - intros q [? _]. congruence.
  - by rewrite Hs'.
  - congruence.
  - unfold wait_live. rewrite Ek, Er, Hs'. split; [done|]. exists ap. rewrite lookup_insert_eq.
    split_and!; [done|congruence|done|done].
Qed.

Lemma next_activity_fresh d : db_ok d → db_activity d !! db_next_activity d = None.
Proof. intros Hok. apply eq_None_not_Some. intros [r (_ & ? & _)%(ok_activity _ Hok)]. lia. Qed.
Lemma next_approval_fresh d : db_ok d → db_approval d !! db_next_approval d = None.
Proof. intros Hok. apply eq_None_not_Some. intros [r (_ & ? & _)%(ok_approval _ Hok)]. lia. Qed.

Lemma u32_try_from_eq n m : u32_try_from n = Some m → m = n.
Proof. unfold u32_try_from. case_match; congruence. Qed.

Section commit.
Context `{Codec}.

Lemma wp_commit_activity_couples e d claim delivered command state activity now :
  db_ok d → coupled d →
  wp any_error (commit_activity claim delivered command state activity now) e d
    (λ _ d', coupled d').
Proof.
  intros Hok Hd. unfold commit_activity. cbv zeta. unfold append_history. repeat run_step.
  match goal with Hf : fenced _ _ = true |- _ => apply fenced_running in Hf end.
  apply coupled_event. eapply unwaiting_schedules; [exact Hd|eassumption|done| |done..].
  by apply next_activity_fresh.
Qed.

(** The row the child command resolves to. *)
Definition child_found (d d' : Db) (child : ChildStart) : Prop :=
  match child with
  | ChildInserted id => adds id d d'
  | ChildExisting row => d' = d ∧ db_workflow d !! wf_id row = Some row
  end.

Lemma wp_resolve_existing_found e d child keyed :
  db_ok d → db_workflow d !! wf_id keyed = Some keyed →
  wp any_error (resolve_existing_child child keyed) e d (λ c d', child_found d d' c).
Proof.
  intros Hok Hk. unfold resolve_existing_child. do 2 run_step.
  apply wp_bind, wp_newest_current; [done|done|]. intros r Hr. by repeat run_step.
Qed.

Lemma wp_insert_child_found e d child key parent command root :
  db_ok d → coupled d →
  wp any_error (insert_child child key parent command root) e d (λ c d', child_found d d' c).
Proof.
  intros Hok Hd. unfold insert_child. destruct (negb _); [by apply wp_fail|].
  apply wp_bind, wp_read; [apply _|]. intros [keyed|].
  - unfold lock_workflow_by_id. apply wp_bind, wp_bind, wp_find_workflow.
    + intros _. by apply wp_first_or_not_found.
    + intros r Hr _. apply wp_first_or_not_found; [done|]. intros ? [= <-].
      apply wp_resolve_existing_found; [done|]. by rewrite (proj1 (ok_workflow _ Hok _ _ Hr)).
  - apply wp_bind. unfold insert_new_child. do 2 run_step.
    apply wp_insert_started_couples; [apply _|done|done| |].
    + intros id d' Hd'. by apply wp_ret.
    + intros row _ Hrow. by apply wp_resolve_existing_found.
Qed.

Lemma terminal_outcome_None r : terminal_outcome r = None → is_terminal (wf_status r) = false.
Proof. unfold terminal_outcome. by destruct (wf_status r). Qed.

(** The parent waits on the child; an existing child that ended wakes it. *)
Lemma child_wait_couples c d id r r' child :
  coupled d → db_workflow d !! id = Some r → wf_status r = WfRunning → wf_id r' = wf_id r →
  wf_status r' = WfWaitingChild → waits_on KindChild child r' →
  (∃ row, db_workflow d !! child = Some row
    ∧ (is_terminal (wf_status row) = false ∨ c = Some child)) →
  coupled_but c (d <| db_workflow := <[id := r']> (db_workflow d) |>).
Proof.
  intros [HL HT] Hr Hs Hid Hs' [Ek Er] (row & Hrow & Hlive).
  eapply unwaiting_waits; [split; [by apply linked_weaken|done]|exact Hr|by right|done|by rewrite Hs'|].
  unfold wait_live. rewrite Ek, Er, Hs'. split; [done|]. destruct (decide (id = child)) as [<-|].
  - exists r'. rewrite lookup_insert_eq, Hs'. split; [done|by left].
  - exists row. by rewrite lookup_insert_ne.
Qed.

Lemma wp_commit_child_couples e d claim delivered command state child now :
  db_ok d → coupled d →
  wp any_error (commit_child claim delivered command state child now) e d (λ _ d', coupled d').
Proof.
  intros Hok Hd. unfold commit_child, set_child_wait, append_history. cbv zeta.
  apply wp_bind. eapply wp_mono; [by apply wp_insert_child_found|].
  intros [id|existing] d1 Hfound; cbn [child_start_inserted child_start_id].
  - destruct Hfound as [Hd1 Hnone (row & EW & Hrow) _ _ _]. repeat run_step.
    match goal with Hf : fenced _ _ = true |- _ => apply fenced_running in Hf end.
    apply coupled_event. eapply child_wait_couples; [exact Hd1|eassumption|done..|].
    exists row. rewrite EW, lookup_insert_eq. auto.
  - destruct Hfound as [-> Hcur]. repeat run_step.
    all: match goal with Hf : fenced _ _ = true |- _ => apply fenced_running in Hf end.
    + apply wp_wake_couples, coupled_event.
      eapply child_wait_couples; [exact Hd|eassumption|done..|by eauto].
    + apply coupled_event. eapply child_wait_couples; [exact Hd|eassumption|done..|].
      eauto using terminal_outcome_None.
Qed.

Ltac run_fenced :=
  unfold append_history; repeat run_step;
  match goal with Hf : fenced _ _ = true |- _ => apply fenced_running in Hf end.

Lemma wp_commit_wait_couples e d claim delivered transition now :
  db_ok d → coupled d →
  wp any_error (commit_wait_transition claim delivered transition now) e d (λ _ d', coupled d').
Proof.
  intros Hok Hd. unfold commit_wait_transition. cbv zeta.
  destruct transition as [state wake|state approval expires|state activity|state child];
    [| |by apply wp_commit_activity_couples|by apply wp_commit_child_couples]; run_fenced;
    apply coupled_event.
  - eapply unwaiting_waits; [exact Hd|eassumption|by right|done|done|].
    match goal with E : u32_try_from _ = Some _ |- _ =>
      pose proof E; apply u32_try_from_eq in E as -> end.
    unfold wait_live. simpl. done.
  - eapply unwaiting_asks; [exact Hd|eassumption|done| |done..]. by apply next_approval_fresh.
Qed.

Lemma wp_commit_couples e d config claim event transition :
  db_ok d → coupled d →
  wp any_error (commit_on_connection config claim event transition) e d (λ _ d', coupled d').
Proof.
  intros Hok Hd. unfold commit_on_connection. cbv zeta. do 4 run_step.
  destruct transition as [state activity|state child|state wake|state approval expires|state|output];
    try by apply wp_commit_wait_couples.
  - run_fenced; apply coupled_event;
      (eapply unwaiting_moves; [exact Hd|eassumption|by right|done..]).
  - run_fenced. apply wp_wake_couples, coupled_event.
    eapply unwaiting_ends; [exact Hd|eassumption|by right|done..].
Qed.

(** * T-C3 *)

#[export] Instance record_activation_failure_couples config claim message :
  Couples (record_activation_failure config claim message).
Proof.
  intros e d Hd. unfold record_activation_failure. cbv zeta. run_fenced.
  - apply wp_wake_couples, coupled_event. eapply unwaiting_ends; [exact Hd|eassumption|by right|done..].
  - apply coupled_event. eapply unwaiting_moves; [exact Hd|eassumption|by right|done..].
Qed.
End commit.

(** * The activity worker *)

(** The activity of a workflow in [waiting_activity]. *)
Lemma waiting_on x W A P w r a :
  linked x W A P → W !! w = Some r → waits_on_activity a r = true →
  wf_status r = WfWaitingActivity ∧ waits_on KindActivity a r
  ∧ ∃ ac, A !! a = Some ac ∧ ac_workflow_id ac = w ∧ is_non_terminal (ac_status ac) = true.
Proof.
  intros HL Hr Hw. unfold waits_on_activity in Hw. norm_tests.
  destruct (lk_workflow _ _ _ _ HL _ _ Hr) as [Hid Hl].
  assert (is_terminal (wf_status r) = false) as Ht by (by rewrite H). specialize (Hl Ht).
  unfold wait_live in Hl. rewrite H0 in Hl.
  destruct (wf_wait_kind r) as [[]|] eqn:Ek; try done.
  - destruct Hl as [Hl _]. by rewrite H in Hl.
  - split; [done|]. split; [done|]. destruct Hl as (ac & Hac & Ho & Hok). exists ac.
    split_and!; [done|congruence|]. rewrite H in Hok. by destruct (ac_status ac).
  - destruct Hl as [Hl _]. by rewrite H in Hl.
  - destruct Hl as [Hl _]. by rewrite H in Hl.
Qed.

(** The awaited activity settles: its workflow wakes or is blocked. *)
Lemma linked_settled x W A P w r r' a ac ac' :
  linked x W A P → W !! w = Some r → waits_on_activity a r = true → A !! a = Some ac →
  ac_id ac' = ac_id ac → ac_workflow_id ac' = ac_workflow_id ac →
  is_non_terminal (ac_status ac') = false →
  wf_id r' = wf_id r → is_terminal (wf_status r') = false →
  (wf_wait_kind r' = None ∧ wf_wait_reference_id r' = None ∧ no_wait_ok (wf_status r') = true)
    ∨ (same_waits r r' ∧ activity_wait_ok (wf_status r') (ac_status ac') = true) →
  linked x (<[w := r']> W) (<[a := ac']> A) P.
Proof.
  intros HL Hr Hw Hac Hid Ho Hn Hrid Ht' Hwait.
  destruct (waiting_on _ _ _ _ _ _ _ HL Hr Hw) as (Hs & [Ek Er] & ac0 & Hac0 & Ho0 & _).
  pose proof (lk_workflow _ _ _ _ HL _ _ Hr) as [Hwid _].
  pose proof (lk_activity _ _ _ _ HL _ _ Hac) as [Haid _]. simplify_eq.
  apply (linked_activity _ _ _ _ _ r); try done; try congruence.
  - by rewrite Hs.
  - intros b bc [_ E] _ _. congruence.
  - unfold wait_live. destruct Hwait as [(-> & -> & Hok)|[[-> ->] Hok]]; [done|].
    rewrite Ek, Er. exists ac'. rewrite lookup_insert_eq. split_and!; [done|congruence|done].
Qed.

Lemma attempt_open_spec token t :
  attempt_open token t = true ↔ att_lease_token t = token ∧ att_finished_at t = None.
Proof. unfold attempt_open. by rewrite bool_decide_eq_true. Qed.

#[export] Instance append_activity_history_couples row event_type reason now :
  Couples (append_activity_history row event_type reason now).
Proof. unfold append_activity_history. links. Qed.

(** T-W2 *)
#[export] Instance heartbeat_once_couples claim started : Couples (heartbeat_once claim started).
Proof.
  intros e d Hd. unfold heartbeat_once. repeat run_step; light_eq.
  all: destruct Hd as [HL HT]; split; simpl.
  all: match goal with Hf : leased_activity _ _ = true |- _ =>
    apply leased_activity_spec in Hf as (? & ? & ?) end.
  all: try (eapply linked_same_activity; [exact HL|eassumption| |done..];
    by destruct (ac_status _)).
  all: eapply attempts_beat; [exact HT|eassumption|by split_and!|eassumption|done..].
Qed.

(** A revoked attempt settles. *)
Lemma wp_settle_revoked_couples e d row outcome message now :
  coupled d → db_activity d !! ac_id row = Some row →
  wp any_error (settle_revoked row outcome message now) e d (λ _ d', coupled d').
Proof.
  intros [HL HT] Hrow. unfold settle_revoked. cbv zeta. unfold close_attempt, append_activity_history.
  repeat run_step; apply coupled_event;
    match goal with
    | Hr : db_activity (fset db_attempt _ _) !! ac_id row = Some ?r |- _ =>
        change (db_activity d !! ac_id row = Some r) in Hr; assert (r = row) as -> by congruence
    | Hr : db_activity d !! ac_id row = Some ?r |- _ => assert (r = row) as -> by congruence
    end.
  all: split; simpl.
  all: try (eapply attempts_close; [exact HT|exact Hrow|done|done|eassumption|done|]; by destruct (is_terminal _)).
  assert (is_non_terminal (ac_status row) = true) as Hn
    by (match goal with E : ac_status row = _ |- _ => by rewrite E end).
  eapply linked_activity_only; [exact HL|exact Hrow|done..|]. intros w Hw.
  assert (w = a0) as -> by congruence. destruct (is_terminal (wf_status a0)) eqn:Et; [done|].
  destruct (awaited_status _ _ _ _ _ _ _ HL Hrow Hn Hw Et) as [_ Hok].
  match goal with E : ac_status row = _ |- _ => rewrite E in Hok end.
  simpl. by destruct (wf_status a0).
Qed.

(** The activity is dead-lettered and its workflow blocked. *)
Lemma wp_block_couples e d d' row ac ac' category message now (Φ : unit → Db → Prop) :
  coupled d → db_workflow d' = db_workflow d → db_approval d' = db_approval d →
  db_activity d' = <[ac_id row := ac']> (db_activity d) →
  attempts_ok (db_attempt d') (db_activity d') → db_activity d !! ac_id row = Some ac →
  ac_id ac' = ac_id ac → ac_workflow_id ac' = ac_workflow_id ac → ac_status ac' = ActDeadLettered →
  (∀ d'', coupled d'' → Φ tt d'') →
  wp any_error (block_workflow row category message now) e d' Φ.
Proof.
  intros [HL HT] EW EP EA HT' Hac Hacid Ho Hs HΦ. unfold block_workflow. repeat run_step.
  match goal with Hr : db_workflow d' !! _ = Some ?r |- _ => rename Hr into Hrow; rewrite EW in Hrow end.
  assert (wf_status r = WfWaitingActivity ∧ waits_on KindActivity (ac_id row) r) as [Hst _]
    by (edestruct waiting_on as (? & ? & _); [exact HL|exact Hrow|eassumption|done]).
  apply HΦ, coupled_event. split; [|exact HT']. simpl. rewrite EW, EP, EA.
  eapply linked_settled; [exact HL|exact Hrow|eassumption|exact Hac|done|done|by rewrite Hs|done|done|].
  right. split; [done|]. by rewrite Hs.
Qed.

(** T-W3 *)
Section finish.
Context `{Codec}.

Lemma wp_wake_workflow_couples e d d' claim ac ac' output now :
  coupled d → db_workflow d' = db_workflow d → db_approval d' = db_approval d →
  db_activity d' = <[ac_id (acl_row claim) := ac']> (db_activity d) →
  attempts_ok (db_attempt d') (db_activity d') →
  db_activity d !! ac_id (acl_row claim) = Some ac →
  ac_id ac' = ac_id ac → ac_workflow_id ac' = ac_workflow_id ac → ac_status ac' = ActSucceeded →
  wp any_error (wake_workflow claim output now) e d' (λ _ d'', coupled d'').
Proof.
  intros [HL HT] EW EP EA HT' Hac Hacid Ho Hs. unfold wake_workflow. cbv zeta. repeat run_step.
  match goal with Hr : db_workflow (with_event d' _) !! _ = Some ?r |- _ =>
    rename Hr into Hrow; change (db_workflow d' !! ac_workflow_id (acl_row claim) = Some r) in Hrow;
    rewrite EW in Hrow end.
  split; [|exact HT']. simpl. rewrite EW, EP, EA.
  eapply linked_settled; [exact HL|exact Hrow|eassumption|exact Hac|done|done|by rewrite Hs|done|done|].
  by left.
Qed.

Lemma wp_dead_letter_couples e d claim row category message now :
  coupled d → ac_id row = ac_id (acl_row claim) →
  wp any_error (dead_letter claim row category message now) e d (λ _ d', coupled d').
Proof.
  intros Hd Hid. pose proof Hd as [HL HT]. unfold dead_letter, finish_attempt. repeat run_step.
  match goal with Hf : fenced_activity _ _ = true |- _ =>
    apply fenced_activity_spec in Hf as (Hs & Hc & Htok) end.
  eapply wp_block_couples; [exact Hd|done|done|by rewrite Hid| |by rewrite Hid|done..].
  eapply attempts_close; [exact HT|eassumption|done|done|eassumption|done|done].
Qed.

#[export] Instance finish_on_connection_couples claim outcome :
  Couples (finish_on_connection claim outcome).
Proof.
  intros e d Hd. pose proof Hd as [HL HT]. unfold finish_on_connection. cbv zeta.
  repeat run_step;
    match goal with Ha : db_activity d !! ac_id (acl_row claim) = Some ?r |- _ =>
      rename Ha into Hac; pose proof (lk_activity _ _ _ _ HL _ _ Hac) as [Hid _] end.
  - unfold finish_attempt. do 3 run_step.
    match goal with Hf : fenced_activity _ _ = true |- _ =>
      apply fenced_activity_spec in Hf as (Hs & Hc & Htok) end.
    eapply wp_wake_workflow_couples; [exact Hd|done|done|done| |exact Hac|done..].
    eapply attempts_close; [exact HT|exact Hac|done|done|eassumption|done|done].
  - by apply wp_dead_letter_couples.
  - unfold finish_attempt, append_activity_history. repeat run_step. apply coupled_event.
    match goal with Hf : fenced_activity _ _ = true |- _ =>
      apply fenced_activity_spec in Hf as (Hs & Hc & Htok) end.
    split; simpl; [|eapply attempts_close; [exact HT|exact Hac|done|done|eassumption|done|done]].
    eapply linked_running_moves; [exact HL|exact Hac|done..].
  - by apply wp_dead_letter_couples.
  - eapply wp_mono; [apply wp_settle_revoked_couples; [done|by rewrite Hid]|].
    intros ? d' Hd'. by apply wp_ret.
Qed.
End finish.

(** T-W1: reconciliation *)
Section claims.
Context `{Codec}.

Lemma wp_reconcile_running_couples e d workflow row now :
  coupled d → db_activity d !! ac_id row = Some row → ac_status row = ActRunning →
  db_workflow d !! ac_workflow_id row = Some workflow →
  wp any_error (reconcile_running workflow row now) e d (λ _ d', coupled d').
Proof.
  intros Hd Hrow Hs Hw. pose proof Hd as [HL HT]. unfold reconcile_running. cbv zeta.
  unfold append_activity_history.
  destruct (running_awaited _ _ _ _ _ _ HL Hrow Hs) as (r & Hr & Hst & Hwait).
  assert (waits_on_activity (ac_id row) workflow = true) as Hwaits.
  { apply bool_decide_eq_true. simplify_eq. by destruct Hwait. }
  rewrite Hwaits, andb_true_r. repeat run_step.
  - eapply wp_block_couples; [exact Hd|done|done|done| |exact Hrow|done..].
    eapply attempts_close; [exact HT|exact Hrow|done|done|eassumption|done|done].
  - apply coupled_event. split; simpl; [by eapply linked_running_moves|].
    eapply attempts_close; [exact HT|exact Hrow|done|done|eassumption|done|done].
Qed.

Lemma wp_reconcile_candidate_couples e d topic now candidate :
  coupled d →
  (∀ row, db_activity d !! ac_id candidate = Some row →
     ac_workflow_id row = ac_workflow_id candidate) →
  wp any_error (reconcile_candidate topic now candidate) e d (λ _ d', coupled d').
Proof.
  intros Hd Hown. pose proof Hd as [HL HT]. unfold reconcile_candidate.
  repeat run_step; try done;
    match goal with Ha : db_activity d !! ac_id candidate = Some ?r |- _ =>
      rename Ha into Hac; pose proof (lk_activity _ _ _ _ HL _ _ Hac) as [Hid _];
      specialize (Hown _ Hac); rewrite <- Hid in Hac end.
  - eapply wp_mono; [apply wp_reconcile_running_couples; [done..|by rewrite Hown]|].
    intros ? d' Hd'. by apply wp_ret.
  - eapply wp_mono; [by apply wp_settle_revoked_couples|]. intros ? d' Hd'. by apply wp_ret.
Qed.

(** An operation that needs the constraints of the schema too. *)
Class Keeps {A} (m : Tx A) : Prop :=
  keeps : ∀ e d, db_ok d → coupled d → wp any_error m e d (λ _ d', coupled d').

#[export] Instance couples_keeps {A} (m : Tx A) : Couples m → Keeps m | 10.
Proof. intros Hm e d _. apply Hm. Qed.

Lemma wp_keeps {A} (m : Tx A) `{!Keeps m, !Evolves m} e d (Φ : A → Db → Prop) :
  db_ok d → coupled d →
  (∀ a d', evolves d d' → coupled d' → Φ a d') → wp any_error m e d Φ.
Proof.
  intros Hok Hd HΦ. eapply wp_mono; [apply wp_and; [by apply evolves_wp|by apply keeps]|].
  intros a d' [? ?]. auto.
Qed.

(** An activity keeps its workflow. *)
Lemma evolves_owner d d' a ac :
  evolves d d' → db_activity d !! a = Some ac →
  ∃ ac', db_activity d' !! a = Some ac' ∧ ac_workflow_id ac' = ac_workflow_id ac.
Proof.
  intros [_ []] Hac. specialize (te_activity a). rewrite Hac in te_activity.
  destruct (db_activity d' !! a) as [ac'|]; [|done]. exists ac'. split; [done|].
  apply ac_steps_grow in te_activity as [(_ & -> & _) _]. done.
Qed.

Definition owned_as (d : Db) (candidate : ActivityRow) : Prop :=
  ∃ row, db_activity d !! ac_id candidate = Some row
    ∧ ac_workflow_id row = ac_workflow_id candidate.

Lemma wp_reconcile_candidates_keeps e d topic now candidates :
  db_ok d → coupled d → (∀ c, c ∈ candidates → owned_as d c) →
  wp any_error (reconcile_candidates topic now candidates) e d (λ _ d', coupled d').
Proof.
  revert d. induction candidates as [|c cs IH]; intros d Hok Hd Hown; simpl; [by apply wp_ret|].
  apply wp_bind. eapply wp_mono.
  { apply wp_and; [by apply evolves_wp|apply wp_reconcile_candidate_couples; [done|]].
    intros row Hrow. destruct (Hown c ltac:(by left)) as (row' & ? & ?). congruence. }
  intros unsettled d1 [Hev Hd1]. apply wp_bind. eapply wp_mono; [apply IH; [apply Hev|done|]|].
  - intros c' Hc'. destruct (Hown c' ltac:(by right)) as (row & Hrow & Ho).
    destruct (evolves_owner _ _ _ _ Hev Hrow) as (row' & Hrow' & Ho'). exists row'.
    split; [done|congruence].
  - intros more d2 Hd2. by apply wp_ret.
Qed.

#[export] Instance reconcile_expired_keeps topic now : Keeps (reconcile_expired topic now).
Proof.
  intros e d Hok Hd. unfold reconcile_expired. apply wp_bind, wp_select_activities.
  intros rows Hrows. apply wp_reconcile_candidates_keeps; [done|done|].
  intros c [_ [id Hid]]%Hrows. exists c. destruct (ok_activity _ Hok _ _ Hid) as [-> _]. done.
Qed.

(** T-W1: the claim *)
Lemma wp_quarantine_couples e d row reason message now :
  coupled d → db_activity d !! ac_id row = Some row →
  wp any_error (quarantine_candidate row reason message now) e d (λ _ d', coupled d').
Proof.
  intros Hd Hrow. pose proof Hd as [HL HT]. unfold quarantine_candidate, append_activity_history.
  cbv zeta. repeat run_step.
  eapply wp_block_couples; [exact Hd|done|done|done| |eassumption|done..].
  eapply attempts_same; [exact HT|eassumption|].
  unfold lease_same. simpl. match goal with E : ac_status _ = ActPending |- _ => rewrite E end.
  by split_and!.
Qed.

Lemma i32_checked_add_eq n m k : i32_checked_add n m = Some k → k = (n + m)%Z.
Proof. unfold i32_checked_add, i32_try_from. repeat case_match; congruence. Qed.

Lemma wp_claim_row_locked_couples e d row run policy now started worker workflow :
  coupled d → db_activity d !! ac_id row = Some row →
  db_workflow d !! ac_workflow_id row = Some workflow →
  waits_on_activity (ac_id row) workflow = true →
  wp any_error (claim_row_locked row run policy now started worker) e d (λ _ d', coupled d').
Proof.
  intros Hd Hrow Hw Hwaits. pose proof Hd as [HL HT]. unfold claim_row_locked. repeat run_step.
  match goal with E : i32_checked_add _ _ = Some _ |- _ => apply i32_checked_add_eq in E end.
  match goal with F : attempt_fresh _ _, E : ac_status ?r = ActPending |- _ =>
    destruct F as [Hpos _]; rename E into Hs; assert (is_non_terminal (ac_status r) = true)
      as Hn by (by rewrite Hs) end.
  split; simpl.
  - eapply linked_activity_only; [exact HL|exact Hrow|done..|]. intros w Hw'. simplify_eq.
    destruct (waiting_on _ _ _ _ _ _ _ HL Hw Hwaits) as (-> & _). done.
  - eapply attempts_claim; [exact HT|exact Hrow|by rewrite Hs|done..].
Qed.

#[export] Instance claim_locked_candidate_couples activities id workflow now started worker :
  Couples (claim_locked_candidate activities id workflow now started worker).
Proof.
  intros e d Hd. pose proof Hd as [HL HT]. unfold claim_locked_candidate, claimable.
  repeat run_step; try done;
    match goal with Ha : db_activity d !! id = Some ?r |- _ =>
      rename Ha into Hac; pose proof (lk_activity _ _ _ _ HL _ _ Hac) as [Hid _];
      rewrite <- Hid in Hac end.
  all: try (eapply wp_mono; [by apply wp_quarantine_couples|]; intros ? d' Hd'; by apply wp_ret).
  eapply wp_mono; [eapply wp_claim_row_locked_couples; [done..| |]|]; [|by rewrite Hid|].
  - eassumption.
  - intros ? d' Hd'. by apply wp_ret.
Qed.

#[export] Instance claim_first_couples activities candidates now started worker :
  Couples (claim_first activities candidates now started worker).
Proof. induction candidates as [|[id workflow] rest IH]; simpl; links. Qed.

#[export] Instance claim_candidates_couples activities topic limit wanted candidates now started
    worker claims :
  Couples (claim_candidates activities topic limit wanted candidates now started worker claims).
Proof. revert claims. induction candidates as [|[id workflow] rest IH]; intros claims; simpl; links. Qed.

#[export] Instance claim_one_keeps activities topics worker topic started :
  Keeps (claim_one activities topics worker topic started).
Proof.
  intros e d Hok Hd. unfold claim_one. do 8 run_step.
  apply wp_bind, (wp_keeps (reconcile_expired topic _)); [done|done|].
  intros unsettled d1 _ Hd1. repeat link_step; done.
Qed.

#[export] Instance claim_topics_keeps activities topics capacity limit now started worker claims :
  Keeps (claim_topics activities topics capacity limit now started worker claims).
Proof.
  revert claims. induction topics as [|[topic max] rest IH]; intros claims e d Hok Hd; simpl;
    [by apply wp_ret|].
  apply wp_bind, (wp_keeps (reconcile_expired topic now)); [done|done|].
  intros unsettled d1 [Hok1 _] Hd1. do 2 run_step. cbv zeta. destruct (_ =? 0)%nat; [by apply IH|].
  destruct (definition_keys _) as [|key keys]; [by apply wp_ret|]. do 2 run_step.
  apply wp_bind, wp_keeps; [apply _|apply _|done|done|]. intros claims' d2 [Hok2 _] Hd2. by apply IH.
Qed.

#[export] Instance claim_batch_keeps activities topics worker limit capacity started :
  Keeps (claim_batch activities topics worker limit capacity started).
Proof.
  intros e d Hok Hd. unfold claim_batch, lock_topics. repeat run_step; try done.
  all: by apply claim_topics_keeps.
Qed.
End claims.

(** * The materializers *)

(** The approval a workflow waits on is decided, and it wakes. *)
Lemma linked_decided x W A P w r r' p ap ap' :
  linked x W A P → W !! w = Some r → awaits_approval (wf_status r) = true →
  waits_on KindApproval p r → P !! p = Some ap →
  ap_id ap' = ap_id ap → ap_workflow_id ap' = ap_workflow_id ap → ap_status ap' ≠ ApprPending →
  wf_id r' = wf_id r → wf_wait_kind r' = None → wf_wait_reference_id r' = None →
  no_wait_ok (wf_status r') = true →
  linked x (<[w := r']> W) A (<[p := ap']> P).
Proof.
  intros HL Hr Hs [Ek Er] Hap Hid Ho Hn Hrid Ek' Er' Hs'.
  pose proof (lk_workflow _ _ _ _ HL _ _ Hr) as [Hwid Hl].
  pose proof (lk_approval _ _ _ _ HL _ _ Hap) as [Hpid _].
  assert (is_terminal (wf_status r) = false) as Ht by (by destruct (wf_status r)).
  specialize (Hl Ht). unfold wait_live in Hl. rewrite Ek, Er in Hl.
  destruct Hl as (_ & ap0 & Hap0 & Ho0 & _). simplify_eq.
  apply (linked_approval _ _ _ _ _ r); try done; try congruence.
  - intros q [_ E]. congruence.
  - by destruct (wf_status r').
  - unfold wait_live. by rewrite Ek', Er'.
Qed.

Lemma woken_status_ok s : is_terminal s = false → no_wait_ok (woken_status s) = true.
Proof. by destruct s. Qed.

Lemma awaits_approval_live s : awaits_approval s = true → is_terminal s = false.
Proof. by destruct s. Qed.

Section temporal.
Context `{Codec}.

(** T-T1 *)
#[export] Instance materialize_timer_couples now : Couples (materialize_timer now).
Proof.
  intros e d Hd. unfold materialize_timer, append_delivery_event, clear_wait. cbv zeta.
  apply wp_bind, wp_env, wp_bind, wp_select_workflows. intros rows Hrows.
  destruct (sort_by available_le rows) as [|workflow rest] eqn:Es; [by apply wp_ret|].
  assert (workflow ∈ rows) as [Hp _]%Hrows.
  { apply (elem_of_sort_by available_le). rewrite Es. by left. }
  unfold due_timer in Hp. norm_tests. repeat run_step.
  match goal with
  | Hs : same_wait workflow _ = true, E1 : wf_status workflow = _, E2 : wf_wait_kind workflow = _ |- _ =>
      apply same_wait_spec in Hs as (Es' & Ek & _); rewrite E1 in *; rewrite E2 in *
  end.
  apply woken_keeps; [done|by rewrite Es'|by rewrite Ek|by rewrite Ek|done|by apply coupled_event].
Qed.

(** T-A1 *)
#[export] Instance expire_candidate_couples now approval_id workflow_id :
  Couples (expire_candidate now approval_id workflow_id).
Proof.
  intros e d Hd. pose proof Hd as [HL HT].
  unfold expire_candidate, append_delivery_event, clear_wait, lock_workflow_by_id. cbv zeta.
  repeat run_step; try done.
  match goal with Hs : same_wait a ?r = true |- _ => apply same_wait_spec in Hs as (Es & Ek & Er) end.
  match goal with E : wf_wait a = _ |- _ => apply wf_wait_Some in E as [E1 E2] end.
  match goal with E : awaits_approval _ = true |- _ => rename E into Hs; rewrite <- Es in Hs end.
  split; [simpl|exact HT].
  eapply linked_decided with (r := r0) (ap := r); [exact HL|eassumption|done|split; [by rewrite Ek, E1|by rewrite Er, E2]|eassumption|done..|].
  apply woken_status_ok. rewrite <- Es. by apply awaits_approval_live.
Qed.
End temporal.

(** * The operator *)

Section control.
Context `{Codec}.

(** T-A7 *)
#[export] Instance resolve_approval_couples workflows id decision operator :
  Couples (resolve_approval workflows id decision operator).
Proof.
  intros e d Hd. pose proof Hd as [HL HT]. unfold resolve_approval, lock_workflow. cbv zeta.
  repeat run_step; try done.
  match goal with
  | Hw : db_workflow d !! ap_workflow_id ?ap = Some ?w,
    Hr : db_workflow _ !! wf_id ?w = Some ?r |- _ =>
      change (db_workflow d !! wf_id w = Some r) in Hr;
      rewrite (proj1 (lk_workflow _ _ _ _ HL _ _ Hw)) in Hr; assert (r = w) as -> by congruence
  end.
  match goal with E : wf_wait _ = _ |- _ => apply wf_wait_Some in E as [E1 E2] end.
  match goal with Hp : db_approval d !! id = Some _ |- _ =>
    pose proof (lk_approval _ _ _ _ HL _ _ Hp) as [Hpid _] end.
  match goal with Hw : db_workflow d !! ap_workflow_id _ = Some _ |- _ =>
    pose proof (lk_workflow _ _ _ _ HL _ _ Hw) as [Hwid _]; rewrite <- Hwid in Hw end.
  split; [simpl|exact HT].
  eapply linked_decided; [exact HL|eassumption|done|by split; [rewrite E1|rewrite E2, Hpid]|eassumption|done..|].
  by apply woken_status_ok, awaits_approval_live.
Qed.

(** T-A2: the activity is parked, then the workflow. *)
Lemma wp_pause_activity_couples e d a operator now (Φ : unit → Db → Prop) :
  coupled d →
  (∀ d', coupled d' → db_workflow d' = db_workflow d →
     (∀ ac, db_activity d' !! a = Some ac → ac_status ac ≠ ActRunning) → Φ tt d') →
  wp any_error (pause_activity a operator now) e d Φ.
Proof.
  intros Hd HΦ. pose proof Hd as [HL HT]. unfold pause_activity. repeat run_step.
  all: try (apply HΦ; [done|done|]; intros; congruence).
  - apply HΦ; [done|done|]. intros ac Hac. naive_solver.
  - match goal with Ha : db_activity d !! a = Some _ |- _ =>
      pose proof (lk_activity _ _ _ _ HL _ _ Ha) as [Hid _]; rewrite Hid in * end.
    simplify_eq. apply HΦ; [split; simpl|done|].
    + by eapply linked_running_moves.
    + eapply attempts_same; [exact HT|eassumption|]. unfold lease_same. simpl.
      match goal with E : ac_status _ = ActRunning |- _ => rewrite E end. by split_and!.
    + intros ac. simpl. rewrite lookup_insert_eq. by intros [= <-].
Qed.

(** A row whose wait stays takes another status. *)
Lemma restatus_couples c d w r r' :
  coupled_but c d → db_workflow d !! w = Some r → is_terminal (wf_status r) = false →
  wf_id r' = wf_id r → is_terminal (wf_status r') = false → same_waits r r' →
  wait_live c (<[w := r']> (db_workflow d)) (db_activity d) (db_approval d) r' →
  coupled_but c (d <| db_workflow := <[w := r']> (db_workflow d) |>).
Proof.
  intros [HL HT] Hr Ht Hid Ht' Hw Hlive. split; [|done].
  pose proof (lk_workflow _ _ _ _ HL _ _ Hr) as [Hwid _].
  eapply linked_workflow; [exact HL|exact Hr|done|congruence|by right|by left|done|by left].
Qed.

Lemma child_live_insert c w r' (W : gmap Z WorkflowRow) id :
  is_terminal (wf_status r') = false →
  (∃ child, W !! id = Some child ∧ (is_terminal (wf_status child) = false ∨ c = Some id)) →
  ∃ child, <[w := r']> W !! id = Some child ∧ (is_terminal (wf_status child) = false ∨ c = Some id).
Proof.
  intros Ht (child & Hc & Hl). destruct (decide (w = id)) as [<-|].
  - exists r'. rewrite lookup_insert_eq. auto.
  - exists child. by rewrite lookup_insert_ne.
Qed.

Lemma pause_row_couples c d w r now :
  coupled_but c d → db_workflow d !! w = Some r → is_terminal (wf_status r) = false →
  (∀ a ac, waits_on KindActivity a r → db_activity d !! a = Some ac → ac_status ac ≠ ActRunning) →
  coupled_but c (d <| db_workflow := <[w := paused_row now r]> (db_workflow d) |>).
Proof.
  intros Hd Hr Ht Hparked. eapply restatus_couples; [done|exact Hr|done..|].
  destruct (lk_workflow _ _ _ _ (proj1 Hd) _ _ Hr) as [_ Hl]. specialize (Hl Ht).
  unfold wait_live, waits_on in *. simpl.
  destruct (wf_wait_kind r) as [[]|], (wf_wait_reference_id r) as [n|]; try done.
  - by destruct Hl.
  - destruct Hl as (ac & Hac & Ho & Hok). exists ac. split_and!; [done|done|].
    specialize (Hparked n ac (conj eq_refl eq_refl) Hac).
    by destruct (wf_status r), (ac_status ac).
  - destruct Hl as [_ Hc]. split; [done|]. by apply child_live_insert.
  - by destruct Hl.
Qed.

#[export] Instance pause_workflow_couples id operator : Couples (pause_workflow id operator).
Proof.
  intros e d Hd. unfold pause_workflow, lock_workflow, append_operator_event. do 8 run_step.
  all: try by repeat run_step.
  match goal with Hw : db_workflow d !! id = Some ?r |- _ => rename r into w, Hw into Hrow end.
  pose proof (lk_workflow _ _ _ _ (proj1 Hd) _ _ Hrow) as [Hid _].
  apply wp_lift; [done|]. intros wait Hwait. apply wp_bind.
  apply (wp_mono _ _ _ _ (λ _ d', coupled d' ∧ db_workflow d' = db_workflow d
    ∧ ∀ a ac, waits_on KindActivity a w → db_activity d' !! a = Some ac → ac_status ac ≠ ActRunning)).
  - destruct wait as [[n|a|c|p]|];
      try (apply wf_wait_Some in Hwait as [E1 E2]); try (apply wf_wait_None in Hwait as [E1 E2]);
      try (apply wp_ret; split_and!; [done|done|]; intros b ac [Hk _]; simpl in *; congruence).
    apply wp_pause_activity_couples; [done|]. intros d' Hd' EW Hnr. split_and!; [done|done|].
    intros b ac [_ Hb]. simpl in *. assert (b = a) as -> by congruence. apply Hnr.
  - intros [] d1 (Hd1 & EW & Hparked). repeat run_step. apply coupled_event.
    match goal with Hr : db_workflow d1 !! wf_id w = Some ?r |- _ =>
      assert (r = w) as -> by congruence end.
    by apply pause_row_couples.
Qed.

(** T-A3: the status of a resumed workflow fits what it waits on. *)
Lemma wp_resume_status_live e d id w (Φ : WorkflowStatus → Db → Prop) :
  coupled d → db_workflow d !! id = Some w → wf_status w = WfPaused →
  (∀ s, is_terminal s = false →
     (∀ available_at now, wait_live None (<[id := resumed_row s available_at now w]> (db_workflow d))
        (db_activity d) (db_approval d) (resumed_row s available_at now w)) → Φ s d) →
  wp any_error (resume_status w) e d Φ.
Proof.
  intros [HL HT] Hw Hs HΦ. destruct (lk_workflow _ _ _ _ HL _ _ Hw) as [Hid Hl].
  specialize (Hl ltac:(by rewrite Hs)). unfold wait_live in Hl. rewrite Hs in Hl.
  unfold resume_status. apply wp_bind, wp_lift; [done|]. intros [[n|a|c|p]|] Hwait;
    [apply wf_wait_Some in Hwait as [E1 E2]..|apply wf_wait_None in Hwait as [E1 E2]];
    rewrite E1, E2 in Hl; simpl in Hl; repeat run_step; apply HΦ; try done;
    try intros available_at now; unfold wait_live; simpl; rewrite ?E1, ?E2; simpl; try done.
  1-5: destruct Hl as (ac & Hac & Ho & Hok); light_eq;
    match goal with E : ac_status _ = _ |- _ => rewrite E in Hok;
      first [done|eexists; split_and!; [eassumption|done|by rewrite E]] end.
  - split; [done|]. by apply child_live_insert.
  - by case_bool_decide.
  - match goal with Hp : ∃ _, _ |- _ => destruct Hp as (ap & Hap & Ho & Hp & Hc) end. light_eq.
    rewrite bool_decide_true by done. split; [done|]. by eexists.
Qed.

#[export] Instance resume_workflow_couples id operator : Couples (resume_workflow id operator).
Proof.
  intros e d Hd. unfold resume_workflow, lock_workflow, append_operator_event. do 7 run_step;
    [by repeat run_step..|]. 
  match goal with Hw : db_workflow d !! id = Some ?w |- _ => rename w into row, Hw into Hrow end.
  pose proof (lk_workflow _ _ _ _ (proj1 Hd) _ _ Hrow) as [Hid _].
  apply wp_bind. eapply wp_resume_status_live; [exact Hd|exact Hrow|done|]. intros s Hlive Hwait. repeat run_step.
  apply coupled_event. eapply restatus_couples; [exact Hd|exact Hrow| |done..|by apply Hwait].
  match goal with E : wf_status _ = _ |- _ => by rewrite E end.
Qed.

(** T-A6: a blocked workflow waits on the replacement of its activity. *)
Lemma replaced_couples c d id r r' a ac ac' :
  coupled_but c d → db_workflow d !! id = Some r → wf_status r = WfBlocked →
  waits_on KindActivity a r → db_activity d !! a = Some ac →
  db_activity d !! ac_id ac' = None → wf_id r' = wf_id r → wf_status r' = WfWaitingActivity →
  waits_on KindActivity (ac_id ac') r' → ac_workflow_id ac' = ac_workflow_id ac →
  ac_status ac' = ActPending → ac_attempt_count ac' = 0%Z →
  coupled_but c ((with_activity d ac')
    <| db_workflow := <[id := r']> (db_workflow (with_activity d ac')) |>).
Proof.
  intros [HL HT] Hr Hs [Ek Er] Hac Hnone Hid Hs' [Ek' Er'] Ho Hp Hcount.
  pose proof (lk_workflow _ _ _ _ HL _ _ Hr) as [Hrid Hl]. specialize (Hl ltac:(by rewrite Hs)).
  unfold wait_live in Hl. rewrite Ek, Er, Hs in Hl. destruct Hl as (ac0 & Hac0 & Hown & Hok).
  assert (ac0 = ac) as -> by congruence. split; simpl.
  - eapply linked_activity; [exact HL|exact Hr| | |by rewrite Ek|congruence|..]; try done; try congruence.
    + by rewrite Hs.
    + intros b bc [_ E] Hb Hn. assert (bc = ac) as -> by congruence. by destruct (ac_status ac).
    + by rewrite Hs'.
    + unfold wait_live. rewrite Ek', Er'. exists ac'. rewrite lookup_insert_eq, Hs', Hp.
      split_and!; [done|congruence|done].
  - apply attempts_new; [done|done|done|]. by rewrite Hp.
Qed.

#[export] Instance retry_keeps activities activity workflow correction operator :
  Keeps (retry activities activity workflow correction operator).
Proof.
  intros e d Hok Hd. unfold retry, lock_workflow, append_operator_event. cbv zeta. repeat run_step.
  match goal with
  | Hw : db_workflow d !! workflow = Some ?w, Hr : db_workflow _ !! wf_id ?w = Some ?r |- _ =>
      change (db_workflow d !! wf_id w = Some r) in Hr;
      rewrite (proj1 (lk_workflow _ _ _ _ (proj1 Hd) _ _ Hw)) in *; assert (r = w) as -> by congruence
  end.
  match goal with E : wf_wait _ = _ |- _ => apply wf_wait_Some in E end.
  apply coupled_event. eapply replaced_couples; [exact Hd|eassumption|done|eassumption|eassumption| |done..].
  by apply next_activity_fresh.
Qed.

(** T-A5 *)
Lemma coupled_schedule_runs c d m :
  coupled_but c d → coupled_but c (d <| db_schedule_run := m |>).
Proof. by intros [HL HT]; split. Qed.

#[export] Instance append_operator_event_couples id event_type operator now :
  Couples (append_operator_event id event_type operator now).
Proof. unfold append_operator_event. links. Qed.

#[export] Instance restart_keeps workflows id correction operator :
  Keeps (restart workflows id correction operator).
Proof.
  intros e d Hok Hd. unfold restart, start_prepared_in. cbv zeta.
  do 10 run_step. apply wp_bind, wp_insert_prepared_couples; [done|done| |].
  2: { intros succ Hne. by apply wp_fail. }
  intros succ d1 [Hd1 _ _ _ _ _]. cbn [negb started_inserted started_id]. run_step. run_step. apply wp_bind.
  apply (wp_mono _ _ _ _ (λ _ d', coupled d')).
  { destruct (is_terminal _) eqn:Et; [by apply wp_ret|by apply wp_supersede_couples]. }
  clear d1 Hd1. intros [] d1 Hd1. apply wp_bind, (wp_mono _ _ _ _ (λ _ d', coupled d')).
  { repeat run_step; [by apply coupled_schedule_runs|done]. }
  clear d1 Hd1. intros [] d1 Hd1. repeat link_step; done.
Qed.
End control.
