(* ===== verification/Coupling.v ===== *)
(** The coupling of the tables in every reachable state (S7, S11, S12, S15,
    S21, S24 of [docs/INVARIANTS.md]): every transaction of the engine keeps
    the rows linked, so no workflow waits for what cannot answer, no live work
    is without a workflow that waits on it, and every lease has its attempt.
    Resume (T-A3) can then fail on no paused workflow. *)
From stdpp Require Import base gmap list strings.
From Stdlib Require Import ZArith Lia.
From S2P Require Import Prelude.
From S2P Require Import Errors.
From S2P Require Import Status.
From S2P Require Import Rows.
From S2P Require Import Database.
From S2P Require Import TxLogic.
From S2P Require Import Lifecycle.
From S2P Require Import Invariants.
From S2P Require Import Evolution.
From S2P Require Import Policy.
From S2P Require Import Transitions.
From S2P Require Import Registry.
From S2P Require Import Calendar.
From S2P Require Import Parents.
From S2P Require Import Store.
From S2P Require Import StoreSteps.
From S2P Require Import Coordinator.
From S2P Require Import CoordinatorSteps.
From S2P Require Import Worker.
From S2P Require Import WorkerSteps.
From S2P Require Import Temporal.
From S2P Require Import TemporalSteps.
From S2P Require Import Control.
From S2P Require Import ControlSteps.
From S2P Require Import Schedules.
From S2P Require Import SchedulesSteps.
From S2P Require Import Progress.
From S2P Require Import ProgressSteps.
From S2P Require Import ExampleCalendar.
From S2P Require Import Reads.
From S2P Require Import Protocol.
From S2P Require Import Scenario.
From S2P Require Import Safety.
From S2P Require Import Fencing.
From S2P Require Import Walks.
From S2P Require Import Claims.
From S2P Require Import Links.
From S2P Require Import LinkSteps.
From S2P Require Import LinkRuns.

(** Tables in order whose rows are linked. *)
Definition sound (d : Db) : Prop := db_ok d ∧ coupled d.

Class Sound {A} (m : Tx A) : Prop :=
  sound_wp : ∀ e d, sound d → wp any_error m e d (λ _ d', sound d').

#[export] Instance keeps_sound {A} (m : Tx A) : Keeps m → Evolves m → Sound m | 10.
Proof.
  intros Hk He e d [Hok Hd]. apply wp_keeps; [done|done|done|done|].
  intros a d' [Hok' _] Hd'. by split.
Qed.

#[export] Instance read_sound {A} (m : Tx A) : ReadOnly m → Sound m | 5.
Proof. intros Hm e d Hd. eapply wp_mono; [apply Hm|]. by intros a d' ->. Qed.

Lemma sound_bind {A B} (m : Tx A) (f : A → Tx B) :
  Sound m → (∀ a, Sound (f a)) → Sound (tx_bind m f).
Proof.
  intros Hm Hf e d Hd. apply wp_bind. eapply wp_mono; [by apply Hm|]. intros a d' Hd'. by apply Hf.
Qed.

(** The tables of the schedules and the progress log link nothing; their
    writes keep the constraints of the schema when they keep the keys. *)
Lemma sound_side d d' :
  sound d → db_ok d' → db_workflow d' = db_workflow d → db_activity d' = db_activity d →
  db_attempt d' = db_attempt d → db_approval d' = db_approval d → db_event d' = db_event d →
  sound d'.
Proof.
  intros [_ [HL HT]] Hok E1 E2 E3 E4 E5. split; [done|].
  destruct d, d'; cbn in *; subst. by split.
Qed.

Lemma coupled_topics d m : coupled d → coupled (d <| db_topic_lock := m |>).
Proof. by intros [HL HT]; split. Qed.

Class NewRun (new_row : ScheduleRunId → ScheduleRunRow) : Prop :=
  new_run_id : ∀ id, sr_id (new_row id) = id.
Class KeepsRunKey (f : ScheduleRunRow → ScheduleRunRow) : Prop :=
  keeps_run_key : ∀ r, sr_id (f r) = sr_id r ∧ sr_schedule_key (f r) = sr_schedule_key r
    ∧ sr_local_occurrence (f r) = sr_local_occurrence r.
Class KeepsStateKey (f : ScheduleStateRow → ScheduleStateRow) : Prop :=
  keeps_state_key : ∀ s, ss_schedule_key (f s) = ss_schedule_key s.
#[export] Hint Extern 0 (NewRun _) => (intros ?; reflexivity) : typeclass_instances.
#[export] Hint Extern 0 (KeepsRunKey _) => (intros ?; by split_and!) : typeclass_instances.
#[export] Hint Extern 0 (KeepsStateKey _) => (intros ?; reflexivity) : typeclass_instances.

#[export] Instance insert_schedule_run_sound new_row :
  NewRun new_row → Sound (insert_schedule_run new_row).
Proof.
  intros Hid e d Hd. apply wp_insert_schedule_run; [done|done|]. intros row Hf.
  apply (sound_side d); [done|by apply db_ok_with_run; [apply Hd|]|done..].
Qed.
#[export] Instance update_schedule_state_sound key p f :
  KeepsStateKey f → Sound (update_schedule_state key p f).
Proof.
  intros Hf e d Hd. apply wp_update_schedule_state; [done|done|]. intros s Hs _ Hpos.
  apply (sound_side d); [done| |done..]. eapply db_ok_state; [apply Hd|done|apply Hf|done].
Qed.
#[export] Instance update_schedule_run_sound id p f :
  KeepsRunKey f → Sound (update_schedule_run id p f).
Proof.
  intros Hf e d Hd. apply wp_update_schedule_run; [done|done|]. intros r Hr _ Hfk.
  apply (sound_side d); [done| |done..]. eapply db_ok_run; [apply Hd|done|apply Hf..|done].
Qed.
#[export] Instance insert_state_sound row : Sound (insert_schedule_state_if_absent row).
Proof.
  intros e d Hd. apply wp_insert_state_if_absent; [done|]. intros Hnone Hpos.
  apply (sound_side d); [done| |done..]. apply db_ok_new_state; [apply Hd|done].
Qed.

(** The primitives that write nothing. *)
#[export] Instance tx_ret_reads {A} (a : A) : ReadOnly (tx_ret a).
Proof. intros e d. by apply wp_ret. Qed.
#[export] Instance tx_fail_reads {A} err : ReadOnly (@tx_fail A err).
Proof. intros e d. by apply wp_fail. Qed.
#[export] Instance db_fail_reads {A} kind constraint : ReadOnly (@db_fail A kind constraint).
Proof. intros e d. by apply wp_fail. Qed.
#[export] Instance tx_lift_reads {A} (r : Result A) : ReadOnly (tx_lift r).
Proof. intros e d. by apply wp_lift. Qed.
#[export] Instance tx_get_reads : ReadOnly tx_get.
Proof. intros e d. by apply wp_get. Qed.
#[export] Instance database_now_reads : ReadOnly database_now_millis.
Proof. intros e d. by apply wp_now. Qed.
#[export] Instance ensure_fenced_reads n : ReadOnly (ensure_fenced n).
Proof. intros e d. by apply wp_ensure_fenced. Qed.
#[export] Instance first_or_not_found_reads {A} (o : option A) : ReadOnly (first_or_not_found o).
Proof. intros e d. by apply wp_first_or_not_found. Qed.
#[export] Instance select_schedule_runs_reads p : ReadOnly (select_schedule_runs p).
Proof. intros e d. by apply wp_select_schedule_runs. Qed.
#[export] Instance select_workflows_reads p : ReadOnly (select_workflows p).
Proof. intros e d. by apply wp_select_workflows. Qed.

(** Splits an operation into its parts. *)
Ltac sound_parts :=
  repeat lazymatch goal with
  | |- Sound (tx_bind _ _) => apply sound_bind; [|intros ?]
  | |- Sound (match ?x with _ => _ end) => destruct x
  | |- Sound (let _ := _ in _) => cbv zeta
  end; try apply _.

#[export] Instance find_schedule_state_sound key : Sound (find_schedule_state key).
Proof. unfold find_schedule_state. sound_parts. Qed.
#[export] Instance lock_schedule_state_sound key : Sound (lock_schedule_state key).
Proof. unfold lock_schedule_state. sound_parts. Qed.
#[export] Instance mark_started_sound id from workflow f :
  KeepsRunKey f → Sound (mark_started id from workflow f).
Proof.
  intros Hf. unfold mark_started. apply sound_bind; [|intros; apply _].
  apply update_schedule_run_sound. intros r.
  exact (Hf (r <| sr_status := RunStarted |> <| sr_workflow_id := Some workflow |>)).
Qed.
#[export] Instance queued_run_exists_sound key : Sound (queued_run_exists key).
Proof. unfold queued_run_exists. sound_parts. Qed.
#[export] Instance active_workflow_count_sound key : Sound (active_workflow_count key).
Proof. unfold active_workflow_count. sound_parts. Qed.

Section schedules.
Context `{Codec, Chrono}.

#[export] Instance materialized_floor_sound s : Sound (materialized_floor s).
Proof. unfold materialized_floor. sound_parts. Qed.

#[export] Instance start_keeps kind version input state options :
  Keeps (start kind version input state options).
Proof. intros e d. apply wp_start_couples. Qed.
#[export] Instance start_prepared_keeps prepared options :
  Keeps (start_prepared_with_conn prepared options).
Proof. intros e d. apply wp_start_prepared_couples. Qed.
#[export] Instance recover_keeps kind version input state options :
  Keeps (start_or_restart_recoverable kind version input state options).
Proof. intros e d. apply wp_start_or_restart_couples. Qed.
#[export] Instance commit_keeps config claim event transition :
  Keeps (commit_on_connection config claim event transition).
Proof. intros e d. apply wp_commit_couples. Qed.

(** Application code in a transaction. *)
Lemma Transactional_sound {A} (m : Tx A) : Transactional m → Sound m.
Proof. induction 1; [apply _|by apply sound_bind|apply _..]. Qed.

Context (registry : ScheduleRegistry) (Hreg : registry_transactional registry).

#[local] Instance start_occurrence_sound key run_id at_ : Sound (start_occurrence registry key run_id at_).
Proof.
  intros e d Hd. unfold start_occurrence. apply wp_bind, wp_lift; [done|]. intros definition Ek.
  apply ok_or_Ok in Ek. by apply (Transactional_sound _ (Hreg _ _ run_id at_ Ek)).
Qed.

#[local] Instance promote_queued_sound key : Sound (promote_queued registry key).
Proof. unfold promote_queued. sound_parts. Qed.

#[local] Instance materialize_occurrence_sound key overlap now oc outcome s :
  Sound (materialize_occurrence registry key overlap now oc outcome s).
Proof. unfold materialize_occurrence. sound_parts. Qed.

#[local] Instance materialize_due_sound key overlap now due s :
  Sound (materialize_due registry key overlap now due s).
Proof. revert s. induction due as [|[oc outcome] due IH]; intros s; simpl; sound_parts. Qed.

Lemma reconcile_state_sound key deployed_at : Sound (reconcile_state registry key deployed_at).
Proof. unfold reconcile_state. sound_parts. Qed.

Lemma materialize_tick_sound key md calendar now :
  Sound (materialize_tick registry key md calendar now).
Proof. unfold materialize_tick. sound_parts. Qed.

Lemma run_schedule_now_sound key operator : Sound (run_schedule_now (Some registry) key operator).
Proof.
  intros e d Hd. unfold run_schedule_now. apply wp_bind, wp_lift; [done|]. intros schedules [= <-].
  match goal with |- wp _ ?m _ _ _ => enough (Sound m) as Hm by (by apply Hm) end. sound_parts.
Qed.
End schedules.

(** * The engine *)

Section coupling.
Context `{Codec, Chrono}.

#[export] Instance insert_topic_locks_couples rows : Couples (insert_topic_locks_if_absent rows).
Proof.
  unfold insert_topic_locks_if_absent, insert_topic_lock_if_absent. intros e d Hd.
  apply (wp_for _ _ _ coupled); [done| |done].
  intros x d1 _ Hd1. repeat run_step; [done|by apply coupled_topics].
Qed.

#[export] Instance compare_topic_locks_couples topics : Couples (compare_topic_locks topics).
Proof.
  unfold compare_topic_locks. intros e d Hd. apply wp_bind, wp_get, (wp_for _ _ _ coupled);
    [done| |done].
  intros x d1 _ Hd1. by repeat run_step.
Qed.

Lemma report_sound json_value reporter event : Sound (report json_value reporter event).
Proof.
  intros e d [Hok Hd]. eapply wp_mono; [apply report_writes_log|].
  intros outcome d' [->|(row & -> & Hfk)]; [by split|].
  split; [by apply with_progress_steps|]. by destruct Hd; split.
Qed.

(** Every transaction of the engine keeps the rows linked. *)
Lemma engine_sound {A} (m : Tx A) : Engine m → Sound m.
Proof.
  intros Hm. destruct Hm; try apply _.
  - apply report_sound.
  - by apply reconcile_state_sound.
  - by apply materialize_tick_sound.
  - unfold set_schedule_paused. sound_parts.
  - by apply run_schedule_now_sound.
Qed.

Lemma empty_coupled : coupled empty_db.
Proof.
  split; [split|split]; simpl; intros; try by rewrite lookup_empty in *.
  by match goal with Hs : is_Some _ |- _ => destruct Hs; rewrite lookup_empty in * end.
Qed.

Lemma reachable_coupled d : reachable d → coupled d.
Proof.
  intros Hd. enough (sound d) as [_ ?] by done.
  assert (sound empty_db) as Hempty by (split; [apply empty_db_ok|apply empty_coupled]).
  revert Hempty. induction Hd as [d|d d1 d' (A & m & e & Hm & ->) _ IH]; intros Hs; [done|].
  apply IH. pose proof (wp_transaction _ _ _ _ _ (engine_sound m Hm e d Hs)) as Ht.
  by destruct (transaction e m d) as [[a|err] d1]; [|destruct Ht as [_ ->]].
Qed.

(** C3: S7, S15, S21, S24. No live workflow waits in vain. In every
    reachable state a workflow that is not terminal either waits on nothing,
    and is ready, running or paused; or its two wait columns name something
    that can still answer: a timer under its current command while it sleeps
    or is paused; an activity of its own that is pending, running or
    cancelling while it waits, pending, cancelling or dead-lettered while it
    is paused, and dead-lettered while it is blocked; a pending approval of
    its own under its current command; or a child workflow that has not
    ended. *)
Theorem waits_can_be_answered (d : Db) id r :
  reachable d → db_workflow d !! id = Some r → is_terminal (wf_status r) = false →
  match wf_wait_kind r, wf_wait_reference_id r with
  | None, None => wf_status r = WfReady ∨ wf_status r = WfRunning ∨ wf_status r = WfPaused
  | Some KindTimer, Some n =>
      (wf_status r = WfSleeping ∨ wf_status r = WfPaused) ∧ n = wf_command_sequence r
  | Some KindActivity, Some a =>
      ∃ ac, db_activity d !! a = Some ac ∧ ac_workflow_id ac = id
        ∧ activity_wait_ok (wf_status r) (ac_status ac) = true
  | Some KindApproval, Some p =>
      (wf_status r = WfWaitingApproval ∨ wf_status r = WfPaused)
      ∧ ∃ ap, db_approval d !! p = Some ap ∧ ap_workflow_id ap = id
          ∧ ap_status ap = ApprPending ∧ ap_command_sequence ap = wf_command_sequence r
  | Some KindChild, Some c =>
      (wf_status r = WfWaitingChild ∨ wf_status r = WfPaused)
      ∧ ∃ child, db_workflow d !! c = Some child ∧ is_terminal (wf_status child) = false
  | _, _ => False
  end.
Proof.
  intros Hd Hr Ht. destruct (reachable_coupled d Hd) as [HL _].
  destruct (lk_workflow _ _ _ _ HL _ _ Hr) as [Hid Hl]. specialize (Hl Ht).
  unfold wait_live in Hl. rewrite Hid in Hl.
  destruct (wf_wait_kind r) as [[]|], (wf_wait_reference_id r) as [n|]; try done.
  - destruct Hl as (Hs & -> & _). split; [|done]. destruct (wf_status r); auto; discriminate Hs.
  - destruct Hl as (Hs & child & Hc & [Hlive|]); [|done].
    split; [destruct (wf_status r); auto; discriminate Hs|eauto].
  - destruct Hl as [Hs Hap]. split; [|done]. destruct (wf_status r); auto; discriminate Hs.
  - destruct (wf_status r); auto; discriminate Hl.
Qed.

(** C4: S15, S21, and that a workflow has one piece of work in hand. In
    every reachable state an activity's workflow exists; it waits on the
    activity in [waiting_activity] while that runs, in [waiting_activity] or
    [paused] while it is pending, and in one of these, or has ended, while it
    is cancelling; a pending approval is the one its workflow waits on, in
    [waiting_approval] or [paused], under its current command; and no two
    activities of one workflow are pending or running at once. *)
Theorem live_work_is_awaited (d : Db) :
  reachable d →
  (∀ a ac, db_activity d !! a = Some ac →
     ∃ r, db_workflow d !! ac_workflow_id ac = Some r
       ∧ (ac_status ac = ActRunning →
          wf_status r = WfWaitingActivity ∧ waits_on KindActivity a r)
       ∧ (ac_status ac = ActPending →
          (wf_status r = WfWaitingActivity ∨ wf_status r = WfPaused) ∧ waits_on KindActivity a r)
       ∧ (ac_status ac = ActCancelling →
          is_terminal (wf_status r) = true
          ∨ (wf_status r = WfWaitingActivity ∨ wf_status r = WfPaused)
            ∧ waits_on KindActivity a r))
  ∧ (∀ p ap, db_approval d !! p = Some ap → ap_status ap = ApprPending →
       ∃ r, db_workflow d !! ap_workflow_id ap = Some r
         ∧ (wf_status r = WfWaitingApproval ∨ wf_status r = WfPaused)
         ∧ waits_on KindApproval p r ∧ ap_command_sequence ap = wf_command_sequence r)
  ∧ (∀ a b ac bc, db_activity d !! a = Some ac → db_activity d !! b = Some bc →
       ac_workflow_id ac = ac_workflow_id bc →
       ac_status ac = ActPending ∨ ac_status ac = ActRunning →
       ac_status bc = ActPending ∨ ac_status bc = ActRunning → a = b).
Proof.
  intros Hd. pose proof (reachable_ok d Hd) as Hok. destruct (reachable_coupled d Hd) as [HL _].
  split_and!.
  - intros a ac Hac. destruct (ok_activity _ Hok _ _ Hac) as (_ & _ & r & Hr).
    exists r. split; [done|].
    assert (is_non_terminal (ac_status ac) = true →
      if is_terminal (wf_status r) then ac_status ac = ActCancelling
      else waits_on KindActivity a r ∧ activity_wait_ok (wf_status r) (ac_status ac) = true) as Hlive.
    { intros Hn. destruct (is_terminal (wf_status r)) eqn:Et.
      - destruct (lk_activity _ _ _ _ HL _ _ Hac) as [_ Hl]. destruct (Hl Hn) as (r' & Hr' & Hc).
        simplify_eq. by rewrite Et in Hc.
      - by apply (awaited_status _ _ _ _ _ _ _ HL Hac Hn Hr). }
    split_and!; intros E; rewrite E in Hlive; specialize (Hlive eq_refl);
      destruct (wf_status r); simpl in *; naive_solver.
  - intros p ap Hap Hp. destruct (lk_approval _ _ _ _ HL _ _ Hap) as [_ Hl].
    destruct (Hl Hp) as (r & Hr & Ht & Hk & Href). exists r.
    destruct (lk_workflow _ _ _ _ HL _ _ Hr) as [_ Hw]. specialize (Hw Ht).
    unfold wait_live in Hw. rewrite Hk, Href in Hw. destruct Hw as (Hs & ap' & Hap' & _ & _ & Hc).
    simplify_eq. split_and!; [done|destruct (wf_status r); auto; discriminate Hs|done|done].
  - intros a b ac bc Hac Hbc Heq Ha Hb.
    assert (∀ i x, db_activity d !! i = Some x → ac_status x = ActPending ∨ ac_status x = ActRunning →
      ∃ r, db_workflow d !! ac_workflow_id x = Some r ∧ wf_wait_reference_id r = Some i) as Hone.
    { intros i x Hx Hs. destruct (lk_activity _ _ _ _ HL _ _ Hx) as [_ Hl].
      destruct Hl as (r & Hr & Hc); [by destruct Hs as [-> | ->]|]. exists r. split; [done|].
      destruct (is_terminal _); [|by destruct Hc]. destruct Hs; congruence. }
    destruct (Hone a ac Hac Ha) as (r & Hr & E1), (Hone b bc Hbc Hb) as (r' & Hr' & E2). congruence.
Qed.

(** C5: S9, S11, S12. In every reachable state an activity carries its three
    lease columns exactly while it is running or cancelling, and then its
    last attempt is open under the token of the lease; conversely an open
    attempt is the last one of an activity that holds the lease. Its attempts
    are numbered from one to its attempt count without a gap, and the count
    stays within its maximum. *)
Theorem leases_have_one_open_attempt (d : Db) a ac :
  reachable d → db_activity d !! a = Some ac →
  (holds_lease (ac_status ac) = true →
     ac_leased ac
     ∧ ∃ t, db_attempt d !! (a, ac_attempt_count ac) = Some t ∧ att_finished_at t = None
         ∧ ac_lease_token ac = Some (att_lease_token t))
  ∧ (holds_lease (ac_status ac) = false → ac_unleased ac)
  ∧ (∀ n t, db_attempt d !! (a, n) = Some t → att_finished_at t = None →
       holds_lease (ac_status ac) = true ∧ n = ac_attempt_count ac
       ∧ ac_lease_token ac = Some (att_lease_token t))
  ∧ (∀ n, is_Some (db_attempt d !! (a, n)) ↔ (1 ≤ n ≤ ac_attempt_count ac)%Z)
  ∧ (ac_attempt_count ac ≤ ac_max_attempts ac)%Z.
Proof.
  intros Hd Hac. destruct (reachable_coupled d Hd) as [_ [_ HT]].
  destruct (HT a ac Hac) as [Hnum Hopen Hleased].
  destruct (activity_lease_and_attempts d a ac Hd Hac) as (H1 & H2 & H3 & _).
  split_and!; [auto|done|done|done|lia].
Qed.
End coupling.

(** * The theorems on the scenario *)

Lemma waits_can_be_answered_witness :
  wf_wait_reference_id (order_row charge_claimed) = Some 1%Z
  ∧ ∃ ac, db_activity charge_claimed !! 1%Z = Some ac ∧ ac_workflow_id ac = 1%Z
      ∧ activity_wait_ok (wf_status (order_row charge_claimed)) (ac_status ac) = true.
Proof.
  split; [vm_compute; reflexivity|].
  refine (waits_can_be_answered charge_claimed 1 (order_row charge_claimed)
    charge_claimed_reachable _ _); vm_compute; reflexivity.
Defined.

Lemma live_work_is_awaited_witness :
  ac_status (charge_row charge_claimed) = ActRunning
  ∧ ∃ r, db_workflow charge_claimed !! 1%Z = Some r ∧ wf_status r = WfWaitingActivity
      ∧ waits_on KindActivity 1 r.
Proof.
  assert (ac_status (charge_row charge_claimed) = ActRunning) as Hs by (vm_compute; reflexivity).
  split; [exact Hs|].
  destruct (proj1 (live_work_is_awaited charge_claimed charge_claimed_reachable) 1%Z
    (charge_row charge_claimed)) as (r & Hr & Hrun & _); [vm_compute; reflexivity|].
  exists r. split; [exact Hr|exact (Hrun Hs)].
Defined.

Lemma leases_have_one_open_attempt_witness :
  ∃ t, db_attempt charge_claimed !! (1%Z, 1%Z) = Some t ∧ att_finished_at t = None
    ∧ ac_lease_token (charge_row charge_claimed) = Some (att_lease_token t).
Proof.
  apply (leases_have_one_open_attempt charge_claimed 1 (charge_row charge_claimed)).
  - exact charge_claimed_reachable.
  - vm_compute. reflexivity.
  - vm_compute. reflexivity.
Defined.

(** * Resume *)

(** The status a paused workflow resumes with. *)
Definition resumed_status (d : Db) (r : WorkflowRow) (s : WorkflowStatus) : Prop :=
  match wf_wait_kind r with
  | None => s = WfReady
  | Some KindTimer => s = WfSleeping
  | Some KindChild => s = WfWaitingChild
  | Some KindApproval => s = WfWaitingApproval
  | Some KindActivity =>
      ∃ a ac, wf_wait_reference_id r = Some a ∧ db_activity d !! a = Some ac
        ∧ s = match ac_status ac with ActDeadLettered => WfBlocked | _ => WfWaitingActivity end
  end.

Lemma wp_resume_status_total e d id r (Φ : WorkflowStatus → Db → Prop) :
  db_ok d → coupled d → db_workflow d !! id = Some r → wf_status r = WfPaused →
  (∀ s, resumed_status d r s → Φ s d) → wp no_error (resume_status r) e d Φ.
Proof.
  intros Hok [HL _] Hr Hs HΦ. destruct (lk_workflow _ _ _ _ HL _ _ Hr) as [Hid Hl].
  specialize (Hl ltac:(by rewrite Hs)). unfold wait_live in Hl. rewrite Hs in Hl.
  unfold resume_status, wf_wait, wait_parse. unfold resumed_status in HΦ.
  destruct (wf_wait_kind r) as [[]|], (wf_wait_reference_id r) as [n|]; try done; simpl in Hl.
  - destruct Hl as (_ & _ & E). rewrite E. simpl. by apply wp_bind, wp_ret, wp_ret, HΦ.
  - destruct Hl as (ac & Hac & _ & Hst). rewrite (new_id_pos n) by by eapply (ok_activity_pos _ Hok).
    simpl. apply wp_bind, wp_ret, wp_bind, wp_find_activity.
    { intros Hn. by specialize (Hn _ Hac). }
    intros ac' Hac' _. simplify_eq. apply wp_bind, wp_ret.
    assert (∀ s, s = match ac_status ac with ActDeadLettered => WfBlocked | _ => WfWaitingActivity end →
      Φ s d) as HΦ' by (intros s Es; apply HΦ; eauto 6).
    destruct (ac_status ac); try done; by apply wp_ret, HΦ'.
  - destruct Hl as (_ & child & Hc & Hlive). rewrite (new_id_pos n) by by eapply (ok_workflow_pos _ Hok).
    simpl. apply wp_bind, wp_ret, wp_bind, wp_find_workflow.
    { intros Hn. by specialize (Hn _ Hc). }
    intros child' Hc' _. simplify_eq. apply wp_bind, wp_ret. destruct Hlive as [->|]; [|done].
    by apply wp_ret, HΦ.
  - destruct Hl as (_ & ap & Hap & _ & Hp & _). rewrite (new_id_pos n) by by eapply (ok_approval_pos _ Hok).
    simpl. apply wp_bind, wp_ret, wp_bind, wp_find_approval; [congruence|].
    intros ap' Hap'. simplify_eq. apply wp_bind, wp_ret, wp_ret. rewrite bool_decide_true by done.
    by apply HΦ.
  - by apply wp_bind, wp_ret, wp_ret, HΦ.
Qed.

Section resume.
Context `{Codec, Chrono}.

(** C16: A paused workflow can always be resumed. In a reachable state whose
    event sequences have room, [resume_workflow] on a paused workflow commits,
    so none of its errors for missing or settled references can occur; it
    changes the row of that workflow alone, keeps its wait, and restores the
    status of that wait: [ready] without one, [sleeping], [waiting_child] or
    [waiting_approval] for a timer, a child or an approval, and for an
    activity [blocked] when it is dead-lettered and [waiting_activity]
    otherwise. *)
Theorem resume_restores_the_wait id operator (e : Env) (d : Db) r :
  reachable d → sequences_fit d → db_workflow d !! id = Some r → wf_status r = WfPaused →
  ∃ s d' r', transaction e (resume_workflow id operator) d = (Ok (id, as_str s), d')
    ∧ db_workflow d' = <[id := r']> (db_workflow d) ∧ db_activity d' = db_activity d
    ∧ db_approval d' = db_approval d
    ∧ wf_status r' = s ∧ same_waits r r' ∧ resumed_status d r s.
Proof.
  intros Hd Hfit Hr Hs. pose proof (reachable_ok d Hd) as Hok.
  pose proof (reachable_coupled d Hd) as Hc.
  assert (wf_id r = id) as Hid by apply (ok_workflow _ Hok _ _ Hr).
  assert (wp no_error (resume_workflow id operator) e d (λ result d', ∃ s r',
    result = (id, as_str s) ∧ db_workflow d' = <[id := r']> (db_workflow d)
    ∧ db_activity d' = db_activity d ∧ db_approval d' = db_approval d
    ∧ wf_status r' = s ∧ same_waits r r' ∧ resumed_status d r s)) as Hwp.
  { unfold resume_workflow, lock_workflow. apply wp_bind, wp_bind, wp_find_workflow.
    { intros Hn. by specialize (Hn _ Hr). }
    intros r0 Hr0 _. simplify_eq. apply wp_ret. rewrite bool_decide_false by (intros Hne; by apply Hne).
    apply wp_bind, wp_now. intros i. apply wp_bind.
    eapply wp_resume_status_total; [done|done|exact Hr|done|]. intros s Hst.
    apply wp_bind. eapply wp_update_workflow_hit; [exact Hr|by rewrite bool_decide_true|].
    apply wp_bind, wp_ret, wp_bind. apply (wp_append_next _ _ _ (wf_id r)); [done|exact Hfit| |].
    { simpl. by rewrite lookup_insert_eq. }
    intros n. apply wp_ret. eexists s, _. split_and!; try done. }
  destruct (wp_total _ _ _ _ Hwp) as (result & d' & Ht & s & r' & -> & Hrest). eauto 10.
Qed.
End resume.

Lemma resume_restores_the_wait_witness :
  ∃ d' r', transaction (env_at 5700 "r") (resume_workflow 1 operator) paused
      = (Ok (1%Z, as_str WfWaitingActivity), d')
    ∧ db_workflow d' = <[1%Z := r']> (db_workflow paused)
    ∧ wf_status r' = WfWaitingActivity.
Proof.
  destruct (resume_restores_the_wait 1 operator (env_at 5700 "r") paused (order_row paused))
    as (s & d' & r' & Ht & Hw & _ & _ & Hs & _ & Hrs).
  - exact (steps_run _ _ _ _ _ (eng_pause _ _) charge_claimed_reachable).
  - apply sequences_fit_test. vm_compute. reflexivity.
  - vm_compute. reflexivity.
  - vm_compute. reflexivity.
  - assert (s = WfWaitingActivity) as ->; [|eauto].
    assert (wf_wait_kind (order_row paused) = Some KindActivity) as Ek by (vm_compute; reflexivity).
    assert (wf_wait_reference_id (order_row paused) = Some 1%Z) as Er by (vm_compute; reflexivity).
    assert (db_activity paused !! 1%Z = Some (charge_row paused)) as Ea by (vm_compute; reflexivity).
    assert (ac_status (charge_row paused) = ActCancelling) as Es by (vm_compute; reflexivity).
    unfold resumed_status in Hrs. rewrite Ek, Er in Hrs. destruct Hrs as (a & ac & [= <-] & Hac & ->).
    assert (ac = charge_row paused) as -> by congruence. rewrite Es. reflexivity.
Defined.
