(* ===== verification/Stored.v ===== *)
(** Stored data: retry policies and their delays ([policy.rs]), the text of
    the statuses and the wait columns ([persistence]), and the topic locks
    ([registry.rs]). *)
From stdpp Require Import base gmap list strings relations.
From Stdlib Require Import ZArith Lia.
From S2P Require Import Prelude.
From S2P Require Import Errors.
From S2P Require Import Status.
From S2P Require Import Rows.
From S2P Require Import Database.
From S2P Require Import TxLogic.
From S2P Require Import Lifecycle.
From S2P Require Import Policy.
From S2P Require Import Transitions.
From S2P Require Import Registry.
From S2P Require Import Parents.
From S2P Require Import Store.
From S2P Require Import Coordinator.
From S2P Require Import Worker.
From S2P Require Import Temporal.
From S2P Require Import Control.
From S2P Require Import Reads.
From S2P Require Import Scenario.
From S2P Require Import Walks.

(** * Retry policies *)

(** The delay before jitter: the fixed delay, or the doubling up to its cap. *)
Definition base_delay (b : BackoffPolicy) (attempt : Z) : Z :=
  match b with
  | Fixed delay_secs => delay_secs
  | Exponential initial_secs max_secs _ => Z.min (initial_secs * 2 ^ (attempt - 1)) max_secs
  end.

Definition jitter_of (b : BackoffPolicy) : Z :=
  match b with Fixed _ => 0 | Exponential _ _ jitter_percent => jitter_percent end.

Lemma base_delay_bounds b attempt :
  backoff_wf b → (1 ≤ attempt)%Z → (0 < base_delay b attempt ≤ MAX_RETRY_DELAY_SECS)%Z.
Proof.
  destruct b as [d|i m j]; simpl; [done|]. intros (Hi & Hm & _) Ha.
  assert (0 < 2 ^ (attempt - 1))%Z by (apply Z.pow_pos_nonneg; lia). nia.
Qed.

(** C39: Every attempt of a valid policy has a delay. For an attempt number and
    a jitter percentile in their ranges the delay is defined, differs from the
    fixed delay or the capped doubling by at most the policy's jitter percent,
    and is a number of milliseconds in the range of the database's [i64]. *)
Theorem retry_delay_is_bounded (p : RetryPolicy) attempt percentile :
  backoff_wf (backoff p) → (1 ≤ attempt ≤ u32_max)%Z → (0 ≤ percentile ≤ 100)%Z →
  ∃ delay, delay_for_attempt p attempt percentile = Ok delay
    ∧ (100 * Z.abs (delay - base_delay (backoff p) attempt)
       ≤ base_delay (backoff p) attempt * jitter_of (backoff p))%Z
    ∧ (0 ≤ delay)%Z ∧ duration_millis (delay * 1000) = Ok (delay * 1000)%Z.
Proof.
  intros Hwf Ha Hp. pose proof (base_delay_bounds _ attempt Hwf ltac:(lia)) as Hb.
  assert (MAX_RETRY_DELAY_SECS * 2000 ≤ i64_max)%Z as Hmax by (vm_compute; congruence).
  assert (MAX_RETRY_DELAY_SECS ≤ u64_max)%Z as Hu by (vm_compute; congruence).
  assert (∀ x, (0 ≤ x * 1000 ≤ i64_max)%Z → duration_millis (x * 1000) = Ok (x * 1000)%Z) as Hms.
  { intros x Hx. unfold duration_millis, i64_try_from, in_i64.
    by rewrite (proj2 (andb_true_iff _ _)) by (rewrite !Z.leb_le; unfold i64_min; lia). }
  unfold delay_for_attempt. rewrite (proj2 (Z.eqb_neq attempt 0)) by lia.
  rewrite (proj2 (Z.ltb_ge 100 percentile)) by lia.
  destruct p as [[d|i m j]]; simpl in *.
  - exists d. split_and!; [done|lia|lia|apply Hms; lia].
  - destruct Hwf as (Hi & Hm & Hj). rewrite exponential_base by lia.
    pose proof (apply_jitter_bounds (Z.min (i * 2 ^ (attempt - 1)) m) j percentile
      ltac:(lia) Hj Hp) as Hd.
    eexists. split_and!; [done|done|nia|apply Hms; nia].
Qed.

Lemma retry_delay_is_bounded_witness :
  ∃ delay, delay_for_attempt {| backoff := Exponential 1 60 20 |} 4 100 = Ok delay
    ∧ (100 * Z.abs (delay - 8) ≤ 8 * 20)%Z.
Proof.
  destruct (retry_delay_is_bounded {| backoff := Exponential 1 60 20 |} 4 100)
    as (delay & E & Hd & _); [vm_compute; split_and!; congruence..|].
  exists delay. split; [exact E|exact Hd].
Defined.

Section stored.
Context `{CodecLaws}.

(** A stored policy reads back exactly when it is valid: decoding the JSON
    of a policy whose fields have their widths returns that policy if its
    bounds hold, and an [InvalidDefinition] naming the bound otherwise. *)
Theorem stored_policy_roundtrip (p : RetryPolicy) :
  backoff_typed (backoff p) →
  (backoff_wf (backoff p) → decode_retry_policy (policy_to_json p) = Ok p)
  ∧ (¬ backoff_wf (backoff p) → ∃ violation, bound_check (backoff p) = inr violation
       ∧ decode_retry_policy (policy_to_json p) = Err (into_error violation)).
Proof.
  intros Ht. unfold decode_retry_policy. rewrite policy_json_roundtrip. simpl. unfold validated.
  pose proof (bound_check_spec _ Ht) as Hspec.
  destruct (bound_check (backoff p)) as [b|violation] eqn:E.
  - apply bound_check_id in E as ->. split; [by destruct p|]. intros Hn. destruct Hn.
    apply Hspec. eauto.
  - split; [|eauto]. intros (b' & Hb')%Hspec. congruence.
Qed.
End stored.

Lemma stored_policy_roundtrip_witness :
  decode_retry_policy (policy_to_json {| backoff := Exponential 1 60 20 |})
    = Ok {| backoff := Exponential 1 60 20 |}
  ∧ ∃ violation, decode_retry_policy (policy_to_json {| backoff := Fixed 0 |})
    = Err (into_error violation).
Proof.
  split.
  - apply (stored_policy_roundtrip {| backoff := Exponential 1 60 20 |});
      vm_compute; split_and!; congruence.
  - destruct (proj2 (stored_policy_roundtrip {| backoff := Fixed 0 |}
      ltac:(vm_compute; split_and!; congruence))) as (violation & _ & E).
    + intros [Hpos _]. vm_compute in Hpos. discriminate.
    + exists violation. exact E.
Defined.

(** * Statuses and waits *)

(** A wait as the engine builds it: ids are positive, a command sequence is
    a [u32]. *)
Definition wait_valid (w : Wait) : Prop :=
  match w with
  | WaitTimer n => (0 ≤ n ≤ u32_max)%Z
  | WaitActivity id | WaitChild id | WaitApproval id => (0 < id)%Z
  end.

(** Stored text and columns read back. The text of every variant of the
    six status enums parses to that variant; the two wait columns of a valid
    wait read as that wait and cleared ones as none; and a row whose wait reads
    has exactly the columns of that wait. *)
Theorem stored_columns_roundtrip :
  ((∀ s : WorkflowStatus, status_try_from (as_str s) = Ok s)
   ∧ (∀ s : ActivityStatus, status_try_from (as_str s) = Ok s)
   ∧ (∀ s : WaitKind, status_try_from (as_str s) = Ok s)
   ∧ (∀ s : ApprovalStatus, status_try_from (as_str s) = Ok s)
   ∧ (∀ s : ScheduleRunStatus, status_try_from (as_str s) = Ok s)
   ∧ (∀ s : AttemptOutcome, status_try_from (as_str s) = Ok s))
  ∧ (∀ w r, wait_valid w → wf_wait (WaitColumns_on w r) = Ok (Some w))
  ∧ (∀ r, wf_wait (WaitColumns_cleared r) = Ok None)
  ∧ ∀ r w, wf_wait r = Ok (Some w) → WaitColumns_on w r = r.
Proof.
  split; [split_and!; intros []; reflexivity|]. split; [|split].
  - intros w r Hw. unfold wf_wait, WaitColumns_on, wait_parse, new_id. simpl.
    destruct w as [n|id|id|id]; simpl in *;
      [|by rewrite (proj2 (Z.ltb_lt 0 id)) by lia..].
    unfold u32_try_from, in_u32.
    by rewrite (proj2 (andb_true_iff _ _)) by (rewrite !Z.leb_le; lia).
  - done.
  - intros r w [Hk Hr]%wf_wait_Some. unfold WaitColumns_on. destruct r; simpl in *. by subst.
Qed.

(** * Topic locks *)

(** Only lock rows were added. *)
Definition locks_added (d d' : Db) : Prop :=
  d' = d <| db_topic_lock := db_topic_lock d' |>
  ∧ ∀ t l, db_topic_lock d !! t = Some l → db_topic_lock d' !! t = Some l.

#[export] Instance locks_added_refl : Reflexive locks_added.
Proof. intros []. by split. Qed.

#[export] Instance locks_added_trans : Transitive locks_added.
Proof. intros d1 d2 d3 [E2 K2] [E3 K3]. split; [|auto]. rewrite E3, E2. done. Qed.

(** The lock row of a registered topic has the registered limit. *)
Definition lock_agrees (def : TopicDefinition) (d : Db) : Prop :=
  ∃ l, db_topic_lock d !! td_key def = Some l
    ∧ tl_max_concurrency l = td_max_concurrency def
    ∧ (0 ≤ td_max_concurrency def ≤ i32_max)%Z.

(** A loop that only checks. *)
Lemma wp_for_check {B} Ψ e d (Q : B → Prop) l (body : B → Tx unit) (Φ : unit → Db → Prop) :
  (∀ x, x ∈ l → wp Ψ (body x) e d (λ _ d', d' = d ∧ Q x)) →
  ((∀ x, x ∈ l → Q x) → Φ tt d) → wp Ψ (tx_for l body) e d Φ.
Proof.
  intros Hbody HΦ. induction l as [|x l IH]; simpl.
  - apply wp_ret, HΦ. by intros x ?%elem_of_nil.
  - apply wp_bind. eapply wp_mono; [apply Hbody; by left|]. intros [] d' [-> Hx].
    apply IH; [intros; apply Hbody; by right|]. intros Hl. apply HΦ.
    intros y [->|Hy]%elem_of_cons; auto.
Qed.

Lemma wp_insert_lock e d row :
  wp any_error (insert_topic_lock_if_absent row) e d
    (λ _ d', locks_added d d' ∧ is_Some (db_topic_lock d' !! tl_topic row)).
Proof.
  unfold insert_topic_lock_if_absent. apply wp_bind, wp_get.
  destruct (db_topic_lock d !! tl_topic row) as [l|] eqn:Hrow.
  - apply wp_ret. split; [done|eauto].
  - case_match; [by run_step|]. run_step. simpl. rewrite lookup_insert_eq. split; [|eauto].
    split; [done|]. simpl. intros t l Hl. rewrite lookup_insert_ne; [done|]. congruence.
Qed.

Lemma wp_insert_locks e d rows :
  wp any_error (insert_topic_locks_if_absent rows) e d
    (λ _ d', locks_added d d' ∧ ∀ row, row ∈ rows → is_Some (db_topic_lock d' !! tl_topic row)).
Proof.
  apply (wp_for_each _ _ _ locks_added (λ row d', is_Some (db_topic_lock d' !! tl_topic row))).
  - apply _.
  - apply _.
  - intros row d1 d2 [_ Hk] [l Hl]. eauto.
  - intros row d1 _. apply wp_insert_lock.
Qed.

(** The rows that seeding inserts are those of the registered topics. *)
Lemma topic_lock_rows_elem topics timestamp rows def :
  topic_lock_rows topics timestamp = Ok rows → def ∈ topic_definitions topics →
  (i32_min ≤ td_max_concurrency def ≤ i32_max)%Z
  ∧ MkTopicLockRow (td_key def) (td_max_concurrency def) timestamp ∈ rows.
Proof.
  intros Hrows Hdef. destruct (collect_elem _ _ _ _ Hrows Hdef) as (row & Hrow & Hin).
  apply res_bind_Ok in Hrow as (n & [-> ?]%ok_or_Ok%i32_try_from_Some & [= <-]). done.
Qed.

Lemma wp_compare e d topics :
  (∀ def, def ∈ topic_definitions topics → is_Some (db_topic_lock d !! td_key def)
     ∧ (td_max_concurrency def ≤ i32_max)%Z) →
  wp any_error (compare_topic_locks topics) e d
    (λ _ d', d' = d ∧ ∀ def, def ∈ topic_definitions topics → lock_agrees def d).
Proof.
  intros Hsome. unfold compare_topic_locks. apply wp_bind, wp_get.
  apply (wp_for_check _ _ _ (λ def, lock_agrees def d)); [|by auto].
  intros def Hdef. destruct (Hsome def Hdef) as [[l Hl] Hfit].
  rewrite Hl. apply wp_bind.
  destruct (u32_try_from (tl_max_concurrency l)) as [n|] eqn:Hn; [|by run_step].
  apply u32_try_from_Some in Hn as [-> Hn]. apply wp_ret.
  case_match eqn:Heq; [|by run_step]. apply Z.eqb_eq in Heq. run_step.
  split; [done|]. exists l. split_and!; [done|done|lia|lia].
Qed.

(** Once every lock agrees, the statements write nothing and find no fault. *)
Lemma wp_insert_locks_again e d rows :
  (∀ row, row ∈ rows → is_Some (db_topic_lock d !! tl_topic row)) →
  wp no_error (insert_topic_locks_if_absent rows) e d (λ _ d', d' = d).
Proof.
  intros Hall. apply (wp_for_check _ _ _ (λ _, True)); [|done].
  intros row [l Hl]%Hall. unfold insert_topic_lock_if_absent. apply wp_bind, wp_get.
  rewrite Hl. by apply wp_ret.
Qed.

Lemma wp_compare_again e d topics :
  (∀ def, def ∈ topic_definitions topics → lock_agrees def d) →
  wp no_error (compare_topic_locks topics) e d (λ _ d', d' = d).
Proof.
  intros Hall. unfold compare_topic_locks. apply wp_bind, wp_get.
  apply (wp_for_check _ _ _ (λ _, True)); [|done].
  intros def (l & Hl & Heq & Hb)%Hall. rewrite Hl, Heq.
  unfold u32_try_from, in_u32. rewrite (proj2 (andb_true_iff _ _))
    by (rewrite !Z.leb_le; unfold i32_max, u32_max in *; lia).
  apply wp_bind, wp_ret. rewrite Z.eqb_refl. by apply wp_ret.
Qed.

Lemma topic_lock_rows_Ok topics timestamp :
  (∀ def, def ∈ topic_definitions topics → (0 ≤ td_max_concurrency def ≤ i32_max)%Z) →
  topic_lock_rows topics timestamp =
    Ok ((λ def, MkTopicLockRow (td_key def) (td_max_concurrency def) timestamp)
        <$> topic_definitions topics).
Proof.
  intros Hfit. apply collect_Ok. intros def Hb%Hfit. unfold i32_try_from, in_i32.
  by rewrite (proj2 (andb_true_iff _ _)) by (rewrite !Z.leb_le; unfold i32_min; lia).
Qed.

Lemma seed_again topics e1 e2 e3 d :
  (∀ def, def ∈ topic_definitions topics → lock_agrees def d) →
  seed_locks_once topics e1 e2 e3 d = (Ok tt, d).
Proof.
  intros Hall. unfold seed_locks_once. cbn [transaction database_now_millis tx_db tx_samples].
  rewrite topic_lock_rows_Ok by (intros def (l & _ & _ & ?)%Hall; done).
  set (rows := _ <$> topic_definitions topics). destruct rows as [|row rows'] eqn:Erows; [done|].
  rewrite <- Erows. destruct (wp_total _ _ _ _ (wp_insert_locks_again e2 d rows ltac:(
    intros x (def & -> & (l & Hl & _)%Hall)%list_elem_of_fmap; by eexists)))
    as ([] & d1 & -> & ->).
  by destruct (wp_total _ _ _ _ (wp_compare_again e3 d topics Hall)) as ([] & d2 & -> & ->).
Qed.

Lemma seed_agrees topics e1 e2 e3 d d' result :
  seed_locks_once topics e1 e2 e3 d = (result, d') →
  locks_added d d'
  ∧ (result = Ok tt → ∀ def, def ∈ topic_definitions topics → lock_agrees def d').
Proof.
  unfold seed_locks_once. cbn [transaction database_now_millis tx_db tx_samples].
  destruct (topic_lock_rows topics _) as [rows|error] eqn:Erows; [|by intros [= <- <-]].
  pose proof (λ def, topic_lock_rows_elem _ _ _ def Erows) as Hrows.
  assert (∀ x, (∀ d1, transaction e2 (insert_topic_locks_if_absent rows) d = (Ok tt, d1) →
    transaction e3 (compare_topic_locks topics) d1 = x → locks_added d x.2 ∧ (x.1 = Ok tt →
      ∀ def, def ∈ topic_definitions topics → lock_agrees def x.2))) as Hins.
  { intros x d1 Ht <-. destruct (wp_committed _ _ _ _ _ _ _ (wp_insert_locks e2 d rows) Ht)
      as [Hadd Hin].
    pose proof (wp_transaction _ _ _ _ _ (wp_compare e3 d1 topics ltac:(intros def Hdef;
      destruct (Hrows def Hdef) as [? Hr]; split; [apply (Hin _ Hr)|lia]))) as Hc.
    destruct (transaction e3 _ d1) as [[[]|error] d2]; destruct Hc as [Hc Hall]; subst; cbn.
    - by split.
    - split; [done|discriminate]. }
  destruct rows as [|row rows'].
  - intros [= <- <-]. split; [done|]. intros _ def Hdef. by destruct (Hrows def Hdef) as [_ ?%elem_of_nil].
  - destruct (transaction e2 _ d) as [[[]|error] d1] eqn:Ht.
    + intros E. by destruct (Hins (result, d') d1 eq_refl E).
    + intros [= <- <-]. pose proof (wp_transaction _ _ _ _ _ (wp_insert_locks e2 d (row :: rows'))) as Hf.
      rewrite Ht in Hf. destruct Hf as [_ ->]. by split.
Qed.

(** Seeding the topic locks. Whatever it returns, only lock rows were added
    and none was changed; rows it added stay when it fails. When it succeeds,
    every registered topic has a lock row with its registered limit, a limit
    that fits the column, and seeding again, by any process, succeeds without a
    write. So a limit that disagrees with the persisted one refuses the
    start-up. *)
Theorem topic_locks_agree (topics : TopicRegistry) (e1 e2 e3 : Env) (d d' : Db) result :
  seed_locks_once topics e1 e2 e3 d = (result, d') →
  locks_added d d'
  ∧ (result = Ok tt →
     (∀ def, def ∈ topic_definitions topics → lock_agrees def d')
     ∧ ∀ e1' e2' e3', seed_locks_once topics e1' e2' e3' d' = (Ok tt, d')).
Proof.
  intros [Hadd Hok]%seed_agrees. split; [done|]. intros E. split; [auto|].
  intros. by apply seed_again, Hok.
Qed.

Lemma topic_locks_agree_witness : db_topic_lock seeded ≠ ∅
  ∧ (∀ def, def ∈ topic_definitions topics → lock_agrees def seeded).
Proof.
  split; [vm_compute; discriminate|].
  destruct (topic_locks_agree topics (env_at 1000 "s") (env_at 1000 "s") (env_at 1000 "s")
    empty_db seeded (Ok tt) seeded_by_start) as [_ Hok].
  apply Hok. reflexivity.
Defined.
