(* ===== verification/Flow.v ===== *)
(** Durable-async flows ([flow.rs]): a workflow written as ordinary control
    flow, run again from its top at every activation over the journal of its
    completed steps.

    Flow code is application code; between its awaits it is deterministic in
    its arguments (S32), so here it is a tree: what it returns, or the next
    step it awaits with what it does for each result of that step. *)
From stdpp Require Import base list strings.
From Stdlib Require Import ZArith Lia.
From S2P Require Import Prelude.
From S2P Require Import Errors.
From S2P Require Import Rows.
From S2P Require Import Policy.
From S2P Require Import Transitions.

(** * Errors and their texts *)

(** [error.to_string()] of a [DurableError]. The texts of the drivers' errors,
    and Rust's debug format of lists of definitions, are parameters. *)
Class ErrorTexts := {
  driver_text : DurableError → string;
  missing_text : list DefinitionKey → list DefinitionKey → list string → string;
}.

Section texts.
Context `{ErrorTexts}.

Definition error_text (error : DurableError) : string :=
  match error with
  | Database _ => "database error: " +:+ driver_text error
  | Pool _ => "database pool error: " +:+ driver_text error
  | PoolCheckout _ => "database pool checkout error: " +:+ driver_text error
  | Migration source => "durable migration failed: " +:+ source
  | Serialization message => "durable payload serialization failed: " +:+ message
  | InvalidPayload field message => "invalid " +:+ field +:+ ": " +:+ message
  | InvalidDefinition message => "invalid durable definition: " +:+ message
  | MissingDefinition kind version =>
      "missing durable definition " +:+ kind +:+ " v" +:+ fmt version
  | MissingCurrentDefinition kind => "missing current durable definition for " +:+ kind
  | MissingDefinitions workflows activities topics => missing_text workflows activities topics
  | DuplicateDefinition kind version =>
      "duplicate durable definition " +:+ kind +:+ " v" +:+ fmt version
  | InvalidState message => "invalid durable state: " +:+ message
  | FencedWrite => "durable write lost its lease fence"
  | InvalidId value => "invalid durable identifier: " +:+ fmt value
  | NotFound resource identifier =>
      "durable resource not found: " +:+ resource +:+ " " +:+ identifier
  | Conflict message => "durable operation conflicts with current state: " +:+ message
  | InvalidCursor message => "invalid durable admin cursor: " +:+ message
  | PayloadTooLarge field actual_bytes max_bytes =>
      field +:+ " is " +:+ fmt (Z.of_nat actual_bytes) +:+ " bytes; maximum is "
      +:+ fmt (Z.of_nat max_bytes) +:+ " bytes"
  | DefinitionMismatch actual_kind actual_version expected_kind expected_version =>
      "stored result definition " +:+ actual_kind +:+ " v" +:+ fmt actual_version
      +:+ " does not match expected " +:+ expected_kind +:+ " v" +:+ fmt expected_version
  end.
End texts.

Inductive WfError :=
  | Suspended
  | WfChildFailed (kind category message : string)
  | WfDefinition (message : string)
  | WfDomain (category message : string).

Definition wf_error_new (category message : string) : WfError := WfDomain category message.

(** [Result<A, WfError>]: the error on the left. *)
Abbreviation WfResult A := (WfError + A)%type.

(** What [serde_json] makes of a value or of a text: the text of its error on
    the left. *)
Abbreviation Serde A := (string + A)%type.

Definition serialized {A} (r : Serde A) : Result A :=
  match r with inl error => Err (Serialization error) | inr a => Ok a end.

(** * The journal *)

Inductive FlowOutcome :=
  | FlowSucceeded (result_json : string)
  | FlowFailed (category message : string).

Record JournalEntry := MkJournalEntry {
  je_step_kind : string;
  je_step_version : option Z;
  je_outcome : FlowOutcome;
}.

Record FlowJournal := MkFlowJournal { fj_steps : list JournalEntry }.

Definition initial_state : FlowJournal := MkFlowJournal [].

(** [WorkflowTransition<S, A, O>] *)
Inductive WorkflowTransition (S A O : Type) :=
  | RunActivity (state : S) (activity : ActivityCommand)
  | RunChild (state : S) (child : ChildWorkflowCommand)
  | SleepUntil (state : S) (wake_at_millis : Z)
  | WaitForApproval (state : S) (approval : A) (expires_at_millis : option Z)
  | Continue (state : S)
  | Complete (output : O).
Arguments RunActivity {S A O}.
Arguments RunChild {S A O}.
Arguments SleepUntil {S A O}.
Arguments WaitForApproval {S A O}.
Arguments Continue {S A O}.
Arguments Complete {S A O}.

Inductive PendingStep :=
  | PendingActivity (command : ActivityCommand)
  | PendingChild (command : ChildWorkflowCommand)
  | PendingSleep (wake_at_millis : Z).

(** [WfCtx]; the application context is closed over by the flow. *)
Record WfCtx := MkWfCtx {
  cx_workflow_id : option WorkflowId;
  cx_steps : list JournalEntry;
  cx_cursor : nat;
  cx_pending : option PendingStep;
}.

Definition ctx_new (workflow_id : option WorkflowId) (journal : FlowJournal) : WfCtx :=
  MkWfCtx workflow_id (fj_steps journal) 0 None.

Definition suspend_at (step : PendingStep) (ctx : WfCtx) : WfCtx :=
  MkWfCtx (cx_workflow_id ctx) (cx_steps ctx) (cx_cursor ctx) (Some step).

Definition advance_cursor (ctx : WfCtx) : WfCtx :=
  MkWfCtx (cx_workflow_id ctx) (cx_steps ctx) (S (cx_cursor ctx)) (cx_pending ctx).

(** [{:?}] of an [Option<i32>]. *)
Definition debug_version (version : option Z) : string :=
  match version with Some v => "Some(" +:+ fmt v +:+ ")" | None => "None" end.

Definition kind_mismatch (position : nat) (step_kind recorded : string) : WfError :=
  WfDefinition ("nondeterministic flow: step " +:+ fmt (Z.of_nat (position + 1))
    +:+ " requested " +:+ step_kind +:+ " but the journal recorded " +:+ recorded).

Definition version_mismatch (position : nat) (step_kind : string) (version recorded : option Z)
    : WfError :=
  WfDefinition ("nondeterministic flow: step " +:+ fmt (Z.of_nat (position + 1))
    +:+ " requested " +:+ step_kind +:+ " version " +:+ debug_version version
    +:+ " but the journal recorded version " +:+ debug_version recorded).

Definition replay (step_kind : string) (step_version : option Z) (ctx : WfCtx)
    : WfResult (option FlowOutcome) * WfCtx :=
  match cx_pending ctx with
  | Some _ => (inl Suspended, ctx)
  | None =>
      match cx_steps ctx !! cx_cursor ctx with
      | None => (inr None, ctx)
      | Some entry =>
          if negb (String.eqb (je_step_kind entry) step_kind)
          then (inl (kind_mismatch (cx_cursor ctx) step_kind (je_step_kind entry)), ctx)
          else if negb (bool_decide (je_step_version entry = step_version))
          then (inl (version_mismatch (cx_cursor ctx) step_kind step_version
                       (je_step_version entry)), ctx)
          else (inr (Some (je_outcome entry)), advance_cursor ctx)
      end
  end.

(** * The steps a flow awaits *)

(** An activity of a flow: its type, its own serialization, and the decoding
    of its output. *)
Record FlowActivity (T : Type) := MkFlowActivity {
  fa_type : ActivityType;
  fa_payload : Serde string;
  fa_output : string → Serde T;
}.
Arguments MkFlowActivity {T}.
Arguments fa_type {T}.
Arguments fa_payload {T}.
Arguments fa_output {T}.

(** A child workflow of a flow. *)
Record FlowChild (T : Type) := MkFlowChild {
  fc_kind : string;
  fc_version : Z;
  fc_input : Serde string;
  fc_state : Serde string;
  fc_output : string → Serde T;
}.
Arguments MkFlowChild {T}.
Arguments fc_kind {T}.
Arguments fc_version {T}.
Arguments fc_input {T}.
Arguments fc_state {T}.
Arguments fc_output {T}.

(** [ActivityCommand::new] on the serialized activity. *)
Definition flow_activity_command {T} (activity : FlowActivity T) (key : option string)
    : Result ActivityCommand :=
  let? payload_json := serialized (fa_payload activity) in
  new_activity_command (fa_type activity) payload_json key.

(** [ChildWorkflowCommand::new], which serializes after it checks the type. *)
Definition flow_child_command {T} (workflow : FlowChild T) : Result ChildWorkflowCommand :=
  if (str_len (fc_kind workflow) =? 0)%nat || (fc_version workflow <=? 0)%Z
  then Err (InvalidDefinition
              "child workflow kind must be non-empty and version must be positive")
  else
    let? input_json := serialized (fc_input workflow) in
    let? _ := ensure_size "child workflow input" input_json MAX_INPUT_STATE_PAYLOAD_BYTES in
    let? state_json := serialized (fc_state workflow) in
    new_child_command (fc_kind workflow) (fc_version workflow) input_json state_json.

Definition activity_step_kind {T} (activity : FlowActivity T) : string :=
  "activity:" +:+ aty_kind (fa_type activity).
Definition child_step_kind {T} (workflow : FlowChild T) : string :=
  "child:" +:+ fc_kind workflow.

Definition no_longer_decodes (step_kind error : string) : WfError :=
  WfDefinition ("recorded " +:+ step_kind +:+ " result no longer decodes: " +:+ error).

Definition decoded {T} (step_kind : string) (r : Serde T) : WfResult T :=
  match r with inl error => inl (no_longer_decodes step_kind error) | inr a => inr a end.

Definition auto_operation_key (ctx : WfCtx) : option string :=
  (λ workflow_id, "wf:" +:+ fmt workflow_id +:+ ":step:" +:+ fmt (Z.of_nat (cx_cursor ctx + 1)))
  <$> cx_workflow_id ctx.

Section steps.
Context `{ErrorTexts}.

(** A step whose command is built, or refused. *)
Definition suspend {C T} (pending : C → PendingStep) (command : Result C) (ctx : WfCtx)
    : WfResult T * WfCtx :=
  match command with
  | Err error => (inl (WfDefinition (error_text error)), ctx)
  | Ok command => (inl Suspended, suspend_at (pending command) ctx)
  end.

Definition run_step {T} (activity : FlowActivity T) (operation_key : option string) (ctx : WfCtx)
    : WfResult T * WfCtx :=
  let step_kind := activity_step_kind activity in
  match replay step_kind (Some (aty_version (fa_type activity))) ctx with
  | (inl error, ctx) => (inl error, ctx)
  | (inr (Some (FlowSucceeded result_json)), ctx) =>
      (decoded step_kind (fa_output activity result_json), ctx)
  | (inr (Some (FlowFailed category message)), ctx) =>
      (inl (WfDefinition ("recorded " +:+ step_kind +:+ " result is a failure (" +:+ category
              +:+ ": " +:+ message +:+ "); activities never journal failures")), ctx)
  | (inr None, ctx) =>
      suspend PendingActivity (flow_activity_command activity operation_key) ctx
  end.

Definition run {T} (activity : FlowActivity T) (ctx : WfCtx) : WfResult T * WfCtx :=
  run_step activity (auto_operation_key ctx) ctx.

Definition run_with_key {T} (activity : FlowActivity T) (operation_key : string) (ctx : WfCtx)
    : WfResult T * WfCtx :=
  run_step activity (Some operation_key) ctx.

Definition keyed_child (deduplication_key : option string) (command : ChildWorkflowCommand)
    : ChildWorkflowCommand :=
  match deduplication_key with
  | Some key => with_deduplication_key command key
  | None => command
  end.

Definition child_step {T} (workflow : FlowChild T) (deduplication_key : option string)
    (ctx : WfCtx) : WfResult T * WfCtx :=
  let step_kind := child_step_kind workflow in
  match replay step_kind (Some (fc_version workflow)) ctx with
  | (inl error, ctx) => (inl error, ctx)
  | (inr (Some (FlowSucceeded result_json)), ctx) =>
      (decoded step_kind (fc_output workflow result_json), ctx)
  | (inr (Some (FlowFailed category message)), ctx) =>
      (inl (WfChildFailed (fc_kind workflow) category message), ctx)
  | (inr None, ctx) =>
      suspend PendingChild (res_map (keyed_child deduplication_key) (flow_child_command workflow))
        ctx
  end.

Definition sleep_until (wake_at_millis : Z) (ctx : WfCtx) : WfResult unit * WfCtx :=
  match replay "timer" None ctx with
  | (inl error, ctx) => (inl error, ctx)
  | (inr (Some (FlowSucceeded _)), ctx) => (inr tt, ctx)
  | (inr (Some (FlowFailed category message)), ctx) =>
      (inl (WfDefinition ("recorded timer result is a failure (" +:+ category +:+ ": "
              +:+ message +:+ ")")), ctx)
  | (inr None, ctx) => (inl Suspended, suspend_at (PendingSleep wake_at_millis) ctx)
  end.
End steps.

(** * Flow programs *)

(** A step that flow code awaits, by the type of what it answers. *)
Inductive Await : Type → Type :=
  | AwaitRun {T} (activity : FlowActivity T) : Await T
  | AwaitRunKey {T} (activity : FlowActivity T) (operation_key : string) : Await T
  | AwaitChild {T} (workflow : FlowChild T) : Await T
  | AwaitChildKey {T} (workflow : FlowChild T) (deduplication_key : string) : Await T
  | AwaitSleep (wake_at_millis : Z) : Await unit.

Inductive Flow (O : Type) : Type :=
  | FlowReturn (result : WfResult O)
  | FlowAwait {T} (step : Await T) (rest : WfResult T → Flow O).
Arguments FlowReturn {O}.
Arguments FlowAwait {O T}.

Section flows.
Context `{ErrorTexts}.

Definition await {T} (step : Await T) : WfCtx → WfResult T * WfCtx :=
  match step with
  | AwaitRun activity => run activity
  | AwaitRunKey activity key => run_with_key activity key
  | AwaitChild workflow => child_step workflow None
  | AwaitChildKey workflow key => child_step workflow (Some key)
  | AwaitSleep wake_at_millis => sleep_until wake_at_millis
  end.

Fixpoint run_flow {O} (flow : Flow O) (ctx : WfCtx) : WfResult O * WfCtx :=
  match flow with
  | FlowReturn result => (result, ctx)
  | FlowAwait step rest => let '(answer, ctx) := await step ctx in run_flow (rest answer) ctx
  end.

(** * Activations *)

Definition ensure_sequence (actual expected : Z) : WorkflowError + unit :=
  if (actual =? expected)%Z then inr tt
  else inl (new_workflow_error "flow"
              ("flow received step result " +:+ fmt actual +:+ " but the journal expects "
               +:+ fmt expected)).

Definition push_entry (journal : FlowJournal) (entry : JournalEntry) : FlowJournal :=
  MkFlowJournal (fj_steps journal ++ [entry]).

(** The entry of a result that answers the expected step. *)
Definition journal_result (journal : FlowJournal) (expected command_sequence : Z)
    (entry : JournalEntry) : WorkflowError + FlowJournal :=
  match ensure_sequence command_sequence expected with
  | inl error => inl error
  | inr _ => inr (push_entry journal entry)
  end.

Definition apply_event (journal : FlowJournal) (event : WorkflowEvent)
    : WorkflowError + FlowJournal :=
  match u32_try_from (Z.of_nat (length (fj_steps journal)) + 1) with
  | None => inl (new_workflow_error "flow" "flow journal length overflow")
  | Some expected =>
      match event with
      | Started | Continued => inr journal
      | ActivitySucceeded command_sequence result =>
          journal_result journal expected command_sequence
            (MkJournalEntry ("activity:" +:+ ar_kind result) (Some (ar_version result))
               (FlowSucceeded (ar_output_json result)))
      | ChildSucceeded command_sequence result =>
          journal_result journal expected command_sequence
            (MkJournalEntry ("child:" +:+ cr_kind result) (Some (cr_version result))
               (FlowSucceeded (cr_output_json result)))
      | ChildFailed command_sequence kind version category message =>
          journal_result journal expected command_sequence
            (MkJournalEntry ("child:" +:+ kind) (Some version) (FlowFailed category message))
      | TimerFired command_sequence =>
          journal_result journal expected command_sequence
            (MkJournalEntry "timer" None (FlowSucceeded "null"))
      | ApprovalResolved _ _ | ApprovalExpired _ =>
          inl (new_workflow_error "flow" "flows do not support approval waits")
      end
  end.

Definition unreplayed (ctx : WfCtx) : WorkflowError :=
  new_workflow_error "flow_definition"
    ("flow completed without replaying "
     +:+ fmt (Z.of_nat (length (cx_steps ctx) - cx_cursor ctx)) +:+ " recorded journal step(s)").

(** The end of an activation, by what the flow returned. *)
Definition flow_outcome {O} (result : WfResult O) (ctx : WfCtx)
    : WorkflowError + WorkflowTransition FlowJournal unit O :=
  match result with
  | inr output =>
      if (cx_cursor ctx =? length (cx_steps ctx))%nat then inr (Complete output)
      else inl (unreplayed ctx)
  | inl Suspended =>
      let state := MkFlowJournal (cx_steps ctx) in
      match cx_pending ctx with
      | Some (PendingActivity activity) => inr (RunActivity state activity)
      | Some (PendingChild child) => inr (RunChild state child)
      | Some (PendingSleep wake_at_millis) => inr (SleepUntil state wake_at_millis)
      | None => inl (new_workflow_error "flow" "flow suspended without a pending step")
      end
  | inl (WfChildFailed kind category message) =>
      inl (new_workflow_error "child_failed"
             ("child workflow " +:+ kind +:+ " failed: " +:+ category +:+ ": " +:+ message))
  | inl (WfDefinition message) => inl (new_workflow_error "flow_definition" message)
  | inl (WfDomain category message) => inl (new_workflow_error category message)
  end.

Definition flow_step {O} (flow : Flow O) (workflow_id : option WorkflowId)
    (journal : FlowJournal) (event : WorkflowEvent)
    : WorkflowError + WorkflowTransition FlowJournal unit O :=
  match apply_event journal event with
  | inl error => inl error
  | inr journal =>
      let '(result, ctx) := run_flow flow (ctx_new workflow_id journal) in
      flow_outcome result ctx
  end.
End flows.
