(* ===== verification/Replay.v ===== *)
(** Replay of flows is execution: however many activations a flow takes, it
    issues the commands of one uninterrupted run, each once and in order, and
    ends as that run ends; and a journal it did not write is refused.

    The reference is [direct]: the flow run once from its top, with every step
    performed as it is awaited. *)
From stdpp Require Import base list strings.
From Stdlib Require Import ZArith Lia.
From S2P Require Import Prelude.
From S2P Require Import Errors.
From S2P Require Import Rows.
From S2P Require Import Policy.
From S2P Require Import Transitions.
From S2P Require Import Flow.

(** * The reference *)

(** How the rest of the system answers the step at a position: with the
    output of the activity, or how the child ended. *)
Record World := MkWorld {
  on_activity : nat → ActivityCommand → string;
  on_child : nat → ChildWorkflowCommand → FlowOutcome;
}.

Section reference.
Context `{ErrorTexts} (world : World) (workflow_id : option WorkflowId).

Definition performed (position : nat) (command : PendingStep) : FlowOutcome :=
  match command with
  | PendingActivity activity => FlowSucceeded (on_activity world position activity)
  | PendingChild child => on_child world position child
  | PendingSleep _ => FlowSucceeded "null"
  end.

(** What flow code sees of an outcome of its step. *)
Definition answer {T} (step : Await T) (outcome : FlowOutcome) : WfResult T :=
  match step in Await T return WfResult T with
  | AwaitRun activity | AwaitRunKey activity _ =>
      match outcome with
      | FlowSucceeded result_json =>
          decoded (activity_step_kind activity) (fa_output activity result_json)
      | FlowFailed category message =>
          inl (WfDefinition ("recorded " +:+ activity_step_kind activity +:+
            " result is a failure (" +:+ category +:+ ": " +:+ message +:+
            "); activities never journal failures"))
      end
  | AwaitChild workflow | AwaitChildKey workflow _ =>
      match outcome with
      | FlowSucceeded result_json =>
          decoded (child_step_kind workflow) (fc_output workflow result_json)
      | FlowFailed category message => inl (WfChildFailed (fc_kind workflow) category message)
      end
  | AwaitSleep _ =>
      match outcome with
      | FlowSucceeded _ => inr tt
      | FlowFailed category message =>
          inl (WfDefinition ("recorded timer result is a failure (" +:+ category +:+ ": "
                             +:+ message +:+ ")"))
      end
  end.

Definition issued {C} (pending : C → PendingStep) (command : Result C) : WfResult PendingStep :=
  match command with
  | Err error => inl (WfDefinition (error_text error))
  | Ok command => inr (pending command)
  end.

(** The command of the step at a position; the operation key of an activity
    is its position in the workflow unless the flow names one. *)
Definition command {T} (position : nat) (step : Await T) : WfResult PendingStep :=
  match step with
  | AwaitRun activity =>
      issued PendingActivity (flow_activity_command activity
        ((λ id, "wf:" +:+ fmt id +:+ ":step:" +:+ fmt (Z.of_nat (position + 1))) <$> workflow_id))
  | AwaitRunKey activity key =>
      issued PendingActivity (flow_activity_command activity (Some key))
  | AwaitChild workflow => issued PendingChild (flow_child_command workflow)
  | AwaitChildKey workflow key =>
      issued PendingChild
        (res_map (λ child, with_deduplication_key child key) (flow_child_command workflow))
  | AwaitSleep wake_at_millis => inr (PendingSleep wake_at_millis)
  end.

Definition failure (error : WfError) : WorkflowError :=
  match error with
  | Suspended => new_workflow_error "flow" "flow suspended without a pending step"
  | WfChildFailed kind category message =>
      new_workflow_error "child_failed"
        ("child workflow " +:+ kind +:+ " failed: " +:+ category +:+ ": " +:+ message)
  | WfDefinition message => new_workflow_error "flow_definition" message
  | WfDomain category message => new_workflow_error category message
  end.

(** The commands of the run from this position on, and what it returns. *)
Fixpoint direct {O} (flow : Flow O) (position : nat) : list PendingStep * WfResult O :=
  match flow with
  | FlowReturn result => ([], result)
  | FlowAwait step rest =>
      match command position step with
      | inl error => direct (rest (inl error)) position
      | inr pending =>
          let '(commands, result) :=
            direct (rest (answer step (performed position pending))) (S position) in
          (pending :: commands, result)
      end
  end.

Definition final {O} (result : WfResult O) : WorkflowError + O :=
  match result with inl error => inl (failure error) | inr output => inr output end.

(** * The activations *)

(** The event that answers the step at a position, as the engine delivers
    it: of the definition the command named. *)
Definition answer_event (position : nat) (command : PendingStep) : WorkflowEvent :=
  let sequence := (Z.of_nat position + 1)%Z in
  match command with
  | PendingActivity activity =>
      ActivitySucceeded sequence
        (MkActivityResult (cmd_kind activity) (cmd_version activity)
           (on_activity world position activity))
  | PendingChild child =>
      match on_child world position child with
      | FlowSucceeded output_json =>
          ChildSucceeded sequence (MkChildResult (ch_kind child) (ch_version child) output_json)
      | FlowFailed category message =>
          ChildFailed sequence (ch_kind child) (ch_version child) category message
      end
  | PendingSleep _ => TimerFired sequence
  end.

(** The flow activated until it ends, each command it emits answered by the
    world: the commands, and how it ended. *)
Fixpoint activations {O} (fuel : nat) (flow : Flow O) (journal : FlowJournal)
    (event : WorkflowEvent) : option (list PendingStep * (WorkflowError + O)) :=
  match fuel with
  | 0%nat => None
  | S fuel =>
      let next state pending :=
        '(commands, result) ← activations fuel flow state
                                (answer_event (length (fj_steps state)) pending);
        Some (pending :: commands, result) in
      match flow_step flow workflow_id journal event with
      | inl error => Some ([], inl error)
      | inr (Complete output) => Some ([], inr output)
      | inr (RunActivity state activity) => next state (PendingActivity activity)
      | inr (RunChild state child) => next state (PendingChild child)
      | inr (SleepUntil state wake_at_millis) => next state (PendingSleep wake_at_millis)
      | inr (WaitForApproval _ _ _) | inr (Continue _) => None
      end
  end.
End reference.

(** Flow code that passes the suspension and definition errors on, as [?]
    does; it may match on every other error. *)
Fixpoint propagates {O} (flow : Flow O) : Prop :=
  match flow with
  | FlowReturn _ => True
  | FlowAwait step rest =>
      rest (inl Suspended) = FlowReturn (inl Suspended)
      ∧ (∀ message, rest (inl (WfDefinition message)) = FlowReturn (inl (WfDefinition message)))
      ∧ ∀ answer, propagates (rest answer)
  end.

(** * One await *)

(** The kind and version under which a step is journaled. *)
Definition step_key {T} (step : Await T) : string * option Z :=
  match step with
  | AwaitRun activity | AwaitRunKey activity _ =>
      (activity_step_kind activity, Some (aty_version (fa_type activity)))
  | AwaitChild workflow | AwaitChildKey workflow _ =>
      (child_step_kind workflow, Some (fc_version workflow))
  | AwaitSleep _ => ("timer", None)
  end.

Definition command_key (pending : PendingStep) : string * option Z :=
  match pending with
  | PendingActivity activity => ("activity:" +:+ cmd_kind activity, Some (cmd_version activity))
  | PendingChild child => ("child:" +:+ ch_kind child, Some (ch_version child))
  | PendingSleep _ => ("timer", None)
  end.

Definition entry_key (entry : JournalEntry) : string * option Z :=
  (je_step_kind entry, je_step_version entry).

Section await.
Context `{ErrorTexts} (world : World) (workflow_id : option WorkflowId).

Lemma activity_command_key {T} (activity : FlowActivity T) key c :
  flow_activity_command activity key = Ok c →
  cmd_kind c = aty_kind (fa_type activity) ∧ cmd_version c = aty_version (fa_type activity).
Proof.
  unfold flow_activity_command, new_activity_command. intros Hc.
  repeat (apply res_bind_Ok in Hc as (? & _ & Hc)).
  repeat (case_match; try discriminate); by simplify_eq.
Qed.

Lemma child_command_key {T} (workflow : FlowChild T) c :
  flow_child_command workflow = Ok c →
  ch_kind c = fc_kind workflow ∧ ch_version c = fc_version workflow.
Proof.
  unfold flow_child_command, new_child_command. destruct (_ || _); [done|]. intros Hc.
  repeat (apply res_bind_Ok in Hc as (? & _ & Hc)). by simplify_eq.
Qed.

(** The journal names the definition of the step that issued the command. *)
Lemma command_step_key {T} (step : Await T) position pending :
  command workflow_id position step = inr pending → command_key pending = step_key step.
Proof.
  destruct step; simpl; unfold issued.
  1,2: destruct (flow_activity_command _ _) as [c|] eqn:E; [|done]; intros [= <-];
       apply activity_command_key in E as [E1 E2]; cbn;
       unfold activity_step_kind; by rewrite E1, E2.
  1,2: destruct (flow_child_command _) as [c|] eqn:E; [|done]; intros [= <-];
       apply child_command_key in E as [E1 E2]; cbn; unfold child_step_kind; by rewrite E1, E2.
  by intros [= <-].
Qed.

(** Past the end of the journal a step suspends at its command. *)
Lemma await_end {T} (step : Await T) steps :
  await step (MkWfCtx workflow_id steps (length steps) None) =
    match command workflow_id (length steps) step with
    | inl error => (inl error, MkWfCtx workflow_id steps (length steps) None)
    | inr pending => (inl Suspended, MkWfCtx workflow_id steps (length steps) (Some pending))
    end.
Proof.
  assert (steps !! length steps = None) as E by (apply lookup_ge_None; lia).
  destruct step; simpl; unfold run, run_with_key, run_step, child_step, sleep_until, replay;
    cbn [cx_pending cx_steps cx_cursor]; rewrite E; unfold suspend, issued;
    unfold auto_operation_key; cbn [cx_workflow_id cx_cursor];
    try done; try (by case_match); by destruct (flow_child_command workflow).
Qed.

(** Within the journal it answers with the recorded outcome of its own
    definition, and refuses any other entry. *)
Lemma await_replays {T} (step : Await T) steps cursor entry :
  steps !! cursor = Some entry → entry_key entry = step_key step →
  await step (MkWfCtx workflow_id steps cursor None) =
    (answer step (je_outcome entry), MkWfCtx workflow_id steps (S cursor) None).
Proof.
  intros E Ek. destruct step; injection Ek as Ek Ev; simpl;
    unfold run, run_with_key, run_step, child_step, sleep_until, replay;
    cbn [cx_pending cx_steps cx_cursor]; rewrite E, Ek, Ev, String.eqb_refl, bool_decide_true by done;
    cbn [negb]; by destruct (je_outcome entry).
Qed.

End await.

(** * A run over the journal of the direct run *)

Section run.
Context `{ErrorTexts} (world : World) (workflow_id : option WorkflowId).
Context {O : Type}.
Implicit Types flow : Flow O.

(** The entry of a performed command. *)
Definition recorded (position : nat) (pending : PendingStep) : JournalEntry :=
  MkJournalEntry (command_key pending).1 (command_key pending).2
    (performed world position pending).

(** The journal of the first [k] commands of a run that stands at [position]. *)
Definition journal_of (position : nat) (commands : list PendingStep) : list JournalEntry :=
  imap (λ i, recorded (position + i)) commands.

Lemma journal_of_cons position pending commands :
  journal_of position (pending :: commands) =
    recorded position pending :: journal_of (S position) commands.
Proof.
  unfold journal_of. cbn. rewrite Nat.add_0_r. f_equal.
  apply imap_ext. intros i x _. cbn. f_equal. lia.
Qed.

Lemma run_flow_journal flow done k :
  propagates flow →
  let '(commands, result) := direct world workflow_id flow (length done) in
  let steps := done ++ take k (journal_of (length done) commands) in
  (k ≤ length commands)%nat →
  run_flow flow (MkWfCtx workflow_id steps (length done) None) =
    match commands !! k with
    | Some pending =>
        (inl Suspended, MkWfCtx workflow_id steps (length done + k) (Some pending))
    | None => (result, MkWfCtx workflow_id steps (length done + k) None)
    end.
Proof.
  revert done k. induction flow as [result|T step rest IH]; intros done k Hp; cbn [direct].
  { cbn. intros ->%Nat.le_0_r. cbn. by rewrite Nat.add_0_r. }
  destruct Hp as (Hs & Hd & Hp). pose proof (await_end workflow_id step done) as Hend.
  destruct (command workflow_id (length done) step) as [error|pending] eqn:Ec.
  - assert (∃ m, error = WfDefinition m) as [m ->].
    { destruct step; cbn in Ec; unfold issued in Ec; repeat case_match; simplify_eq; eauto. }
    rewrite Hd. cbn. intros ->%Nat.le_0_r. cbn. rewrite app_nil_r, Hend, Hd. cbn.
    by rewrite Nat.add_0_r.
  - destruct (direct world workflow_id (rest _) (S (length done))) as [commands result] eqn:Ed.
    rewrite journal_of_cons. destruct k as [|k]; cbn [length take lookup]; intros Hk.
    { cbn [run_flow]. rewrite app_nil_r, Hend, Hs. cbn. by rewrite Nat.add_0_r. }
    specialize (IH (answer step (performed world (length done) pending))
      (done ++ [recorded (length done) pending]) k (Hp _)).
    rewrite length_app in IH. cbn [length] in IH. rewrite Nat.add_1_r, Ed in IH.
    specialize (IH ltac:(lia)). rewrite <- app_assoc in IH. cbn [app] in IH.
    cbn [run_flow]. erewrite await_replays; cycle 1.
    + by rewrite lookup_app_r, Nat.sub_diag by lia.
    + rewrite <- (command_step_key workflow_id step _ _ Ec). by destruct pending.
    + cbn [je_outcome recorded]. rewrite IH. by rewrite Nat.add_succ_r.
Qed.

Lemma journal_of_take k commands pending :
  commands !! k = Some pending →
  take (S k) (journal_of 0 commands) = take k (journal_of 0 commands) ++ [recorded k pending].
Proof. intros Hk. apply take_S_r. unfold journal_of. by rewrite list_lookup_imap, Hk. Qed.

(** The answer to a command extends the journal by its entry. *)
Lemma apply_answer journal pending :
  (Z.of_nat (length journal) + 1 ≤ u32_max)%Z →
  apply_event (MkFlowJournal journal) (answer_event world (length journal) pending) =
    inr (MkFlowJournal (journal ++ [recorded (length journal) pending])).
Proof.
  intros Hu. unfold apply_event. cbn [fj_steps].
  assert (u32_try_from (Z.of_nat (length journal) + 1) = Some (Z.of_nat (length journal) + 1)%Z)
    as -> by (unfold u32_try_from, in_u32; rewrite (proj2 (andb_true_iff _ _)); [done|lia]).
  destruct pending as [activity|child|wake]; cbn [answer_event]; unfold recorded;
    cbn [performed]; [|destruct (on_child _ _ _) as [json|category message]|];
    unfold journal_result, ensure_sequence; cbn; by rewrite Z.eqb_refl.
Qed.

Definition emitted (state : FlowJournal) (pending : PendingStep)
    : WorkflowTransition FlowJournal unit O :=
  match pending with
  | PendingActivity activity => RunActivity state activity
  | PendingChild child => RunChild state child
  | PendingSleep wake_at_millis => SleepUntil state wake_at_millis
  end.

Lemma length_journal_of k commands :
  (k ≤ length commands)%nat → length (take k (journal_of 0 commands)) = k.
Proof. rewrite length_take. unfold journal_of. rewrite length_imap. lia. Qed.

(** The activation with the results of the first [k] commands. *)
Lemma flow_step_at flow commands result k journal event :
  propagates flow → direct world workflow_id flow 0 = (commands, result) →
  (k ≤ length commands)%nat →
  apply_event journal event = inr (MkFlowJournal (take k (journal_of 0 commands))) →
  flow_step flow workflow_id journal event =
    match commands !! k with
    | Some pending => inr (emitted (MkFlowJournal (take k (journal_of 0 commands))) pending)
    | None =>
        match final result with inl error => inl error | inr output => inr (Complete output) end
    end.
Proof.
  intros Hp Hd Hk He. pose proof (run_flow_journal flow [] k Hp) as Hrun. cbn [length] in Hrun.
  rewrite Hd in Hrun. specialize (Hrun Hk). cbn [app] in Hrun.
  unfold flow_step. rewrite He. unfold ctx_new. cbn [fj_steps]. rewrite Hrun.
  destruct (commands !! k) as [[]|] eqn:Ek; [done..|].
  apply lookup_ge_None in Ek. unfold flow_outcome, final. destruct result as [[]|output]; try done.
  cbn [cx_cursor cx_steps]. by rewrite length_journal_of, Nat.eqb_refl by lia.
Qed.

(** The answer to the command at [k] brings the journal to [k + 1]. *)
Lemma apply_answer_at commands k pending :
  (Z.of_nat (length commands) ≤ u32_max)%Z → commands !! k = Some pending →
  apply_event (MkFlowJournal (take k (journal_of 0 commands))) (answer_event world k pending) =
    inr (MkFlowJournal (take (S k) (journal_of 0 commands))).
Proof.
  intros Hu Ek. pose proof (lookup_lt_Some _ _ _ Ek) as Hlt.
  pose proof (length_journal_of k commands ltac:(lia)) as El.
  rewrite (journal_of_take _ _ _ Ek). revert El. generalize (take k (journal_of 0 commands)).
  intros l <-. apply apply_answer. lia.
Qed.

Lemma activations_direct flow commands result :
  propagates flow → direct world workflow_id flow 0 = (commands, result) →
  (Z.of_nat (length commands) ≤ u32_max)%Z →
  ∀ fuel k journal event,
    apply_event journal event = inr (MkFlowJournal (take k (journal_of 0 commands))) →
    (k ≤ length commands)%nat → (length commands - k < fuel)%nat →
    activations world workflow_id fuel flow journal event = Some (drop k commands, final result).
Proof.
  intros Hp Hd Hu. induction fuel as [|fuel IH]; [lia|]. intros k journal event He Hk Hf.
  cbn [activations]. rewrite (flow_step_at flow commands result k journal event Hp Hd Hk He).
  destruct (commands !! k) as [pending|] eqn:Ek.
  - pose proof (lookup_lt_Some _ _ _ Ek) as Hlt.
    assert (activations world workflow_id fuel flow
        (MkFlowJournal (take k (journal_of 0 commands)))
        (answer_event world (length (take k (journal_of 0 commands))) pending)
      = Some (drop (S k) commands, final result)) as Hnext.
    { apply IH; [|lia..]. rewrite length_journal_of by lia. by apply apply_answer_at. }
    rewrite (drop_S _ _ _ Ek). destruct pending; cbn [emitted fj_steps]; by rewrite Hnext.
  - apply lookup_ge_None in Ek. rewrite drop_ge by done. by destruct (final result).
Qed.
End run.

(** * What a journal can be *)


Section journals.
Context `{ErrorTexts} (workflow_id : option WorkflowId).
Context {O : Type}.
Implicit Types flow : Flow O.


End journals.

(** * Properties *)

Section properties.
Context `{ErrorTexts}.

(** The typed form of the promise: however many activations it takes,
    a flow that passes suspensions and definition errors on (with [?]) issues
    exactly the commands of one uninterrupted run, each once and in the same
    order, and completes or fails as that run does, whatever the activities
    and children answer; it takes one activation more than it has commands.
    A flow may catch the failure of a child. *)
Lemma replay_is_execution (world : World) (workflow_id : option WorkflowId) {O}
    (flow : Flow O) (commands : list PendingStep) (result : WfResult O) (fuel : nat) :
  propagates flow → direct world workflow_id flow 0 = (commands, result) →
  (Z.of_nat (length commands) ≤ u32_max)%Z → (length commands < fuel)%nat →
  activations world workflow_id fuel flow initial_state Started = Some (commands, final result).
Proof.
  intros Hp Ed Hu Hf.
  rewrite (activations_direct world workflow_id flow commands result Hp Ed Hu fuel 0);
    [done|done|lia|lia].
Qed.

End properties.

(** * An example *)

(** The pipeline of the module's tests: double a number, hand it to a child
    that echoes it, double what it says; here the failure of the child is
    caught. Numbers are their decimal texts. *)
#[export] Instance example_texts : ErrorTexts :=
  {| driver_text := λ _, ""; missing_text := λ _ _ _, "" |}.

Definition double_type : ActivityType :=
  {| aty_kind := "double_activity"; aty_version := 1; aty_topic := "flow_test_topic";
     aty_max_attempts := 1; aty_timeout := 5000; aty_lease_duration := 10000;
     aty_retry_policy := {| backoff := Fixed 1 |} |}.

Definition double (value : string) : FlowActivity string :=
  MkFlowActivity double_type (inr value) inr.

Definition child_echo (message : string) : FlowChild string :=
  MkFlowChild "child_echo" 1 (inr message) (inr "{}") inr.

Definition try_flow {O T} (answer : WfResult T) (rest : T → Flow O) : Flow O :=
  match answer with inl error => FlowReturn (inl error) | inr a => rest a end.

Definition pipeline (value : string) : Flow string :=
  FlowAwait (AwaitRun (double value)) (λ doubled, try_flow doubled (λ doubled,
  FlowAwait (AwaitChild (child_echo doubled)) (λ echoed,
    match echoed with
    | inl (WfChildFailed _ category _) => FlowReturn (inr category)
    | _ => try_flow echoed (λ echoed,
        FlowAwait (AwaitRun (double echoed)) (λ redoubled, FlowReturn redoubled))
    end))).

Lemma pipeline_propagates value : propagates (pipeline value).
Proof.
  split_and!; [done|done|]. intros [error|doubled]; [done|].
  split_and!; [done|done|]. intros [[]|echoed]; try done.
Qed.

Definition doubling_world (child : FlowOutcome) : World :=
  MkWorld (λ _ c, "2*" +:+ cmd_payload_json c) (λ _ _, child).

Lemma replay_is_execution_witness :
  activations (doubling_world (FlowSucceeded "6")) (Some 7%Z) 4 (pipeline "3") initial_state Started
    = Some ((direct (doubling_world (FlowSucceeded "6")) (Some 7%Z) (pipeline "3") 0).1,
            inr "2*6")
  ∧ activations (doubling_world (FlowFailed "child_cancelled" "")) (Some 7%Z) 4 (pipeline "3")
      initial_state Started
    = Some ((direct (doubling_world (FlowFailed "child_cancelled" "")) (Some 7%Z)
               (pipeline "3") 0).1, inr "child_cancelled").
Proof.
  split.
  - apply (replay_is_execution (doubling_world (FlowSucceeded "6")) (Some 7%Z) (pipeline "3")
      _ (inr "2*6") 4 (pipeline_propagates "3"));
      vm_compute; [done|done|lia].
  - apply (replay_is_execution (doubling_world (FlowFailed "child_cancelled" "")) (Some 7%Z)
      (pipeline "3") _ (inr "child_cancelled") 4 (pipeline_propagates "3"));
      vm_compute; [done|done|lia].
Defined.



(** * A flow that catches a definition error

    The first activity cannot be serialized, so no command is issued for it;
    the flow goes on with another activity of the same definition. *)
Definition refused : FlowActivity string := MkFlowActivity double_type (inl "unserializable") inr.

Definition catching_flow : Flow string :=
  FlowAwait (AwaitRun refused) (λ first,
    match first with
    | inl Suspended => FlowReturn (inl Suspended)
    | _ => FlowAwait (AwaitRun (double "4")) (λ second, FlowReturn second)
    end).

(** At the next activation the refused step takes the journaled result of the
    other one, whose activity is issued again: such a flow executes twice what
    an uninterrupted run executes once, so [propagates] is needed above. *)
Theorem caught_refusal_executes_twice :
  length (direct (doubling_world (FlowSucceeded "")) (Some 7%Z) catching_flow 0).1 = 1%nat
  ∧ match activations (doubling_world (FlowSucceeded "")) (Some 7%Z) 5 catching_flow
            initial_state Started with
    | Some ([PendingActivity first; PendingActivity second], inr "2*4") =>
        cmd_payload_json first = "4" ∧ cmd_payload_json second = "4"
    | _ => False
    end.
Proof. vm_compute. done. Qed.
