(* ===== verification/Adapter.v ===== *)
(** The adapter between a typed workflow handler and the stored form the
    coordinator works with ([registry.rs], [WorkflowAdapter]), a flow as such a
    handler ([flow.rs]), and the replay of a flow from its stored state. *)
From stdpp Require Import base gmap list strings countable.
From Stdlib Require Import ZArith Lia.
From S2P Require Import Prelude.
From S2P Require Import Errors.
From S2P Require Import Rows.
From S2P Require Import Policy.
From S2P Require Import Transitions.
From S2P Require Import Registry.
From S2P Require Import Flow.
From S2P Require Import Replay.
From S2P Require Import Scenario.

(** * Handlers *)

(** What [serde_json] does with the values of a type. *)
Record Json (T : Type) := MkJson { json_of : T → Serde string; json_to : string → Serde T }.
Arguments MkJson {T}.
Arguments json_of {T}.
Arguments json_to {T}.

(** [WorkflowHandler] of the workflow type [W]: its state, approval and output
    types, with their serialization. *)
Record WorkflowHandler (W S A O : Type) := MkWorkflowHandler {
  wh_kind : string;
  wh_version : Z;
  wh_input : Json W;
  wh_state : Json S;
  wh_approval : Json A;
  wh_output : Json O;
  wh_initial_state : W → S;
  wh_step : W → option WorkflowId → S → WorkflowEvent →
            WorkflowError + WorkflowTransition S A O;
}.
Arguments MkWorkflowHandler {W S A O}.
Arguments wh_kind {W S A O}.
Arguments wh_version {W S A O}.
Arguments wh_input {W S A O}.
Arguments wh_state {W S A O}.
Arguments wh_approval {W S A O}.
Arguments wh_output {W S A O}.
Arguments wh_initial_state {W S A O}.
Arguments wh_step {W S A O}.

Inductive WorkflowDispatchError :=
  | HandlerError (error : WorkflowError)
  | DurableDispatchError (error : DurableError).

Definition deserialize {T} (json : Json T) (text : string) : Result T :=
  serialized (json_to json text).

Definition deserialize_request {T} (json : Json T) (field text : string) : Result T :=
  match json_to json text with
  | inl error => Err (InvalidPayload field error)
  | inr value => Ok value
  end.

Definition serialize_bounded {T} (json : Json T) (field : string) (value : T) (max_bytes : nat)
    : Result string :=
  let? text := serialized (json_of json value) in
  let? _ := ensure_size field text max_bytes in
  Ok text.

Section adapter.
Context `{ErrorTexts} {W S A O : Type} (handler : WorkflowHandler W S A O).

Definition store_transition (transition : WorkflowTransition S A O) : Result StoredTransition :=
  let state_json state :=
    serialize_bounded (wh_state handler) "workflow state" state MAX_INPUT_STATE_PAYLOAD_BYTES in
  match transition with
  | RunActivity state activity => res_map (λ s, StRunActivity s activity) (state_json state)
  | RunChild state child => res_map (λ s, StRunChild s child) (state_json state)
  | SleepUntil state wake_at_millis =>
      res_map (λ s, StSleepUntil s wake_at_millis) (state_json state)
  | WaitForApproval state approval expires_at_millis =>
      let? s := state_json state in
      let? approval_json := serialize_bounded (wh_approval handler) "approval request" approval
                              MAX_EVENT_METADATA_BYTES in
      Ok (StWaitForApproval s approval_json expires_at_millis)
  | Continue state => res_map StContinue (state_json state)
  | Complete output =>
      res_map StComplete
        (serialize_bounded (wh_output handler) "workflow output" output MAX_OUTPUT_BYTES)
  end.

(** [WorkflowAdapter::step_stored] *)
Definition adapter_step (workflow_id : option WorkflowId) (input_json state_json : string)
    (event : WorkflowEvent) : WorkflowDispatchError + StoredTransition :=
  match deserialize (wh_input handler) input_json with
  | Err error => inl (DurableDispatchError error)
  | Ok workflow =>
      match deserialize (wh_state handler) state_json with
      | Err error => inl (DurableDispatchError error)
      | Ok state =>
          match wh_step handler workflow workflow_id state event with
          | inl error => inl (HandlerError error)
          | inr transition =>
              match store_transition transition with
              | Err error => inl (DurableDispatchError error)
              | Ok stored => inr stored
              end
          end
      end
  end.

Definition dispatch_error_text (error : WorkflowDispatchError) : string :=
  match error with
  | HandlerError error =>
      "workflow handler failed: " +:+ we_category error +:+ ": " +:+ we_message error
  | DurableDispatchError error =>
      "workflow dispatch serialization failed: " +:+ error_text error
  end.

(** [WorkflowAdapter::prepare_start] *)
Definition adapter_prepare_start (input_json : string) : Result PreparedWorkflowStart :=
  let? workflow := deserialize_request (wh_input handler) "workflow input" input_json in
  let? input_json := serialize_bounded (wh_input handler) "workflow input" workflow
                       MAX_INPUT_STATE_PAYLOAD_BYTES in
  let? state_json := serialize_bounded (wh_state handler) "workflow state"
                       (wh_initial_state handler workflow) MAX_INPUT_STATE_PAYLOAD_BYTES in
  Ok {| ps_kind := wh_kind handler; ps_version := wh_version handler;
        ps_input_json := input_json; ps_state_json := state_json |}.

(** [WorkflowAdapter::validate_approval] *)
Definition adapter_validate_approval (decision_json : string) : Result string :=
  let? decision := deserialize_request (wh_approval handler) "approval decision" decision_json in
  serialize_bounded (wh_approval handler) "approval decision" decision MAX_EVENT_METADATA_BYTES.

(** The definition the registry holds; its step neither panics nor runs past
    its time, as [wh_step] is a function. *)
Definition adapter : WorkflowDefinition :=
  {| wd_kind := wh_kind handler;
     wd_version := wh_version handler;
     wd_step := λ workflow_id input_json state_json event,
       match adapter_step workflow_id input_json state_json event with
       | inl error => StepFailed (dispatch_error_text error)
       | inr transition => Stepped transition
       end;
     wd_prepare_start := adapter_prepare_start;
     wd_validate_approval := adapter_validate_approval |}.
End adapter.

(** [impl<F: DurableFlow> WorkflowHandler for F]: the flow of an input. *)
Definition flow_handler `{ErrorTexts} {W O} (kind : string) (version : Z) (input : Json W)
    (journal : Json FlowJournal) (approval : Json unit) (output : Json O)
    (flow : W → option WorkflowId → Flow O) : WorkflowHandler W FlowJournal unit O :=
  {| wh_kind := kind; wh_version := version; wh_input := input; wh_state := journal;
     wh_approval := approval; wh_output := output;
     wh_initial_state := λ _, initial_state;
     wh_step := λ workflow workflow_id state event,
       flow_step (flow workflow workflow_id) workflow_id state event |}.

(** * Activations from the stored state *)

(** How a run that ends with [result] is stored: its output, within bounds, or
    the message of its failure. *)
Definition stored_ending `{ErrorTexts} {O} (output : Json O) (result : WorkflowError + O)
    (ending : string + string) : Prop :=
  match result, ending with
  | inr value, inr text => json_of output value = inr text ∧ (str_len text ≤ MAX_OUTPUT_BYTES)%nat
  | inl error, inl message => message = dispatch_error_text (HandlerError error)
  | _, _ => False
  end.

Section stored.
Context `{ErrorTexts} (world : World) (workflow_id : option WorkflowId).

(** What an activation leaves in the database, the answer of the world to its
    command, and the next activation, until the workflow ends: with its stored
    output, or with the message of its failure. *)
Fixpoint stored_activations (fuel : nat) (definition : WorkflowDefinition)
    (input_json : string) (position : nat) (state_json : string) (event : WorkflowEvent)
    : option (list PendingStep * (string + string)) :=
  match fuel with
  | 0%nat => None
  | S fuel =>
      let next state_json pending :=
        '(commands, result) ← stored_activations fuel definition input_json (S position)
                                state_json (answer_event world position pending);
        Some (pending :: commands, result) in
      match wd_step definition workflow_id input_json state_json event with
      | StepFailed message => Some ([], inl message)
      | Stepped (StComplete output_json) => Some ([], inr output_json)
      | Stepped (StRunActivity state_json activity) => next state_json (PendingActivity activity)
      | Stepped (StRunChild state_json child) => next state_json (PendingChild child)
      | Stepped (StSleepUntil state_json wake_at_millis) =>
          next state_json (PendingSleep wake_at_millis)
      | Stepped (StWaitForApproval _ _ _) | Stepped (StContinue _) => None
      | StepPanicked _ | StepTimedOut => None
      end
  end.

Context {W O : Type} (handler : WorkflowHandler W FlowJournal unit O).
Context (flow : Flow O) (input_json : string) (workflow : W).
Hypothesis Hinput : json_to (wh_input handler) input_json = inr workflow.
Hypothesis Hstep : ∀ state event,
  wh_step handler workflow workflow_id state event = flow_step flow workflow_id state event.

(** A journal that is read back from its text, which is within bounds. *)
Definition journal_stored (journal : FlowJournal) (text : string) : Prop :=
  json_of (wh_state handler) journal = inr text ∧ json_to (wh_state handler) text = inr journal
  ∧ (str_len text ≤ MAX_INPUT_STATE_PAYLOAD_BYTES)%nat.

Lemma serialize_bounded_fits {T} (json : Json T) field value text max_bytes :
  json_of json value = inr text → (str_len text ≤ max_bytes)%nat →
  serialize_bounded json field value max_bytes = Ok text.
Proof.
  intros E Hle. unfold serialize_bounded. rewrite E. cbn [serialized res_bind].
  unfold ensure_size. by rewrite (proj2 (Nat.ltb_ge _ _) Hle).
Qed.

Lemma stored_activations_direct commands result (texts : nat → string) ending :
  propagates flow → direct world workflow_id flow 0 = (commands, result) →
  (Z.of_nat (length commands) ≤ u32_max)%Z →
  (∀ k, (k ≤ length commands)%nat →
     journal_stored (MkFlowJournal (take k (journal_of world 0 commands))) (texts k)) →
  stored_ending (wh_output handler) (final result) ending →
  ∀ fuel k text journal event,
    json_to (wh_state handler) text = inr journal →
    apply_event journal event = inr (MkFlowJournal (take k (journal_of world 0 commands))) →
    (k ≤ length commands)%nat → (length commands - k < fuel)%nat →
    stored_activations fuel (adapter handler) input_json k text event
      = Some (drop k commands, ending).
Proof.
  intros Hp Hd Hu Htexts Hend. induction fuel as [|fuel IH]; [lia|].
  intros k text journal event Hj He Hk Hf. cbn [stored_activations adapter wd_step].
  unfold adapter_step, deserialize. rewrite Hinput, Hj. cbn [serialized]. rewrite Hstep.
  rewrite (flow_step_at world workflow_id flow commands result k journal event Hp Hd Hk He).
  destruct (commands !! k) as [pending|] eqn:Ek.
  - pose proof (lookup_lt_Some _ _ _ Ek) as Hlt. destruct (Htexts k Hk) as (Hto & Hof & Hfit).
    pose proof (IH (S k) (texts k) _ _ Hof (apply_answer_at world _ _ _ Hu Ek)
      ltac:(lia) ltac:(lia)) as Hnext.
    rewrite (drop_S _ _ _ Ek).
    destruct pending; cbn [emitted]; unfold store_transition;
      rewrite (serialize_bounded_fits _ _ _ _ _ Hto Hfit); cbn [res_map]; by rewrite Hnext.
  - apply lookup_ge_None in Ek. rewrite drop_ge by done.
    destruct (final result) as [error|output], ending as [message|out]; try done.
    + by rewrite Hend.
    + destruct Hend as [Ho Hfit]. unfold store_transition.
      by rewrite (serialize_bounded_fits _ _ _ _ _ Ho Hfit).
Qed.
End stored.

(** * The property *)

(** [serde_json] reads back what it wrote. *)
Definition json_roundtrip {T} (json : Json T) : Prop :=
  ∀ value text, json_of json value = inr text → json_to json text = inr value.

Definition json_fits {T} (json : Json T) (value : T) (max_bytes : nat) : Prop :=
  ∃ text, json_of json value = inr text ∧ (str_len text ≤ max_bytes)%nat.

Lemma serialize_bounded_Ok {T} (json : Json T) field value max_bytes text :
  serialize_bounded json field value max_bytes = Ok text → json_of json value = inr text.
Proof.
  unfold serialize_bounded. destruct (json_of json value) as [|text']; [done|].
  cbn [serialized res_bind]. destruct (ensure_size _ _ _); [|done]. by intros [= <-].
Qed.

Section property.
Context `{ErrorTexts} (world : World) (workflow_id : option WorkflowId) {W O : Type}.
Context (kind : string) (version : Z) (input : Json W) (journal : Json FlowJournal)
  (approval : Json unit) (output : Json O) (flow : W → option WorkflowId → Flow O).

(** C14: S31 and S33, and the promise of flows: a flow whose code passes
    suspensions and definition errors on (with [?]), started through its
    registered definition and activated from its stored input and state until
    it ends, issues exactly the commands of one uninterrupted run of that
    code, each once and in the same order, and stores the output or the
    failure of that run, whatever its activities and children answer. One
    activation more than it has commands suffices. The journals of the run
    have to fit the state column, its output the output column, and the
    serializer has to read back what it wrote. *)
Theorem stored_replay_is_execution (request : string) (workflow : W)
    (prepared : PreparedWorkflowStart) (commands : list PendingStep) (result : WfResult O)
    (ending : string + string) (fuel : nat) :
  let handler := flow_handler kind version input journal approval output flow in
  json_roundtrip input → json_roundtrip journal →
  json_to input request = inr workflow →
  wd_prepare_start (adapter handler) request = Ok prepared →
  propagates (flow workflow workflow_id) →
  direct world workflow_id (flow workflow workflow_id) 0 = (commands, result) →
  (Z.of_nat (length commands) ≤ u32_max)%Z →
  (∀ k, (k ≤ length commands)%nat →
     json_fits journal (MkFlowJournal (take k (journal_of world 0 commands)))
       MAX_INPUT_STATE_PAYLOAD_BYTES) →
  stored_ending output (final result) ending →
  (length commands < fuel)%nat →
  stored_activations world workflow_id fuel (adapter handler) (ps_input_json prepared) 0
    (ps_state_json prepared) Started = Some (commands, ending).
Proof.
  intros handler Hin Hjo Hreq Hprep Hp Hd Hu Hfits Hend Hf.
  cbn [adapter wd_prepare_start] in Hprep.
  unfold adapter_prepare_start, deserialize_request in Hprep.
  cbn [handler flow_handler wh_input wh_state wh_initial_state] in Hprep.
  rewrite Hreq in Hprep. cbn [res_bind] in Hprep.
  apply res_bind_Ok in Hprep as (input_json & Hi%serialize_bounded_Ok & Hprep).
  apply res_bind_Ok in Hprep as (state_json & Hs%serialize_bounded_Ok & Hprep).
  injection Hprep as <-. cbn [ps_input_json ps_state_json].
  assert (∀ k, (k ≤ length commands)%nat →
    journal_stored handler (MkFlowJournal (take k (journal_of world 0 commands)))
      match json_of journal (MkFlowJournal (take k (journal_of world 0 commands))) with
      | inr text => text | inl _ => "" end) as Hstored.
  { intros k (text & Ht & Hle)%Hfits. unfold journal_stored.
    cbn [handler flow_handler wh_state]. rewrite Ht. auto. }
  apply (stored_activations_direct world workflow_id handler (flow workflow workflow_id) _ workflow
    (Hin _ _ Hi) (λ _ _, eq_refl) commands result _ ending Hp Hd Hu Hstored Hend fuel 0
    state_json initial_state Started); [by apply Hjo|done|lia|lia].
Qed.
End property.

(** * The pipeline, stored *)

Definition text_json : Json string := MkJson inr inr.

Definition unit_json : Json unit := MkJson (λ _, inr "null") (λ _, inr tt).

Definition entry_code (entry : JournalEntry) : string * option Z * (string + string * string) :=
  (je_step_kind entry, je_step_version entry,
   match je_outcome entry with
   | FlowSucceeded json => inl json
   | FlowFailed category message => inr (category, message)
   end).

Definition entry_decode (code : string * option Z * (string + string * string)) : JournalEntry :=
  MkJournalEntry code.1.1 code.1.2
    match code.2 with
    | inl json => FlowSucceeded json
    | inr (category, message) => FlowFailed category message
    end.

Definition journal_json : Json FlowJournal :=
  MkJson (λ journal, inr (bits (encode (entry_code <$> fj_steps journal))))
    (λ text, match of_bits text ≫= decode with
             | Some codes => inr (MkFlowJournal (entry_decode <$> codes))
             | None => inl "expected value"
             end).

Lemma journal_json_roundtrip : json_roundtrip journal_json.
Proof.
  intros [steps] text. cbn -[encode decode]. intros [= <-]. rewrite of_bits_bits.
  cbn -[encode decode]. rewrite decode_encode. do 2 f_equal. rewrite <- list_fmap_compose.
  rewrite <- (list_fmap_id steps) at 2. apply list_fmap_ext. intros _ [k v []] _; done.
Qed.

Definition pipeline_handler : WorkflowHandler string FlowJournal unit string :=
  flow_handler "pipeline_flow" 1 text_json journal_json unit_json text_json
    (λ value _, pipeline value).

Lemma stored_replay_is_execution_witness :
  ∃ prepared commands,
    wd_prepare_start (adapter pipeline_handler) "3" = Ok prepared
    ∧ length commands = 3%nat
    ∧ stored_activations (doubling_world (FlowSucceeded "6")) (Some 7%Z) 4
        (adapter pipeline_handler) (ps_input_json prepared) 0 (ps_state_json prepared) Started
      = Some (commands, inr "2*6").
Proof.
  eexists _, _. split; [vm_compute; reflexivity|]. split; cycle 1.
  - eapply (stored_replay_is_execution (doubling_world (FlowSucceeded "6")) (Some 7%Z)
      "pipeline_flow" 1 text_json journal_json unit_json text_json (λ value _, pipeline value)
      "3" "3" _ _ (inr "2*6") (inr "2*6") 4).
    + by intros v t [= <-].
    + apply journal_json_roundtrip.
    + done.
    + vm_compute. reflexivity.
    + apply pipeline_propagates.
    + vm_compute. reflexivity.
    + vm_compute. done.
    + intros k Hk. cbn in Hk. eexists. split; [reflexivity|].
      apply Nat.leb_le. do 4 (destruct k as [|k]; [vm_compute; reflexivity|]). lia.
    + split; [done|]. apply Nat.leb_le. vm_compute. reflexivity.
    + vm_compute. lia.
  - reflexivity.
Defined.
