(* ===== verification/Text.v ===== *)
(** Numbers as text: [str::parse] of the integer types, zero-padded formatting
    and [str::split], as the page cursors use them, with their round trips.
    The text order of padded numbers is their order as numbers. *)
From stdpp Require Import base list strings pretty.
From Stdlib Require Import ZArith Lia Ascii String.
From S2P Require Import Prelude.

(** * Strings *)

Lemma append_empty s : (s +:+ "")%string = s.
Proof. induction s as [|c s IH]; [done|]. change (String c (s +:+ "") = String c s). by rewrite IH. Qed.

Lemma append_cons c s t : String c s +:+ t = String c (s +:+ t).
Proof. done. Qed.

Lemma append_assoc s t u : (s +:+ t) +:+ u = s +:+ (t +:+ u).
Proof. induction s as [|c s IH]; [done|]. rewrite !append_cons. by rewrite IH. Qed.

Lemma str_len_app s t : str_len (s +:+ t) = (str_len s + str_len t)%nat.
Proof.
  unfold str_len. induction s as [|c s IH]; [done|]. rewrite append_cons. simpl. by rewrite IH.
Qed.

(** [str::is_ascii], and a test of every byte. *)
Fixpoint all_bytes (p : ascii → bool) (s : string) : bool :=
  match s with
  | EmptyString => true
  | String c s' => p c && all_bytes p s'
  end.

Definition is_ascii (s : string) : bool :=
  all_bytes (λ c, (Ascii.nat_of_ascii c <? 128)%nat) s.

Lemma all_bytes_app p s t : all_bytes p (s +:+ t) = all_bytes p s && all_bytes p t.
Proof.
  induction s as [|c s IH]; [done|]. rewrite append_cons. simpl. by rewrite IH, andb_assoc.
Qed.

(** * Decimal digits *)

Definition digit_value (c : ascii) : option Z :=
  let b := Z.of_nat (Ascii.nat_of_ascii c) in
  if (48 <=? b)%Z && (b <=? 57)%Z then Some (b - 48)%Z else None.

Fixpoint parse_digits (acc : Z) (s : string) : option Z :=
  match s with
  | EmptyString => Some acc
  | String c s' =>
      match digit_value c with
      | Some v => parse_digits (acc * 10 + v)%Z s'
      | None => None
      end
  end.

(** One digit at least. *)
Definition parse_number (s : string) : option Z :=
  match s with EmptyString => None | _ => parse_digits 0 s end.

(** [str::parse::<i64>]: a sign and digits, in range. *)
Definition parse_i64 (s : string) : option Z :=
  match s with
  | String "-" s' => z ← parse_number s'; i64_try_from (- z)
  | String "+" s' => z ← parse_number s'; i64_try_from z
  | _ => z ← parse_number s; i64_try_from z
  end.

(** [str::parse::<u8>]: no minus sign. *)
Definition parse_u8 (s : string) : option Z :=
  z ← match s with
      | String "+" s' => parse_number s'
      | _ => parse_number s
      end;
  if (z <=? 255)%Z then Some z else None.

(** The digit of a value below ten. *)
Definition digit (z : Z) : ascii := pretty_N_char (Z.to_N z).

Lemma digit_cases (P : Z → Prop) z : (0 ≤ z < 10)%Z →
  P 0%Z → P 1%Z → P 2%Z → P 3%Z → P 4%Z → P 5%Z → P 6%Z → P 7%Z → P 8%Z → P 9%Z → P z.
Proof.
  intros Hz ??????????.
  assert (z = 0 ∨ z = 1 ∨ z = 2 ∨ z = 3 ∨ z = 4 ∨ z = 5 ∨ z = 6 ∨ z = 7 ∨ z = 8 ∨ z = 9)%Z
    as Hc by lia.
  repeat destruct Hc as [->|Hc]; by subst.
Qed.

Lemma digit_value_digit z : (0 ≤ z < 10)%Z → digit_value (digit z) = Some z.
Proof. intros Hz. by apply (digit_cases (λ z, digit_value (digit z) = Some z)). Qed.

(** Digits compare as their values. *)
Lemma digit_compare x y : (0 ≤ x < 10)%Z → (0 ≤ y < 10)%Z →
  Ascii.compare (digit x) (digit y) = (x ?= y)%Z.
Proof.
  intros Hx. revert y. apply (digit_cases (λ x, ∀ y, (0 ≤ y < 10)%Z →
    Ascii.compare (digit x) (digit y) = (x ?= y)%Z)); [done|..]; intros y Hy;
  lazymatch goal with |- Ascii.compare ?d _ = (?x ?= _)%Z =>
    apply (digit_cases (λ y, Ascii.compare d (digit y) = (x ?= y)%Z)) end; done.
Qed.

(** * The text of a number *)

Lemma pretty_go_parse n s acc : (n = 0%N ∨ acc = 0%Z) →
  parse_digits acc (pretty_N_go n s) = parse_digits (acc + Z.of_N n) s.
Proof.
  revert s acc. induction (N.lt_wf_0 n) as [n _ IH]; intros s acc Hn.
  destruct (decide (0 < n)%N) as [Hpos|Hzero].
  - destruct Hn as [-> | ->]; [lia|]. rewrite pretty_N_go_step by done.
    rewrite IH by (by apply N.div_lt || by right). simpl.
    replace (pretty_N_char (n `mod` 10)) with (digit (Z.of_N (n `mod` 10)))
      by (unfold digit; by rewrite N2Z.id).
    rewrite N2Z.inj_mod, N2Z.inj_div. change (Z.of_N 10) with 10%Z.
    rewrite digit_value_digit by (apply Z.mod_pos_bound; lia). f_equal.
    pose proof (Z.div_mod (Z.of_N n) 10 ltac:(lia)). lia.
  - assert (n = 0%N) as -> by lia. rewrite pretty_N_go_0. f_equal. lia.
Qed.

Lemma pretty_go_cons n s : (0 < n)%N → ∃ c s', pretty_N_go n s = String c s'
    ∧ c ≠ "-"%char ∧ c ≠ "+"%char.
Proof.
  revert s. induction (N.lt_wf_0 n) as [n _ IH]; intros s Hn.
  rewrite pretty_N_go_step by done.
  destruct (decide (0 < n `div` 10)%N) as [Hd|Hd]; [apply IH; [by apply N.div_lt|done]|].
  assert (n `div` 10 = 0)%N as -> by (by apply N.le_0_r, N.nlt_ge). rewrite pretty_N_go_0. do 2 eexists. split; [done|].
  pose proof (N.mod_lt n 10 ltac:(done)). remember (n `mod` 10)%N as k.
  replace k with (Z.to_N (Z.of_N k)) by lia. fold (digit (Z.of_N k)).
  apply (digit_cases (λ z, digit z ≠ "-"%char ∧ digit z ≠ "+"%char)); try (split; discriminate). lia.
Qed.

(** A positive number as its text: no sign, and its digits read back. *)
Lemma fmt_positive p : ∃ c s, fmt (Z.pos p) = String c s ∧ c ≠ "-"%char ∧ c ≠ "+"%char
    ∧ parse_digits 0 (String c s) = Some (Z.pos p).
Proof.
  change (fmt (Z.pos p)) with (pretty_N_go (N.pos p) "").
  destruct (pretty_go_cons (N.pos p) "" ltac:(lia)) as (c & s & Hs & Hc).
  exists c, s. rewrite <- Hs. split_and!; [done|apply Hc..|].
  rewrite pretty_go_parse by (by right). done.
Qed.

Lemma parse_unsigned c s : c ≠ "-"%char → c ≠ "+"%char →
  parse_i64 (String c s) = (parse_digits 0 (String c s) ≫= i64_try_from).
Proof. intros H1 H2. unfold parse_i64. by destruct c as [[] [] [] [] [] [] [] []]. Qed.

(** Every [i64] reads back from its text. *)
Lemma parse_i64_fmt z : in_i64 z = true → parse_i64 (fmt z) = Some z.
Proof.
  intros Hz. destruct z as [|p|p]; [done| |].
  - destruct (fmt_positive p) as (c & s & -> & H1 & H2 & H3).
    rewrite parse_unsigned, H3 by done. simpl. unfold i64_try_from. by rewrite Hz.
  - change (fmt (Z.neg p)) with ("-" +:+ fmt (Z.pos p)).
    destruct (fmt_positive p) as (c & s & -> & _ & _ & H3).
    change (parse_i64 ("-" +:+ String c s))
      with (parse_digits 0 (String c s) ≫= λ z, i64_try_from (- z)).
    rewrite H3. cbn [mbind option_bind]. change (- Z.pos p)%Z with (Z.neg p).
    unfold i64_try_from. by rewrite Hz.
Qed.

(** * Fixed width *)

(** The last [width] digits of a number, the most significant first. *)
Fixpoint fixed_digits (width : nat) (z : Z) : string :=
  match width with
  | O => EmptyString
  | S w => String (digit (z / 10 ^ Z.of_nat w)) (fixed_digits w (z mod 10 ^ Z.of_nat w))
  end.

Lemma pow10_pos w : (0 < 10 ^ Z.of_nat w)%Z.
Proof. lia. Qed.

Lemma pow10_S w : (10 ^ Z.of_nat (S w) = 10 * 10 ^ Z.of_nat w)%Z.
Proof. rewrite Nat2Z.inj_succ, Z.pow_succ_r; lia. Qed.

Lemma fixed_head w z : (0 ≤ z < 10 ^ Z.of_nat (S w))%Z → (0 ≤ z / 10 ^ Z.of_nat w < 10)%Z.
Proof.
  rewrite pow10_S. intros Hz. pose proof (pow10_pos w).
  split; [apply Z.div_pos; lia|apply Z.div_lt_upper_bound; lia].
Qed.

Lemma fixed_tail w z : (0 ≤ z mod 10 ^ Z.of_nat w < 10 ^ Z.of_nat w)%Z.
Proof. apply Z.mod_pos_bound, pow10_pos. Qed.

Lemma fixed_S w z :
  fixed_digits (S w) z = String (digit (z / 10 ^ Z.of_nat w)) (fixed_digits w (z mod 10 ^ Z.of_nat w)).
Proof. done. Qed.

Lemma fixed_length w z : str_len (fixed_digits w z) = w.
Proof. unfold str_len. revert z. induction w; intros z; simpl; auto. Qed.

(** The text order of fixed-width numbers is their order. *)
Lemma fixed_compare w x y : (0 ≤ x < 10 ^ Z.of_nat w)%Z → (0 ≤ y < 10 ^ Z.of_nat w)%Z →
  String.compare (fixed_digits w x) (fixed_digits w y) = (x ?= y)%Z.
Proof.
  revert x y. induction w as [|w IH]; intros x y Hx Hy.
  - simpl in *. assert (x = 0%Z) as -> by lia. assert (y = 0%Z) as -> by lia. done.
  - simpl. pose proof (fixed_head w x Hx) as Hdx. pose proof (fixed_head w y Hy) as Hdy.
    rewrite digit_compare, IH by (done || apply fixed_tail). pose proof (pow10_pos w).
    pose proof (Z.div_mod x (10 ^ Z.of_nat w) ltac:(lia)).
    pose proof (Z.div_mod y (10 ^ Z.of_nat w) ltac:(lia)).
    pose proof (fixed_tail w x). pose proof (fixed_tail w y).
    destruct (Z.compare_spec (x / 10 ^ Z.of_nat w) (y / 10 ^ Z.of_nat w)) as [He|Hl|Hg].
    + destruct (Z.compare_spec (x mod 10 ^ Z.of_nat w) (y mod 10 ^ Z.of_nat w));
        symmetry; [apply Z.compare_eq_iff|apply Z.compare_lt_iff|apply Z.compare_gt_iff]; lia.
    + symmetry. apply Z.compare_lt_iff. nia.
    + symmetry. apply Z.compare_gt_iff. nia.
Qed.

Lemma parse_fixed w z acc : (0 ≤ z < 10 ^ Z.of_nat w)%Z →
  parse_digits acc (fixed_digits w z) = Some (acc * 10 ^ Z.of_nat w + z)%Z.
Proof.
  revert z acc. induction w as [|w IH]; intros z acc Hz.
  - simpl in *. f_equal. lia.
  - simpl. rewrite digit_value_digit by (by apply fixed_head).
    rewrite IH by apply fixed_tail. rewrite pow10_S. f_equal.
    pose proof (Z.div_mod z (10 ^ Z.of_nat w) ltac:(pose proof (pow10_pos w); lia)). lia.
Qed.

(** The least significant digit is the last. *)
Lemma fixed_snoc w z : (0 ≤ z < 10 ^ Z.of_nat (S w))%Z →
  fixed_digits (S w) z = fixed_digits w (z / 10) +:+ String (digit (z mod 10)) "".
Proof.
  revert z. induction w as [|w IH]; intros z Hz.
  - simpl in *. rewrite Z.div_1_r, Z.mod_small by lia. done.
  - change (fixed_digits (S (S w)) z) with
      (String (digit (z / 10 ^ Z.of_nat (S w))) (fixed_digits (S w) (z mod 10 ^ Z.of_nat (S w)))).
    rewrite IH by apply fixed_tail. pose proof (pow10_pos w).
    rewrite pow10_S, Z.rem_mul_r by lia.
    change (fixed_digits (S w) (z / 10)) with
      (String (digit (z / 10 / 10 ^ Z.of_nat w)) (fixed_digits w ((z / 10) mod 10 ^ Z.of_nat w))).
    rewrite append_cons, Z.div_div by lia. f_equal. f_equal.
    + f_equal. rewrite Z.mul_comm, Z.div_add, Z.div_small by (try apply Z.mod_pos_bound; lia). done.
    + f_equal. f_equal. rewrite Z.mul_comm, Z_mod_plus_full, Z.mod_mod by lia. done.
Qed.

(** [format!("{:0width$}")]: zeros after the sign up to the width. *)
Fixpoint zeros (n : nat) : string :=
  match n with O => EmptyString | S n' => String "0" (zeros n') end.

Definition pad (width : nat) (s : string) : string := zeros (width - str_len s) +:+ s.

Definition fmt_padded (width : nat) (z : Z) : string :=
  if (z <? 0)%Z then "-" +:+ pad (width - 1) (fmt (- z)) else pad width (fmt z).

Lemma pretty_go_app n s : pretty_N_go n s = pretty_N_go n "" +:+ s.
Proof.
  revert s. induction (N.lt_wf_0 n) as [n _ IH]; intros s.
  destruct (decide (0 < n)%N) as [Hn|Hn].
  - rewrite !(pretty_N_go_step n) by done. pose proof (N.div_lt n 10 Hn ltac:(lia)) as Hlt.
    rewrite IH by done. rewrite (IH _ Hlt (String _ "")). by rewrite append_assoc.
  - by assert (n = 0%N) as -> by lia.
Qed.

Lemma pad_snoc w s c : (str_len s ≤ w)%nat →
  pad (S w) (s +:+ String c "") = pad w s +:+ String c "".
Proof.
  intros Hw. unfold pad. rewrite str_len_app. change (str_len (String c "")) with 1%nat.
  replace (S w - (str_len s + 1))%nat with (w - str_len s)%nat by lia. by rewrite append_assoc.
Qed.

Lemma zeros_snoc n : zeros (S n) = zeros n +:+ "0".
Proof.
  induction n as [|n IH]; [done|]. change (String "0" (zeros (S n)) = String "0" (zeros n +:+ "0")).
  by rewrite IH.
Qed.

Lemma pretty_go_fixed w n : (Z.of_N n < 10 ^ Z.of_nat w)%Z →
  (str_len (pretty_N_go n "") ≤ w)%nat ∧ pad w (pretty_N_go n "") = fixed_digits w (Z.of_N n).
Proof.
  revert n. induction w as [|w IH]; intros n Hn; [by assert (n = 0%N) as -> by (simpl in *; lia)|].
  assert (Z.of_N (n `div` 10) < 10 ^ Z.of_nat w)%Z as Hlt.
  { rewrite N2Z.inj_div, pow10_S in *. apply Z.div_lt_upper_bound; lia. }
  destruct (IH _ Hlt) as [Hlen Hpad]. rewrite fixed_snoc by lia.
  replace (digit (Z.of_N n mod 10)) with (pretty_N_char (n `mod` 10))
    by (unfold digit; change 10%Z with (Z.of_N 10); rewrite <- N2Z.inj_mod, N2Z.id; done).
  change (Z.of_N n / 10)%Z with (Z.of_N n / Z.of_N 10)%Z.
  rewrite <- N2Z.inj_div, <- Hpad. destruct (decide (0 < n)%N) as [Hpos|Hz].
  - rewrite pretty_N_go_step, pretty_go_app by done. rewrite str_len_app, pad_snoc by done.
    change (str_len (String _ "")) with 1%nat. split; [lia|done].
  - assert (n = 0%N) as -> by lia. split; [simpl; lia|].
    change (pretty_N_go (0 / 10) "") with "". unfold pad. simpl.
    rewrite Nat.sub_0_r, !append_empty. apply (zeros_snoc w).
Qed.

(** A padded number that fits its width is its fixed-width text. *)
Lemma fmt_padded_fixed w z : (0 ≤ z < 10 ^ Z.of_nat (S w))%Z →
  fmt_padded (S w) z = fixed_digits (S w) z.
Proof.
  intros Hz. unfold fmt_padded. destruct (Z.ltb_spec z 0) as [|_]; [lia|].
  destruct z as [|p|p]; [| |lia].
  - destruct (pretty_go_fixed (S w) 0) as [_ Hf]; [simpl; lia|]. change (Z.of_N 0) with 0%Z in Hf.
    rewrite <- Hf. unfold pad. simpl. rewrite Nat.sub_0_r, append_empty.
    symmetry. apply (zeros_snoc w).
  - change (fmt (Z.pos p)) with (pretty_N_go (N.pos p) "").
    change (Z.pos p) with (Z.of_N (N.pos p)). apply pretty_go_fixed. lia.
Qed.

(** * [str::split] *)

Fixpoint split_on (sep : ascii) (s : string) : list string :=
  match s with
  | EmptyString => [EmptyString]
  | String c s' =>
      if Ascii.eqb c sep then EmptyString :: split_on sep s'
      else match split_on sep s' with
           | part :: rest => String c part :: rest
           | [] => [String c EmptyString]
           end
  end.

(** [[_]::join]. *)
Fixpoint join (sep : string) (parts : list string) : string :=
  match parts with
  | [] => EmptyString
  | [part] => part
  | part :: rest => part +:+ sep +:+ join sep rest
  end.

Definition lacks (sep : ascii) (s : string) : Prop := all_bytes (λ c, negb (Ascii.eqb c sep)) s = true.

Lemma split_on_part sep s : lacks sep s → split_on sep s = [s].
Proof.
  unfold lacks. induction s as [|c s IH]; [done|]. simpl. rewrite andb_true_iff, negb_true_iff.
  intros [-> Hs]. by rewrite (IH Hs).
Qed.

Lemma split_on_cons sep s t : lacks sep s → split_on sep (s +:+ String sep t) = s :: split_on sep t.
Proof.
  unfold lacks. induction s as [|c s IH]; simpl.
  - intros _. by rewrite Ascii.eqb_refl.
  - rewrite andb_true_iff, negb_true_iff. intros [-> Hs]. by rewrite (IH Hs).
Qed.

Lemma split_on_join sep parts : parts ≠ [] → Forall (lacks sep) parts →
  split_on sep (join (String sep "") parts) = parts.
Proof.
  intros Hne Hall. induction Hall as [|p ps Hp Hps IH]; [done|]. destruct ps as [|q qs].
  - by apply split_on_part.
  - change (join (String sep "") (p :: q :: qs))
      with (p +:+ String sep (join (String sep "") (q :: qs))).
    rewrite split_on_cons by done. by rewrite IH.
Qed.

Lemma fixed_lacks w z : lacks ":" (fixed_digits w z).
Proof.
  unfold lacks. revert z. induction w as [|w IH]; intros z; [done|]. simpl. rewrite IH, andb_true_r.
  unfold digit, pretty_N_char. by repeat case_match.
Qed.

(** * The order of strings *)

Lemma ascii_compare_refl c : Ascii.compare c c = Eq.
Proof. unfold Ascii.compare. apply N.compare_refl. Qed.

Lemma string_compare_refl s : String.compare s s = Eq.
Proof. induction s as [|c s IH]; [done|]. simpl. by rewrite ascii_compare_refl. Qed.

Lemma string_compare_app s t u : String.compare (s +:+ t) (s +:+ u) = String.compare t u.
Proof.
  induction s as [|c s IH]; [done|]. rewrite !append_cons. simpl.
  by rewrite ascii_compare_refl.
Qed.

(** Of texts of one length the first difference decides. *)
Lemma string_compare_prefix s s' t t' : str_len s = str_len s' →
  String.compare (s +:+ t) (s' +:+ t')
  = match String.compare s s' with Eq => String.compare t t' | c => c end.
Proof.
  unfold str_len. revert s'. induction s as [|c s IH]; intros [|c' s']; try done.
  intros [= Hlen]. rewrite !append_cons. simpl.
  destruct (Ascii.compare c c'); [|done..]. by apply IH.
Qed.

Lemma ascii_compare_lt_trans a b c :
  Ascii.compare a b = Lt → Ascii.compare b c = Lt → Ascii.compare a c = Lt.
Proof. unfold Ascii.compare. rewrite !N.compare_lt_iff. lia. Qed.

Lemma string_compare_lt_trans s t u :
  String.compare s t = Lt → String.compare t u = Lt → String.compare s u = Lt.
Proof.
  revert t u. induction s as [|a s IH]; intros [|b t] [|c u]; try done. simpl.
  destruct (Ascii.compare a b) eqn:Eab; try done.
  - apply Ascii.compare_eq_iff in Eab as ->. intros Hst.
    destruct (Ascii.compare b c) eqn:Ebc; try done. by apply IH.
  - destruct (Ascii.compare b c) eqn:Ebc; try done.
    + apply Ascii.compare_eq_iff in Ebc as <-. by rewrite Eab.
    + by rewrite (ascii_compare_lt_trans a b c).
Qed.
