(* ===== verification/Keyset.v ===== *)
(** Keyset pagination: a listing in a strict total order is read page by page,
    each request resuming after the key of the last row of the page before.

    [Ordered] is the interface of an order; [page] and [next_key] are the
    specification of one request; [walk] follows the pages while the rows may
    change between requests. The theorems are used for every paged listing of
    the admin API: no row is listed twice, a row that is there during the
    whole walk is listed, and on rows that stay the same the pages are the
    listing, cut. [PagedApi] lifts them to requests with encoded cursors. *)
From stdpp Require Import base gmap list sorting strings.
From Stdlib Require Import ZArith Lia.
From S2P Require Import Prelude.
From S2P Require Import Text.

(** * Orders *)

(** A strict total order, by its comparison. *)
Class Ordered {K} (cmp : K → K → comparison) : Prop := {
  cmp_eq : ∀ x y, cmp x y = Eq ↔ x = y;
  cmp_opp : ∀ x y, cmp y x = CompOpp (cmp x y);
  cmp_trans : ∀ x y z, cmp x y = Lt → cmp y z = Lt → cmp x z = Lt;
}.

#[export] Hint Mode Ordered ! ! : typeclass_instances.

Definition pair_cmp {A B} (ca : A → A → comparison) (cb : B → B → comparison)
    (x y : A * B) : comparison :=
  match ca x.1 y.1 with Eq => cb x.2 y.2 | c => c end.

(** [DESC]. *)
Definition desc {A} (c : A → A → comparison) (x y : A) : comparison := c y x.

#[export] Instance Z_ordered : Ordered Z.compare.
Proof.
  split; [apply Z.compare_eq_iff|intros; apply Z.compare_antisym|].
  intros x y z. rewrite !Z.compare_lt_iff. lia.
Qed.

#[export] Instance string_ordered : Ordered String.compare.
Proof.
  split; [|intros; apply String.compare_antisym|apply string_compare_lt_trans].
  intros x y. split; [apply String.compare_eq_iff|intros ->; apply string_compare_refl].
Qed.

#[export] Instance desc_ordered {A} (c : A → A → comparison) : Ordered c → Ordered (desc c).
Proof.
  intros [He Ho Ht]. unfold desc. split.
  - intros x y. rewrite He. naive_solver.
  - intros x y. apply Ho.
  - intros x y z Hxy Hyz. by apply (Ht z y x).
Qed.

#[export] Instance pair_ordered {A B} (ca : A → A → comparison) (cb : B → B → comparison) :
  Ordered ca → Ordered cb → Ordered (pair_cmp ca cb).
Proof.
  intros [Ea Oa Ta] [Eb Ob Tb]. unfold pair_cmp. split.
  - intros [a b] [a' b']. simpl. destruct (ca a a') eqn:E.
    + apply Ea in E as ->. rewrite Eb. naive_solver.
    + split; [done|]. intros [= -> ->]. by rewrite (proj2 (Ea a' a')) in E.
    + split; [done|]. intros [= -> ->]. by rewrite (proj2 (Ea a' a')) in E.
  - intros [a b] [a' b']. simpl. rewrite (Oa a a'). by destruct (ca a a'); simpl.
  - intros [a b] [a' b'] [a'' b'']. simpl.
    destruct (ca a a') eqn:E; [apply Ea in E as ->|..|done].
    + destruct (ca a' a'') eqn:E'; [|done..]. apply Tb.
    + intros _. destruct (ca a' a'') eqn:E'; [apply Ea in E' as <-; by rewrite E|..|done].
      intros _. by rewrite (Ta a a' a'').
Qed.

#[global] Typeclasses Opaque pair_cmp desc.

(** [ORDER BY]. *)
Definition order_by {R K} (cmp : K → K → comparison) (key : R → K) (rows : list R) : list R :=
  sort_by (λ a b, match cmp (key a) (key b) with Gt => false | _ => true end) rows.

(** Rows that are mapped to rows of the same order are listed in that order. *)
Lemma insert_sorted_fmap {A B} (le : A → A → bool) (le' : B → B → bool) (f : A → B) x l :
  (∀ y, y ∈ l → le x y = le' (f x) (f y)) →
  f <$> insert_sorted le x l = insert_sorted le' (f x) (f <$> l).
Proof.
  intros Hle. induction l as [|y l IH]; [done|]. rewrite fmap_cons. simpl.
  rewrite <- Hle by (by left). destruct (le x y); [done|]. rewrite fmap_cons. f_equal.
  apply IH. intros z Hz. apply Hle. by right.
Qed.

Lemma order_by_fmap {A B K K'} (cmp : K → K → comparison) (cmp' : K' → K' → comparison)
    (key : A → K) (key' : B → K') (f : A → B) l :
  (∀ a b, a ∈ l → b ∈ l → cmp (key a) (key b) = cmp' (key' (f a)) (key' (f b))) →
  f <$> order_by cmp key l = order_by cmp' key' (f <$> l).
Proof.
  unfold order_by. induction l as [|x l IH]; intros Hcmp; [done|]. rewrite fmap_cons. simpl.
  rewrite <- IH by (intros a b Ha Hb; apply Hcmp; by right). apply insert_sorted_fmap.
  intros y Hy. rewrite elem_of_sort_by in Hy. rewrite Hcmp; [done|by left|by right].
Qed.

Lemma filter_fmap {A B} (P : B → Prop) `{!∀ b, Decision (P b)} (f : A → B) (l : list A) :
  filter P (f <$> l) = f <$> filter (λ a, P (f a)) l.
Proof.
  induction l as [|x l IH]; [done|]. rewrite fmap_cons, !filter_cons.
  destruct (decide (P (f x))); [rewrite fmap_cons; by f_equal|done].
Qed.

Lemma filter_ext_in {A} (P Q : A → Prop) `{!∀ a, Decision (P a), !∀ a, Decision (Q a)}
    (l : list A) :
  (∀ a, a ∈ l → P a ↔ Q a) → filter P l = filter Q l.
Proof.
  induction l as [|x l IH]; intros Hiff; [done|]. rewrite !filter_cons.
  destruct (Hiff x) as [? ?]; [by left|]. rewrite IH by (intros; apply Hiff; by right).
  destruct (decide (P x)), (decide (Q x)); naive_solver.
Qed.

Section keyset.
Context {R K : Type} (cmp : K → K → comparison) `{!Ordered cmp} (key : R → K).

Definition before (a b : R) : Prop := cmp (key a) (key b) = Lt.

#[local] Instance cmp_lt_dec k k' : Decision (cmp k k' = Lt).
Proof. destruct (cmp k k'); (by left) || (right; discriminate). Defined.

Lemma cmp_refl k : cmp k k = Eq.
Proof. by apply cmp_eq. Qed.

Lemma before_trans : Transitive before.
Proof. intros a b c. apply cmp_trans. Qed.

Lemma before_irrefl a : ¬ before a a.
Proof. unfold before. by rewrite cmp_refl. Qed.

Lemma before_asym a b : before a b → ¬ before b a.
Proof. intros H1 H2. apply (before_irrefl a). by apply (before_trans a b a). Qed.

(** Rows in strict order with the same members are the same list. *)
Lemma sorted_unique l l' :
  StronglySorted before l → StronglySorted before l' → (∀ r, r ∈ l ↔ r ∈ l') → l = l'.
Proof.
  intros Hl. revert l'. induction Hl as [|r l Hl IH Hr]; intros l' Hl' Hiff.
  - destruct l' as [|r' l']; [done|]. specialize (Hiff r'). set_solver.
  - destruct Hl' as [|r' l' Hl' Hr']; [specialize (Hiff r); set_solver|].
    rewrite Forall_forall in Hr, Hr'. assert (r = r') as <-.
    { pose proof (proj1 (Hiff r) ltac:(by left)) as [|Hin]%elem_of_cons; [done|].
      pose proof (proj2 (Hiff r') ltac:(by left)) as [|Hin']%elem_of_cons; [done|].
      by destruct (before_asym r r'); auto. }
    f_equal. apply IH; [done|]. intros x. split; intros Hx.
    + pose proof (proj1 (Hiff x) ltac:(by right)) as [->|]%elem_of_cons; [|done].
      by destruct (before_irrefl r); apply Hr.
    + pose proof (proj2 (Hiff x) ltac:(by right)) as [->|]%elem_of_cons; [|done].
      by destruct (before_irrefl r); apply Hr'.
Qed.

Lemma sorted_filter (P : R → Prop) `{!∀ r, Decision (P r)} l :
  StronglySorted before l → StronglySorted before (filter P l).
Proof.
  induction 1 as [|r l _ IH Hr]; [constructor|]. rewrite filter_cons. case_decide; [|done].
  constructor; [done|]. rewrite Forall_forall in *. intros x [_ Hx]%list_elem_of_filter. auto.
Qed.

Lemma sorted_app_inv l1 l2 : StronglySorted before (l1 ++ l2) →
  StronglySorted before l1 ∧ StronglySorted before l2
  ∧ ∀ x y, x ∈ l1 → y ∈ l2 → before x y.
Proof.
  induction l1 as [|r l1 IH]; simpl.
  - intros Hl. split_and!; [constructor|done|]. by intros x y ?%elem_of_nil.
  - intros [Hl Hr]%StronglySorted_inv. destruct (IH Hl) as (H1 & H2 & H3).
    rewrite Forall_app, !Forall_forall in Hr. destruct Hr as [Hr1 Hr2].
    split_and!; [|done|].
    + constructor; [done|]. by rewrite Forall_forall.
    + intros x y [->|Hx]%elem_of_cons Hy; auto.
Qed.

Lemma sorted_app l1 l2 : StronglySorted before l1 → StronglySorted before l2 →
  (∀ x y, x ∈ l1 → y ∈ l2 → before x y) → StronglySorted before (l1 ++ l2).
Proof.
  intros H1 H2 H. induction H1 as [|r l1 _ IH Hr]; [done|]. simpl. constructor.
  - apply IH. intros x y Hx. apply H. by right.
  - rewrite Forall_app, !Forall_forall in *. split; [done|]. intros y Hy. apply H; [by left|done].
Qed.

(** Rows in strict order have distinct keys. *)
Lemma sorted_NoDup_key l : StronglySorted before l → NoDup (key <$> l).
Proof.
  induction 1 as [|r l _ IH Hr]; simpl; constructor; [|done].
  rewrite list_elem_of_fmap. intros (x & Hk & Hx). rewrite Forall_forall in Hr.
  specialize (Hr x Hx). unfold before in Hr. by rewrite <- Hk, cmp_refl in Hr.
Qed.

(** * The listing *)

Definition listing (rows : list R) : list R := order_by cmp key rows.

Lemma elem_of_listing rows r : r ∈ listing rows ↔ r ∈ rows.
Proof. apply elem_of_sort_by. Qed.

Lemma listing_perm rows : listing rows ≡ₚ rows.
Proof. apply sort_by_perm. Qed.

Lemma listing_sorted rows : NoDup (key <$> rows) → StronglySorted before (listing rows).
Proof.
  intros Hnd. rewrite <- (listing_perm rows) in Hnd. revert Hnd.
  assert (StronglySorted (λ a b, (match cmp (key a) (key b) with Gt => false | _ => true end) = true)
            (listing rows)) as Hs.
  { apply sort_by_StronglySorted.
    - intros x y. rewrite (cmp_opp (key x) (key y)).
      destruct (cmp (key x) (key y)); simpl; auto.
    - intros x y z Hxy Hyz. destruct (cmp (key x) (key y)) eqn:Exy; try done;
        destruct (cmp (key y) (key z)) eqn:Eyz; try done.
      + apply cmp_eq in Exy, Eyz. by rewrite Exy, Eyz, cmp_refl.
      + apply cmp_eq in Exy. by rewrite Exy, Eyz.
      + apply cmp_eq in Eyz. by rewrite <- Eyz, Exy.
      + by rewrite (cmp_trans _ _ _ Exy Eyz). }
  induction Hs as [|r l _ IH Hr]; intros Hnd; [constructor|].
  apply NoDup_cons in Hnd as [Hin Hnd]. constructor; [by apply IH|].
  rewrite Forall_forall in *. intros x Hx. specialize (Hr x Hx). unfold before.
  destruct (cmp (key r) (key x)) eqn:E; [|done..].
  apply cmp_eq in E. destruct Hin. rewrite E. by apply list_elem_of_fmap_2.
Qed.

Lemma filter_all (P : R → Prop) `{!∀ r, Decision (P r)} (l : list R) :
  (∀ r, r ∈ l → P r) → filter P l = l.
Proof.
  induction l as [|r l IH]; intros HP; [done|]. rewrite filter_cons_True by (apply HP; by left).
  f_equal. apply IH. intros x Hx. apply HP. by right.
Qed.

Lemma NoDup_part (rows part : list R) :
  NoDup (key <$> rows) → part ⊆+ rows → NoDup (key <$> part).
Proof.
  intros Hnd (rest & Hp)%submseteq_Permutation. rewrite Hp, fmap_app in Hnd.
  by apply NoDup_app in Hnd as [? _].
Qed.

(** [WHERE] before [ORDER BY] is [WHERE] after it. *)
Lemma listing_filter (P : R → Prop) `{!∀ r, Decision (P r)} rows :
  NoDup (key <$> rows) → listing (filter P rows) = filter P (listing rows).
Proof.
  intros Hnd. apply sorted_unique.
  - apply listing_sorted. by eapply NoDup_part, sublist_submseteq, sublist_filter.
  - by apply sorted_filter, listing_sorted.
  - intros r. rewrite elem_of_listing, !list_elem_of_filter, elem_of_listing. done.
Qed.

(** The rows after the key of a request. *)
Definition beyond (after : option K) (r : R) : Prop :=
  match after with Some k => cmp k (key r) = Lt | None => True end.

#[export] Instance beyond_dec after r : Decision (beyond after r).
Proof. destruct after; apply _. Defined.

Definition remaining (rows : list R) (after : option K) : list R :=
  filter (beyond after) (listing rows).

(** * Merged sources *)

Lemma source_part (sources : list (list R)) s : s ∈ sources → s ⊆+ mjoin sources.
Proof.
  intros (l1 & l2 & ->)%list_elem_of_split. rewrite join_app. simpl.
  by apply submseteq_inserts_l, submseteq_inserts_r.
Qed.

(** A prefix whose rows all pass a filter is a prefix of what passes. *)
Lemma take_filter_prefix (P : R → Prop) `{!∀ r, Decision (P r)} n l :
  (∀ r, r ∈ take n l → P r) → take n (filter P l) = take n l.
Proof.
  intros HP. rewrite <- (take_drop n l) at 1. rewrite filter_app, (filter_all P (take n l)) by done.
  destruct (Nat.le_gt_cases n (length l)) as [Hn|Hn].
  - rewrite take_app_le by (rewrite length_take; lia). rewrite take_take. f_equal. lia.
  - rewrite drop_ge by lia. rewrite filter_nil, app_nil_r, take_take. f_equal. lia.
Qed.

Lemma take_filter_elem (P : R → Prop) `{!∀ r, Decision (P r)} n l r :
  r ∈ take n l → P r → r ∈ take n (filter P l).
Proof.
  intros Hr HP. rewrite <- (take_drop n l). rewrite filter_app.
  rewrite take_app_ge.
  - apply elem_of_app. left. by apply list_elem_of_filter.
  - pose proof (length_filter P (take n l)) as Hlen. rewrite length_take in Hlen. lia.
Qed.

#[local] Instance key_eq_dec : EqDecision K.
Proof.
  intros x y. destruct (cmp x y) eqn:E;
    [left; by apply (cmp_eq (cmp := cmp))|right; intros ->; by rewrite cmp_refl in E..].
Defined.

Lemma same_key rows x y : NoDup (key <$> rows) → x ∈ rows → y ∈ rows → key x = key y → x = y.
Proof.
  intros Hnd (i & Hi)%list_elem_of_lookup_1 (j & Hj)%list_elem_of_lookup_1 Hk.
  assert (i = j) as ->; [|congruence].
  eapply (NoDup_lookup _ i j (key x) Hnd); rewrite list_lookup_fmap, ?Hi, ?Hj; simpl; congruence.
Qed.

(** Some of the rows, listed, are the listing with the others left out. *)
Lemma listing_part rows part : NoDup (key <$> rows) → part ⊆+ rows →
  listing part = filter (λ r, key r ∈ key <$> part) (listing rows).
Proof.
  intros Hnd Hsub. assert (NoDup (key <$> part)) as Hnd'.
  { by eapply NoDup_part. }
  apply sorted_unique.
  - by apply listing_sorted.
  - by apply sorted_filter, listing_sorted.
  - intros r. rewrite list_elem_of_filter, !elem_of_listing. split.
    + intros Hr. split; [by apply list_elem_of_fmap_2|]. by eapply elem_of_submseteq.
    + intros [(x & Hk & Hx)%list_elem_of_fmap Hr].
      by rewrite (same_key rows r x Hnd Hr (elem_of_submseteq _ _ _ Hx Hsub) Hk).
Qed.

(** The first rows of a merge need only the first rows of every source. *)
Lemma take_merge n (sources : list (list R)) : NoDup (key <$> mjoin sources) →
  take n (listing (mjoin ((λ s, take n (listing s)) <$> sources)))
  = take n (listing (mjoin sources)).
Proof.
  intros Hnd. assert (mjoin ((λ s, take n (listing s)) <$> sources) ⊆+ mjoin sources) as Hsub.
  { clear Hnd. induction sources as [|s ss IH]; simpl; [done|].
    apply submseteq_app; [|done]. rewrite <- (listing_perm s) at 2.
    apply sublist_submseteq, sublist_take. }
  rewrite (listing_part (mjoin sources)) by done. apply take_filter_prefix.
  intros r Hr. apply list_elem_of_fmap_2. rewrite list_elem_of_join.
  assert (r ∈ mjoin sources) as (s & Hs & Hsrc)%list_elem_of_join.
  { apply elem_of_listing. by eapply elem_of_take_in. }
  exists (take n (listing s)). split; [|by apply (list_elem_of_fmap_2 (λ s, take n (listing s)))].
  rewrite (listing_part (mjoin sources)) by (done || by apply source_part).
  apply take_filter_elem; [done|]. by apply list_elem_of_fmap_2.
Qed.

(** * Pages *)

Context (limit : nat).

Definition page (rows : list R) (after : option K) : list R :=
  take limit (remaining rows after).

Definition next_key (rows : list R) (after : option K) : option K :=
  if (limit <? length (remaining rows after))%nat then key <$> last (page rows after) else None.

Lemma remaining_sorted rows after :
  NoDup (key <$> rows) → StronglySorted before (remaining rows after).
Proof. intros Hnd. by apply sorted_filter, listing_sorted. Qed.

Lemma elem_of_remaining rows after r : r ∈ remaining rows after ↔ beyond after r ∧ r ∈ rows.
Proof. unfold remaining. by rewrite list_elem_of_filter, elem_of_listing. Qed.

Lemma elem_of_page rows after r : r ∈ page rows after → beyond after r ∧ r ∈ rows.
Proof. intros Hr%elem_of_take_in. by apply elem_of_remaining. Qed.

Lemma page_sorted rows after : NoDup (key <$> rows) → StronglySorted before (page rows after).
Proof.
  intros Hnd. pose proof (remaining_sorted rows after Hnd) as Hs.
  rewrite <- (take_drop limit) in Hs. by apply sorted_app_inv in Hs as (? & _ & _).
Qed.

(** The rows at or before the last of a page are on it, and the rest is after. *)
Lemma next_key_Some rows after k : NoDup (key <$> rows) → next_key rows after = Some k →
  (∀ x, x ∈ page rows after → key x = k ∨ cmp (key x) k = Lt)
  ∧ drop limit (remaining rows after) = remaining rows (Some k)
  ∧ (∃ r, r ∈ page rows after ∧ key r = k).
Proof.
  intros Hnd. unfold next_key. case_match; [|done]. rewrite fmap_Some.
  intros (r & Hl & ->). pose proof (remaining_sorted rows after Hnd) as Hs.
  pose proof (take_drop limit (remaining rows after)) as Htd.
  rewrite <- Htd in Hs. apply sorted_app_inv in Hs as (Hs1 & Hs2 & Hlt).
  fold (page rows after) in *. apply last_Some in Hl as [l Hl].
  assert (r ∈ page rows after) as Hr by (rewrite Hl; set_solver). split_and!.
  - intros x Hx. rewrite Hl in Hx, Hs1.
    apply elem_of_app in Hx as [Hx|Hx%list_elem_of_singleton]; [right|by left; subst].
    destruct (sorted_app_inv _ _ Hs1) as (_ & _ & Hb). apply (Hb x r Hx). set_solver.
  - apply sorted_unique; [done|by apply remaining_sorted|]. intros x.
    rewrite elem_of_remaining. split.
    + intros Hx. split; [by apply Hlt|]. assert (x ∈ remaining rows after) as Hx'.
      { rewrite <- Htd. set_solver. } by apply elem_of_remaining in Hx' as [_ ?].
    + intros [Hb Hx]. assert (x ∈ remaining rows after) as Hx'.
      { apply elem_of_remaining. split; [|done].
        assert (r ∈ remaining rows after) as [Ha _]%elem_of_remaining by (rewrite <- Htd; set_solver).
        destruct after as [k|]; [|done]. by apply (cmp_trans k (key r) (key x)). }
      rewrite <- Htd in Hx'. apply elem_of_app in Hx' as [Hx'|]; [|done].
      exfalso. rewrite Hl in Hx', Hs1. destruct (sorted_app_inv _ _ Hs1) as (_ & _ & Hb').
      apply elem_of_app in Hx' as [Hx'|Hx'%list_elem_of_singleton].
      * apply (before_asym r x); [done|]. apply Hb'; set_solver.
      * subst x. by apply (before_irrefl r).
  - by exists r.
Qed.

Lemma next_key_None rows after :
  (0 < limit)%nat → next_key rows after = None → page rows after = remaining rows after.
Proof.
  intros Hl. unfold next_key, page. destruct (Nat.ltb_spec limit (length (remaining rows after)))
    as [Hlt|Hle]; [|intros _; by apply take_ge].
  rewrite fmap_None, last_None. intros Hnil. apply (f_equal length) in Hnil.
  rewrite length_take in Hnil. simpl in Hnil. lia.
Qed.

(** * Walks *)

(** The rows that a client collects who requests the first page and follows
    the next keys; request [i] sees the rows [h i]. *)
Inductive walk (h : nat → list R) : nat → option K → list R → Prop :=
  | walk_end i after :
      next_key (h i) after = None → walk h i after (page (h i) after)
  | walk_next i after k rest :
      next_key (h i) after = Some k → walk h (S i) (Some k) rest →
      walk h i after (page (h i) after ++ rest).

Section walk.
Context (h : nat → list R) (Hh : ∀ i, NoDup (key <$> h i)).

(** Whatever happens between the requests, the rows come in strict order, so
    none twice, and each was there when its page was read. *)
Lemma walk_sorted i after l : walk h i after l →
  StronglySorted before l ∧ ∀ r, r ∈ l → beyond after r ∧ ∃ j, (i ≤ j)%nat ∧ r ∈ h j.
Proof.
  induction 1 as [i after _|i after k rest Hk _ [IH1 IH2]].
  - split; [by apply page_sorted|]. intros r [? ?]%elem_of_page. split; [done|]. by exists i.
  - destruct (next_key_Some _ _ _ (Hh i) Hk) as (Hle & _ & r0 & Hr0 & <-).
    split.
    + apply sorted_app; [by apply page_sorted|done|]. intros x y Hx Hy. destruct (IH2 y Hy) as [Hb _]. unfold before. simpl in Hb.
      destruct (Hle x Hx) as [->|Hlt]; [done|]. by eapply cmp_trans.
    + intros r [Hr|Hr]%elem_of_app.
      * destruct (elem_of_page _ _ _ Hr) as [? ?]. split; [done|]. by exists i.
      * destruct (IH2 r Hr) as [Hb (j & Hj & Hin)]. split; [|exists j; split; [lia|done]].
        destruct (elem_of_page _ _ _ Hr0) as [Ha _]. destruct after as [k|]; [|done].
        by eapply cmp_trans.
Qed.

(** A row that every request sees, under the same key, is collected. *)
Lemma walk_complete i after l k : (0 < limit)%nat → walk h i after l →
  match after with Some k0 => cmp k0 k = Lt | None => True end →
  (∀ j, (i ≤ j)%nat → ∃ r, r ∈ h j ∧ key r = k) → ∃ r, r ∈ l ∧ key r = k.
Proof.
  intros Hlimit. induction 1 as [i after Hn|i after k' rest Hk _ IH]; intros Ha Hall.
  - destruct (Hall i ltac:(lia)) as (r & Hr & <-). exists r. split; [|done].
    rewrite next_key_None by done. apply elem_of_remaining. by destruct after.
  - destruct (next_key_Some _ _ _ (Hh i) Hk) as (_ & Hdrop & _).
    destruct (Hall i ltac:(lia)) as (r & Hr & Hkr).
    assert (r ∈ remaining (h i) after) as Hin by (apply elem_of_remaining; subst; by destruct after).
    rewrite <- (take_drop limit), elem_of_app in Hin. destruct Hin as [Hin|Hin].
    + exists r. split; [|done]. apply elem_of_app. by left.
    + rewrite Hdrop in Hin. apply elem_of_remaining in Hin as [Hb _].
      destruct IH as (r' & ? & ?); [by subst|intros j Hj; apply Hall; lia|].
      exists r'. split; [|done]. apply elem_of_app. by right.
Qed.
End walk.

(** On rows that stay the same the walk ends and collects the listing. *)
Lemma walk_fixed rows i after : (0 < limit)%nat → NoDup (key <$> rows) →
  walk (λ _, rows) i after (remaining rows after).
Proof.
  intros Hlimit Hnd. remember (length (remaining rows after)) as n eqn:En.
  revert i after En. induction (lt_wf n) as [n _ IH]; intros i after ->.
  destruct (next_key rows after) as [k|] eqn:Ek.
  - destruct (next_key_Some _ _ _ Hnd Ek) as (_ & Hdrop & _).
    rewrite <- (take_drop limit (remaining rows after)). fold (page rows after).
    apply walk_next with k; [done|]. rewrite Hdrop. eapply IH; [|done].
    rewrite <- Hdrop, length_drop. unfold next_key in Ek. case_match eqn:E; [|done].
    apply Nat.ltb_lt in E. lia.
  - rewrite <- next_key_None by done. by apply walk_end.
Qed.
End keyset.
