(* ===== verification/Cursor.v ===== *)
(** Page cursors ([admin/cursor.rs]) and how the listings use them: a position
    in a collection, as URL-safe base64 of a JSON payload, with the scope it
    belongs to.

    The crates [base64] and [serde_json] are the class [CursorCodec]; what the
    cursors rely on is [CursorLaws]. *)
From stdpp Require Import base list strings.
From Stdlib Require Import ZArith Lia Ascii.
From S2P Require Import Prelude.
From S2P Require Import Errors.
From S2P Require Import Text.

Definition CURSOR_VERSION : Z := 1.
Definition MAX_CURSOR_BYTES : nat := 512.

Record CursorPosition := MkCursorPosition { cp_timestamp : Z; cp_tie_breaker : string }.

Record CursorPayload := MkCursorPayload {
  pl_version : Z;
  pl_scope : string;
  pl_timestamp : Z;
  pl_tie_breaker : string;
}.

(** [URL_SAFE_NO_PAD] and [serde_json] of a payload; [None] is their error. *)
Class CursorCodec := {
  base64_encode : string → string;
  base64_decode : string → option string;
  payload_to_vec : CursorPayload → string;
  payload_from_slice : string → option CursorPayload;
}.

Definition invalid_cursor (message : string) : DurableError := InvalidCursor message.

Definition validate_scope (scope : string) : Result unit :=
  if (str_len scope =? 0)%nat || (64 <? str_len scope)%nat || negb (is_ascii scope)
  then Err (invalid_cursor "cursor scope is invalid")
  else Ok tt.

Definition validate_tie_breaker (tie_breaker : string) : Result unit :=
  if (str_len tie_breaker =? 0)%nat || (191 <? str_len tie_breaker)%nat
  then Err (invalid_cursor "cursor tie breaker is invalid")
  else Ok tt.

Section cursors.
Context `{CursorCodec}.

Definition encode_cursor (scope : string) (position : CursorPosition) : Result string :=
  let? _ := validate_scope scope in
  let? _ := validate_tie_breaker (cp_tie_breaker position) in
  let json := payload_to_vec (MkCursorPayload CURSOR_VERSION scope (cp_timestamp position)
                                (cp_tie_breaker position)) in
  Ok (base64_encode json).

Definition decode_cursor (scope cursor : string) : Result CursorPosition :=
  let? _ := validate_scope scope in
  if (str_len cursor =? 0)%nat || (MAX_CURSOR_BYTES <? str_len cursor)%nat
  then Err (invalid_cursor "cursor length is outside the allowed range")
  else
    let? bytes := ok_or (base64_decode cursor)
      (invalid_cursor "cursor is not valid URL-safe base64") in
    let? payload := ok_or (payload_from_slice bytes)
      (invalid_cursor "cursor payload is malformed") in
    if negb (pl_version payload =? CURSOR_VERSION)%Z
    then Err (invalid_cursor "cursor version is not supported")
    else if negb (String.eqb (pl_scope payload) scope)
    then Err (invalid_cursor "cursor belongs to a different collection")
    else
      let? _ := validate_tie_breaker (pl_tie_breaker payload) in
      Ok (MkCursorPosition (pl_timestamp payload) (pl_tie_breaker payload)).

(** [decode_numeric_cursor], the same in [query.rs] and [metrics.rs]. *)
Definition decode_numeric_cursor (scope cursor : string) : Result (Z * Z) :=
  let? position := decode_cursor scope cursor in
  let? id := ok_or (parse_i64 (cp_tie_breaker position))
    (InvalidCursor "cursor tie breaker is not numeric") in
  if (id <=? 0)%Z then Err (InvalidCursor "cursor tie breaker must be positive")
  else Ok (cp_timestamp position, id).

Definition decode_string_cursor (scope cursor : string) : Result string :=
  let? position := decode_cursor scope cursor in
  if negb (cp_timestamp position =? 0)%Z || (str_len (cp_tie_breaker position) =? 0)%nat
  then Err (InvalidCursor "string cursor position is invalid")
  else Ok (cp_tie_breaker position).

Definition encode_string_cursor (scope value : string) : Result string :=
  encode_cursor scope (MkCursorPosition 0 value).
End cursors.

(** [cursor.map(f).transpose()?]. *)
Definition transpose {A B} (f : A → Result B) (o : option A) : Result (option B) :=
  match o with Some a => res_map Some (f a) | None => Ok None end.

(** * The scope of an identity *)

Definition FNV_OFFSET : Z := 0xcbf29ce484222325.
Definition FNV_PRIME : Z := 0x00000100000001b3.

Fixpoint fnv_hash (hash : Z) (identity : string) : Z :=
  match identity with
  | EmptyString => hash
  | String byte rest =>
      fnv_hash ((Z.lxor hash (Z.of_N (N_of_ascii byte)) * FNV_PRIME) mod 2 ^ 64)%Z rest
  end.

(** [{:x}] of one digit. *)
Definition hex_digit (z : Z) : ascii :=
  ascii_of_N (Z.to_N (if (z <? 10)%Z then 48 + z else 87 + z)).

(** [{:0width$x}] of a number that fits the width. *)
Fixpoint fixed_hex (width : nat) (z : Z) : string :=
  match width with
  | O => EmptyString
  | S w => String (hex_digit (z / 16 ^ Z.of_nat w)) (fixed_hex w (z mod 16 ^ Z.of_nat w))
  end.

Definition scoped_cursor_scope (collection identity : string) : string :=
  collection +:+ ":" +:+ fixed_hex 16 (fnv_hash FNV_OFFSET identity).

Example scope_of_nightly :
  scoped_cursor_scope "schedule_runs" "a" = "schedule_runs:af63dc4c8601ec8c".
Proof. reflexivity. Qed.

(** * What the cursors rely on *)

(** A byte that JSON strings hold as it is. *)
Definition plain_byte (c : ascii) : bool :=
  let b := nat_of_ascii c in
  ((32 <=? b) && (b <? 127) && negb (b =? 34) && negb (b =? 92))%nat.

Definition plain (s : string) : Prop := all_bytes plain_byte s = true.

(** The compact JSON text of a payload of plain strings; the fields in the
    order of the struct. *)
Definition payload_text (p : CursorPayload) : string :=
  "{" +:+ quoted "version" +:+ ":" +:+ fmt (pl_version p)
  +:+ "," +:+ quoted "scope" +:+ ":" +:+ quoted (pl_scope p)
  +:+ "," +:+ quoted "timestamp" +:+ ":" +:+ fmt (pl_timestamp p)
  +:+ "," +:+ quoted "tie_breaker" +:+ ":" +:+ quoted (pl_tie_breaker p) +:+ "}".

(** A printable byte, and the text of a printable string in JSON: a quote or a
    backslash is held behind a backslash. *)
Definition printable_byte (c : ascii) : bool :=
  let b := nat_of_ascii c in ((32 <=? b) && (b <? 127))%nat.

Definition printable (s : string) : Prop := all_bytes printable_byte s = true.

Fixpoint json_escape (s : string) : string :=
  match s with
  | EmptyString => EmptyString
  | String c s' =>
      if ((nat_of_ascii c =? 34) || (nat_of_ascii c =? 92))%nat
      then String (ascii_of_nat 92) (String c (json_escape s'))
      else String c (json_escape s')
  end.

Definition payload_escaped (p : CursorPayload) : CursorPayload :=
  MkCursorPayload (pl_version p) (json_escape (pl_scope p)) (pl_timestamp p)
    (json_escape (pl_tie_breaker p)).

(** Base64 decodes what it encoded and takes four characters for three bytes,
    without padding. The text of a payload of printable strings is
    [payload_text] with these escaped, and one of plain strings reads back when
    the numbers fit their types. *)
Class CursorLaws `{CursorCodec} : Prop := {
  base64_roundtrip : ∀ s, base64_decode (base64_encode s) = Some s;
  base64_length : ∀ s, str_len (base64_encode s) = ((4 * str_len s + 2) / 3)%nat;
  payload_roundtrip : ∀ p, plain (pl_scope p) → plain (pl_tie_breaker p) →
    in_i64 (pl_timestamp p) = true → (0 ≤ pl_version p ≤ 255)%Z →
    payload_from_slice (payload_to_vec p) = Some p;
  payload_printable : ∀ p, printable (pl_scope p) → printable (pl_tie_breaker p) →
    payload_to_vec p = payload_text (payload_escaped p);
}.

Lemma plain_escaped s : plain s → printable s ∧ json_escape s = s.
Proof.
  unfold plain, printable. induction s as [|c s IH]; [done|]. simpl. rewrite !andb_true_iff.
  intros [Hc [Hp Hs]%IH]. unfold plain_byte, printable_byte in *. rewrite !andb_true_iff in *.
  destruct Hc as [[Hb H34%negb_true_iff] H92%negb_true_iff]. by rewrite H34, H92, Hs.
Qed.

Lemma payload_escaped_plain p :
  plain (pl_scope p) → plain (pl_tie_breaker p) → payload_escaped p = p.
Proof.
  intros [_ Hs]%plain_escaped [_ Ht]%plain_escaped. unfold payload_escaped. rewrite Hs, Ht.
  by destruct p.
Qed.

Lemma payload_plain `{CursorLaws} p :
  plain (pl_scope p) → plain (pl_tie_breaker p) → payload_to_vec p = payload_text p.
Proof.
  intros Hs Ht. rewrite payload_printable by (by apply plain_escaped).
  by rewrite payload_escaped_plain.
Qed.

(** The scope of an identity is a text of hexadecimal digits, whatever the
    identity. *)
Lemma hex_digit_plain z : (0 ≤ z < 16)%Z → plain_byte (hex_digit z) = true.
Proof.
  intros Hz. assert (z ∈ seqZ 0 16) as Hin by (apply elem_of_seqZ; lia).
  clear Hz. revert z Hin. apply Forall_forall. by vm_compute; repeat constructor.
Qed.

Lemma fixed_hex_plain w z : (0 ≤ z < 16 ^ Z.of_nat w)%Z →
  plain (fixed_hex w z) ∧ str_len (fixed_hex w z) = w.
Proof.
  unfold plain, str_len. revert z. induction w as [|w IH]; intros z Hz; [done|].
  assert (0 < 16 ^ Z.of_nat w)%Z as Hp by (apply Z.pow_pos_nonneg; lia).
  destruct (IH (z mod 16 ^ Z.of_nat w)%Z ltac:(apply Z.mod_pos_bound; lia)) as [Hs Hl].
  simpl. rewrite Hs, Hl, hex_digit_plain; [done|].
  rewrite Nat2Z.inj_succ, Z.pow_succ_r in Hz by lia.
  split; [apply Z.div_pos; lia|apply Z.div_lt_upper_bound; lia].
Qed.

Lemma fnv_hash_range hash identity :
  (0 ≤ hash < 2 ^ 64)%Z → (0 ≤ fnv_hash hash identity < 2 ^ 64)%Z.
Proof.
  revert hash. induction identity as [|c s IH]; intros hash Hh; [done|]. simpl. apply IH.
  apply Z.mod_pos_bound. lia.
Qed.

(** * Round trips *)

(** A scope and a tie breaker that a cursor of the engine has. *)
Definition cursor_scope (s : string) : Prop := (0 < str_len s ≤ 64)%nat ∧ plain s.
Definition cursor_tie (s : string) : Prop := (0 < str_len s ≤ 191)%nat ∧ plain s.

Lemma plain_is_ascii s : plain s → is_ascii s = true.
Proof.
  unfold plain, is_ascii. induction s as [|c s IH]; [done|]. simpl.
  rewrite !andb_true_iff. intros [Hc Hs]. split; [|auto]. unfold plain_byte in Hc.
  rewrite !andb_true_iff, Nat.ltb_lt in Hc. apply Nat.ltb_lt. lia.
Qed.

Lemma validate_scope_ok s : cursor_scope s → validate_scope s = Ok tt.
Proof.
  intros [Hlen Hp]. unfold validate_scope. rewrite (plain_is_ascii s Hp).
  destruct (Nat.eqb_spec (str_len s) 0), (Nat.ltb_spec 64 (str_len s)); (lia || done).
Qed.

Lemma validate_tie_breaker_ok s : cursor_tie s → validate_tie_breaker s = Ok tt.
Proof.
  intros [Hlen Hp]. unfold validate_tie_breaker.
  destruct (Nat.eqb_spec (str_len s) 0), (Nat.ltb_spec 191 (str_len s)); (lia || done).
Qed.

Lemma validate_scope_inv s : validate_scope s = Ok tt → plain s → cursor_scope s.
Proof.
  unfold validate_scope. destruct (Nat.eqb_spec (str_len s) 0), (Nat.ltb_spec 64 (str_len s));
    try done. intros _ Hp. split; [lia|done].
Qed.

Lemma validate_tie_breaker_inv s : validate_tie_breaker s = Ok tt → plain s → cursor_tie s.
Proof.
  unfold validate_tie_breaker.
  destruct (Nat.eqb_spec (str_len s) 0), (Nat.ltb_spec 191 (str_len s)); try done.
  intros _ Hp. split; [lia|done].
Qed.

(** An [i64] has at most twenty characters. *)
Lemma fmt_length z : in_i64 z = true → (str_len (fmt z) ≤ 20)%nat.
Proof.
  intros Hz. assert (∀ p, (Z.pos p < 10 ^ 19)%Z → str_len (fmt (Z.pos p)) ≤ 19)%nat as Hp.
  { intros p Hp. change (fmt (Z.pos p)) with (pretty.pretty_N_go (N.pos p) "").
    apply (pretty_go_fixed 19). simpl Z.of_nat. lia. }
  autounfold with ranges in Hz. rewrite andb_true_iff, !Z.leb_le in Hz.
  destruct z as [|p|p]; [simpl; lia| |].
  - specialize (Hp p ltac:(lia)). lia.
  - change (fmt (Z.neg p)) with ("-" +:+ fmt (Z.pos p)). rewrite str_len_app.
    specialize (Hp p ltac:(lia)). change (str_len "-") with 1%nat. lia.
Qed.

Lemma str_len_quoted s : str_len (quoted s) = (str_len s + 2)%nat.
Proof.
  unfold quoted. change (str_len (String (ascii_of_nat 34) (s +:+ String (ascii_of_nat 34) "")))
    with (S (str_len (s +:+ String (ascii_of_nat 34) ""))).
  rewrite str_len_app. change (str_len (String (ascii_of_nat 34) "")) with 1%nat. lia.
Qed.

Lemma payload_text_length p : pl_version p = CURSOR_VERSION → in_i64 (pl_timestamp p) = true →
  (str_len (payload_text p) ≤ 74 + str_len (pl_scope p) + str_len (pl_tie_breaker p))%nat.
Proof.
  intros Hv Ht. unfold payload_text. rewrite Hv, !str_len_app, !str_len_quoted.
  pose proof (fmt_length _ Ht). change (str_len (fmt CURSOR_VERSION)) with 1%nat.
  change (str_len "{") with 1%nat. change (str_len "}") with 1%nat.
  change (str_len ":") with 1%nat. change (str_len ",") with 1%nat.
  change (str_len "version") with 7%nat. change (str_len "scope") with 5%nat.
  change (str_len "timestamp") with 9%nat. change (str_len "tie_breaker") with 11%nat. lia.
Qed.

Lemma identity_scope collection identity :
  (str_len collection ≤ 47)%nat → plain collection →
  cursor_scope (scoped_cursor_scope collection identity).
Proof.
  intros Hlen Hp. unfold scoped_cursor_scope.
  destruct (fixed_hex_plain 16 (fnv_hash FNV_OFFSET identity)) as [Hx Hl].
  { apply fnv_hash_range. by vm_compute. }
  split.
  - rewrite !str_len_app, Hl. change (str_len ":") with 1%nat. lia.
  - unfold plain in *. by rewrite !all_bytes_app, Hp, Hx.
Qed.

Section roundtrip.
Context `{CursorLaws}.

(** The text of a cursor whose payload is within the bound. *)
Definition cursor_text (scope : string) (position : CursorPosition) : string :=
  base64_encode (payload_to_vec (MkCursorPayload CURSOR_VERSION scope (cp_timestamp position)
                                   (cp_tie_breaker position))).

Lemma encode_cursor_ok scope position :
  cursor_scope scope → cursor_tie (cp_tie_breaker position) →
  encode_cursor scope position = Ok (cursor_text scope position).
Proof.
  intros Hs Ht. unfold encode_cursor.
  by rewrite validate_scope_ok, validate_tie_breaker_ok.
Qed.

(** The positions of the engine stay below the length that decoding allows. *)
Lemma cursor_text_length scope position :
  cursor_scope scope → cursor_tie (cp_tie_breaker position) →
  in_i64 (cp_timestamp position) = true →
  (0 < str_len (cursor_text scope position) ≤ MAX_CURSOR_BYTES)%nat.
Proof.
  intros [Hs1 Hs2] [Ht1 Ht2] Hi. unfold cursor_text.
  rewrite base64_length, payload_plain by done.
  pose proof (payload_text_length (MkCursorPayload CURSOR_VERSION scope (cp_timestamp position)
    (cp_tie_breaker position)) eq_refl Hi) as Hlen. cbn [pl_scope pl_tie_breaker] in Hlen.
  assert (0 < str_len (payload_text (MkCursorPayload CURSOR_VERSION scope (cp_timestamp position)
    (cp_tie_breaker position))))%nat as Hpos by (unfold payload_text, str_len; simpl; lia).
  unfold MAX_CURSOR_BYTES. split.
  - apply Nat.div_str_pos. lia.
  - apply Nat.Div0.div_le_upper_bound. lia.
Qed.

(** Decoding, in the scope it was made for and in any other. *)
Lemma decode_cursor_text scope scope' position :
  cursor_scope scope → cursor_scope scope' → cursor_tie (cp_tie_breaker position) →
  in_i64 (cp_timestamp position) = true →
  decode_cursor scope' (cursor_text scope position)
  = if String.eqb scope scope' then Ok position
    else Err (invalid_cursor "cursor belongs to a different collection").
Proof.
  intros Hs Hs' Ht Hi. unfold decode_cursor. rewrite validate_scope_ok by done. simpl res_bind.
  destruct (cursor_text_length scope position Hs Ht Hi) as [Hpos Hmax].
  destruct (Nat.eqb_spec (str_len (cursor_text scope position)) 0) as [|_]; [lia|].
  destruct (Nat.ltb_spec MAX_CURSOR_BYTES (str_len (cursor_text scope position))) as [|_]; [lia|].
  unfold cursor_text at 1. rewrite base64_roundtrip. simpl res_bind.
  rewrite payload_roundtrip
    by (apply Hs || apply Ht || done || simpl; unfold CURSOR_VERSION; lia).
  cbn [res_bind ok_or pl_version pl_scope pl_timestamp pl_tie_breaker orb].
  rewrite Z.eqb_refl. cbn [negb]. destruct (String.eqb_spec scope scope') as [->|]; [|done].
  cbn [negb]. rewrite validate_tie_breaker_ok by done. by destruct position.
Qed.
End roundtrip.
