(* ===== verification/AdminTypes.v ===== *)
(** The read models of the admin API ([admin/types.rs]), and the statements
    that build them.

    A read operation of the API takes no transaction: its statements run one
    after the other on a pooled connection and each sees the tables as they
    are then. [Query] is such a computation: statement [i] reads the [i]-th
    snapshot of a history of the tables and of the database clock. That a
    connection or a statement fails is not represented. *)
From stdpp Require Import base gmap list strings.
From Stdlib Require Import ZArith Lia.
From S2P Require Import Prelude.
From S2P Require Import Errors.
From S2P Require Import Status.
From S2P Require Import Rows.
From S2P Require Import Database.
From S2P Require Import Calendar.

(** * Statements *)

Record Snapshot := MkSnapshot { sn_db : Db; sn_now : DbMillis }.

Definition Query (A : Type) : Type := (nat → Snapshot) → nat → Result (A * nat).

Definition q_ret {A} (a : A) : Query A := λ _ i, Ok (a, i).
Definition q_bind {A B} (m : Query A) (f : A → Query B) : Query B := λ h i,
  match m h i with
  | Ok (a, i') => f a h i'
  | Err err => Err err
  end.
Definition q_lift {A} (r : Result A) : Query A := λ _ i,
  match r with Ok a => Ok (a, i) | Err err => Err err end.

(** One [SELECT]. *)
Definition statement {A} (select : Db → A) : Query A := λ h i, Ok (select (sn_db (h i)), S i).

(** [persistence::database_now_millis] on a connection of its own. *)
Definition sample_now : Query DbMillis := λ h i, Ok (sn_now (h i), S i).

Declare Scope query_scope.
Delimit Scope query_scope with query.
Notation "'let*' x ':=' m 'in' k" := (q_bind m (λ x, k))
  (at level 10, x binder, m at level 100, k at level 200) : query_scope.
Notation "'do*' m 'in' k" := (q_bind m (λ _, k))
  (at level 10, m at level 100, k at level 200) : query_scope.
Open Scope query_scope.

(** The body of a [for] whose rounds run statements, with its results. *)
Fixpoint q_map {A B} (f : A → Query B) (l : list A) : Query (list B) :=
  match l with
  | [] => q_ret []
  | x :: xs => let* y := f x in let* ys := q_map f xs in q_ret (y :: ys)
  end.

(** What an operation returns on a history. *)
Definition answer_from {A} (m : Query A) (h : nat → Snapshot) (i : nat) : Result A :=
  match m h i with Ok (a, _) => Ok a | Err err => Err err end.
Definition run_query {A} (m : Query A) (h : nat → Snapshot) : Result A := answer_from m h 0.

Section answers.
Context {A B : Type} (h : nat → Snapshot) (i : nat).

Lemma answer_lift (r : Result A) : answer_from (q_lift r) h i = r.
Proof. by destruct r. Qed.

Lemma answer_ret (a : A) : answer_from (q_ret a) h i = Ok a.
Proof. done. Qed.

Lemma answer_bind_lift (r : Result A) (f : A → Query B) :
  answer_from (q_bind (q_lift r) f) h i = (let? a := r in answer_from (f a) h i).
Proof. by destruct r. Qed.

Lemma answer_bind_statement (select : Db → A) (f : A → Query B) :
  answer_from (q_bind (statement select) f) h i = answer_from (f (select (sn_db (h i)))) h (S i).
Proof. done. Qed.

Lemma answer_bind_now (f : DbMillis → Query B) :
  answer_from (q_bind sample_now f) h i = answer_from (f (sn_now (h i))) h (S i).
Proof. done. Qed.

Lemma answer_bind_ret (a : A) (f : A → Query B) :
  answer_from (q_bind (q_ret a) f) h i = answer_from (f a) h i.
Proof. done. Qed.

Lemma answer_bind_last (m : Query A) (f : A → B) a :
  answer_from m h i = Ok a → answer_from (q_bind m (λ a, q_ret (f a))) h i = Ok (f a).
Proof. unfold answer_from, q_bind. destruct (m h i) as [[]|]; [|done]. by intros [= ->]. Qed.

Lemma q_bind_assoc {C} (m : Query A) (f : A → Query C) (g : C → Query B) :
  q_bind (q_bind m f) g h i = q_bind m (λ a, q_bind (f a) g) h i.
Proof. unfold q_bind. by destruct (m h i) as [[]|]. Qed.
End answers.

Create Rewrite HintDb answers.
#[export] Hint Rewrite @answer_lift @answer_ret @answer_bind_lift @answer_bind_statement
  @answer_bind_now @answer_bind_ret : answers.

Lemma collect_fmap {A B C} (f : B → Result C) (g : A → B) l :
  collect f (g <$> l) = collect (f ∘ g) l.
Proof. induction l as [|x xs IH]; [done|]. rewrite fmap_cons. simpl. by rewrite IH. Qed.

(** The rows of a table. *)
Definition table {R K} `{Countable K} (m : gmap K R) : list R := snd <$> map_to_list m.

Lemma elem_of_table {R K} `{Countable K} (m : gmap K R) r :
  r ∈ table m ↔ ∃ k, m !! k = Some r.
Proof.
  unfold table. rewrite list_elem_of_fmap. split.
  - intros ([k r'] & -> & Hin%elem_of_map_to_list). by exists k.
  - intros (k & Hin). exists (k, r). by rewrite elem_of_map_to_list.
Qed.

(** * Pages *)

Definition MAX_ADMIN_PAGE_SIZE : Z := 100.
Definition MAX_TIMELINE_PAGE_SIZE : Z := 200.
Definition DEFAULT_ADMIN_PAGE_SIZE : Z := 50.

Record PageRequest := MkPageRequest { pg_cursor : option string; pg_limit : option Z }.

Definition bounded_limit (self : PageRequest) (maximum : Z) : Result Z :=
  let limit := default DEFAULT_ADMIN_PAGE_SIZE (pg_limit self) in
  if (limit =? 0)%Z || (maximum <? limit)%Z
  then Err (InvalidDefinition ("page limit must contain 1 to " +:+ fmt maximum +:+ " entries"))
  else Ok limit.

Record AdminPage (T : Type) := MkAdminPage { page_items : list T; page_next_cursor : option string }.
Arguments MkAdminPage {T}.
Arguments page_items {T}.
Arguments page_next_cursor {T}.

(** * JSON columns *)

(** [serde_json::from_str] to a value, or the text of its error. *)
Class JsonText := {
  JsonValue : Type;
  json_from_str : string → JsonValue + string;
}.

Section types.
Context `{JsonText}.

Record JsonFieldSummary := MkJsonFieldSummary {
  jf_present : bool;
  jf_bytes : nat;
  jf_value : option JsonValue;
}.

(** What a list shows of a column: its size. *)
Definition from_required (value : string) : JsonFieldSummary :=
  MkJsonFieldSummary true (str_len value) None.

Definition from_optional (value : option string) : JsonFieldSummary :=
  MkJsonFieldSummary (bool_decide (is_Some value)) (from_option str_len 0%nat value) None.

Definition from_required_json (raw : string) : Result JsonFieldSummary :=
  match json_from_str raw with
  | inl value => Ok (MkJsonFieldSummary true (str_len raw) (Some value))
  | inr error => Err (InvalidState ("persisted JSON is invalid: " +:+ error))
  end.

Definition from_optional_json (raw : option string) : Result JsonFieldSummary :=
  match raw with
  | Some raw => from_required_json raw
  | None => Ok (MkJsonFieldSummary false 0 None)
  end.

(** * Filters *)

Record WorkflowListFilter := MkWorkflowListFilter {
  wlf_page : PageRequest;
  wlf_kind : option string;
  wlf_version : option Z;
  wlf_status : option string;
  wlf_schedule_run_id : option ScheduleRunId;
  wlf_root_workflow_id : option WorkflowId;
  wlf_created_after : option Z;
  wlf_created_before : option Z;
  wlf_waiting_approval : option bool;
}.

Record ActivityListFilter := MkActivityListFilter {
  alf_page : PageRequest;
  alf_workflow_id : option WorkflowId;
  alf_kind : option string;
  alf_version : option Z;
  alf_topic : option string;
  alf_status : option string;
  alf_created_after : option Z;
  alf_created_before : option Z;
}.

Record ActivityDetailRequest := MkActivityDetailRequest {
  adr_attempt_cursor : option string;
  adr_attempt_limit : option Z;
  adr_progress_cursor : option string;
  adr_progress_limit : option Z;
}.

Record ApprovalListFilter := MkApprovalListFilter {
  plf_page : PageRequest;
  plf_workflow_id : option WorkflowId;
  plf_kind : option string;
  plf_version : option Z;
  plf_status : option string;
  plf_requested_after : option Z;
  plf_requested_before : option Z;
}.

(** * Summaries *)

Record WorkflowSummary := MkWorkflowSummary {
  wsum_id : WorkflowId;
  wsum_kind : string;
  wsum_version : Z;
  wsum_status : string;
  wsum_wait_kind : option string;
  wsum_schedule_run_id : option ScheduleRunId;
  wsum_root_workflow_id : option WorkflowId;
  wsum_restarted_from_workflow_id : option WorkflowId;
  wsum_input : JsonFieldSummary;
  wsum_state : JsonFieldSummary;
  wsum_result : JsonFieldSummary;
  wsum_error_category : option string;
  wsum_error_message : option string;
  wsum_created_at : Z;
  wsum_updated_at : Z;
  wsum_completed_at : option Z;
}.

Record ActivitySummary := MkActivitySummary {
  asum_id : ActivityId;
  asum_workflow_id : WorkflowId;
  asum_kind : string;
  asum_version : Z;
  asum_topic : string;
  asum_status : string;
  asum_replacement_number : Z;
  asum_attempt_count : Z;
  asum_max_attempts : Z;
  asum_operation_key : option string;
  asum_root_activity_id : option ActivityId;
  asum_replaces_activity_id : option ActivityId;
  asum_payload : JsonFieldSummary;
  asum_provider_result : JsonFieldSummary;
  asum_error_category : option string;
  asum_error_message : option string;
  asum_available_at : Z;
  asum_created_at : Z;
  asum_updated_at : Z;
  asum_completed_at : option Z;
}.

Record ActivityAttemptSummary := MkActivityAttemptSummary {
  atsum_activity_id : ActivityId;
  atsum_attempt_number : Z;
  atsum_worker_id : string;
  atsum_started_at : Z;
  atsum_heartbeat_at : Z;
  atsum_finished_at : option Z;
  atsum_outcome : option string;
  atsum_error_category : option string;
  atsum_error_message : option string;
  atsum_provider_result : JsonFieldSummary;
}.

Record ProgressSummary := MkProgressSummary {
  psum_activity_id : ActivityId;
  psum_attempt_number : Z;
  psum_sequence : Z;
  psum_code : string;
  psum_description : string;
  psum_completed_units : option Z;
  psum_total_units : option Z;
  psum_severity : string;
  psum_created_at : Z;
}.

Record ApprovalSummary := MkApprovalSummary {
  apsum_id : ApprovalId;
  apsum_workflow_id : WorkflowId;
  apsum_kind : string;
  apsum_version : Z;
  apsum_status : string;
  apsum_decision : JsonFieldSummary;
  apsum_decided_by : option Z;
  apsum_operator_reason : option string;
  apsum_requested_at : Z;
  apsum_expires_at : option Z;
  apsum_resolved_at : option Z;
}.

Record ActivityDetail := MkActivityDetail {
  det_activity : ActivitySummary;
  det_attempts : AdminPage ActivityAttemptSummary;
  det_progress : AdminPage ProgressSummary;
}.

Inductive TimelineEntry :=
  | EntryWorkflowEvent (event_type : string) (actor_type actor_id reason : option string)
      (occurred_at : Z)
  | EntryActivity (activity : ActivitySummary)
  | EntryActivityAttempt (attempt : ActivityAttemptSummary)
  | EntryProgress (progress : ProgressSummary)
  | EntryApproval (approval : ApprovalSummary).
End types.

(** * Topic metrics *)

Record HourlyThroughputBucket := MkHourlyThroughputBucket {
  hb_starts_at : Z;
  hb_completed_count : Z;
}.

Record TopicMetrics := MkTopicMetrics {
  tm_topic : string;
  tm_max_concurrency : Z;
  tm_configured_max_concurrency : Z;
  tm_configuration_mismatch : bool;
  tm_active_count : Z;
  tm_available_capacity : Z;
  tm_ready_count : Z;
  tm_retry_scheduled_count : Z;
  tm_dead_letter_count : Z;
  tm_oldest_ready_age_millis : option Z;
  tm_oldest_active_age_millis : option Z;
  tm_hourly_throughput : list HourlyThroughputBucket;
  tm_captured_at : Z;
}.

(** * Schedules *)

Record ScheduleStateSummary := MkScheduleStateSummary {
  sss_definition_fingerprint : string;
  sss_definition_version : Z;
  sss_next_local_occurrence : string;
  sss_next_occurrence_at : Z;
  sss_last_materialized_at : option Z;
  sss_paused_at : option Z;
  sss_paused_by : option Z;
  sss_pause_reason : option string;
  sss_created_at : Z;
  sss_updated_at : Z;
}.

Inductive ScheduleHealthIssue :=
  | MissingState
  | UnregisteredState
  | IssueDefinitionMismatch (registered_version persisted_version : Z).

Record ScheduleRunSummary := MkScheduleRunSummary {
  srs_id : ScheduleRunId;
  srs_schedule_key : string;
  srs_local_occurrence : string;
  srs_scheduled_for : Z;
  srs_materialized_at : Z;
  srs_status : string;
  srs_reason : option string;
  srs_actor_id : option Z;
  srs_workflow_id : option WorkflowId;
  srs_workflow_status : option string;
  srs_workflow_completed_at : option Z;
  srs_created_at : Z;
}.

Record ScheduleSummary := MkScheduleSummary {
  sksum_key : string;
  sksum_registered_version : option Z;
  sksum_registered_fingerprint : option string;
  sksum_cron : option string;
  sksum_timezone : option string;
  sksum_misfire : option MisfirePolicy;
  sksum_overlap : option OverlapPolicy;
  sksum_misfire_grace_millis : option Z;
  sksum_state : option ScheduleStateSummary;
  sksum_active_overlap_count : Z;
  sksum_skipped_count : Z;
  sksum_coalesced_count : Z;
  sksum_last_run : option ScheduleRunSummary;
  sksum_recent_runs : list ScheduleRunSummary;
  sksum_health_issues : list ScheduleHealthIssue;
}.
