(* ===== verification/Queries.v ===== *)
(** The listings and details of workflows and activities
    ([admin/query.rs]): filters, keyset cursors, pages and summaries. *)
From stdpp Require Import base gmap list strings.
From Stdlib Require Import ZArith Lia.
From S2P Require Import Prelude.
From S2P Require Import Errors.
From S2P Require Import Status.
From S2P Require Import Rows.
From S2P Require Import Database.
From S2P Require Import Transitions.
From S2P Require Import Text.
From S2P Require Import Keyset.
From S2P Require Import Cursor.
From S2P Require Import AdminTypes.

(** * Projections *)

(** [OCTET_LENGTH]. *)
Definition octet_length (s : string) : Z := Z.of_nat (str_len s).

Record WorkflowProjection := MkWorkflowProjection {
  wpj_id : WorkflowId;
  wpj_kind : string;
  wpj_version : Z;
  wpj_status : WorkflowStatus;
  wpj_wait_kind : option WaitKind;
  wpj_schedule_run_id : option ScheduleRunId;
  wpj_root_workflow_id : option WorkflowId;
  wpj_restarted_from_workflow_id : option WorkflowId;
  wpj_input_bytes : Z;
  wpj_state_bytes : Z;
  wpj_result_bytes : option Z;
  wpj_error_category : option string;
  wpj_error_message : option string;
  wpj_created_at : DbMillis;
  wpj_updated_at : DbMillis;
  wpj_completed_at : option DbMillis;
}.

(** [workflow_selection!]. *)
Definition workflow_selection (r : WorkflowRow) : WorkflowProjection :=
  MkWorkflowProjection (wf_id r) (wf_kind r) (wf_version r) (wf_status r) (wf_wait_kind r)
    (wf_schedule_run_id r) (wf_root_workflow_id r) (wf_restarted_from_workflow_id r)
    (octet_length (wf_input_json r)) (octet_length (wf_state_json r))
    (octet_length <$> wf_result_json r) (wf_error_category r) (wf_error_message r)
    (wf_created_at r) (wf_updated_at r) (wf_completed_at r).

Record ActivityProjection := MkActivityProjection {
  apj_id : ActivityId;
  apj_workflow_id : WorkflowId;
  apj_kind : string;
  apj_version : Z;
  apj_topic : string;
  apj_status : ActivityStatus;
  apj_replacement_number : Z;
  apj_attempt_count : Z;
  apj_max_attempts : Z;
  apj_operation_key : option string;
  apj_root_activity_id : option ActivityId;
  apj_replaces_activity_id : option ActivityId;
  apj_payload_bytes : Z;
  apj_provider_result_bytes : option Z;
  apj_last_error_category : option string;
  apj_last_error_message : option string;
  apj_available_at : DbMillis;
  apj_created_at : DbMillis;
  apj_updated_at : DbMillis;
  apj_completed_at : option DbMillis;
}.

(** [activity_selection!]. *)
Definition activity_selection (r : ActivityRow) : ActivityProjection :=
  MkActivityProjection (ac_id r) (ac_workflow_id r) (ac_kind r) (ac_version r) (ac_topic r)
    (ac_status r) (ac_replacement_number r) (ac_attempt_count r) (ac_max_attempts r)
    (ac_operation_key r) (ac_root_activity_id r) (ac_replaces_activity_id r)
    (octet_length (ac_payload_json r)) (octet_length <$> ac_provider_result_json r)
    (ac_last_error_category r) (ac_last_error_message r) (ac_available_at r)
    (ac_created_at r) (ac_updated_at r) (ac_completed_at r).

Section queries.
Context `{CursorCodec, JsonText}.

(** * Summaries *)

(** [usize::try_from] of an [i64]. *)
Definition usize_try_from (bytes : Z) : option nat :=
  if (bytes <? 0)%Z then None else Some (Z.to_nat bytes).

Definition required_json_summary (bytes : Z) : Result JsonFieldSummary :=
  let? bytes := ok_or (usize_try_from bytes)
    (InvalidState "negative persisted JSON byte length") in
  Ok (MkJsonFieldSummary true bytes None).

Definition optional_json_summary (bytes : option Z) : Result JsonFieldSummary :=
  match bytes with
  | Some bytes => required_json_summary bytes
  | None => Ok (MkJsonFieldSummary false 0 None)
  end.

Definition workflow_summary (row : WorkflowProjection) : Result WorkflowSummary :=
  let? input := required_json_summary (wpj_input_bytes row) in
  let? state := required_json_summary (wpj_state_bytes row) in
  let? result := optional_json_summary (wpj_result_bytes row) in
  Ok (MkWorkflowSummary (wpj_id row) (wpj_kind row) (wpj_version row)
        (as_str (wpj_status row)) (as_str <$> wpj_wait_kind row) (wpj_schedule_run_id row)
        (wpj_root_workflow_id row) (wpj_restarted_from_workflow_id row) input state result
        (wpj_error_category row) (wpj_error_message row) (wpj_created_at row)
        (wpj_updated_at row) (wpj_completed_at row)).

(** [workflow_detail_summary] of the columns of [workflow_detail_selection!]. *)
Definition workflow_detail_summary (row : WorkflowRow) : Result WorkflowSummary :=
  let? input := from_required_json (wf_input_json row) in
  let? state := from_required_json (wf_state_json row) in
  let? result := from_optional_json (wf_result_json row) in
  Ok (MkWorkflowSummary (wf_id row) (wf_kind row) (wf_version row)
        (as_str (wf_status row)) (as_str <$> wf_wait_kind row) (wf_schedule_run_id row)
        (wf_root_workflow_id row) (wf_restarted_from_workflow_id row) input state result
        (wf_error_category row) (wf_error_message row) (wf_created_at row)
        (wf_updated_at row) (wf_completed_at row)).

(** A continuation that was ready at once shows its creation. *)
Definition shown_available_at (available_at created_at : DbMillis) : Z :=
  if (available_at =? CONTINUATION_READY_AT_MILLIS)%Z then created_at else available_at.

Definition activity_summary (row : ActivityProjection) : Result ActivitySummary :=
  let? payload := required_json_summary (apj_payload_bytes row) in
  let? provider_result := optional_json_summary (apj_provider_result_bytes row) in
  Ok (MkActivitySummary (apj_id row) (apj_workflow_id row) (apj_kind row) (apj_version row)
        (apj_topic row) (as_str (apj_status row)) (apj_replacement_number row)
        (apj_attempt_count row) (apj_max_attempts row) (apj_operation_key row)
        (apj_root_activity_id row) (apj_replaces_activity_id row) payload provider_result
        (apj_last_error_category row) (apj_last_error_message row)
        (shown_available_at (apj_available_at row) (apj_created_at row)) (apj_created_at row)
        (apj_updated_at row) (apj_completed_at row)).

Definition activity_detail_summary (row : ActivityRow) : Result ActivitySummary :=
  let? payload := from_required_json (ac_payload_json row) in
  let? provider_result := from_optional_json (ac_provider_result_json row) in
  Ok (MkActivitySummary (ac_id row) (ac_workflow_id row) (ac_kind row) (ac_version row)
        (ac_topic row) (as_str (ac_status row)) (ac_replacement_number row)
        (ac_attempt_count row) (ac_max_attempts row) (ac_operation_key row)
        (ac_root_activity_id row) (ac_replaces_activity_id row) payload provider_result
        (ac_last_error_category row) (ac_last_error_message row)
        (shown_available_at (ac_available_at row) (ac_created_at row)) (ac_created_at row)
        (ac_updated_at row) (ac_completed_at row)).

(** [attempt_summary], with the bytes of the stored result. *)
Definition attempt_summary (row : ActivityAttemptRow) : Result ActivityAttemptSummary :=
  let? provider_result := optional_json_summary (octet_length <$> att_provider_result_json row) in
  Ok (MkActivityAttemptSummary (att_activity_id row) (att_attempt_number row)
        (att_worker_id row) (att_started_at row) (att_heartbeat_at row) (att_finished_at row)
        (as_str <$> att_outcome row) (att_error_category row) (att_error_message row)
        provider_result).

Definition attempt_detail_summary (row : ActivityAttemptRow) : Result ActivityAttemptSummary :=
  let? provider_result := from_optional_json (att_provider_result_json row) in
  Ok (MkActivityAttemptSummary (att_activity_id row) (att_attempt_number row)
        (att_worker_id row) (att_started_at row) (att_heartbeat_at row) (att_finished_at row)
        (as_str <$> att_outcome row) (att_error_category row) (att_error_message row)
        provider_result).

Definition progress_summary (row : ProgressEventRow) : ProgressSummary :=
  MkProgressSummary (pr_activity_id row) (pr_attempt_number row) (pr_sequence row)
    (pr_code row) (pr_description row) (pr_completed_units row) (pr_total_units row)
    (pr_severity row) (pr_created_at row).

(** * Filters *)

(** A condition that applies when its value is given. *)
Definition given {A} (o : option A) (test : A → bool) : bool :=
  match o with Some a => test a | None => true end.

Definition validate_time_range (after before : option Z) : Result unit :=
  match after, before with
  | Some after, Some before =>
      if (before <=? after)%Z
      then Err (InvalidDefinition "createdAfter must precede createdBefore") else Ok tt
  | _, _ => Ok tt
  end.

Definition validate_workflow_filter (filter : WorkflowListFilter) : Result unit :=
  if negb (given (wlf_version filter) (λ version, (0 <? version)%Z))
  then Err (InvalidDefinition "workflow version filter must be positive")
  else validate_time_range (wlf_created_after filter) (wlf_created_before filter).

Definition validate_activity_filter (filter : ActivityListFilter) : Result unit :=
  if negb (given (alf_version filter) (λ version, (0 <? version)%Z))
  then Err (InvalidDefinition "activity version filter must be positive")
  else validate_time_range (alf_created_after filter) (alf_created_before filter).

(** The [WHERE] clauses of [list_workflows]. *)
Definition workflow_matches (filter : WorkflowListFilter) (r : WorkflowRow) : bool :=
  given (wlf_kind filter) (λ kind, String.eqb (wf_kind r) kind)
  && given (wlf_version filter) (λ version, (wf_version r =? version)%Z)
  && given (wlf_status filter) (λ status, String.eqb (as_str (wf_status r)) status)
  && given (wlf_schedule_run_id filter) (λ id, bool_decide (wf_schedule_run_id r = Some id))
  && given (wlf_root_workflow_id filter) (λ id, bool_decide (wf_root_workflow_id r = Some id))
  && given (wlf_created_after filter) (λ after, (after <=? wf_created_at r)%Z)
  && given (wlf_created_before filter) (λ before, (wf_created_at r <? before)%Z)
  && given (wlf_waiting_approval filter) (λ waiting,
       if waiting then bool_decide (wf_wait_kind r = Some KindApproval)
       else bool_decide (wf_wait_kind r ≠ Some KindApproval)).

(** The [WHERE] clauses of [list_activities]. *)
Definition activity_matches (filter : ActivityListFilter) (r : ActivityRow) : bool :=
  given (alf_workflow_id filter) (λ id, (ac_workflow_id r =? id)%Z)
  && given (alf_kind filter) (λ kind, String.eqb (ac_kind r) kind)
  && given (alf_version filter) (λ version, (ac_version r =? version)%Z)
  && given (alf_topic filter) (λ topic, String.eqb (ac_topic r) topic)
  && given (alf_status filter) (λ status, String.eqb (as_str (ac_status r)) status)
  && given (alf_created_after filter) (λ after, (after <=? ac_created_at r)%Z)
  && given (alf_created_before filter) (λ before, (ac_created_at r <? before)%Z).

(** [time < timestamp OR (time = timestamp AND id < cursor_id)]: the rows after
    a cursor in the order newest first. *)
Definition older_than (cursor : option (Z * Z)) (time id : Z) : bool :=
  given cursor (λ '(timestamp, cursor_id),
    (time <? timestamp)%Z || ((time =? timestamp)%Z && (id <? cursor_id)%Z)).

(** [ORDER BY time DESC, id DESC]. *)
Definition newest_first : Z * Z → Z * Z → comparison :=
  pair_cmp (desc Z.compare) (desc Z.compare).

#[export] Instance newest_first_ordered : Ordered newest_first.
Proof. unfold newest_first. apply _. Qed.
#[global] Typeclasses Opaque newest_first.

Definition workflow_position (r : WorkflowRow) : Z * Z := (wf_created_at r, wf_id r).
Definition activity_position (r : ActivityRow) : Z * Z := (ac_created_at r, ac_id r).

Definition not_found (resource identifier : string) : DurableError := NotFound resource identifier.

(** * Pages *)

(** [Vec::pop]. *)
Definition pop {A} (l : list A) : list A := take (length l - 1) l.

(** [rows.last().map(encode).transpose()?] when there are more rows. *)
Definition next_cursor {A} (has_more : bool) (rows : list A) (encode : A → Result string)
    : Result (option string) :=
  if has_more then transpose encode (last rows) else Ok None.

Definition page_workflows (rows : list WorkflowProjection) (limit : Z)
    : Result (AdminPage WorkflowSummary) :=
  let has_more := (Z.to_nat limit <? length rows)%nat in
  let rows := if has_more then pop rows else rows in
  let? next := next_cursor has_more rows (λ row,
    encode_cursor "workflows" (MkCursorPosition (wpj_created_at row) (fmt (wpj_id row)))) in
  let? items := collect workflow_summary rows in
  Ok (MkAdminPage items next).

Definition page_activities (rows : list ActivityProjection) (limit : Z)
    : Result (AdminPage ActivitySummary) :=
  let has_more := (Z.to_nat limit <? length rows)%nat in
  let rows := if has_more then pop rows else rows in
  let? next := next_cursor has_more rows (λ row,
    encode_cursor "activities" (MkCursorPosition (apj_created_at row) (fmt (apj_id row)))) in
  let? items := collect activity_summary rows in
  Ok (MkAdminPage items next).

Definition list_workflows (filter : WorkflowListFilter) : Query (AdminPage WorkflowSummary) :=
  let* limit := q_lift (bounded_limit (wlf_page filter) MAX_ADMIN_PAGE_SIZE) in
  do* q_lift (validate_workflow_filter filter) in
  let* cursor := q_lift (transpose (decode_numeric_cursor "workflows")
                           (pg_cursor (wlf_page filter))) in
  let* rows := statement (λ d,
    take (S (Z.to_nat limit)) (order_by newest_first workflow_position
      (base.filter (λ r, workflow_matches filter r
                         && older_than cursor (wf_created_at r) (wf_id r) = true)
         (table (db_workflow d))))) in
  q_lift (page_workflows (workflow_selection <$> rows) limit).

Definition get_workflow (workflow_id : WorkflowId) : Query WorkflowSummary :=
  let* row := statement (λ d, db_workflow d !! workflow_id) in
  let* row := q_lift (ok_or row (not_found "workflow" (fmt workflow_id))) in
  q_lift (workflow_detail_summary row).

Definition list_activities (filter : ActivityListFilter) : Query (AdminPage ActivitySummary) :=
  let* limit := q_lift (bounded_limit (alf_page filter) MAX_ADMIN_PAGE_SIZE) in
  do* q_lift (validate_activity_filter filter) in
  let* cursor := q_lift (transpose (decode_numeric_cursor "activities")
                           (pg_cursor (alf_page filter))) in
  let* rows := statement (λ d,
    take (S (Z.to_nat limit)) (order_by newest_first activity_position
      (base.filter (λ r, activity_matches filter r
                         && older_than cursor (ac_created_at r) (ac_id r) = true)
         (table (db_activity d))))) in
  q_lift (page_activities (activity_selection <$> rows) limit).

(** * The detail of an activity *)

Definition attempt_scope (activity_id : ActivityId) : string :=
  "activity_attempts:" +:+ fmt activity_id.
Definition progress_scope (activity_id : ActivityId) : string :=
  "activity_progress:" +:+ fmt activity_id.

Definition decode_attempt_cursor (activity_id : ActivityId) (cursor : string) : Result Z :=
  let? position := decode_numeric_cursor (attempt_scope activity_id) cursor in
  ok_or (i32_try_from position.2)
    (InvalidCursor "activity attempt cursor exceeds the integer range").

Definition decode_progress_cursor (activity_id : ActivityId) (cursor : string)
    : Result (Z * Z) :=
  let? position := decode_numeric_cursor (progress_scope activity_id) cursor in
  let? attempt := ok_or (i32_try_from position.1)
    (InvalidCursor "progress attempt cursor exceeds the integer range") in
  let? sequence := ok_or (i32_try_from position.2)
    (InvalidCursor "progress sequence cursor exceeds the integer range") in
  Ok (attempt, sequence).

Definition progress_position (r : ProgressEventRow) : Z * Z := (pr_attempt_number r, pr_sequence r).

(** [attempt_number > a OR (attempt_number = a AND sequence > s)]. *)
Definition progress_after (cursor : option (Z * Z)) (r : ProgressEventRow) : bool :=
  given cursor (λ '(attempt_number, sequence),
    (attempt_number <? pr_attempt_number r)%Z
    || ((pr_attempt_number r =? attempt_number)%Z && (sequence <? pr_sequence r)%Z)).

(** The attempts of an activity after a cursor, one more than the limit. *)
Definition select_attempts (activity_id : ActivityId) (after : option Z) (limit : Z) (d : Db)
    : list ActivityAttemptRow :=
  take (S (Z.to_nat limit)) (order_by Z.compare att_attempt_number
    (filter (λ r, (att_activity_id r =? activity_id)%Z
                  && given after (λ after, (after <? att_attempt_number r)%Z) = true)
       (table (db_attempt d)))).

Definition select_progress (activity_id : ActivityId) (after : option (Z * Z)) (limit : Z)
    (d : Db) : list ProgressEventRow :=
  take (S (Z.to_nat limit)) (order_by (pair_cmp Z.compare Z.compare) progress_position
    (filter (λ r, (pr_activity_id r =? activity_id)%Z && progress_after after r = true)
       (db_progress d))).

Definition page_attempts (activity_id : ActivityId) (rows : list ActivityAttemptRow) (limit : Z)
    : Result (AdminPage ActivityAttemptSummary) :=
  let has_more := (Z.to_nat limit <? length rows)%nat in
  let rows := take (Z.to_nat limit) rows in
  let? next := next_cursor has_more rows (λ row,
    encode_cursor (attempt_scope activity_id)
      (MkCursorPosition 0 (fmt (att_attempt_number row)))) in
  let? items := collect attempt_detail_summary rows in
  Ok (MkAdminPage items next).

Definition page_progress (activity_id : ActivityId) (rows : list ProgressEventRow) (limit : Z)
    : Result (AdminPage ProgressSummary) :=
  let has_more := (Z.to_nat limit <? length rows)%nat in
  let rows := take (Z.to_nat limit) rows in
  let? next := next_cursor has_more rows (λ row,
    encode_cursor (progress_scope activity_id)
      (MkCursorPosition (pr_attempt_number row) (fmt (pr_sequence row)))) in
  Ok (MkAdminPage (progress_summary <$> rows) next).

Definition get_activity (activity_id : ActivityId) (request : ActivityDetailRequest)
    : Query ActivityDetail :=
  let* attempt_limit := q_lift (bounded_limit
    (MkPageRequest (adr_attempt_cursor request) (adr_attempt_limit request))
    MAX_ADMIN_PAGE_SIZE) in
  let* progress_limit := q_lift (bounded_limit
    (MkPageRequest (adr_progress_cursor request) (adr_progress_limit request))
    MAX_ADMIN_PAGE_SIZE) in
  let* attempt_after := q_lift (transpose (decode_attempt_cursor activity_id)
                                  (adr_attempt_cursor request)) in
  let* progress_after := q_lift (transpose (decode_progress_cursor activity_id)
                                   (adr_progress_cursor request)) in
  let* row := statement (λ d, db_activity d !! activity_id) in
  let* row := q_lift (ok_or row (not_found "activity" (fmt activity_id))) in
  let* attempts := statement (select_attempts activity_id attempt_after attempt_limit) in
  let* attempts := q_lift (page_attempts activity_id attempts attempt_limit) in
  let* progress := statement (select_progress activity_id progress_after progress_limit) in
  let* progress := q_lift (page_progress activity_id progress progress_limit) in
  let* activity := q_lift (activity_detail_summary row) in
  q_ret (MkActivityDetail activity attempts progress).
End queries.
