(* ===== verification/Paging.v ===== *)
(** Paged requests of the admin API: how a handler that reads one row more than
    the limit makes the page that [Keyset] specifies, and what a client gets
    who follows the cursors ([PagedApi], the interface between a handler and
    the theorems on walks). *)
From stdpp Require Import base gmap list strings sorting.
From Stdlib Require Import ZArith Lia Ascii.
From S2P Require Import Prelude.
From S2P Require Import Errors.
From S2P Require Import Text.
From S2P Require Import Keyset.
From S2P Require Import Cursor.
From S2P Require Import AdminTypes.
From S2P Require Import Queries.

(** * One row more than the limit *)

Section fetch.
Context {R : Type} (limit : nat) (l : list R).

Lemma fetched_more : (limit <? length (take (S limit) l))%nat = (limit <? length l)%nat.
Proof.
  rewrite length_take.
  destruct (Nat.ltb_spec limit (length l)), (Nat.ltb_spec limit (S limit `min` length l)); lia.
Qed.

Lemma fetched_take : take limit (take (S limit) l) = take limit l.
Proof. rewrite take_take. f_equal. lia. Qed.

Lemma fetched_pop : (if (limit <? length (take (S limit) l))%nat then pop (take (S limit) l)
                     else take (S limit) l) = take limit l.
Proof.
  rewrite fetched_more. unfold pop. destruct (Nat.ltb_spec limit (length l)).
  - rewrite length_take, take_take. f_equal. lia.
  - rewrite !take_ge by lia. done.
Qed.
End fetch.

Section paging.
Context {R K : Type} (cmp : K → K → comparison) `{!Ordered cmp} (key : R → K) (limit : nat).

(** The rows that a statement with a filter and a cursor clause reads. *)
Lemma fetched_rows (P : R → bool) (after : option K) (later : R → bool) (rows : list R) n :
  NoDup (key <$> rows) → (∀ r, later r = true ↔ beyond cmp key after r) →
  take n (order_by cmp key (filter (λ r, P r && later r = true) rows))
  = take n (remaining cmp key (filter (λ r, P r = true) rows) after).
Proof.
  intros Hnd Hlater. unfold remaining. f_equal.
  rewrite <- (listing_filter cmp key (beyond cmp key after)).
  - unfold listing. f_equal. rewrite list_filter_filter. apply list_filter_iff.
    intros r. rewrite andb_true_iff, Hlater. tauto.
  - by eapply NoDup_part, sublist_submseteq, sublist_filter.
Qed.

(** The cursor of the page. *)
Lemma next_cursor_page rows after (enc : K → string) (encode : R → Result string) :
  (∀ r, r ∈ page cmp key limit rows after → encode r = Ok (enc (key r))) →
  next_cursor (limit <? length (remaining cmp key rows after))%nat
    (page cmp key limit rows after) encode
  = Ok (enc <$> next_key cmp key limit rows after).
Proof.
  intros Henc. unfold next_cursor, next_key. case_match; [|done].
  destruct (last (page cmp key limit rows after)) as [r|] eqn:El; [|done]. simpl.
  rewrite Henc; [done|]. apply last_Some in El as [l' ->]. set_solver.
Qed.
End paging.

Lemma last_fmap {A B} (f : A → B) l : last (f <$> l) = f <$> last l.
Proof. apply fmap_last. Qed.

(** The cursor of projected rows is that of the rows. *)
Lemma next_cursor_fmap {A B} (f : A → B) more l (encode : B → Result string) :
  next_cursor more (f <$> l) encode = next_cursor more l (encode ∘ f).
Proof. unfold next_cursor. destruct more; [|done]. rewrite fmap_last. by destruct (last l). Qed.

(** * Clients *)

(** What a client collects who requests pages until there is no cursor;
    request [i] is answered by [api i]. *)
Inductive collected {T} (api : nat → option string → Result (AdminPage T))
    : nat → option string → list T → Prop :=
  | collected_end i cursor p :
      api i cursor = Ok p → page_next_cursor p = None →
      collected api i cursor (page_items p)
  | collected_next i cursor p c rest :
      api i cursor = Ok p → page_next_cursor p = Some c → collected api (S i) (Some c) rest →
      collected api i cursor (page_items p ++ rest).

(** A handler whose request [i] answers with a page of the rows [rows i], its
    cursor the encoding [enc] of a valid key. *)
Class PagedApi {R K T} (cmp : K → K → comparison) (key : R → K) (limit : nat)
    (valid : K → Prop) (enc : K → string) (rows : nat → list R) (item : nat → R → T)
    (api : nat → option string → Result (AdminPage T)) : Prop := {
  pa_limit : (0 < limit)%nat;
  pa_nodup : ∀ i, NoDup (key <$> rows i);
  pa_valid : ∀ i r, r ∈ rows i → valid (key r);
  pa_page : ∀ i after, (∀ k, after = Some k → valid k) →
    api i (enc <$> after)
    = Ok (MkAdminPage (item i <$> page cmp key limit (rows i) after)
            (enc <$> next_key cmp key limit (rows i) after));
}.

Section clients.
Context {R K T : Type} (cmp : K → K → comparison) `{!Ordered cmp} (key : R → K) (limit : nat)
  (valid : K → Prop) (enc : K → string) (rows : nat → list R) (item : nat → R → T)
  (api : nat → option string → Result (AdminPage T))
  `{Hapi : !PagedApi cmp key limit valid enc rows item api}
  (tkey : T → K) (Htkey : ∀ i r, tkey (item i r) = key r).

Lemma next_key_valid i after k : next_key cmp key limit (rows i) after = Some k → valid k.
Proof.
  intros Hk. destruct (next_key_Some cmp key limit _ _ _ (pa_nodup i) Hk) as (_ & _ & r & Hr & <-).
  apply elem_of_page in Hr as [_ Hr]. by eapply pa_valid.
Qed.

Lemma tkey_items i (l : list R) : tkey <$> (item i <$> l) = key <$> l.
Proof. rewrite <- list_fmap_compose. apply list_fmap_ext. intros ? r _. apply Htkey. Qed.

(** Behind what a client collects is a walk with the same keys. *)
Lemma collected_walk i after ts :
  (∀ k, after = Some k → valid k) → collected api i (enc <$> after) ts →
  ∃ l, walk cmp key limit rows i after l ∧ tkey <$> ts = key <$> l.
Proof.
  intros Hv Hc. remember (enc <$> after) as cursor eqn:Ecur. revert after Hv Ecur.
  induction Hc as [i cursor p Hp Hn|i cursor p c rest Hp Hn _ IH]; intros after Hv ->.
  - rewrite (pa_page i after Hv) in Hp. injection Hp as <-. simpl in *.
    apply fmap_None in Hn. exists (page cmp key limit (rows i) after).
    split; [by apply walk_end|apply tkey_items].
  - rewrite (pa_page i after Hv) in Hp. injection Hp as <-. simpl in *.
    apply fmap_Some in Hn as (k & Hk & ->). pose proof (next_key_valid i after k Hk) as Hvk.
    destruct (IH (Some k)) as (l & Hl & Hkeys); [by intros ? [= <-]|done|].
    exists (page cmp key limit (rows i) after ++ l).
    split; [by eapply walk_next|]. by rewrite !fmap_app, tkey_items, Hkeys.
Qed.

(** Whatever the tables do between the requests, a client gets no row twice:
    the keys come in strict order. *)
Lemma collected_sorted ts : collected api 0 None ts →
  StronglySorted (λ k k', cmp k k' = Lt) (tkey <$> ts).
Proof.
  intros Hc. destruct (collected_walk 0 None ts) as (l & Hl & ->); [done|done|].
  destruct (walk_sorted cmp key limit rows (pa_nodup) 0 None l Hl) as [Hs _]. clear Hl.
  induction Hs as [|r l' _ IH Hr]; simpl; [constructor|]. constructor; [done|].
  apply Forall_fmap. eapply Forall_impl; [exact Hr|]. done.
Qed.

(** A row that is there at every request is collected. *)
Lemma collected_complete ts k : collected api 0 None ts →
  (∀ i, ∃ r, r ∈ rows i ∧ key r = k) → k ∈ tkey <$> ts.
Proof.
  intros Hc Hall. destruct (collected_walk 0 None ts) as (l & Hl & ->); [done|done|].
  destruct (walk_complete cmp key limit rows pa_nodup 0 None l k) as (r & Hr & <-);
    [apply pa_limit|done|done|by intros j _|].
  by apply list_elem_of_fmap_2.
Qed.
End clients.

Section fixed.
Context {R K T : Type} (cmp : K → K → comparison) `{!Ordered cmp} (key : R → K) (limit : nat)
  (valid : K → Prop) (enc : K → string) (rs : list R) (item : R → T)
  (api : nat → option string → Result (AdminPage T))
  `{Hapi : !PagedApi cmp key limit valid enc (λ _, rs) (λ _, item) api}.

Lemma walk_collected i after l : (∀ k, after = Some k → valid k) →
  walk cmp key limit (λ _, rs) i after l → collected api i (enc <$> after) (item <$> l).
Proof.
  intros Hv Hw. revert Hv. induction Hw as [i after Hn|i after k rest Hk _ IH]; intros Hv.
  - assert (api i (enc <$> after) = Ok (MkAdminPage (item <$> page cmp key limit rs after) None))
      as Hp by (rewrite (pa_page i after Hv), Hn; done).
    apply (collected_end _ _ _ _ Hp). done.
  - pose proof (next_key_valid cmp key limit valid enc (λ _, rs) (λ _, item) api i after k Hk) as Hvk.
    assert (api i (enc <$> after)
            = Ok (MkAdminPage (item <$> page cmp key limit rs after) (Some (enc k))))
      as Hp by (rewrite (pa_page i after Hv), Hk; done).
    rewrite fmap_app. apply (collected_next _ _ _ _ (enc k) _ Hp); [done|].
    apply (IH). by intros ? [= <-].
Qed.

(** On rows that stay the same the pages end, and are the listing. *)
Lemma collected_listing : NoDup (key <$> rs) →
  collected api 0 None (item <$> listing cmp key rs).
Proof.
  intros Hnd. apply (walk_collected 0 None); [done|].
  pose proof (walk_fixed cmp key limit rs 0 None (pa_limit (PagedApi := Hapi)) Hnd) as Hw.
  unfold remaining in Hw. rewrite (filter_all (beyond cmp key None)) in Hw by done. exact Hw.
Qed.
End fixed.

(** * The contract of a paged listing

    A client who follows the cursors gets the rows in the order of the
    listing, none twice, and every row that is there during the whole walk; on
    tables that stay the same the walk ends and is the whole listing. *)
Record pages_complete {R K T} (cmp : K → K → comparison) (key : R → K) (tkey : T → K)
    (rows : nat → list R) (item : nat → R → T)
    (api : nat → option string → Result (AdminPage T)) : Prop := {
  pc_sorted : ∀ ts, collected api 0 None ts →
    StronglySorted (λ k k', cmp k k' = Lt) (tkey <$> ts);
  pc_complete : ∀ ts k, collected api 0 None ts →
    (∀ i, ∃ r, r ∈ rows i ∧ key r = k) → k ∈ tkey <$> ts;
  pc_fixed : (∀ i, rows i = rows 0%nat ∧ item i = item 0%nat) →
    collected api 0 None (item 0%nat <$> listing cmp key (rows 0%nat));
}.

Lemma paged_api_complete {R K T} (cmp : K → K → comparison) `{!Ordered cmp} (key : R → K) limit
    valid enc rows (item : nat → R → T) api (tkey : T → K) :
  PagedApi cmp key limit valid enc rows item api → (∀ i r, tkey (item i r) = key r) →
  pages_complete cmp key tkey rows item api.
Proof.
  intros Hapi Htkey. split.
  - intros ts Hc. by eapply collected_sorted.
  - intros ts k Hc Hall. by eapply collected_complete.
  - intros Heq. apply (collected_listing cmp key limit valid enc (rows 0%nat)); [|apply pa_nodup].
    split; [apply pa_limit|intros _; apply pa_nodup|intros _; apply pa_valid|].
    intros i after Hv. rewrite (pa_page i after Hv). by destruct (Heq i) as [-> ->].
Qed.

(** ** Listings whose items do not show their keys *)

Section entries.
Context {R K T : Type} (cmp : K → K → comparison) `{!Ordered cmp} (key : R → K) (limit : nat)
  (valid : K → Prop) (enc : K → string) (rows : nat → list R) (item : R → T)
  (api : nat → option string → Result (AdminPage T))
  `{Hapi : !PagedApi cmp key limit valid enc rows (λ _, item) api}.

Lemma collected_entries i after ts : (∀ k, after = Some k → valid k) →
  collected api i (enc <$> after) ts → ∃ l, walk cmp key limit rows i after l ∧ ts = item <$> l.
Proof.
  intros Hv Hc. remember (enc <$> after) as cursor eqn:Ecur. revert after Hv Ecur.
  induction Hc as [i cursor p Hp Hn|i cursor p c rest Hp Hn _ IH]; intros after Hv ->;
    rewrite (pa_page i after Hv) in Hp; injection Hp as <-; simpl in *.
  - apply fmap_None in Hn. exists (page cmp key limit (rows i) after). split; [by apply walk_end|done].
  - apply fmap_Some in Hn as (k & Hk & ->).
    destruct (IH (Some k)) as (l & Hl & ->); [|done|].
    { intros ? [= <-]. by eapply next_key_valid. }
    exists (page cmp key limit (rows i) after ++ l).
    split; [by eapply walk_next|]. by rewrite fmap_app.
Qed.
End entries.

(** The contract by the rows behind the items. *)
Record entries_complete {R K T} (cmp : K → K → comparison) (key : R → K) (rows : nat → list R)
    (item : R → T) (api : nat → option string → Result (AdminPage T)) : Prop := {
  ec_sorted : ∀ ts, collected api 0 None ts → ∃ l, ts = item <$> l
    ∧ StronglySorted (before cmp key) l ∧ (∀ r, r ∈ l → ∃ j, r ∈ rows j)
    ∧ (∀ r, (∀ i, r ∈ rows i) → r ∈ l);
  ec_fixed : (∀ i, rows i = rows 0%nat) →
    collected api 0 None (item <$> listing cmp key (rows 0%nat));
}.

Lemma paged_api_entries {R K T} (cmp : K → K → comparison) `{!Ordered cmp} (key : R → K) limit
    valid enc rows (item : R → T) api :
  PagedApi cmp key limit valid enc rows (λ _, item) api →
  entries_complete cmp key rows item api.
Proof.
  intros Hapi. split.
  - intros ts Hc. destruct (collected_entries cmp key limit valid enc rows item api 0 None ts)
      as (l & Hl & ->); [done..|]. exists l.
    destruct (walk_sorted cmp key limit rows pa_nodup 0 None l Hl) as [Hs Hin].
    split_and!; [done|done| |].
    + intros r Hr. destruct (Hin r Hr) as (_ & j & _ & Hj). eauto.
    + intros r Hr. destruct (walk_complete cmp key limit rows pa_nodup 0 None l (key r))
        as (r' & Hr' & Hk); [apply pa_limit|done|done|by eauto|].
      destruct (Hin r' Hr') as (_ & j & _ & Hj).
      by rewrite (same_key key (rows j) r r' (pa_nodup j) (Hr j) Hj).
  - intros Heq. apply (collected_listing cmp key limit valid enc (rows 0%nat)); [|apply pa_nodup].
    split; [apply pa_limit|intros _; apply pa_nodup|intros _; apply pa_valid|].
    intros i after Hv. rewrite (pa_page i after Hv). by rewrite (Heq i).
Qed.

(** * Cursors that are numbers *)

Definition valid_position (k : Z * Z) : Prop :=
  in_i64 k.1 = true ∧ (0 < k.2)%Z ∧ in_i64 k.2 = true.

Lemma digit_plain z : plain_byte (digit z) = true.
Proof. unfold digit, pretty.pretty_N_char. by repeat case_match. Qed.

Lemma pretty_go_plain n s : plain s → plain (pretty.pretty_N_go n s).
Proof.
  unfold plain. revert s. induction (N.lt_wf_0 n) as [n _ IH]; intros s Hs.
  destruct (decide (0 < n)%N) as [Hn|Hn].
  - rewrite pretty.pretty_N_go_step by done. apply IH; [by apply N.div_lt|]. simpl.
    rewrite Hs, andb_true_r. unfold pretty.pretty_N_char. by repeat case_match.
  - by assert (n = 0%N) as -> by lia.
Qed.

Lemma fmt_plain z : plain (fmt z).
Proof.
  destruct z as [|p|p]; [done|by apply (pretty_go_plain (N.pos p))|].
  change (fmt (Z.neg p)) with (String "-"%char (pretty.pretty_N_go (N.pos p) "")).
  by apply (pretty_go_plain (N.pos p)).
Qed.

Lemma fmt_tie z : in_i64 z = true → cursor_tie (fmt z).
Proof.
  intros Hz. split; [|apply fmt_plain]. pose proof (fmt_length z Hz). split; [|lia].
  destruct z as [|p|p]; [by vm_compute; lia| |]; [|unfold str_len; simpl; lia].
  destruct (fmt_positive p) as (c & s & -> & _). unfold str_len. simpl. lia.
Qed.

Section numeric.
Context `{CursorLaws}.

(** The cursor of a position. *)
Definition position_cursor (scope : string) (k : Z * Z) : string :=
  cursor_text scope (MkCursorPosition k.1 (fmt k.2)).

Lemma encode_position scope time id : cursor_scope scope → in_i64 id = true →
  encode_cursor scope (MkCursorPosition time (fmt id)) = Ok (position_cursor scope (time, id)).
Proof. intros Hs Hid. apply encode_cursor_ok; [done|by apply fmt_tie]. Qed.

Lemma decode_position scope k : cursor_scope scope → valid_position k →
  decode_numeric_cursor scope (position_cursor scope k) = Ok k.
Proof.
  intros Hs (Ht & Hpos & Hid). unfold decode_numeric_cursor, position_cursor.
  rewrite decode_cursor_text by (done || by apply fmt_tie). rewrite String.eqb_refl. simpl.
  rewrite parse_i64_fmt by done. simpl. destruct (Z.leb_spec k.2 0); [lia|]. by destruct k.
Qed.

Lemma decode_positions scope after : cursor_scope scope → (∀ k, after = Some k → valid_position k) →
  transpose (decode_numeric_cursor scope) (position_cursor scope <$> after) = Ok after.
Proof.
  intros Hs Hv. destruct after as [k|]; [|done]. simpl.
  by rewrite decode_position by (done || by apply Hv).
Qed.
End numeric.

(** The cursor clause of the order newest first. *)
Lemma older_than_beyond {R} (position : R → Z * Z) after r :
  older_than after (position r).1 (position r).2 = true ↔ beyond newest_first position after r.
Proof.
  destruct after as [[t i]|]; simpl; [|done]. destruct (position r) as [t' i'].
  unfold newest_first, pair_cmp, desc. simpl.
  rewrite orb_true_iff, andb_true_iff, !Z.ltb_lt, Z.eqb_eq.
  destruct (Z.compare_spec t' t) as [->|Hlt|Hgt].
  - rewrite Z.compare_lt_iff. lia.
  - split; [done|by left].
  - split; [lia|done].
Qed.

(** The page of a handler that reads one row more and takes the limit off. *)
Section numeric_page.
Context `{CursorLaws} {R T : Type} (position : R → Z * Z) (scope : string)
  (P : R → bool) (rows : list R) (item : R → T) (limit : nat).
Hypothesis Hscope : cursor_scope scope.
Hypothesis Hnodup : NoDup (position <$> rows).
Hypothesis Hvalid : ∀ r, r ∈ rows → valid_position (position r).

Definition fetched_after (after : option (Z * Z)) : list R :=
  take (S limit) (order_by newest_first position
    (filter (λ r, P r && older_than after (position r).1 (position r).2 = true) rows)).

Abbreviation matching := (filter (λ r, P r = true) rows).

Lemma fetched_after_remaining after :
  fetched_after after = take (S limit) (remaining newest_first position matching after).
Proof.
  unfold fetched_after.
  rewrite (fetched_rows newest_first position P after
             (λ r, older_than after (position r).1 (position r).2)); [done|exact Hnodup|].
  intros r. apply older_than_beyond.
Qed.

Lemma matching_nodup : NoDup (position <$> matching).
Proof. by eapply NoDup_part, sublist_submseteq, sublist_filter. Qed.

Lemma matching_valid r : r ∈ matching → valid_position (position r).
Proof. intros [_ Hr]%list_elem_of_filter. auto. Qed.

Lemma numeric_next_cursor after :
  next_cursor (limit <? length (remaining newest_first position matching after))%nat
    (page newest_first position limit matching after)
    (λ r, encode_cursor scope (MkCursorPosition (position r).1 (fmt (position r).2)))
  = Ok (position_cursor scope <$> next_key newest_first position limit matching after).
Proof.
  apply (next_cursor_page newest_first position limit). intros r Hin.
  apply elem_of_page in Hin as [_ Hr].
  destruct (matching_valid r Hr) as (_ & _ & Hid). rewrite encode_position by done.
  by destruct (position r).
Qed.
End numeric_page.
