(* ===== verification/Timeline.v ===== *)
(** The timeline of a workflow ([workflow_timeline] of [admin/query.rs]): five
    tables, each read after the cursor and up to the limit, merged by the time
    of their rows and by a text key that breaks ties. *)
From stdpp Require Import base gmap list strings.
From Stdlib Require Import ZArith Lia Ascii.
From S2P Require Import Prelude.
From S2P Require Import Errors.
From S2P Require Import Status.
From S2P Require Import Rows.
From S2P Require Import Database.
From S2P Require Import Text.
From S2P Require Import Keyset.
From S2P Require Import Cursor.
From S2P Require Import AdminTypes.
From S2P Require Import Queries.

(** [format!("{rank}:{components}")], the components padded to twenty digits. *)
Definition timeline_key (rank : Z) (components : list Z) : string :=
  fmt rank +:+ ":" +:+ join ":" (fmt_padded 20 <$> components).

Record TimelineCursor := MkTimelineCursor {
  tc_timestamp : Z;
  tc_rank : Z;
  tc_id : Z;
  tc_attempt_number : Z;
  tc_sequence : Z;
}.

(** [components.get(i)] as an [i32], 0 when there is none. *)
Definition component_i32 (components : list Z) (i : nat) (message : string) : Result Z :=
  match components !! i with
  | Some value => ok_or (i32_try_from value) (InvalidCursor message)
  | None => Ok 0%Z
  end.

(** How many components a rank has. *)
Definition expected_components (rank : Z) : option nat :=
  if bool_decide (rank = 0 ∨ rank = 1 ∨ rank = 4)%Z then Some 1%nat
  else if (rank =? 2)%Z then Some 2%nat
  else if (rank =? 3)%Z then Some 3%nat
  else None.

Section timeline.
Context `{CursorCodec, JsonText}.

Definition decode_timeline_cursor (scope cursor : string) : Result TimelineCursor :=
  let? position := decode_cursor scope cursor in
  match split_on ":"%char (cp_tie_breaker position) with
  | [] => Err (InvalidCursor "timeline cursor has no rank")
  | first :: parts =>
      let? rank := ok_or (parse_u8 first) (InvalidCursor "timeline cursor rank is invalid") in
      let? components := collect (λ part, ok_or (parse_i64 part)
        (InvalidCursor "timeline cursor component is not numeric")) parts in
      let? expected := ok_or (expected_components rank)
        (InvalidCursor "timeline cursor rank is outside the supported range") in
      if negb (length components =? expected)%nat || existsb (λ value, (value <=? 0)%Z) components
      then Err (InvalidCursor "timeline cursor has invalid components")
      else
        let? attempt_number := component_i32 components 1
          "timeline cursor attempt number is outside the supported range" in
        let? sequence := component_i32 components 2
          "timeline cursor sequence is outside the supported range" in
        Ok (MkTimelineCursor (cp_timestamp position) rank
              (default 0%Z (components !! 0%nat)) attempt_number sequence)
  end.

(** * The sources *)

(** The three cases of the cursor macros: by the rank of the source, and
    within the cursor's own rank by [later]. *)
Definition after_timeline_cursor (cursor : option TimelineCursor) (rank time : Z)
    (later : TimelineCursor → bool) : bool :=
  given cursor (λ cursor,
    if (rank <? tc_rank cursor)%Z then (tc_timestamp cursor <? time)%Z
    else if (tc_rank cursor <? rank)%Z then (tc_timestamp cursor <=? time)%Z
    else (tc_timestamp cursor <? time)%Z
         || ((time =? tc_timestamp cursor)%Z && later cursor)).

(** [apply_numeric_timeline_cursor!]. *)
Definition numeric_later (id : Z) (cursor : TimelineCursor) : bool := (tc_id cursor <? id)%Z.

(** [apply_attempt_timeline_cursor!]. *)
Definition attempt_later (id attempt_number : Z) (cursor : TimelineCursor) : bool :=
  (tc_id cursor <? id)%Z
  || ((id =? tc_id cursor)%Z && (tc_attempt_number cursor <? attempt_number)%Z).

(** [apply_progress_timeline_cursor!]. *)
Definition progress_later (id attempt_number sequence : Z) (cursor : TimelineCursor) : bool :=
  (tc_id cursor <? id)%Z
  || ((id =? tc_id cursor)%Z
      && ((tc_attempt_number cursor <? attempt_number)%Z
          || ((attempt_number =? tc_attempt_number cursor)%Z
              && (tc_sequence cursor <? sequence)%Z))).

(** The [INNER JOIN] with the activity, on its workflow. *)
Definition activity_in (d : Db) (workflow_id activity_id : Z) : bool :=
  match db_activity d !! activity_id with
  | Some activity => (ac_workflow_id activity =? workflow_id)%Z
  | None => false
  end.

Definition timeline_events (workflow_id : WorkflowId) (cursor : option TimelineCursor)
    (limit : nat) (d : Db) : list WorkflowEventRow :=
  take limit (order_by (pair_cmp Z.compare Z.compare) (λ ev, (ev_created_at ev, ev_id ev))
    (filter (λ ev, (ev_workflow_id ev =? workflow_id)%Z
        && after_timeline_cursor cursor 0 (ev_created_at ev) (numeric_later (ev_id ev)) = true)
       (db_event d))).

Definition timeline_activities (workflow_id : WorkflowId) (cursor : option TimelineCursor)
    (limit : nat) (d : Db) : list ActivityRow :=
  take limit (order_by (pair_cmp Z.compare Z.compare) (λ r, (ac_created_at r, ac_id r))
    (filter (λ r, (ac_workflow_id r =? workflow_id)%Z
        && after_timeline_cursor cursor 1 (ac_created_at r) (numeric_later (ac_id r)) = true)
       (table (db_activity d)))).

Definition timeline_attempts (workflow_id : WorkflowId) (cursor : option TimelineCursor)
    (limit : nat) (d : Db) : list ActivityAttemptRow :=
  take limit (order_by (pair_cmp Z.compare (pair_cmp Z.compare Z.compare))
      (λ r, (att_started_at r, (att_activity_id r, att_attempt_number r)))
    (filter (λ r, activity_in d workflow_id (att_activity_id r)
        && after_timeline_cursor cursor 2 (att_started_at r)
             (attempt_later (att_activity_id r) (att_attempt_number r)) = true)
       (table (db_attempt d)))).

Definition timeline_progress (workflow_id : WorkflowId) (cursor : option TimelineCursor)
    (limit : nat) (d : Db) : list ProgressEventRow :=
  take limit (order_by (pair_cmp Z.compare (pair_cmp Z.compare (pair_cmp Z.compare Z.compare)))
      (λ r, (pr_created_at r, (pr_activity_id r, (pr_attempt_number r, pr_sequence r))))
    (filter (λ r, activity_in d workflow_id (pr_activity_id r)
        && after_timeline_cursor cursor 3 (pr_created_at r)
             (progress_later (pr_activity_id r) (pr_attempt_number r) (pr_sequence r)) = true)
       (db_progress d))).

Definition timeline_approvals (workflow_id : WorkflowId) (cursor : option TimelineCursor)
    (limit : nat) (d : Db) : list ApprovalRow :=
  take limit (order_by (pair_cmp Z.compare Z.compare) (λ r, (ap_requested_at r, ap_id r))
    (filter (λ r, (ap_workflow_id r =? workflow_id)%Z
        && after_timeline_cursor cursor 4 (ap_requested_at r) (numeric_later (ap_id r)) = true)
       (table (db_approval d)))).

(** * The entries *)

Record TimelineEnvelope := MkTimelineEnvelope {
  tev_occurred_at : Z;
  tev_tie_breaker : string;
  tev_entry : TimelineEntry;
}.

Definition event_envelope (ev : WorkflowEventRow) : TimelineEnvelope :=
  MkTimelineEnvelope (ev_created_at ev) (timeline_key 0 [ev_id ev])
    (EntryWorkflowEvent (ev_event_type ev) (ev_actor_type ev) (ev_actor_id ev) (ev_reason ev)
       (ev_created_at ev)).

Definition activity_envelope (row : ActivityRow) : Result TimelineEnvelope :=
  let? summary := activity_summary (activity_selection row) in
  Ok (MkTimelineEnvelope (ac_created_at row) (timeline_key 1 [ac_id row]) (EntryActivity summary)).

Definition attempt_envelope (row : ActivityAttemptRow) : Result TimelineEnvelope :=
  let? summary := attempt_summary row in
  Ok (MkTimelineEnvelope (att_started_at row)
        (timeline_key 2 [att_activity_id row; att_attempt_number row])
        (EntryActivityAttempt summary)).

Definition progress_envelope (row : ProgressEventRow) : TimelineEnvelope :=
  MkTimelineEnvelope (pr_created_at row)
    (timeline_key 3 [pr_activity_id row; pr_attempt_number row; pr_sequence row])
    (EntryProgress (progress_summary row)).

(** [approval_summary] of [query.rs]: the stored status. *)
Definition stored_approval_summary (row : ApprovalRow) : Result ApprovalSummary :=
  let? decision := optional_json_summary (octet_length <$> ap_decision_payload_json row) in
  Ok (MkApprovalSummary (ap_id row) (ap_workflow_id row) (ap_kind row) (ap_version row)
        (as_str (ap_status row)) decision (ap_decided_by row) (ap_operator_reason row)
        (ap_requested_at row) (ap_expires_at row) (ap_resolved_at row)).

Definition approval_envelope (row : ApprovalRow) : Result TimelineEnvelope :=
  let? summary := stored_approval_summary row in
  Ok (MkTimelineEnvelope (ap_requested_at row) (timeline_key 4 [ap_id row])
        (EntryApproval summary)).

Definition envelope_position (e : TimelineEnvelope) : Z * string :=
  (tev_occurred_at e, tev_tie_breaker e).

(** The order of [(occurred_at, &tie_breaker)]. *)
Definition timeline_order : Z * string → Z * string → comparison :=
  pair_cmp Z.compare String.compare.

#[export] Instance timeline_ordered : Ordered timeline_order.
Proof. unfold timeline_order. apply _. Qed.
#[global] Typeclasses Opaque timeline_order.

Definition timeline_scope (workflow_id : WorkflowId) : string :=
  "workflow_timeline:" +:+ fmt workflow_id.

Definition page_timeline (workflow_id : WorkflowId) (timeline : list TimelineEnvelope) (limit : Z)
    : Result (AdminPage TimelineEntry) :=
  let timeline := order_by timeline_order envelope_position timeline in
  let has_more := (Z.to_nat limit <? length timeline)%nat in
  let timeline := take (Z.to_nat limit) timeline in
  let? next := next_cursor has_more timeline (λ entry,
    encode_cursor (timeline_scope workflow_id)
      (MkCursorPosition (tev_occurred_at entry) (tev_tie_breaker entry))) in
  Ok (MkAdminPage (tev_entry <$> timeline) next).

Definition workflow_timeline (workflow_id : WorkflowId) (page : PageRequest)
    : Query (AdminPage TimelineEntry) :=
  let* limit := q_lift (bounded_limit page MAX_TIMELINE_PAGE_SIZE) in
  let* cursor := q_lift (transpose (decode_timeline_cursor (timeline_scope workflow_id))
                           (pg_cursor page)) in
  let per_source_limit := S (Z.to_nat limit) in
  let* workflow := statement (λ d, db_workflow d !! workflow_id) in
  do* q_lift (ok_or workflow (not_found "workflow" (fmt workflow_id))) in
  let* events := statement (timeline_events workflow_id cursor per_source_limit) in
  let* activities := statement (timeline_activities workflow_id cursor per_source_limit) in
  let* activities := q_lift (collect activity_envelope activities) in
  let* attempts := statement (timeline_attempts workflow_id cursor per_source_limit) in
  let* attempts := q_lift (collect attempt_envelope attempts) in
  let* progress := statement (timeline_progress workflow_id cursor per_source_limit) in
  let* approvals := statement (timeline_approvals workflow_id cursor per_source_limit) in
  let* approvals := q_lift (collect approval_envelope approvals) in
  q_lift (page_timeline workflow_id
    ((event_envelope <$> events) ++ activities ++ attempts ++ (progress_envelope <$> progress)
     ++ approvals) limit).
End timeline.
