(* ===== verification/Metrics.v ===== *)
(** The topic metrics of the admin API ([admin/metrics.rs]): the counts of a
    page of topics, from grouped queries, and the throughput of the last
    twenty-four hours. *)
From stdpp Require Import base gmap list strings.
From Stdlib Require Import ZArith Lia.
From S2P Require Import Prelude.
From S2P Require Import Errors.
From S2P Require Import Status.
From S2P Require Import Rows.
From S2P Require Import Database.
From S2P Require Import Transitions.
From S2P Require Import Registry.
From S2P Require Import Worker.
From S2P Require Import Health.
From S2P Require Import Text.
From S2P Require Import Keyset.
From S2P Require Import Cursor.
From S2P Require Import AdminTypes.
From S2P Require Import Queries.

(** * Aggregates *)

(** [GROUP BY key]: every key of a row once, with an aggregate of its rows. *)
Definition group_by {R K V} `{EqDecision K} (key : R → K) (aggregate : list R → V)
    (rows : list R) : list (K * V) :=
  (λ k, (k, aggregate (filter (λ r, key r = k) rows))) <$> remove_dups (key <$> rows).

(** [COUNT( * )]. *)
Definition count_star {R} (rows : list R) : Z := Z.of_nat (length rows).

(** [MIN(column)]. *)
Fixpoint min_of (l : list Z) : option Z :=
  match l with
  | [] => None
  | x :: xs => match min_of xs with Some m => Some (Z.min x m) | None => Some x end
  end.

Definition nonnegative_count (count : Z) : Result Z :=
  ok_or (u64_try_from count) (InvalidState "negative aggregate count").

Definition u64_saturating_add (a b : Z) : Z := clamp 0 u64_max (a + b).

(** A [for] that inserts fallible values into a [HashMap]. *)
Fixpoint insert_all {A V} (f : A → Result (string * V)) (rows : list A) (m : gmap string V)
    : Result (gmap string V) :=
  match rows with
  | [] => Ok m
  | row :: rest => let? entry := f row in insert_all f rest (<[entry.1 := entry.2]> m)
  end.

(** * Hours *)

Definition HOUR_MILLIS : Z := 3600000.
Definition HOURLY_BUCKET_COUNT : nat := 24.
Definition RESOLVED_ROOT_IN_CHUNK : nat := Z.to_nat 10000.

Record HourlyWindow := MkHourlyWindow { hw_first_hour : Z; hw_exclusive_end : Z }.

(** [div_euclid] by a positive number rounds down. *)
Definition hour_bucket_start (timestamp : Z) : Z := (timestamp / HOUR_MILLIS * HOUR_MILLIS)%Z.

Definition hourly_window (now : DbMillis) : HourlyWindow :=
  MkHourlyWindow (hour_bucket_start now - (Z.of_nat HOURLY_BUCKET_COUNT - 1) * HOUR_MILLIS)
    (i64_saturating_add now 1).

Definition hour_bucket_bounds (window : HourlyWindow) (index : nat) : Z * Z :=
  let starts_at := (hw_first_hour window + Z.of_nat index * HOUR_MILLIS)%Z in
  (starts_at, Z.min (i64_saturating_add starts_at HOUR_MILLIS) (hw_exclusive_end window)).

Definition empty_hourly_throughput (window : HourlyWindow) : list HourlyThroughputBucket :=
  (λ index, MkHourlyThroughputBucket
              (hw_first_hour window + Z.of_nat index * HOUR_MILLIS) 0)
    <$> seq 0 HOURLY_BUCKET_COUNT.

Definition validate_now (now : DbMillis) : Result unit :=
  if (now <? 0)%Z then Err (InvalidDefinition "captured time cannot be negative") else Ok tt.

(** A timestamp after [now] has age 0. *)
Definition age (now : DbMillis) (timestamp : option Z) : option Z :=
  (λ timestamp, default 0%Z (u64_try_from (i64_saturating_sub now timestamp))) <$> timestamp.

(** * The statements *)

Section metrics.
Context `{CursorCodec}.

Definition in_topics (keys : list string) (r : ActivityRow) : bool := bool_decide (ac_topic r ∈ keys).

(** A slot holder whose lease has not expired. *)
Definition live_slot (now : DbMillis) (r : ActivityRow) : bool :=
  set_contains SLOT_HOLDERS (ac_status r)
  && match ac_lease_expires_at r with Some at_ => (now <? at_)%Z | None => false end.

(** The parent of an activity, by the [INNER JOIN] on its workflow. *)
Definition parent_is (d : Db) (p : WorkflowRow → bool) (r : ActivityRow) : bool :=
  match db_workflow d !! ac_workflow_id r with Some workflow => p workflow | None => false end.

(** Status [waiting_activity], on this very activity. *)
Definition awaited (d : Db) (r : ActivityRow) : bool :=
  parent_is d (λ w, bool_decide (wf_status w = WfWaitingActivity
                                 ∧ wf_wait_reference_id w = Some (ac_id r))) r.

Definition ready_activity (d : Db) (now : DbMillis) (r : ActivityRow) : bool :=
  bool_decide (ac_status r = ActPending) && (ac_available_at r <=? now)%Z && awaited d r.

Definition retry_scheduled (d : Db) (now : DbMillis) (r : ActivityRow) : bool :=
  bool_decide (ac_status r = ActPending) && (now <? ac_available_at r)%Z
  && (0 <? ac_attempt_count r)%Z && awaited d r.

Definition dead_letter_candidate (d : Db) (r : ActivityRow) : bool :=
  bool_decide (ac_status r = ActDeadLettered)
  && parent_is d (λ w, negb (set_contains TERMINAL (wf_status w))) r.

Definition completed_between (starts_at ends_at : Z) (r : ActivityRow) : bool :=
  match ac_completed_at r with
  | Some at_ => (starts_at <=? at_)%Z && (at_ <? ends_at)%Z
  | None => false
  end.

Definition topic_rows (keys : list string) (p : ActivityRow → bool) (d : Db) : list ActivityRow :=
  filter (λ r, in_topics keys r && p r = true) (table (db_activity d)).

(** The attempt that runs under the lease: the one numbered [attempt_count]. *)
Definition current_attempt (d : Db) (r : ActivityRow) : option ActivityAttemptRow :=
  db_attempt d !! (ac_id r, ac_attempt_count r).

(** [chunks(n)]. *)
Fixpoint chunks {A} (fuel n : nat) (l : list A) : list (list A) :=
  match fuel, l with
  | S fuel', _ :: _ => take n l :: chunks fuel' n (drop n l)
  | _, _ => []
  end.

Definition resolved_in (chunk : list ActivityId) (d : Db) : list ActivityId :=
  effective_root <$> filter (λ r, bool_decide (ac_status r = ActSucceeded)
      && (match ac_root_activity_id r with
          | Some root => bool_decide (root ∈ chunk)
          | None => false
          end || bool_decide (ac_id r ∈ chunk)) = true) (table (db_activity d)).

Definition load_resolved_activity_roots (candidate_roots : list ActivityId)
    : Query (list ActivityId) :=
  let* resolved := q_map (λ chunk, statement (resolved_in chunk))
    (chunks (length candidate_roots) RESOLVED_ROOT_IN_CHUNK candidate_roots) in
  q_ret (mjoin resolved).

(** The dead letters whose chain has no success, counted by topic. *)
Fixpoint dead_letter_counts (resolved_roots : list ActivityId) (candidates : list ActivityRow)
    (counts : gmap string Z) : gmap string Z :=
  match candidates with
  | [] => counts
  | r :: rest =>
      if bool_decide (effective_root r ∈ resolved_roots)
      then dead_letter_counts resolved_roots rest counts
      else dead_letter_counts resolved_roots rest
             (<[ac_topic r := (default 0 (counts !! ac_topic r) + 1)%Z]> counts)
  end.

(** A ready row shows when it became ready. *)
Definition ready_since (r : ActivityRow) : Z :=
  shown_available_at (ac_available_at r) (ac_created_at r).

(** The slots held by topic: the groups of a topic are added up. *)
Fixpoint active_counts (rows : list ((string * ActivityStatus) * Z)) (counts : gmap string Z)
    : Result (gmap string Z) :=
  match rows with
  | [] => Ok counts
  | (topic, status, count) :: rest =>
      let? count := nonnegative_count count in
      active_counts rest
        (if holds_slot status
         then <[topic := u64_saturating_add (default 0%Z (counts !! topic)) count]> counts
         else counts)
  end.

Definition persisted_cap (row : TopicLockRow) : Result (string * Z) :=
  let? cap := ok_or (u32_try_from (tl_max_concurrency row))
    (InvalidState ("activity topic " +:+ tl_topic row
                   +:+ " has invalid persisted concurrency limit "
                   +:+ fmt (tl_max_concurrency row))) in
  Ok (tl_topic row, cap).

Definition counted (row : string * Z) : Result (string * Z) :=
  let? count := nonnegative_count row.2 in Ok (row.1, count).

(** The write [buckets[index].completed_count = count] for the topics known. *)
Fixpoint set_hour (index : nat) (rows : list (string * Z))
    (hourly : gmap string (list HourlyThroughputBucket))
    : Result (gmap string (list HourlyThroughputBucket)) :=
  match rows with
  | [] => Ok hourly
  | (topic, count) :: rest =>
      match hourly !! topic with
      | Some buckets =>
          let? count := nonnegative_count count in
          set_hour index rest
            (<[topic := alter (λ b, MkHourlyThroughputBucket (hb_starts_at b) count) index
                          buckets]> hourly)
      | None => set_hour index rest hourly
      end
  end.

Fixpoint set_hours (index : nat) (hours : list (list (string * Z)))
    (hourly : gmap string (list HourlyThroughputBucket))
    : Result (gmap string (list HourlyThroughputBucket)) :=
  match hours with
  | [] => Ok hourly
  | rows :: rest => let? hourly := set_hour index rows hourly in set_hours (S index) rest hourly
  end.

(** The item of one topic. *)
Definition topic_metrics (now : DbMillis) (definition : TopicDefinition)
    (persisted_caps active ready retry dead_letter : gmap string Z)
    (oldest_ready oldest_active : gmap string (option Z))
    (hourly : gmap string (list HourlyThroughputBucket)) : TopicMetrics :=
  let key := td_key definition in
  let persisted_max_concurrency := persisted_caps !! key in
  let max_concurrency := default (td_max_concurrency definition) persisted_max_concurrency in
  let active_count := default 0%Z (active !! key) in
  MkTopicMetrics key max_concurrency (td_max_concurrency definition)
    (negb (bool_decide (persisted_max_concurrency = Some (td_max_concurrency definition))))
    active_count
    (u32_saturating_sub max_concurrency (default u32_max (u32_try_from active_count)))
    (default 0%Z (ready !! key)) (default 0%Z (retry !! key)) (default 0%Z (dead_letter !! key))
    (age now (default None (oldest_ready !! key)))
    (age now (default None (oldest_active !! key)))
    (default (empty_hourly_throughput (hourly_window now)) (hourly !! key)) now.

(** The items in the order of the definitions; [remove] takes the hours of a
    topic out of the map. *)
Fixpoint topic_items
    (item : gmap string (list HourlyThroughputBucket) → TopicDefinition → TopicMetrics)
    (definitions : list TopicDefinition) (hourly : gmap string (list HourlyThroughputBucket))
    : list TopicMetrics :=
  match definitions with
  | [] => []
  | definition :: rest =>
      item hourly definition :: topic_items item rest (delete (td_key definition) hourly)
  end.

Definition load_topic_metrics (definitions : list TopicDefinition) (now : DbMillis)
    : Query (list TopicMetrics) :=
  match definitions with
  | [] => q_ret []
  | _ =>
      let keys := td_key <$> definitions in
      let* cap_rows := statement (λ d,
        filter (λ row, tl_topic row ∈ keys) (table (db_topic_lock d))) in
      let* status_rows := statement (λ d,
        group_by (λ r, (ac_topic r, ac_status r)) count_star (topic_rows keys (live_slot now) d)) in
      let* candidates := statement (λ d, topic_rows keys (dead_letter_candidate d) d) in
      let* dead_letters :=
        match candidates with
        | [] => q_ret ∅
        | _ =>
            let* resolved_roots := load_resolved_activity_roots
              (dedup (sort_by Z.leb (effective_root <$> candidates))) in
            q_ret (dead_letter_counts resolved_roots candidates ∅)
        end in
      let* ready_rows := statement (λ d,
        group_by ac_topic (λ rows, (count_star rows, min_of (ready_since <$> rows)))
          (topic_rows keys (ready_activity d now) d)) in
      let* retry_rows := statement (λ d,
        group_by ac_topic count_star (topic_rows keys (retry_scheduled d now) d)) in
      let* oldest_active_rows := statement (λ d,
        group_by ac_topic (λ rows, min_of (omap (λ r, att_started_at <$> current_attempt d r) rows))
          (filter (λ r, is_Some (current_attempt d r)) (topic_rows keys (live_slot now) d))) in
      let window := hourly_window now in
      let* hourly_rows := q_map (λ index, statement (λ d,
        let (starts_at, ends_at) := hour_bucket_bounds window index in
        group_by ac_topic count_star (topic_rows keys (completed_between starts_at ends_at) d)))
        (seq 0 HOURLY_BUCKET_COUNT) in
      let* persisted_caps := q_lift (insert_all persisted_cap cap_rows ∅) in
      let* active := q_lift (active_counts status_rows ∅) in
      let* dead_letter := q_lift (insert_all counted (map_to_list dead_letters) ∅) in
      let* ready := q_lift (insert_all (λ row, counted (row.1, row.2.1)) ready_rows ∅) in
      let* oldest_ready := q_lift (insert_all (λ row, Ok (row.1, row.2.2)) ready_rows ∅) in
      let* retry := q_lift (insert_all counted retry_rows ∅) in
      let* oldest_active := q_lift (insert_all Ok oldest_active_rows ∅) in
      let* hourly := q_lift (set_hours 0 hourly_rows
        (list_to_map ((λ key, (key, empty_hourly_throughput window)) <$> keys))) in
      q_ret (topic_items (λ hourly definition, topic_metrics now definition persisted_caps active
               ready retry dead_letter oldest_ready oldest_active hourly) definitions hourly)
  end.

(** The page of topics after a key, in the order of their keys. *)
Definition page_topics (topics : TopicRegistry) (after : option string) (limit : Z)
    : Result (list TopicDefinition * option string) :=
  let definitions := filter (λ definition,
      given after (λ after, String.ltb after (td_key definition)) = true)
    (topic_definitions topics) in
  let has_more := (Z.to_nat limit <? length definitions)%nat in
  let definitions := take (Z.to_nat limit) definitions in
  let? next := next_cursor has_more definitions
    (λ definition, encode_string_cursor "topics" (td_key definition)) in
  Ok (definitions, next).

Definition list_topic_metrics_at (topics : TopicRegistry) (page : PageRequest) (now : DbMillis)
    : Query (AdminPage TopicMetrics) :=
  do* q_lift (validate_now now) in
  let* limit := q_lift (bounded_limit page MAX_ADMIN_PAGE_SIZE) in
  let* after := q_lift (transpose (decode_string_cursor "topics") (pg_cursor page)) in
  let* selected := q_lift (page_topics topics after limit) in
  let* items := load_topic_metrics selected.1 now in
  q_ret (MkAdminPage items selected.2).

Definition list_topic_metrics (topics : TopicRegistry) (page : PageRequest)
    : Query (AdminPage TopicMetrics) :=
  let* now := sample_now in
  list_topic_metrics_at topics page now.
End metrics.
