(* ===== verification/AdminSchedules.v ===== *)
(** The listings of schedules, of their runs and of approvals
    ([admin/metrics.rs]). *)
From stdpp Require Import base gmap list strings.
From Stdlib Require Import ZArith Lia.
From S2P Require Import Prelude.
From S2P Require Import Errors.
From S2P Require Import Status.
From S2P Require Import Rows.
From S2P Require Import Database.
From S2P Require Import Calendar.
From S2P Require Import Schedules.
From S2P Require Import Text.
From S2P Require Import Keyset.
From S2P Require Import Cursor.
From S2P Require Import AdminTypes.
From S2P Require Import Queries.
From S2P Require Import Metrics.

(** The order of text columns in the database. The migration for MySQL makes
    them [utf8mb4_bin]; the one for PostgreSQL leaves them to the collation of
    the database. *)
Class Collation := collate : string → string → comparison.

(** The order of the bytes, as [C] and [utf8mb4_bin] have it. *)
Definition byte_collation : Collation := String.compare.

Definition MAX_RECENT_SCHEDULE_RUNS : Z := 20.

Section schedules.
Context `{Chrono, CursorCodec, JsonText} `{order : Collation}.

Definition schedule_state_summary (row : ScheduleStateRow) : ScheduleStateSummary :=
  MkScheduleStateSummary (ss_definition_fingerprint row) (ss_definition_version row)
    (ss_next_local_occurrence row) (ss_next_occurrence_at row) (ss_last_materialized_at row)
    (ss_paused_at row) (ss_paused_by row) (ss_pause_reason row) (ss_created_at row)
    (ss_updated_at row).

(** * Runs *)

(** The [LEFT JOIN] of a run with its workflow. *)
Definition run_workflow (d : Db) (r : ScheduleRunRow) : option WorkflowRow :=
  workflow_id ← sr_workflow_id r; db_workflow d !! workflow_id.

Definition schedule_run_summary (row : ScheduleRunRow) (workflow : option WorkflowRow)
    : ScheduleRunSummary :=
  MkScheduleRunSummary (sr_id row) (sr_schedule_key row) (sr_local_occurrence row)
    (sr_scheduled_for row) (sr_materialized_at row) (as_str (sr_status row)) (sr_reason row)
    (sr_actor_id row) (sr_workflow_id row) ((λ w, as_str (wf_status w)) <$> workflow)
    (workflow ≫= wf_completed_at) (sr_created_at row).

Definition run_position (r : ScheduleRunRow) : Z * Z := (sr_scheduled_for r, sr_id r).

Definition load_schedule_runs (schedule_key : string) (cursor : option (Z * Z)) (limit : nat)
    : Query (list ScheduleRunSummary) :=
  statement (λ d, (λ r, schedule_run_summary r (run_workflow d r)) <$>
    take limit (order_by newest_first run_position
      (filter (λ r, String.eqb (sr_schedule_key r) schedule_key
                    && older_than cursor (sr_scheduled_for r) (sr_id r) = true)
         (table (db_schedule_run d))))).

Definition list_schedule_runs (schedule_key : string) (page : PageRequest)
    : Query (AdminPage ScheduleRunSummary) :=
  let* limit := q_lift (bounded_limit page MAX_ADMIN_PAGE_SIZE) in
  let scope := scoped_cursor_scope "schedule_runs" schedule_key in
  let* cursor := q_lift (transpose (decode_numeric_cursor scope) (pg_cursor page)) in
  let* state := statement (λ d, db_schedule_state d !! schedule_key) in
  do* q_lift (ok_or state (NotFound "schedule" schedule_key)) in
  let* rows := load_schedule_runs schedule_key cursor (S (Z.to_nat limit)) in
  let has_more := (Z.to_nat limit <? length rows)%nat in
  let rows := take (Z.to_nat limit) rows in
  let* next := q_lift (next_cursor has_more rows (λ run,
    encode_cursor scope (MkCursorPosition (srs_scheduled_for run) (fmt (srs_id run))))) in
  q_ret (MkAdminPage rows next).

(** [schedule_counts]: open workflows, skipped and coalesced runs. *)
Definition schedule_counts (schedule_key : string) : Query (Z * Z * Z) :=
  let* active := statement (λ d, count_star (filter (λ w,
      match (run_id ← wf_schedule_run_id w; db_schedule_run d !! run_id) with
      | Some run => String.eqb (sr_schedule_key run) schedule_key
                    && negb (set_contains TERMINAL (wf_status w))
      | None => false
      end = true) (table (db_workflow d)))) in
  let runs status := statement (λ d, count_star (filter (λ r,
      String.eqb (sr_schedule_key r) schedule_key && bool_decide (sr_status r = status) = true)
    (table (db_schedule_run d)))) in
  let* skipped := runs RunSkipped in
  let* coalesced := runs RunCoalesced in
  let* active := q_lift (nonnegative_count active) in
  let* skipped := q_lift (nonnegative_count skipped) in
  let* coalesced := q_lift (nonnegative_count coalesced) in
  q_ret (active, skipped, coalesced).

(** * Schedules *)

Definition schedule_health (definition : option ScheduleDefinitionMetadata)
    (state : option ScheduleStateRow) : list ScheduleHealthIssue :=
  match definition, state with
  | Some _, None => [MissingState]
  | None, Some _ => [UnregisteredState]
  | Some definition, Some state =>
      if negb (md_version definition =? ss_definition_version state)%Z
         || negb (String.eqb (md_fingerprint definition) (ss_definition_fingerprint state))
      then [IssueDefinitionMismatch (md_version definition) (ss_definition_version state)]
      else []
  | None, None => []
  end.

(** The registered keys after the cursor, in the order of Rust strings. *)
Definition registered_keys (schedules : ScheduleRegistry) (after : option string) : list string :=
  filter (λ key, given after (λ after, String.ltb after key) = true)
    (md_key <$> schedule_definitions schedules).

(** The stored keys after the cursor, in the order of the database. *)
Definition persisted_keys (after : option string) (limit : nat) (d : Db) : list string :=
  take limit (order_by collate id
    (filter (λ key, given after (λ after, match collate after key with Lt => true | _ => false end)
                    = true)
       (fst <$> map_to_list (db_schedule_state d)))).

(** The lookup in a [HashMap] of values by a key of theirs. *)
Definition find_by {V} (f : V → string) (key : string) (values : list V) : option V :=
  snd <$> list_find (λ value, f value = key) values.

(** A [BTreeSet], iterated. *)
Definition btree_set (keys : list string) : list string :=
  order_by String.compare id (remove_dups keys).

Definition schedule_item (schedules : ScheduleRegistry) (states : list ScheduleStateRow)
    (recent_run_limit : Z) (key : string) : Query ScheduleSummary :=
  let definition := find_by md_key key (schedule_definitions schedules) in
  let state := find_by ss_schedule_key key states in
  let* recent_runs := load_schedule_runs key None (Z.to_nat recent_run_limit) in
  let* counts := schedule_counts key in
  q_ret (MkScheduleSummary key (md_version <$> definition) (md_fingerprint <$> definition)
           (md_cron <$> definition) (md_timezone <$> definition) (md_misfire <$> definition)
           (md_overlap <$> definition) (md_misfire_grace_millis <$> definition)
           (schedule_state_summary <$> state) counts.1.1 counts.1.2 counts.2
           (head recent_runs) recent_runs (schedule_health definition state)).

Definition list_schedules (schedules : ScheduleRegistry) (page : PageRequest)
    (recent_run_limit : Z) : Query (AdminPage ScheduleSummary) :=
  if (recent_run_limit =? 0)%Z || (MAX_RECENT_SCHEDULE_RUNS <? recent_run_limit)%Z
  then q_lift (Err (InvalidDefinition ("recent schedule run limit must contain 1 to "
                      +:+ fmt MAX_RECENT_SCHEDULE_RUNS +:+ " entries")))
  else
    let* limit := q_lift (bounded_limit page MAX_ADMIN_PAGE_SIZE) in
    let* after := q_lift (transpose (decode_string_cursor "schedules") (pg_cursor page)) in
    let* persisted := statement (persisted_keys after (S (Z.to_nat limit))) in
    let keys := btree_set (registered_keys schedules after ++ persisted) in
    let has_more := (Z.to_nat limit <? length keys)%nat in
    let keys := take (Z.to_nat limit) keys in
    let* next := q_lift (next_cursor has_more keys (encode_string_cursor "schedules")) in
    let* states := match keys with
                   | [] => q_ret []
                   | _ => statement (λ d,
                       filter (λ row, ss_schedule_key row ∈ keys) (table (db_schedule_state d)))
                   end in
    let* items := q_map (schedule_item schedules states recent_run_limit) keys in
    q_ret (MkAdminPage items next).

(** * Approvals *)

Definition validate_approval_filter (filter : ApprovalListFilter) : Result unit :=
  if negb (given (plf_version filter) (λ version, (0 <? version)%Z))
  then Err (InvalidDefinition "approval version filter must be positive")
  else match plf_requested_after filter, plf_requested_before filter with
       | Some after, Some before =>
           if (before <=? after)%Z
           then Err (InvalidDefinition "requestedAfter must precede requestedBefore") else Ok tt
       | _, _ => Ok tt
       end.

(** [expires_at <= now], of no NULL. *)
Definition has_expired (now : DbMillis) (r : ApprovalRow) : bool :=
  match ap_expires_at r with Some expiry => (expiry <=? now)%Z | None => false end.

(** The [WHERE] clause of a status, by its effect at [now]. *)
Definition approval_status_matches (now : DbMillis) (status : string) (r : ApprovalRow) : bool :=
  match status_try_from (T := ApprovalStatus) status with
  | Ok ApprExpired =>
      bool_decide (ap_status r = ApprExpired)
      || (bool_decide (ap_status r = ApprPending) && has_expired now r)
  | Ok ApprPending =>
      bool_decide (ap_status r = ApprPending)
      && match ap_expires_at r with Some expiry => (now <? expiry)%Z | None => true end
  | Ok status => bool_decide (ap_status r = status)
  | Err _ => String.eqb (as_str (ap_status r)) status
  end.

Definition approval_matches (filter : ApprovalListFilter) (now : DbMillis) (r : ApprovalRow)
    : bool :=
  given (plf_workflow_id filter) (λ id, (ap_workflow_id r =? id)%Z)
  && given (plf_kind filter) (λ kind, String.eqb (ap_kind r) kind)
  && given (plf_version filter) (λ version, (ap_version r =? version)%Z)
  && given (plf_status filter) (λ status, approval_status_matches now status r)
  && given (plf_requested_after filter) (λ after, (after <=? ap_requested_at r)%Z)
  && given (plf_requested_before filter) (λ before, (ap_requested_at r <? before)%Z).

(** The status an operator sees at [now]. *)
Definition shown_approval_status (now : DbMillis) (r : ApprovalRow) : ApprovalStatus :=
  if bool_decide (ap_status r = ApprPending) && has_expired now r then ApprExpired else ap_status r.

Definition json_summary (bytes : option Z) : Result JsonFieldSummary :=
  match bytes with
  | Some bytes =>
      let? bytes := ok_or (usize_try_from bytes)
        (InvalidState "negative persisted JSON byte length") in
      Ok (MkJsonFieldSummary true bytes None)
  | None => Ok (MkJsonFieldSummary false 0 None)
  end.

(** [approval_summary] of [metrics.rs]. *)
Definition approval_summary (now : DbMillis) (row : ApprovalRow) : Result ApprovalSummary :=
  let? decision := json_summary (octet_length <$> ap_decision_payload_json row) in
  Ok (MkApprovalSummary (ap_id row) (ap_workflow_id row) (ap_kind row) (ap_version row)
        (as_str (shown_approval_status now row)) decision (ap_decided_by row)
        (ap_operator_reason row) (ap_requested_at row) (ap_expires_at row) (ap_resolved_at row)).

Definition approval_position (r : ApprovalRow) : Z * Z := (ap_requested_at r, ap_id r).

Definition list_approvals_at (filter : ApprovalListFilter) (now : DbMillis)
    : Query (AdminPage ApprovalSummary) :=
  do* q_lift (validate_now now) in
  do* q_lift (validate_approval_filter filter) in
  let* limit := q_lift (bounded_limit (plf_page filter) MAX_ADMIN_PAGE_SIZE) in
  let* cursor := q_lift (transpose (decode_numeric_cursor "approvals")
                           (pg_cursor (plf_page filter))) in
  let* rows := statement (λ d,
    take (S (Z.to_nat limit)) (order_by newest_first approval_position
      (base.filter (λ r, approval_matches filter now r
                         && older_than cursor (ap_requested_at r) (ap_id r) = true)
         (table (db_approval d))))) in
  let has_more := (Z.to_nat limit <? length rows)%nat in
  let rows := take (Z.to_nat limit) rows in
  let* next := q_lift (next_cursor has_more rows (λ row,
    encode_cursor "approvals" (MkCursorPosition (ap_requested_at row) (fmt (ap_id row))))) in
  let* items := q_lift (collect (approval_summary now) rows) in
  q_ret (MkAdminPage items next).

Definition list_approvals (filter : ApprovalListFilter) : Query (AdminPage ApprovalSummary) :=
  let* now := sample_now in
  list_approvals_at filter now.
End schedules.
