(* ===== verification/ExampleCursor.v ===== *)
(** A codec of cursors that satisfies [CursorLaws]: unpadded URL-safe base64,
    and the JSON text of a payload read back at its quotes. The witnesses of
    the theorems on cursors and pages run on it. *)
From stdpp Require Import base list strings.
From Stdlib Require Import ZArith Lia Ascii.
From S2P Require Import Prelude.
From S2P Require Import Errors.
From S2P Require Import Text.
From S2P Require Import Cursor.
From S2P Require Import AdminTypes.
From S2P Require Import Queries.
From S2P Require Import Paging.

(** * Base64 *)

(** Six bits, the lowest first. *)
Record Sextet := MkSextet { b0 : bool; b1 : bool; b2 : bool; b3 : bool; b4 : bool; b5 : bool }.

Definition sextet_value (s : Sextet) : nat :=
  N.to_nat (N_of_ascii (Ascii (b0 s) (b1 s) (b2 s) (b3 s) (b4 s) (b5 s) false false)).

Definition alphabet : string :=
  "ABCDEFGHIJKLMNOPQRSTUVWXYZabcdefghijklmnopqrstuvwxyz0123456789-_".

Definition sextet_char (s : Sextet) : ascii :=
  default "A"%char (String.get (sextet_value s) alphabet).

Definition char_sextet (c : ascii) : option Sextet :=
  let b := nat_of_ascii c in
  let of_value (v : nat) := match ascii_of_nat v with
                            | Ascii x0 x1 x2 x3 x4 x5 _ _ => Some (MkSextet x0 x1 x2 x3 x4 x5)
                            end in
  (if (65 <=? b) && (b <=? 90) then of_value (b - 65)
   else if (97 <=? b) && (b <=? 122) then of_value (b - 71)
   else if (48 <=? b) && (b <=? 57) then of_value (b + 4)
   else if b =? 45 then of_value 62
   else if b =? 95 then of_value 63
   else None)%nat.

Lemma char_sextet_char s : char_sextet (sextet_char s) = Some s.
Proof. by destruct s as [[] [] [] [] [] []]; vm_compute. Qed.

(** Three bytes, from the first one's highest bit, as four sextets. *)
Definition pack (x y z : ascii) : Sextet * Sextet * Sextet * Sextet :=
  match x, y, z with
  | Ascii x0 x1 x2 x3 x4 x5 x6 x7, Ascii y0 y1 y2 y3 y4 y5 y6 y7, Ascii z0 z1 z2 z3 z4 z5 z6 z7 =>
      (MkSextet x2 x3 x4 x5 x6 x7, MkSextet y4 y5 y6 y7 x0 x1,
       MkSextet z6 z7 y0 y1 y2 y3, MkSextet z0 z1 z2 z3 z4 z5)
  end.

Definition unpack (p q r s : Sextet) : ascii * ascii * ascii :=
  (Ascii (b4 q) (b5 q) (b0 p) (b1 p) (b2 p) (b3 p) (b4 p) (b5 p),
   Ascii (b2 r) (b3 r) (b4 r) (b5 r) (b0 q) (b1 q) (b2 q) (b3 q),
   Ascii (b0 s) (b1 s) (b2 s) (b3 s) (b4 s) (b5 s) (b0 r) (b1 r)).

Fixpoint encode_base64 (s : string) : string :=
  match s with
  | String x (String y (String z rest)) =>
      let '(p, q, r, t) := pack x y z in
      String (sextet_char p) (String (sextet_char q) (String (sextet_char r)
        (String (sextet_char t) (encode_base64 rest))))
  | String x (String y EmptyString) =>
      let '(p, q, r, _) := pack x y zero in
      String (sextet_char p) (String (sextet_char q) (String (sextet_char r) EmptyString))
  | String x EmptyString =>
      let '(p, q, _, _) := pack x zero zero in
      String (sextet_char p) (String (sextet_char q) EmptyString)
  | EmptyString => EmptyString
  end.

Fixpoint decode_base64 (s : string) : option string :=
  match s with
  | String a (String b (String c (String d rest))) =>
      p ← char_sextet a; q ← char_sextet b; r ← char_sextet c; t ← char_sextet d;
      let '(x, y, z) := unpack p q r t in
      tail ← decode_base64 rest; Some (String x (String y (String z tail)))
  | String a (String b (String c EmptyString)) =>
      p ← char_sextet a; q ← char_sextet b; r ← char_sextet c;
      let '(x, y, z) := unpack p q r (MkSextet false false false false false false) in
      if Ascii.eqb z zero then Some (String x (String y EmptyString)) else None
  | String a (String b EmptyString) =>
      p ← char_sextet a; q ← char_sextet b;
      let '(x, y, _) := unpack p q (MkSextet false false false false false false)
                          (MkSextet false false false false false false) in
      if Ascii.eqb y zero then Some (String x EmptyString) else None
  | String _ EmptyString => None
  | EmptyString => Some EmptyString
  end.

(** Induction over the groups of three bytes. *)
Lemma triples_ind (P : string → Prop) :
  P "" → (∀ x, P (String x "")) → (∀ x y, P (String x (String y ""))) →
  (∀ x y z s, P s → P (String x (String y (String z s)))) → ∀ s, P s.
Proof.
  intros H0 H1 H2 H3. fix IH 1. intros [|x [|y [|z s]]]; [done..|]. apply H3, IH.
Qed.

Lemma decode_encode_base64 s : decode_base64 (encode_base64 s) = Some s.
Proof.
  induction s as [|[] |[] []|[] [] [] s IH] using triples_ind; [done|..];
    cbn -[sextet_char char_sextet]; rewrite !char_sextet_char; [done..|].
  cbn -[encode_base64 decode_base64]. by rewrite IH.
Qed.

Lemma encode_base64_length s : str_len (encode_base64 s) = ((4 * str_len s + 2) / 3)%nat.
Proof.
  induction s as [|[] |[] []|[] [] [] s IH] using triples_ind; [done..|].
  unfold str_len in *. cbn -[Nat.div Nat.mul sextet_char].
  rewrite IH. replace (4 * S (S (S (String.length s))) + 2)%nat
    with (4 * String.length s + 2 + 4 * 3)%nat by lia.
  rewrite Nat.div_add by lia. lia.
Qed.

(** * Payloads *)

Definition quote : ascii := ascii_of_nat 34.

(** The number of [":number,"]. *)
Definition number_field (field : string) : option Z :=
  match split_on "," field with
  | [String ":" number; EmptyString] => parse_i64 number
  | _ => None
  end.

Definition parse_payload (text : string) : option CursorPayload :=
  match split_on quote text with
  | ["{"; "version"; version; "scope"; ":"; scope; ","; "timestamp"; timestamp;
     "tie_breaker"; ":"; tie_breaker; "}"] =>
      version ← number_field version; timestamp ← number_field timestamp;
      if ((0 <=? version) && (version <=? 255))%Z
      then Some (MkCursorPayload version scope timestamp tie_breaker) else None
  | _ => None
  end.

Lemma all_bytes_impl (p q : ascii → bool) s : (∀ c, p c = true → q c = true) →
  all_bytes p s = true → all_bytes q s = true.
Proof.
  intros Hpq. induction s as [|c s IH]; [done|]. simpl. rewrite !andb_true_iff.
  intros [Hc Hs]. auto.
Qed.

Lemma plain_lacks_quote s : plain s → lacks quote s.
Proof.
  apply all_bytes_impl. intros c. unfold plain_byte. rewrite !andb_true_iff, !negb_true_iff.
  intros [[_ Hc] _]. apply Ascii.eqb_neq. by intros ->.
Qed.

Definition digit_or_sign (c : ascii) : bool := Ascii.eqb c "-" || bool_decide (is_Some (digit_value c)).

Lemma pretty_go_digits n s : all_bytes digit_or_sign s = true →
  all_bytes digit_or_sign (pretty.pretty_N_go n s) = true.
Proof.
  revert s. induction (N.lt_wf_0 n) as [n _ IH]; intros s Hs.
  destruct (decide (0 < n)%N) as [Hn|Hn].
  - rewrite pretty.pretty_N_go_step by done. apply IH; [by apply N.div_lt|]. simpl.
    rewrite Hs, andb_true_r. unfold pretty.pretty_N_char. by repeat case_match.
  - by assert (n = 0%N) as -> by lia.
Qed.

Lemma fmt_digits z : all_bytes digit_or_sign (fmt z) = true.
Proof.
  destruct z as [|p|p]; [done|by apply (pretty_go_digits (N.pos p))|].
  change (fmt (Z.neg p)) with (String "-"%char (pretty.pretty_N_go (N.pos p) "")).
  by apply (pretty_go_digits (N.pos p)).
Qed.

Lemma number_field_fmt z : in_i64 z = true → number_field (":" +:+ fmt z +:+ ",") = Some z.
Proof.
  intros Hz. unfold number_field.
  rewrite <- append_assoc, (split_on_cons "," (":" +:+ fmt z) "").
  { by apply parse_i64_fmt. }
  change (lacks "," (fmt z)). apply (all_bytes_impl digit_or_sign); [|apply fmt_digits].
  intros c Hc. apply negb_true_iff, Ascii.eqb_neq. by intros ->.
Qed.

Lemma field_plain z : plain (":" +:+ fmt z +:+ ",").
Proof. unfold plain. rewrite !all_bytes_app, (fmt_plain z). done. Qed.

Lemma payload_text_parts p :
  payload_text p = join (String quote "")
    ["{"; "version"; ":" +:+ fmt (pl_version p) +:+ ","; "scope"; ":"; pl_scope p; ",";
     "timestamp"; ":" +:+ fmt (pl_timestamp p) +:+ ","; "tie_breaker"; ":"; pl_tie_breaker p; "}"].
Proof.
  unfold payload_text, quoted, join. fold quote.
  repeat (rewrite !append_assoc || rewrite !append_cons || f_equal).
Qed.

Lemma parse_payload_text p : plain (pl_scope p) → plain (pl_tie_breaker p) →
  in_i64 (pl_timestamp p) = true → (0 ≤ pl_version p ≤ 255)%Z →
  parse_payload (payload_text p) = Some p.
Proof.
  intros Hs Ht Hi Hv. unfold parse_payload. rewrite payload_text_parts, split_on_join.
  - assert (in_i64 (pl_version p) = true) as Hv' by (autounfold with ranges; lia).
    rewrite !number_field_fmt by done. simpl.
    destruct (Z.leb_spec 0 (pl_version p)), (Z.leb_spec (pl_version p) 255); try lia.
    by destruct p.
  - done.
  - repeat constructor; try apply plain_lacks_quote; (done || apply field_plain).
Qed.

#[export] Instance example_codec : CursorCodec := {|
  base64_encode := encode_base64;
  base64_decode := decode_base64;
  payload_to_vec := λ p, payload_text (payload_escaped p);
  payload_from_slice := parse_payload;
|}.

#[export] Instance example_cursor_laws : CursorLaws.
Proof.
  split; [apply decode_encode_base64|apply encode_base64_length| |done].
  intros p Hs Ht. cbn. rewrite payload_escaped_plain by done. by apply parse_payload_text.
Qed.

(** JSON texts, kept as they are. *)
#[export] Instance example_json : JsonText := {| JsonValue := string; json_from_str := inl |}.

Example example_cursor :
  encode_cursor "workflows" (MkCursorPosition 1000 "7")
  = Ok "eyJ2ZXJzaW9uIjoxLCJzY29wZSI6IndvcmtmbG93cyIsInRpbWVzdGFtcCI6MTAwMCwidGllX2JyZWFrZXIiOiI3In0".
Proof. by vm_compute. Qed.
