(* ===== verification/Pages.v ===== *)
(** The paged listings of the admin API are complete: a client who follows the
    cursors of [list_workflows], [list_activities], [list_approvals] or
    [list_schedule_runs] gets every row of the listing once, in its order,
    whatever the engine writes between the requests. *)
From stdpp Require Import base gmap list strings sorting.
From Stdlib Require Import ZArith Lia.
From S2P Require Import Prelude.
From S2P Require Import Errors.
From S2P Require Import Status.
From S2P Require Import Rows.
From S2P Require Import Database.
From S2P Require Import Evolution.
From S2P Require Import Calendar.
From S2P Require Import Schedules.
From S2P Require Import SchedulesSteps.
From S2P Require Import Text.
From S2P Require Import Keyset.
From S2P Require Import Cursor.
From S2P Require Import AdminTypes.
From S2P Require Import Queries.
From S2P Require Import Paging.
From S2P Require Import Metrics.
From S2P Require Import AdminSchedules.
From S2P Require Import ExampleCursor.
From S2P Require Import Protocol.
From S2P Require Import ExampleCalendar.
From S2P Require Import Scenario.
From S2P Require Import ScheduleSafety.

(** * Requests *)

(** Request [i] of a client, with the cursor it got; its statements see
    [hs i]. *)
Definition requests {T} (query : option string → Query (AdminPage T)) (hs : nat → nat → Snapshot)
    (i : nat) (cursor : option string) : Result (AdminPage T) :=
  run_query (query cursor) (hs i).

Definition at_cursor (page : PageRequest) (cursor : option string) : PageRequest :=
  MkPageRequest cursor (pg_limit page).

Definition workflows_at (filter : WorkflowListFilter) (cursor : option string)
    : WorkflowListFilter :=
  MkWorkflowListFilter (at_cursor (wlf_page filter) cursor) (wlf_kind filter) (wlf_version filter)
    (wlf_status filter) (wlf_schedule_run_id filter) (wlf_root_workflow_id filter)
    (wlf_created_after filter) (wlf_created_before filter) (wlf_waiting_approval filter).

Definition activities_at (filter : ActivityListFilter) (cursor : option string)
    : ActivityListFilter :=
  MkActivityListFilter (at_cursor (alf_page filter) cursor) (alf_workflow_id filter)
    (alf_kind filter) (alf_version filter) (alf_topic filter) (alf_status filter)
    (alf_created_after filter) (alf_created_before filter).

Definition approvals_at (filter : ApprovalListFilter) (cursor : option string)
    : ApprovalListFilter :=
  MkApprovalListFilter (at_cursor (plf_page filter) cursor) (plf_workflow_id filter)
    (plf_kind filter) (plf_version filter) (plf_status filter) (plf_requested_after filter)
    (plf_requested_before filter).

(** The positions fit the 64-bit columns they are stored in. *)
Definition fits {R} (position : R → Z * Z) (rows : list R) : Prop :=
  ∀ r, r ∈ rows → in_i64 (position r).1 = true ∧ in_i64 (position r).2 = true.

Lemma bounded_limit_at page cursor maximum :
  bounded_limit (at_cursor page cursor) maximum = bounded_limit page maximum.
Proof. done. Qed.

Lemma bounded_limit_pos page maximum limit :
  bounded_limit page maximum = Ok (Z.of_nat limit) → (0 < limit)%nat.
Proof.
  unfold bounded_limit. case_match eqn:E; [done|]. intros [= E'].
  rewrite orb_false_iff, Z.eqb_neq in E. lia.
Qed.

(** A table keyed by the second component of a position lists it once. *)
Lemma table_nodup {R} (m : gmap Z R) (position : R → Z * Z) :
  (∀ id r, m !! id = Some r → (position r).2 = id) → NoDup (position <$> table m).
Proof.
  intros Hid. apply (NoDup_fmap_1 snd). unfold table. rewrite <- !list_fmap_compose.
  erewrite list_fmap_ext; [apply NoDup_fst_map_to_list|].
  intros i [id r] Hi%list_elem_of_lookup_2%elem_of_map_to_list. simpl. by apply Hid.
Qed.

Lemma table_valid {R} (m : gmap Z R) (position : R → Z * Z) :
  (∀ id r, m !! id = Some r → (position r).2 = id ∧ (0 < id)%Z) → fits position (table m) →
  ∀ r, r ∈ table m → valid_position (position r).
Proof.
  intros Hid Hfits r Hr. destruct (Hfits r Hr) as [Ht Hi]. split_and!; [done| |done].
  apply elem_of_table in Hr as (id & Hr). destruct (Hid id r Hr) as [-> ?]. done.
Qed.

(** * Handlers *)

(** Run the statements of a request. *)
Ltac answers := repeat ((progress (autorewrite with answers)) || (progress (cbn [res_bind ok_or]))).
Ltac request := unfold requests, run_query, compose.

Section pages.
Context `{CursorLaws, JsonText, Chrono, Collation}.

(** One of the listings by time and id: after the guards it fetches a row
    more than the limit and makes a page of the rows. *)
Lemma numeric_paged {R T} (position : R → Z * Z) (scope : string) (P : nat → R → bool)
    (rows : nat → list R) (item : nat → R → T) limit (api : nat → option string → Result (AdminPage T)) :
  cursor_scope scope → (0 < limit)%nat → (∀ i, NoDup (position <$> rows i)) →
  (∀ i r, r ∈ rows i → valid_position (position r)) →
  (∀ i after, (∀ k, after = Some k → valid_position k) →
     api i (position_cursor scope <$> after)
     = (let? next := next_cursor
          (limit <? length (fetched_after position (P i) (rows i) limit after))%nat
          (take limit (fetched_after position (P i) (rows i) limit after))
          (λ r, encode_cursor scope (MkCursorPosition (position r).1 (fmt (position r).2))) in
        Ok (MkAdminPage (item i <$> take limit (fetched_after position (P i) (rows i) limit after))
              next))) →
  PagedApi newest_first position limit valid_position (position_cursor scope)
    (λ i, filter (λ r, P i r = true) (rows i)) item api.
Proof.
  intros Hs Hl Hnd Hv Hapi. split; [done|..].
  - intros i. apply matching_nodup, Hnd.
  - intros i r. apply matching_valid, Hv.
  - intros i after Hafter. rewrite Hapi by done.
    rewrite !fetched_after_remaining, fetched_more, fetched_take by done.
    pose proof (numeric_next_cursor position scope (P i) (rows i) limit Hs (Hv i) after) as Hnext.
    unfold page in *. by rewrite Hnext.
Qed.

(** ** Workflows *)

Lemma workflows_scope : cursor_scope "workflows".
Proof. by vm_compute; lia. Qed.
Lemma activities_scope : cursor_scope "activities".
Proof. by vm_compute; lia. Qed.
Lemma approvals_scope : cursor_scope "approvals".
Proof. by vm_compute; lia. Qed.

Definition workflow_item (r : WorkflowRow) : WorkflowSummary :=
  MkWorkflowSummary (wf_id r) (wf_kind r) (wf_version r) (as_str (wf_status r))
    (as_str <$> wf_wait_kind r) (wf_schedule_run_id r) (wf_root_workflow_id r)
    (wf_restarted_from_workflow_id r) (from_required (wf_input_json r))
    (from_required (wf_state_json r)) (from_optional (wf_result_json r)) (wf_error_category r)
    (wf_error_message r) (wf_created_at r) (wf_updated_at r) (wf_completed_at r).

Lemma required_json_summary_length s :
  required_json_summary (octet_length s) = Ok (from_required s).
Proof.
  unfold required_json_summary, usize_try_from, octet_length, from_required.
  destruct (Z.ltb_spec (Z.of_nat (str_len s)) 0); [lia|]. simpl. by rewrite Nat2Z.id.
Qed.

Lemma optional_json_summary_length o :
  optional_json_summary (octet_length <$> o) = Ok (from_optional o).
Proof. destruct o as [s|]; [apply required_json_summary_length|done]. Qed.

Lemma workflow_summary_item r : workflow_summary (workflow_selection r) = Ok (workflow_item r).
Proof.
  unfold workflow_summary. cbn -[required_json_summary optional_json_summary].
  by rewrite !required_json_summary_length, optional_json_summary_length.
Qed.

(** [pop], when there is a row too many, leaves the first rows. *)
Lemma popped {A} limit (l : list A) : (length l ≤ S limit)%nat →
  (if (limit <? length l)%nat then pop l else l) = take limit l.
Proof.
  intros Hn. unfold pop. destruct (Nat.ltb_spec limit (length l)).
  - f_equal. lia.
  - by rewrite take_ge by lia.
Qed.

(** A page of projected rows is a page of the rows. *)
Lemma projected_page {R A T} (proj : R → A) (f : A → Result T) (item : R → T) scope
    (position : A → CursorPosition) rows limit :
  (length rows ≤ S limit)%nat → (∀ r, f (proj r) = Ok (item r)) →
  (let has_more := (limit <? length (proj <$> rows))%nat in
   let shown := if has_more then pop (proj <$> rows) else proj <$> rows in
   let? next := next_cursor has_more shown (λ row, encode_cursor scope (position row)) in
   let? items := collect f shown in Ok (MkAdminPage items next))
  = (let? next := next_cursor (limit <? length rows)%nat (take limit rows)
       (λ r, encode_cursor scope (position (proj r))) in
     Ok (MkAdminPage (item <$> take limit rows) next)).
Proof.
  intros Hlen Hf. cbv zeta. rewrite popped by by rewrite length_fmap.
  rewrite length_fmap, <- fmap_take, next_cursor_fmap, collect_fmap.
  destruct (next_cursor _ _ _); [|done]. simpl.
  rewrite (collect_Ok _ item); [done|]. intros r _. apply Hf.
Qed.

Lemma fetched_length {R} (position : R → Z * Z) P rows limit after :
  (length (fetched_after position P rows limit after) ≤ S limit)%nat.
Proof. unfold fetched_after. rewrite length_take. lia. Qed.

Lemma list_workflows_paged filter limit hs :
  bounded_limit (wlf_page filter) MAX_ADMIN_PAGE_SIZE = Ok (Z.of_nat limit) →
  validate_workflow_filter filter = Ok tt →
  (∀ i, db_ok (sn_db (hs i 0%nat))
        ∧ fits workflow_position (table (db_workflow (sn_db (hs i 0%nat))))) →
  PagedApi newest_first workflow_position limit valid_position (position_cursor "workflows")
    (λ i, base.filter (λ r, workflow_matches filter r = true)
            (table (db_workflow (sn_db (hs i 0%nat)))))
    (λ _, workflow_item) (requests (list_workflows ∘ workflows_at filter) hs).
Proof.
  intros Hlimit Hvalid Hdb.
  apply (numeric_paged workflow_position "workflows" (λ _, workflow_matches filter)).
  - by vm_compute; lia.
  - by eapply bounded_limit_pos.
  - intros i. apply table_nodup. intros id r Hr. by apply (ok_workflow _ (proj1 (Hdb i))).
  - intros i. apply table_valid; [|apply Hdb]. intros id r Hr. destruct (Hdb i) as [Hok _].
    split; [by apply (ok_workflow _ Hok)|by eapply ok_workflow_pos].
  - intros i after Hafter.
    request. unfold list_workflows. answers.
    cbn [wlf_page workflows_at]. rewrite bounded_limit_at, Hlimit. answers.
    change (validate_workflow_filter (workflows_at filter _)) with (validate_workflow_filter filter).
    rewrite Hvalid. cbn [pg_cursor at_cursor]. rewrite decode_positions by (done || apply workflows_scope). answers.
    unfold page_workflows. rewrite Nat2Z.id.
    exact (projected_page workflow_selection workflow_summary workflow_item "workflows"
      (λ p, MkCursorPosition (wpj_created_at p) (fmt (wpj_id p)))
      _ _ (fetched_length _ _ _ _ _) workflow_summary_item).
Qed.

(** ** Activities *)

Definition activity_item (r : ActivityRow) : ActivitySummary :=
  MkActivitySummary (ac_id r) (ac_workflow_id r) (ac_kind r) (ac_version r) (ac_topic r)
    (as_str (ac_status r)) (ac_replacement_number r) (ac_attempt_count r) (ac_max_attempts r)
    (ac_operation_key r) (ac_root_activity_id r) (ac_replaces_activity_id r)
    (from_required (ac_payload_json r)) (from_optional (ac_provider_result_json r))
    (ac_last_error_category r) (ac_last_error_message r)
    (shown_available_at (ac_available_at r) (ac_created_at r)) (ac_created_at r) (ac_updated_at r)
    (ac_completed_at r).

Lemma activity_summary_item r : activity_summary (activity_selection r) = Ok (activity_item r).
Proof.
  unfold activity_summary. cbn -[required_json_summary optional_json_summary].
  by rewrite required_json_summary_length, optional_json_summary_length.
Qed.

Lemma list_activities_paged filter limit hs :
  bounded_limit (alf_page filter) MAX_ADMIN_PAGE_SIZE = Ok (Z.of_nat limit) →
  validate_activity_filter filter = Ok tt →
  (∀ i, db_ok (sn_db (hs i 0%nat))
        ∧ fits activity_position (table (db_activity (sn_db (hs i 0%nat))))) →
  PagedApi newest_first activity_position limit valid_position (position_cursor "activities")
    (λ i, base.filter (λ r, activity_matches filter r = true)
            (table (db_activity (sn_db (hs i 0%nat)))))
    (λ _, activity_item) (requests (list_activities ∘ activities_at filter) hs).
Proof.
  intros Hlimit Hvalid Hdb.
  apply (numeric_paged activity_position "activities" (λ _, activity_matches filter)).
  - by vm_compute; lia.
  - by eapply bounded_limit_pos.
  - intros i. apply table_nodup. intros id r Hr. by apply (ok_activity _ (proj1 (Hdb i))).
  - intros i. apply table_valid; [|apply Hdb]. intros id r Hr. destruct (Hdb i) as [Hok _].
    split; [by apply (ok_activity _ Hok)|by eapply ok_activity_pos].
  - intros i after Hafter. request. unfold list_activities. answers.
    cbn [alf_page activities_at]. rewrite bounded_limit_at, Hlimit. answers.
    change (validate_activity_filter (activities_at filter _)) with (validate_activity_filter filter).
    rewrite Hvalid. cbn [pg_cursor at_cursor]. rewrite decode_positions by (done || apply activities_scope). answers.
    unfold page_activities. rewrite Nat2Z.id.
    exact (projected_page activity_selection activity_summary activity_item "activities"
      (λ p, MkCursorPosition (apj_created_at p) (fmt (apj_id p)))
      _ _ (fetched_length _ _ _ _ _) activity_summary_item).
Qed.

(** ** Approvals *)

Definition approval_item (now : DbMillis) (r : ApprovalRow) : ApprovalSummary :=
  MkApprovalSummary (ap_id r) (ap_workflow_id r) (ap_kind r) (ap_version r)
    (as_str (shown_approval_status now r)) (from_optional (ap_decision_payload_json r))
    (ap_decided_by r) (ap_operator_reason r) (ap_requested_at r) (ap_expires_at r)
    (ap_resolved_at r).

Lemma approval_summary_item now r : approval_summary now r = Ok (approval_item now r).
Proof.
  unfold approval_summary. change json_summary with optional_json_summary.
  by rewrite optional_json_summary_length.
Qed.

(** The clock is read by the first statement, the rows by the second. *)
Lemma list_approvals_paged filter limit hs :
  bounded_limit (plf_page filter) MAX_ADMIN_PAGE_SIZE = Ok (Z.of_nat limit) →
  validate_approval_filter filter = Ok tt →
  (∀ i, (0 ≤ sn_now (hs i 0%nat))%Z ∧ db_ok (sn_db (hs i 1%nat))
        ∧ fits approval_position (table (db_approval (sn_db (hs i 1%nat))))) →
  PagedApi newest_first approval_position limit valid_position (position_cursor "approvals")
    (λ i, base.filter (λ r, approval_matches filter (sn_now (hs i 0%nat)) r = true)
            (table (db_approval (sn_db (hs i 1%nat)))))
    (λ i, approval_item (sn_now (hs i 0%nat))) (requests (list_approvals ∘ approvals_at filter) hs).
Proof.
  intros Hlimit Hvalid Hdb.
  apply (numeric_paged approval_position "approvals"
           (λ i, approval_matches filter (sn_now (hs i 0%nat)))).
  - by vm_compute; lia.
  - by eapply bounded_limit_pos.
  - intros i. apply table_nodup. intros id r Hr. destruct (Hdb i) as (_ & Hok & _).
    by apply (ok_approval _ Hok).
  - intros i. destruct (Hdb i) as (_ & Hok & Hf). apply table_valid; [|done]. intros id r Hr.
    split; [by apply (ok_approval _ Hok)|by eapply ok_approval_pos].
  - intros i after Hafter. destruct (Hdb i) as (Hnow & _).
    request. unfold list_approvals, list_approvals_at. answers. unfold validate_now.
    destruct (Z.ltb_spec (sn_now (hs i 0%nat)) 0); [lia|]. answers.
    change (validate_approval_filter (approvals_at filter _)) with (validate_approval_filter filter).
    cbn [plf_page approvals_at]. rewrite Hvalid. answers.
    rewrite bounded_limit_at, Hlimit. answers. cbn [pg_cursor at_cursor].
    rewrite decode_positions by (done || apply approvals_scope). answers.
    rewrite Nat2Z.id.
    rewrite (collect_Ok (approval_summary (sn_now (hs i 0%nat)))
      (approval_item (sn_now (hs i 0%nat)))) by (intros; apply approval_summary_item).
    done.
Qed.

(** ** Schedule runs *)

Lemma schedule_runs_scope key : cursor_scope (scoped_cursor_scope "schedule_runs" key).
Proof. apply identity_scope; [vm_compute; lia|done]. Qed.

Lemma list_schedule_runs_paged key page limit hs :
  bounded_limit page MAX_ADMIN_PAGE_SIZE = Ok (Z.of_nat limit) →
  (∀ i, is_Some (db_schedule_state (sn_db (hs i 0%nat)) !! key)
        ∧ sched_ok (sn_db (hs i 1%nat))
        ∧ fits run_position (table (db_schedule_run (sn_db (hs i 1%nat))))) →
  PagedApi newest_first run_position limit valid_position
    (position_cursor (scoped_cursor_scope "schedule_runs" key))
    (λ i, base.filter (λ r, String.eqb (sr_schedule_key r) key = true)
            (table (db_schedule_run (sn_db (hs i 1%nat)))))
    (λ i r, schedule_run_summary r (run_workflow (sn_db (hs i 1%nat)) r))
    (requests (list_schedule_runs key ∘ at_cursor page) hs).
Proof.
  intros Hlimit Hdb.
  apply (numeric_paged run_position _ (λ _ r, String.eqb (sr_schedule_key r) key)).
  - apply schedule_runs_scope.
  - by eapply bounded_limit_pos.
  - intros i. apply table_nodup. intros id r Hr. destruct (Hdb i) as (_ & Hok & _).
    by apply (si_run _ _ _ Hok).
  - intros i. destruct (Hdb i) as (_ & Hok & Hf). apply table_valid; [|done]. intros id r Hr.
    destruct (si_run _ _ _ Hok id r Hr) as (? & ? & _). split; [done|lia].
  - intros i after Hafter. destruct (Hdb i) as ([s Hs] & _).
    request. unfold list_schedule_runs. answers. rewrite bounded_limit_at, Hlimit. answers.
    cbn [pg_cursor at_cursor]. rewrite decode_positions by (done || apply schedule_runs_scope). answers.
    rewrite Hs. answers. unfold load_schedule_runs. answers. rewrite Nat2Z.id.
    rewrite length_fmap, <- fmap_take, next_cursor_fmap. done.
Qed.

(** * The contract *)

(** The answers of a listing with a cursor are complete, for every valid
    request and every history of the tables between the requests. *)
Definition workflow_pages (filter : WorkflowListFilter) (hs : nat → nat → Snapshot) : Prop :=
  pages_complete newest_first workflow_position (λ s, (wsum_created_at s, wsum_id s))
    (λ i, base.filter (λ r, workflow_matches filter r = true)
            (table (db_workflow (sn_db (hs i 0%nat)))))
    (λ _, workflow_item) (requests (list_workflows ∘ workflows_at filter) hs).

Definition activity_pages (filter : ActivityListFilter) (hs : nat → nat → Snapshot) : Prop :=
  pages_complete newest_first activity_position (λ s, (asum_created_at s, asum_id s))
    (λ i, base.filter (λ r, activity_matches filter r = true)
            (table (db_activity (sn_db (hs i 0%nat)))))
    (λ _, activity_item) (requests (list_activities ∘ activities_at filter) hs).

Definition approval_pages (filter : ApprovalListFilter) (hs : nat → nat → Snapshot) : Prop :=
  pages_complete newest_first approval_position (λ s, (apsum_requested_at s, apsum_id s))
    (λ i, base.filter (λ r, approval_matches filter (sn_now (hs i 0%nat)) r = true)
            (table (db_approval (sn_db (hs i 1%nat)))))
    (λ i, approval_item (sn_now (hs i 0%nat)))
    (requests (list_approvals ∘ approvals_at filter) hs).

Definition run_pages (key : string) (page : PageRequest) (hs : nat → nat → Snapshot) : Prop :=
  pages_complete newest_first run_position (λ s, (srs_scheduled_for s, srs_id s))
    (λ i, base.filter (λ r, String.eqb (sr_schedule_key r) key = true)
            (table (db_schedule_run (sn_db (hs i 1%nat)))))
    (λ i r, schedule_run_summary r (run_workflow (sn_db (hs i 1%nat)) r))
    (requests (list_schedule_runs key ∘ at_cursor page) hs).

(** The tables that a request may see: they satisfy the constraints of the
    schema, and what they store fits its columns. *)
Record readable (s : Snapshot) : Prop := {
  rd_now : (0 ≤ sn_now s)%Z;
  rd_ok : db_ok (sn_db s);
  rd_schedules : sched_ok (sn_db s);
  rd_workflows : fits workflow_position (table (db_workflow (sn_db s)));
  rd_activities : fits activity_position (table (db_activity (sn_db s)));
  rd_approvals : fits approval_position (table (db_approval (sn_db s)));
  rd_runs : fits run_position (table (db_schedule_run (sn_db s)));
}.

(** C32: a client who follows the cursors of the listings of workflows,
    activities, approvals and schedule runs gets the rows that match newest
    first, none twice, and misses none that is there during the whole walk,
    whatever is written between the requests; on tables at rest the walk ends
    and is the whole listing. *)
Theorem listings_are_complete wf ac ap key page limit hs :
  (∀ i j, readable (hs i j)) →
  (∀ i j, is_Some (db_schedule_state (sn_db (hs i j)) !! key)) →
  bounded_limit page MAX_ADMIN_PAGE_SIZE = Ok (Z.of_nat limit) →
  wlf_page wf = page → alf_page ac = page → plf_page ap = page →
  validate_workflow_filter wf = Ok tt → validate_activity_filter ac = Ok tt →
  validate_approval_filter ap = Ok tt →
  workflow_pages wf hs ∧ activity_pages ac hs ∧ approval_pages ap hs ∧ run_pages key page hs.
Proof.
  intros Hdb Hkey Hlimit Ew Ea Ep Hw Ha Hp. split_and!.
  - eapply paged_api_complete; [apply _|apply list_workflows_paged|done]; [by rewrite Ew|done|].
    intros i. split; apply Hdb.
  - eapply paged_api_complete; [apply _|apply list_activities_paged|done]; [by rewrite Ea|done|].
    intros i. split; apply Hdb.
  - eapply paged_api_complete; [apply _|apply list_approvals_paged|done]; [by rewrite Ep|done|].
    intros i. split_and!; apply Hdb.
  - eapply paged_api_complete; [apply _|apply list_schedule_runs_paged|done]; [done|].
    intros i. split_and!; [apply Hkey|apply Hdb..].
Qed.
End pages.

(** * Filters *)

Definition with_approval_status (status : option string) (f : ApprovalListFilter)
    : ApprovalListFilter :=
  MkApprovalListFilter (plf_page f) (plf_workflow_id f) (plf_kind f) (plf_version f) status
    (plf_requested_after f) (plf_requested_before f).

(** Filtering approvals by a status selects, of those that match
    otherwise, exactly the approvals that are shown with that status at the
    time of the request: a pending approval past its expiry counts as expired,
    whether or not the materializer has got to it. *)
Theorem approval_filter_is_effective f status now r :
  approval_matches (with_approval_status (Some (as_str status)) f) now r
  = approval_matches (with_approval_status None f) now r
    && bool_decide (shown_approval_status now r = status).
Proof.
  assert (approval_status_matches now (as_str status) r
    = bool_decide (shown_approval_status now r = status)) as E.
  { unfold approval_status_matches, shown_approval_status, has_expired.
    destruct status, (ap_status r), (ap_expires_at r) as [expiry|]; cbn; try done;
      destruct (Z.ltb_spec now expiry), (Z.leb_spec expiry now); (done || lia). }
  unfold approval_matches, with_approval_status. cbn [given plf_workflow_id plf_kind plf_version
    plf_status plf_requested_after plf_requested_before]. rewrite E, andb_true_r.
  repeat match goal with |- context [given ?o ?f] => destruct (given o f) end;
    by destruct (bool_decide _).
Qed.

(** * Cursors *)

Section cursors.
Context `{CursorLaws}.

(** C36: a cursor of printable text without quotes and backslashes (its scope
    and its tie breaker) and of a timestamp that is an [i64], once encoded, is
    short enough for the decoder and decodes to its position in its own
    collection, and in any other collection of such a name it is refused. *)
Theorem cursor_roundtrip scope position cursor :
  encode_cursor scope position = Ok cursor → plain scope → plain (cp_tie_breaker position) →
  in_i64 (cp_timestamp position) = true →
  decode_cursor scope cursor = Ok position
  ∧ ∀ scope', validate_scope scope' = Ok tt → plain scope' → scope' ≠ scope →
      decode_cursor scope' cursor
      = Err (InvalidCursor "cursor belongs to a different collection").
Proof.
  intros Henc Hs Ht Hi. unfold encode_cursor in Henc.
  destruct (validate_scope scope) as [[]|] eqn:Vs; [|done]. cbn [res_bind] in Henc.
  destruct (validate_tie_breaker (cp_tie_breaker position)) as [[]|] eqn:Vt; [|done].
  injection Henc as <-. fold (cursor_text scope position).
  pose proof (validate_scope_inv scope Vs Hs). pose proof (validate_tie_breaker_inv _ Vt Ht).
  split; [by rewrite decode_cursor_text, String.eqb_refl|]. intros scope' Vs' Hs' Hne.
  rewrite decode_cursor_text by (done || by apply validate_scope_inv).
  by apply not_eq_sym, String.eqb_neq in Hne as ->.
Qed.
(** A tie breaker of [n] double quotes. *)
Fixpoint quotes (n : nat) : string :=
  match n with O => EmptyString | S m => String (Ascii.ascii_of_nat 34) (quotes m) end.

(** The encoder accepts positions whose cursor the decoder refuses: it bounds
    the tie breaker's length, and JSON takes two bytes for a quote. *)
Theorem quoted_position_is_refused scope timestamp :
  cursor_scope scope →
  ∃ cursor, encode_cursor scope (MkCursorPosition timestamp (quotes 191)) = Ok cursor
    ∧ decode_cursor scope cursor
      = Err (InvalidCursor "cursor length is outside the allowed range").
Proof.
  intros Hs. unfold encode_cursor. rewrite (validate_scope_ok _ Hs). cbn [res_bind].
  replace (validate_tie_breaker _) with (@Ok unit tt) by (by vm_compute). cbn [res_bind].
  eexists. split; [done|]. unfold decode_cursor. rewrite (validate_scope_ok _ Hs). cbn [res_bind].
  rewrite base64_length, payload_printable;
    [|apply plain_escaped, Hs|by vm_compute].
  set (text := payload_text _).
  assert (382 + 6 ≤ str_len text)%nat as Hlen.
  { unfold text, payload_text. rewrite !str_len_app, !str_len_quoted. cbn [pl_tie_breaker payload_escaped cp_tie_breaker].
    change (str_len (json_escape (quotes 191))) with 382%nat.
    change (str_len "tie_breaker") with 11%nat. lia. }
  replace (MAX_CURSOR_BYTES <? (4 * str_len text + 2) / 3)%nat with true; [by rewrite orb_true_r|].
  symmetry. apply Nat.ltb_lt. unfold MAX_CURSOR_BYTES. apply Nat.div_le_lower_bound; lia.
Qed.
End cursors.

(** * Examples *)

Lemma cursor_roundtrip_witness :
  decode_cursor "workflows" (cursor_text "workflows" (MkCursorPosition 1000 "7"))
  = Ok (MkCursorPosition 1000 "7").
Proof. apply (cursor_roundtrip "workflows" (MkCursorPosition 1000 "7") _ eq_refl); reflexivity. Defined.

Definition nightly_snapshot : Snapshot := MkSnapshot nightly_ticked 14500000.

Definition fits_b {R} (position : R → Z * Z) (rows : list R) : bool :=
  forallb (λ r, in_i64 (position r).1 && in_i64 (position r).2) rows.

Lemma fits_b_true {R} (position : R → Z * Z) rows : fits_b position rows = true → fits position rows.
Proof.
  intros Hf r Hr. unfold fits_b in Hf. rewrite forallb_forall in Hf.
  apply andb_true_iff, Hf. by apply list_elem_of_In.
Qed.

Lemma nightly_readable : readable nightly_snapshot.
Proof.
  split; [by vm_compute|apply reachable_ok, nightly_ticked_reachable
         |apply reachable_sched_ok, nightly_ticked_reachable; apply ExampleChronoLaws|..];
    apply fits_b_true; by vm_compute.
Qed.

Definition two_a_page : PageRequest := MkPageRequest None (Some 2%Z).
Definition every_workflow : WorkflowListFilter :=
  MkWorkflowListFilter two_a_page None None None None None None None None.
Definition every_activity : ActivityListFilter :=
  MkActivityListFilter two_a_page None None None None None None None.
Definition every_approval : ApprovalListFilter :=
  MkApprovalListFilter two_a_page None None None None None None.

Lemma listings_are_complete_witness :
  workflow_pages every_workflow (λ _ _, nightly_snapshot)
  ∧ activity_pages every_activity (λ _ _, nightly_snapshot)
  ∧ approval_pages every_approval (λ _ _, nightly_snapshot)
  ∧ run_pages "nightly" two_a_page (λ _ _, nightly_snapshot).
Proof.
  apply (listings_are_complete every_workflow every_activity every_approval "nightly" two_a_page 2);
    try reflexivity.
  - intros _ _. exact nightly_readable.
  - intros _ _. vm_compute. eexists. reflexivity.
Defined.

(** The pages that a client gets, by the ids of their items. *)
Fixpoint follow {T I} (ids : T → I) (api : nat → option string → Result (AdminPage T)) (fuel i : nat)
    (cursor : option string) : list (list I) :=
  match fuel, api i cursor with
  | S fuel', Ok p =>
      (ids <$> page_items p)
      :: match page_next_cursor p with
         | Some c => follow ids api fuel' (S i) (Some c)
         | None => []
         end
  | _, _ => []
  end.

Example nightly_run_pages :
  follow srs_id (requests (list_schedule_runs "nightly" ∘ at_cursor two_a_page)
                   (λ _ _, nightly_snapshot)) 10 0 None = [[5; 4]; [3; 2]; [1]]%Z.
Proof. by vm_compute. Qed.
