(* ===== verification/TimelinePages.v ===== *)
(** The timeline of a workflow is complete: reading five tables after a
    cursor, each up to the limit, and merging them gives exactly the pages of
    the one listing of all their rows by time and tie-breaking key. *)
From stdpp Require Import base gmap list strings sorting.
From Stdlib Require Import ZArith Lia Ascii.
From S2P Require Import Prelude.
From S2P Require Import Errors.
From S2P Require Import Status.
From S2P Require Import Rows.
From S2P Require Import Database.
From S2P Require Import Evolution.
From S2P Require Import Progress.
From S2P Require Import ProgressSteps.
From S2P Require Import Text.
From S2P Require Import Keyset.
From S2P Require Import Cursor.
From S2P Require Import AdminTypes.
From S2P Require Import Queries.
From S2P Require Import Timeline.
From S2P Require Import Paging.
From S2P Require Import Calendar.
From S2P Require Import Schedules.
From S2P Require Import AdminSchedules.
From S2P Require Import Pages.
From S2P Require Import Protocol.
From S2P Require Import Scenario.
From S2P Require Import ProgressLog.
From S2P Require Import ExampleCursor.
From S2P Require Import ExampleCalendar.

(** * Keys *)

(** The lexicographic order of components. *)
Fixpoint components_compare (xs ys : list Z) : comparison :=
  match xs, ys with
  | [], [] => Eq
  | [], _ => Lt
  | _, [] => Gt
  | x :: xs, y :: ys => match (x ?= y)%Z with Eq => components_compare xs ys | c => c end
  end.

Definition component (z : Z) : Prop := (0 < z)%Z ∧ in_i64 z = true.

Lemma component_fixed z : component z → fmt_padded 20 z = fixed_digits 20 z.
Proof.
  intros [Hz Hi]. apply (fmt_padded_fixed 19). autounfold with ranges in Hi.
  rewrite andb_true_iff, !Z.leb_le in Hi. simpl Z.of_nat. lia.
Qed.

Lemma component_range z : component z → (0 ≤ z < 10 ^ Z.of_nat 20)%Z.
Proof.
  intros [Hz Hi]. autounfold with ranges in Hi. rewrite andb_true_iff, !Z.leb_le in Hi.
  simpl Z.of_nat. lia.
Qed.

(** The text order of padded components is their order. *)
Lemma join_compare xs ys : length xs = length ys → Forall component xs → Forall component ys →
  String.compare (join ":" (fmt_padded 20 <$> xs)) (join ":" (fmt_padded 20 <$> ys))
  = components_compare xs ys.
Proof.
  intros Hlen Hxs. revert ys Hlen. induction Hxs as [|x xs Hx Hxs IH]; intros [|y ys] Hlen Hys;
    try done. injection Hlen as Hlen. apply Forall_cons in Hys as [Hy Hys].
  assert (∀ l, Forall component l → join ":" (fmt_padded 20 <$> l) = join ":" (fixed_digits 20 <$> l)) as Hj.
  { intros l Hl. f_equal. apply list_fmap_ext. intros i z Hz.
    apply component_fixed. by eapply Forall_lookup_1. }
  assert (∀ z l, component z → join ":" (fmt_padded 20 <$> z :: l)
    = fixed_digits 20 z +:+ match l with [] => "" | _ => ":" +:+ join ":" (fmt_padded 20 <$> l) end) as Hc.
  { intros z l Hz. rewrite fmap_cons, (component_fixed z Hz). destruct l; [|done].
    simpl join. by rewrite append_empty. }
  rewrite !Hc, string_compare_prefix by (done || by rewrite !fixed_length).
  rewrite fixed_compare by by apply component_range. simpl components_compare.
  destruct (x ?= y)%Z; [|done..]. destruct xs as [|x' xs], ys as [|y' ys]; [done..|].
  rewrite string_compare_app. by apply IH.
Qed.

Definition rank (z : Z) : Prop := (0 ≤ z ≤ 4)%Z.

Lemma rank_cases (P : Z → Prop) z : rank z → P 0%Z → P 1%Z → P 2%Z → P 3%Z → P 4%Z → P z.
Proof.
  unfold rank. intros Hz. assert (z = 0 ∨ z = 1 ∨ z = 2 ∨ z = 3 ∨ z = 4)%Z as Hc by lia.
  by destruct Hc as [->|[->|[->|[->| ->]]]].
Qed.

Lemma rank_compare r r' : rank r → rank r' →
  String.compare (fmt r) (fmt r') = (r ?= r')%Z ∧ str_len (fmt r) = str_len (fmt r').
Proof.
  intros Hr Hr'. apply (rank_cases (λ r, String.compare (fmt r) (fmt r') = (r ?= r')%Z
    ∧ str_len (fmt r) = str_len (fmt r'))); [done|..];
    match goal with |- String.compare (fmt ?z) _ = _ ∧ _ =>
      by apply (rank_cases (λ r', String.compare (fmt z) (fmt r') = (z ?= r')%Z
        ∧ str_len (fmt z) = str_len (fmt r')))
    end.
Qed.

(** The components that a key of a rank has. *)
Definition components_of (z : Z) (cs : list Z) : Prop :=
  rank z ∧ expected_components z = Some (length cs) ∧ Forall component cs
  ∧ (∀ i c, (0 < i)%nat → cs !! i = Some c → in_i32 c = true).

Lemma timeline_key_compare r cs r' cs' : components_of r cs → components_of r' cs' →
  String.compare (timeline_key r cs) (timeline_key r' cs')
  = match (r ?= r')%Z with Eq => components_compare cs cs' | c => c end.
Proof.
  intros (Hr & Hn & Hc & _) (Hr' & Hn' & Hc' & _).
  destruct (rank_compare r r' Hr Hr') as [E El]. unfold timeline_key.
  rewrite string_compare_prefix, E by done. destruct (Z.compare_spec r r') as [->|_|_]; [|done..].
  rewrite string_compare_app. apply join_compare; [congruence|done..].
Qed.

Lemma components_compare_eq xs ys : components_compare xs ys = Eq → xs = ys.
Proof.
  revert ys. induction xs as [|x xs IH]; intros [|y ys]; try done. simpl.
  destruct (Z.compare_spec x y) as [->|?|?]; [|done..]. intros Hc. by rewrite (IH ys Hc).
Qed.

Lemma timeline_key_inj r cs r' cs' : components_of r cs → components_of r' cs' →
  timeline_key r cs = timeline_key r' cs' → r = r' ∧ cs = cs'.
Proof.
  intros Hc Hc' Hk. pose proof (timeline_key_compare r cs r' cs' Hc Hc') as Hcmp.
  rewrite Hk, string_compare_refl in Hcmp. destruct (Z.compare_spec r r') as [->|?|?]; [|done..].
  split; [done|]. by apply components_compare_eq.
Qed.

(** * Cursors *)

Lemma fixed_plain w z : plain (fixed_digits w z).
Proof. revert z. induction w as [|w IH]; intros z; [done|]. unfold plain. simpl. by rewrite digit_plain, IH. Qed.

Lemma join_components cs : Forall component cs →
  plain (join ":" (fmt_padded 20 <$> cs)) ∧ (str_len (join ":" (fmt_padded 20 <$> cs)) ≤ 21 * length cs)%nat.
Proof.
  unfold plain. induction 1 as [|c cs Hc _ [IHp IHl]]; [done|].
  rewrite fmap_cons, (component_fixed c Hc). destruct cs as [|c' cs].
  - change (join ":" (fixed_digits 20 c :: (fmt_padded 20 <$> []))) with (fixed_digits 20 c).
    rewrite fixed_length. split; [apply fixed_plain|cbn; lia].
  - change (join ":" (fixed_digits 20 c :: (fmt_padded 20 <$> c' :: cs)))
      with (fixed_digits 20 c +:+ ":" +:+ join ":" (fmt_padded 20 <$> c' :: cs)).
    rewrite !all_bytes_app, IHp, !str_len_app, fixed_length, (fixed_plain 20 c).
    change (str_len ":") with 1%nat. cbn [length] in *. split; [done|lia].
Qed.

Lemma expected_components_bound r n : expected_components r = Some n → (0 < n ≤ 3)%nat.
Proof. unfold expected_components. repeat case_match; intros; simplify_eq; lia. Qed.

Lemma timeline_key_tie r cs : components_of r cs → cursor_tie (timeline_key r cs).
Proof.
  intros (Hr & Hn%expected_components_bound & Hc & _). destruct (join_components cs Hc) as [Hp Hl].
  assert (plain (fmt r) ∧ str_len (fmt r) = 1%nat) as [Hrp Hrl]
    by by apply (rank_cases (λ r, plain (fmt r) ∧ str_len (fmt r) = 1%nat)).
  unfold timeline_key. split.
  - rewrite !str_len_app, Hrl. change (str_len ":") with 1%nat. lia.
  - unfold plain in *. by rewrite !all_bytes_app, Hrp, Hp.
Qed.

Lemma parse_component z : component z → parse_i64 (fmt_padded 20 z) = Some z.
Proof.
  intros Hz. pose proof (component_range z Hz) as Hr. rewrite component_fixed by done.
  rewrite (fixed_S 19). rewrite parse_unsigned.
  - rewrite <- fixed_S, parse_fixed by done. simpl. unfold i64_try_from.
    by rewrite Z.add_0_l, (proj2 Hz).
  - unfold Text.digit, pretty.pretty_N_char. by repeat case_match.
  - unfold Text.digit, pretty.pretty_N_char. by repeat case_match.
Qed.

(** The cursor that a key stands for. *)
Definition timeline_cursor (t r : Z) (cs : list Z) : TimelineCursor :=
  MkTimelineCursor t r (default 0%Z (cs !! 0%nat)) (default 0%Z (cs !! 1%nat))
    (default 0%Z (cs !! 2%nat)).

Lemma component_i32_ok cs i message : (∀ c, cs !! i = Some c → in_i32 c = true) →
  component_i32 cs i message = Ok (default 0%Z (cs !! i)).
Proof.
  intros Hc. unfold component_i32. destruct (cs !! i) as [c|]; [|done]. simpl.
  unfold i32_try_from. by rewrite Hc.
Qed.

Section cursors.
Context `{CursorLaws}.

Definition timeline_text (workflow_id : WorkflowId) (k : Z * string) : string :=
  cursor_text (timeline_scope workflow_id) (MkCursorPosition k.1 k.2).

Lemma decode_timeline_key scope t r cs :
  cursor_scope scope → in_i64 t = true → components_of r cs →
  decode_timeline_cursor scope (cursor_text scope (MkCursorPosition t (timeline_key r cs)))
  = Ok (timeline_cursor t r cs).
Proof.
  intros Hs Ht Hcs. unfold decode_timeline_cursor.
  rewrite decode_cursor_text by (done || by apply timeline_key_tie).
  rewrite String.eqb_refl. cbn [res_bind cp_tie_breaker cp_timestamp].
  destruct Hcs as (Hr & Hn & Hc & Hi).
  assert (split_on ":" (timeline_key r cs) = fmt r :: (fmt_padded 20 <$> cs)) as ->.
  { replace (timeline_key r cs) with (join ":" (fmt r :: (fmt_padded 20 <$> cs))).
    - apply (split_on_join ":"); [done|]. constructor.
      + by apply (rank_cases (λ r, lacks ":" (fmt r))).
      + apply Forall_fmap. eapply Forall_impl; [exact Hc|]. intros z Hz. simpl.
        rewrite component_fixed by done. apply fixed_lacks.
    - destruct cs; [|done]. apply expected_components_bound in Hn. cbn in Hn. lia. }
  assert (parse_u8 (fmt r) = Some r) as ->
    by by apply (rank_cases (λ r, parse_u8 (fmt r) = Some r)).
  cbn [res_bind ok_or]. rewrite collect_fmap, (collect_Ok _ id).
  - rewrite list_fmap_id. cbn [res_bind]. rewrite Hn. cbn [res_bind ok_or]. rewrite Nat.eqb_refl.
    cbn [negb orb]. assert (existsb (λ value, (value <=? 0)%Z) cs = false) as ->.
    { apply not_true_iff_false. rewrite existsb_exists. intros (z & Hz%list_elem_of_In & Hz0).
      rewrite Forall_forall in Hc. destruct (Hc z Hz). lia. }
    rewrite !component_i32_ok by (intros c; apply Hi; lia). done.
  - intros z Hz. rewrite Forall_forall in Hc. cbn. by rewrite parse_component by auto.
Qed.
End cursors.

(** * Sources *)

(** A decoded cursor and the key it stands for. *)
Definition stands_for (after : option (Z * string)) (cursor : option TimelineCursor) : Prop :=
  match after, cursor with
  | None, None => True
  | Some k, Some c =>
      ∃ r cs, components_of r cs ∧ k.2 = timeline_key r cs ∧ c = timeline_cursor k.1 r cs
  | _, _ => False
  end.

Lemma numeric_later_spec id t r cs : length cs = 1%nat →
  numeric_later id (timeline_cursor t r cs) = true ↔ components_compare cs [id] = Lt.
Proof.
  destruct cs as [|x [|]]; try done. intros _. unfold numeric_later. cbn.
  rewrite Z.ltb_lt, <- Z.compare_lt_iff. by destruct (x ?= id)%Z.
Qed.

Lemma attempt_later_spec id n t r cs : length cs = 2%nat →
  attempt_later id n (timeline_cursor t r cs) = true ↔ components_compare cs [id; n] = Lt.
Proof.
  destruct cs as [|x [|y [|]]]; try done. intros _. unfold attempt_later. cbn.
  rewrite orb_true_iff, andb_true_iff, !Z.ltb_lt, Z.eqb_eq.
  destruct (Z.compare_spec x id) as [->|?|?]; [|split; [done|auto]|split; [lia|done]].
  destruct (Z.compare_spec y n) as [->|?|?]; split; try done; try (intros; exfalso; lia); auto.
Qed.

Lemma progress_later_spec id n s t r cs : length cs = 3%nat →
  progress_later id n s (timeline_cursor t r cs) = true ↔ components_compare cs [id; n; s] = Lt.
Proof.
  destruct cs as [|x [|y [|z [|]]]]; try done. intros _. unfold progress_later. cbn.
  rewrite !orb_true_iff, !andb_true_iff, !orb_true_iff, !andb_true_iff, !Z.ltb_lt, !Z.eqb_eq.
  destruct (Z.compare_spec x id) as [->|?|?]; [|split; [done|auto]|split; [lia|done]].
  destruct (Z.compare_spec y n) as [->|?|?]; [|split; [done|auto]|split; [lia|done]].
  destruct (Z.compare_spec z s) as [->|?|?]; split; try done; try (intros; exfalso; lia); auto.
Qed.

Section source.
Context `{JsonText} {R K : Type} (rk : Z) (time : R → Z) (comps : R → list Z)
  (later : R → TimelineCursor → bool) (env : R → TimelineEnvelope)
  (cmp : K → K → comparison) (key : R → K).
Hypothesis Henv : ∀ r, envelope_position (env r) = (time r, timeline_key rk (comps r)).
Hypothesis Hlater : ∀ r t cs, length cs = length (comps r) →
  later r (timeline_cursor t rk cs) = true ↔ components_compare cs (comps r) = Lt.
Hypothesis Hkey : ∀ a b, cmp (key a) (key b)
  = match (time a ?= time b)%Z with Eq => components_compare (comps a) (comps b) | c => c end.

(** The cursor clause of a source selects the rows whose entries are after the
    cursor. *)
Lemma after_timeline_cursor_beyond after cursor r : stands_for after cursor → components_of rk (comps r) →
  after_timeline_cursor cursor rk (time r) (later r) = true
  ↔ beyond timeline_order envelope_position after (env r).
Proof.
  intros Hd Hr. destruct after as [k|], cursor as [c|]; [|done..].
  destruct Hd as (rc & cs & Hcs & Hk & ->). simpl. rewrite Henv. unfold timeline_order, pair_cmp.
  cbn [fst snd]. rewrite Hk, timeline_key_compare by done. cbn [tc_rank tc_timestamp timeline_cursor].
  destruct (Z.compare_spec rc rk) as [->|Hlt|Hgt].
  - rewrite Z.ltb_irrefl. rewrite orb_true_iff, andb_true_iff, Z.ltb_lt, Z.eqb_eq.
    destruct Hcs as (_ & Hn & _), Hr as (_ & Hn' & _).
    rewrite (Hlater r k.1 cs) by congruence.
    destruct (Z.compare_spec k.1 (time r)) as [->|?|?]; split; try done; try lia; auto.
    intros [?|[_ ?]]; [lia|done].
  - rewrite (proj2 (Z.ltb_ge rk rc)), (proj2 (Z.ltb_lt rc rk)), Z.leb_le by lia.
    destruct (Z.compare_spec k.1 (time r)); split; (done || lia).
  - rewrite (proj2 (Z.ltb_lt rk rc)), Z.ltb_lt by lia.
    destruct (Z.compare_spec k.1 (time r)); split; (done || lia).
Qed.

(** The rows that a source contributes, and what its statement reads. *)
Lemma source_rows after cursor (P : R → bool) (rows : list R) n : stands_for after cursor →
  (∀ r, r ∈ rows → P r = true → components_of rk (comps r)) →
  env <$> take n (order_by cmp key
    (filter (λ r, P r && after_timeline_cursor cursor rk (time r) (later r) = true) rows))
  = take n (listing timeline_order envelope_position
      (filter (beyond timeline_order envelope_position after)
         (env <$> filter (λ r, P r = true) rows))).
Proof.
  intros Hd Hrows. rewrite fmap_take. f_equal.
  rewrite (order_by_fmap cmp timeline_order key envelope_position env).
  - unfold listing. f_equal. rewrite filter_fmap. f_equal. rewrite list_filter_filter.
    apply filter_ext_in. intros r Hr. rewrite andb_true_iff. split.
    + intros [HP Ha]. split; [|done]. by apply (after_timeline_cursor_beyond after cursor r); auto.
    + intros [Hb HP]. split; [done|]. by apply (after_timeline_cursor_beyond after cursor r); auto.
  - intros a b Ha Hb. rewrite Hkey, !Henv. unfold timeline_order, pair_cmp. cbn [fst snd].
    apply list_elem_of_filter in Ha as [[HPa _]%andb_true_iff Ha].
    apply list_elem_of_filter in Hb as [[HPb _]%andb_true_iff Hb].
    rewrite timeline_key_compare by auto. by rewrite Z.compare_refl.
Qed.

(** Rows with distinct components have distinct positions. *)
Lemma source_nodup (rows : list R) : (∀ r, r ∈ rows → components_of rk (comps r)) →
  NoDup (comps <$> rows) → NoDup (envelope_position <$> (env <$> rows)).
Proof.
  intros Hrows. induction rows as [|x rows IH]; [constructor|].
  rewrite !fmap_cons, !NoDup_cons. intros [Hx Hnd]. split.
  - intros (e & Hk & (y & -> & Hy)%list_elem_of_fmap)%list_elem_of_fmap. apply Hx.
    rewrite !Henv in Hk. injection Hk as _ Hk.
    apply timeline_key_inj in Hk as [_ ->]; [by apply list_elem_of_fmap_2|..];
      apply Hrows; [by left|by right].
  - apply IH; [|done]. intros r Hr. apply Hrows. by right.
Qed.
End source.

(** * Merging *)

Section merge.
Context `{JsonText}.

(** An entry whose key has the rank. *)
Definition of_rank (rk : Z) (e : TimelineEnvelope) : Prop :=
  ∃ cs, components_of rk cs ∧ tev_tie_breaker e = timeline_key rk cs.

Lemma ranked_nodup (sources : list (Z * list TimelineEnvelope)) : NoDup sources.*1 →
  Forall (λ s, Forall (of_rank s.1) s.2 ∧ NoDup (envelope_position <$> s.2)) sources →
  NoDup (envelope_position <$> mjoin sources.*2).
Proof.
  induction sources as [|[rk s] sources IH]; [constructor|].
  intros [Hrk Hnd]%NoDup_cons [[Hs Hsd] Hall]%Forall_cons.
  cbn [fmap list_fmap mjoin list_join snd fst]. rewrite fmap_app, NoDup_app.
  split_and!; [done| |by apply IH].
  intros k (e & -> & He)%list_elem_of_fmap (e' & Hk & He')%list_elem_of_fmap.
  apply list_elem_of_join in He' as (s' & He' & ([rk' ?] & -> & Hin)%list_elem_of_fmap).
  rewrite !Forall_forall in *. destruct (Hs e He) as (cs & Hcs & E).
  destruct (Hall _ Hin) as [Hs' _]. rewrite Forall_forall in Hs'.
  destruct (Hs' e' He') as (cs' & Hcs' & E'). injection Hk as _ Hk. rewrite E, E' in Hk.
  destruct (timeline_key_inj _ _ _ _ Hcs Hcs' Hk) as [Erk _]. apply Hrk.
  apply (list_elem_of_fmap_2 fst) in Hin. cbn in *. by rewrite Erk.
Qed.

(** The page of entries read after the cursor, source by source. *)
Lemma merged_page (sources : list (list TimelineEnvelope)) after limit :
  NoDup (envelope_position <$> mjoin sources) →
  let read := order_by timeline_order envelope_position
    (mjoin ((λ s, take (S limit) (listing timeline_order envelope_position
       (filter (beyond timeline_order envelope_position after) s))) <$> sources)) in
  take limit read = page timeline_order envelope_position limit (mjoin sources) after
  ∧ (limit <? length read)%nat
    = (limit <? length (remaining timeline_order envelope_position (mjoin sources) after))%nat.
Proof.
  intros Hnd read.
  assert (filter (beyond timeline_order envelope_position after) (mjoin sources)
    = mjoin (filter (beyond timeline_order envelope_position after) <$> sources)) as Hf.
  { clear. induction sources as [|s ss IH]; [done|]. simpl. by rewrite filter_app, IH. }
  assert (take (S limit) read
    = take (S limit) (remaining timeline_order envelope_position (mjoin sources) after)) as Ht.
  { unfold remaining. rewrite <- (listing_filter timeline_order envelope_position
      (beyond timeline_order envelope_position after) (mjoin sources) Hnd), Hf.
    rewrite <- (take_merge timeline_order envelope_position (S limit)).
    - unfold read. rewrite <- list_fmap_compose. done.
    - rewrite <- Hf. by eapply NoDup_part, sublist_submseteq, sublist_filter. }
  split.
  - unfold page. rewrite <- (fetched_take limit read), Ht. apply fetched_take.
  - rewrite <- (fetched_more limit read), Ht. apply fetched_more.
Qed.
End merge.

(** * The timeline *)

(** Rows numbered within their groups are distinct. *)
Lemma nodup_grouped {A} (group : A → Z * Z) (number : A → Z) (l : list A) :
  (∀ k, NoDup (number <$> filter (λ r, group r = k) l)) → NoDup ((λ r, (group r, number r)) <$> l).
Proof.
  induction l as [|x l IH]; intros Hnd; [constructor|]. rewrite fmap_cons, NoDup_cons. split.
  - intros (y & Hk & Hy)%list_elem_of_fmap. injection Hk as Hg Hn.
    specialize (Hnd (group x)). rewrite filter_cons_True, fmap_cons, NoDup_cons in Hnd by done.
    apply (proj1 Hnd). rewrite Hn. apply list_elem_of_fmap_2, list_elem_of_filter. done.
  - apply IH. intros k. specialize (Hnd k). rewrite filter_cons in Hnd.
    case_decide; [|done]. by apply NoDup_cons in Hnd as [_ ?].
Qed.

Section timeline.
Context `{CursorLaws, JsonText, Chrono, Collation}.

Definition activity_env (r : ActivityRow) : TimelineEnvelope :=
  MkTimelineEnvelope (ac_created_at r) (timeline_key 1 [ac_id r]) (EntryActivity (activity_item r)).

Definition attempt_item (r : ActivityAttemptRow) : ActivityAttemptSummary :=
  MkActivityAttemptSummary (att_activity_id r) (att_attempt_number r) (att_worker_id r)
    (att_started_at r) (att_heartbeat_at r) (att_finished_at r) (as_str <$> att_outcome r)
    (att_error_category r) (att_error_message r) (from_optional (att_provider_result_json r)).

Definition attempt_env (r : ActivityAttemptRow) : TimelineEnvelope :=
  MkTimelineEnvelope (att_started_at r) (timeline_key 2 [att_activity_id r; att_attempt_number r])
    (EntryActivityAttempt (attempt_item r)).

Definition stored_approval_item (r : ApprovalRow) : ApprovalSummary :=
  MkApprovalSummary (ap_id r) (ap_workflow_id r) (ap_kind r) (ap_version r)
    (as_str (ap_status r)) (from_optional (ap_decision_payload_json r)) (ap_decided_by r)
    (ap_operator_reason r) (ap_requested_at r) (ap_expires_at r) (ap_resolved_at r).

Definition approval_env (r : ApprovalRow) : TimelineEnvelope :=
  MkTimelineEnvelope (ap_requested_at r) (timeline_key 4 [ap_id r])
    (EntryApproval (stored_approval_item r)).

Lemma activity_envelope_env r : activity_envelope r = Ok (activity_env r).
Proof. unfold activity_envelope. by rewrite activity_summary_item. Qed.

Lemma attempt_envelope_env r : attempt_envelope r = Ok (attempt_env r).
Proof. unfold attempt_envelope, attempt_summary. by rewrite optional_json_summary_length. Qed.

Lemma approval_envelope_env r : approval_envelope r = Ok (approval_env r).
Proof. unfold approval_envelope, stored_approval_summary. by rewrite optional_json_summary_length. Qed.

(** The rows of a workflow in each table. *)
Definition events_of (id : WorkflowId) (d : Db) : list WorkflowEventRow :=
  filter (λ ev, (ev_workflow_id ev =? id)%Z = true) (db_event d).
Definition activities_of (id : WorkflowId) (d : Db) : list ActivityRow :=
  filter (λ r, (ac_workflow_id r =? id)%Z = true) (table (db_activity d)).
Definition attempts_of (id : WorkflowId) (d : Db) : list ActivityAttemptRow :=
  filter (λ r, activity_in d id (att_activity_id r) = true) (table (db_attempt d)).
Definition reports_of (id : WorkflowId) (d : Db) : list ProgressEventRow :=
  filter (λ r, activity_in d id (pr_activity_id r) = true) (db_progress d).
Definition approvals_of (id : WorkflowId) (d : Db) : list ApprovalRow :=
  filter (λ r, (ap_workflow_id r =? id)%Z = true) (table (db_approval d)).

(** All entries of a workflow, as the five statements of a request see them. *)
Definition timeline_sources (id : WorkflowId) (h : nat → Snapshot)
    : list (Z * list TimelineEnvelope) :=
  [(0%Z, event_envelope <$> events_of id (sn_db (h 1%nat)));
   (1%Z, activity_env <$> activities_of id (sn_db (h 2%nat)));
   (2%Z, attempt_env <$> attempts_of id (sn_db (h 3%nat)));
   (3%Z, progress_envelope <$> reports_of id (sn_db (h 4%nat)));
   (4%Z, approval_env <$> approvals_of id (sn_db (h 5%nat)))].

Definition timeline_entries (id : WorkflowId) (h : nat → Snapshot) : list TimelineEnvelope :=
  mjoin (timeline_sources id h).*2.

(** What the tables store fits its columns. *)
Record timeline_fits (d : Db) : Prop := {
  tf_event : ∀ ev, ev ∈ db_event d → in_i64 (ev_created_at ev) = true ∧ in_i64 (ev_id ev) = true;
  tf_activity : ∀ id r, db_activity d !! id = Some r →
    in_i64 (ac_created_at r) = true ∧ in_i64 (ac_id r) = true;
  tf_attempt : ∀ k r, db_attempt d !! k = Some r →
    in_i64 (att_started_at r) = true ∧ in_i32 (att_attempt_number r) = true;
  tf_progress : ∀ r, r ∈ db_progress d → in_i64 (pr_created_at r) = true
    ∧ in_i32 (pr_attempt_number r) = true ∧ in_i32 (pr_sequence r) = true;
  tf_approval : ∀ id r, db_approval d !! id = Some r →
    in_i64 (ap_requested_at r) = true ∧ in_i64 (ap_id r) = true;
}.

Lemma in_i32_i64 z : in_i32 z = true → in_i64 z = true.
Proof. autounfold with ranges. rewrite !andb_true_iff, !Z.leb_le. lia. Qed.

Lemma one_component rk z : expected_components rk = Some 1%nat → rank rk → component z →
  components_of rk [z].
Proof.
  intros Hn Hr Hz. split_and!; [done|done|by constructor|]. intros [|i] c Hi Hc; [lia|done].
Qed.

(** What one table contributes. *)
Record source_ok (rk : Z) (es : list TimelineEnvelope) : Prop := {
  so_rank : Forall (of_rank rk) es;
  so_time : Forall (λ e, in_i64 (tev_occurred_at e) = true) es;
  so_nodup : NoDup (envelope_position <$> es);
}.

Lemma source_ok_intro {R} rk (time : R → Z) (comps : R → list Z) (env : R → TimelineEnvelope) rows :
  (∀ r, envelope_position (env r) = (time r, timeline_key rk (comps r))) →
  (∀ r, r ∈ rows → in_i64 (time r) = true ∧ components_of rk (comps r)) →
  NoDup (comps <$> rows) → source_ok rk (env <$> rows).
Proof.
  intros Henv Hrows Hnd. assert (∀ r, tev_occurred_at (env r) = time r
    ∧ tev_tie_breaker (env r) = timeline_key rk (comps r)) as Htie.
  { intros r. specialize (Henv r). by injection Henv. }
  split.
  - apply Forall_fmap, Forall_forall. intros r Hr. exists (comps r).
    split; [by apply Hrows|by apply Htie].
  - apply Forall_fmap, Forall_forall. intros r Hr. cbn. rewrite (proj1 (Htie r)). by apply Hrows.
  - apply (source_nodup rk time comps env Henv); [|done]. intros r Hr. by apply Hrows.
Qed.

Section sources.
Context (id : WorkflowId) (d : Db) (Hok : db_ok d) (Hfits : timeline_fits d).

Lemma events_components ev : ev ∈ events_of id d →
  in_i64 (ev_created_at ev) = true ∧ components_of 0 [ev_id ev].
Proof.
  intros [_ Hev]%list_elem_of_filter. destruct (tf_event _ Hfits ev Hev) as [? ?].
  split; [done|]. apply one_component; [done|done|].
  split; [|done]. apply (ok_event_pos _ Hok ev Hev).
Qed.

Lemma events_ok : source_ok 0 (event_envelope <$> events_of id d).
Proof.
  apply (source_ok_intro 0 ev_created_at (λ ev, [ev_id ev]));
    [done|apply events_components|].
  rewrite (list_fmap_compose ev_id (λ z, [z])). apply NoDup_fmap_2; [by intros ?? [=]|].
  eapply NoDup_part; [apply (ok_event_id _ Hok)|apply sublist_submseteq, sublist_filter].
Qed.

Lemma table_nodup_by {R K} `{Countable K} (m : gmap K R) (f : R → list Z) (g : K → list Z) :
  Inj (=) (=) g → (∀ k r, m !! k = Some r → f r = g k) → NoDup (f <$> table m).
Proof.
  intros Hg Hf. unfold table. rewrite <- list_fmap_compose.
  erewrite (list_fmap_ext _ (g ∘ fst)).
  - rewrite list_fmap_compose. apply NoDup_fmap_2; [done|apply NoDup_fst_map_to_list].
  - intros i [k r] Hi%list_elem_of_lookup_2%elem_of_map_to_list. by apply Hf.
Qed.

Lemma activities_components r : r ∈ activities_of id d →
  in_i64 (ac_created_at r) = true ∧ components_of 1 [ac_id r].
Proof.
  intros [_ (k & Hr)%elem_of_table]%list_elem_of_filter.
  destruct (tf_activity _ Hfits k r Hr) as [? ?]. split; [done|].
  apply one_component; [done|done|]. split; [|done].
  destruct (ok_activity _ Hok k r Hr) as (-> & _). by eapply ok_activity_pos.
Qed.

Lemma activities_ok : source_ok 1 (activity_env <$> activities_of id d).
Proof.
  apply (source_ok_intro 1 ac_created_at (λ r, [ac_id r]));
    [done|apply activities_components|].
  eapply NoDup_part; [|apply sublist_submseteq, sublist_filter].
  apply (table_nodup_by _ _ (λ z, [z])); [by intros ?? [=]|].
  intros k r Hr. by destruct (ok_activity _ Hok k r Hr) as (-> & _).
Qed.

(** The activity that a joined row refers to. *)
Lemma activity_in_component a : activity_in d id a = true → component a.
Proof.
  unfold activity_in. destruct (db_activity d !! a) as [r|] eqn:Hr; [|done]. intros _.
  destruct (ok_activity _ Hok a r Hr) as (Ea & _). destruct (tf_activity _ Hfits a r Hr) as [_ ?].
  split; [by eapply ok_activity_pos|by rewrite <- Ea].
Qed.

Lemma attempts_components r : r ∈ attempts_of id d →
  in_i64 (att_started_at r) = true ∧ components_of 2 [att_activity_id r; att_attempt_number r].
Proof.
  intros [Ha%activity_in_component (k & Hr)%elem_of_table]%list_elem_of_filter.
  destruct (tf_attempt _ Hfits k r Hr) as [? Hn], (ok_attempt _ Hok k r Hr) as (_ & Hpos & _).
  split; [done|]. split_and!; [done|done| |].
  - repeat constructor; [apply Ha..|done|by apply in_i32_i64].
  - intros [|[|i]] c Hi Hc; [lia|by injection Hc as <-|done].
Qed.

Lemma attempts_ok : source_ok 2 (attempt_env <$> attempts_of id d).
Proof.
  apply (source_ok_intro 2 att_started_at (λ r, [att_activity_id r; att_attempt_number r]));
    [done|apply attempts_components|].
  eapply NoDup_part; [|apply sublist_submseteq, sublist_filter].
  apply (table_nodup_by _ _ (λ k, [k.1; k.2])); [by intros [] [] [= -> ->]|].
  intros k r Hr. by destruct (ok_attempt _ Hok k r Hr) as (-> & _).
Qed.

Context (Hlog : progress_ok d).

Lemma sequence_pos r : r ∈ db_progress d → (0 < pr_sequence r)%Z.
Proof.
  intros Hr. destruct (po_sequences _ Hlog (pr_activity_id r) (pr_attempt_number r)) as [E _].
  assert (pr_sequence r ∈ pr_sequence <$> progress_of d (pr_activity_id r) (pr_attempt_number r))
    as Hin by (apply list_elem_of_fmap_2, list_elem_of_filter; done).
  rewrite E in Hin. apply elem_of_seqZ in Hin. lia.
Qed.

Lemma reports_components r : r ∈ reports_of id d → in_i64 (pr_created_at r) = true
  ∧ components_of 3 [pr_activity_id r; pr_attempt_number r; pr_sequence r].
Proof.
  intros [Ha%activity_in_component Hr]%list_elem_of_filter.
  destruct (tf_progress _ Hfits r Hr) as (? & Hn & Hs), (ok_progress _ Hok r Hr) as [[x Hx] _].
  destruct (ok_attempt _ Hok _ x Hx) as (E & Hpos & _). injection E as _ E.
  split; [done|]. split_and!; [done|done| |].
  - repeat constructor; try apply Ha; try (by apply in_i32_i64); [lia|by apply sequence_pos].
  - intros [|[|[|i]]] c Hi Hc; [lia|by injection Hc as <-|by injection Hc as <-|done].
Qed.

Lemma reports_ok : source_ok 3 (progress_envelope <$> reports_of id d).
Proof.
  apply (source_ok_intro 3 pr_created_at
    (λ r, [pr_activity_id r; pr_attempt_number r; pr_sequence r])); [done|apply reports_components|].
  eapply NoDup_part; [|apply sublist_submseteq, sublist_filter].
  rewrite (list_fmap_compose (λ r, (pr_activity_id r, pr_attempt_number r, pr_sequence r))
    (λ k : Z * Z * Z, [k.1.1; k.1.2; k.2])).
  apply NoDup_fmap_2; [by intros [[]] [[]] [= -> -> ->]|].
  apply (nodup_grouped (λ r, (pr_activity_id r, pr_attempt_number r)) pr_sequence).
  intros [a n]. destruct (po_sequences _ Hlog a n) as [E _].
  erewrite (list_filter_iff _ (λ r, pr_activity_id r = a ∧ pr_attempt_number r = n));
    [|intros r; split; [by intros [= -> ->]|by intros [-> ->]]].
  unfold progress_of in E. rewrite E. apply NoDup_seqZ.
Qed.

Lemma approvals_components r : r ∈ approvals_of id d →
  in_i64 (ap_requested_at r) = true ∧ components_of 4 [ap_id r].
Proof.
  intros [_ (k & Hr)%elem_of_table]%list_elem_of_filter.
  destruct (tf_approval _ Hfits k r Hr) as [? ?]. split; [done|].
  apply one_component; [done|done|]. split; [|done].
  destruct (ok_approval _ Hok k r Hr) as (-> & _). by eapply ok_approval_pos.
Qed.

Lemma approvals_ok : source_ok 4 (approval_env <$> approvals_of id d).
Proof.
  apply (source_ok_intro 4 ap_requested_at (λ r, [ap_id r])); [done|apply approvals_components|].
  eapply NoDup_part; [|apply sublist_submseteq, sublist_filter].
  apply (table_nodup_by _ _ (λ z, [z])); [by intros ?? [=]|].
  intros k r Hr. by destruct (ok_approval _ Hok k r Hr) as (-> & _).
Qed.
End sources.

(** The tables that a statement may see. *)
Record timeline_readable (d : Db) : Prop := {
  tr_ok : db_ok d;
  tr_log : progress_ok d;
  tr_fits : timeline_fits d;
}.

(** The [ORDER BY] of a source is the order of its keys. *)
Ltac source_order := intros; unfold pair_cmp; cbn; by repeat case_match.

Section request.
Context (id : WorkflowId) (h : nat → Snapshot) (Hh : ∀ j, timeline_readable (sn_db (h j))).

Lemma timeline_sources_ok : Forall (λ s, source_ok s.1 s.2) (timeline_sources id h).
Proof.
  unfold timeline_sources. repeat constructor; cbn [fst snd];
    (apply events_ok || apply activities_ok || apply attempts_ok || apply reports_ok
     || apply approvals_ok); apply Hh.
Qed.

Lemma timeline_entries_nodup : NoDup (envelope_position <$> timeline_entries id h).
Proof.
  apply ranked_nodup; [by vm_compute; repeat constructor; set_solver|].
  eapply Forall_impl; [apply timeline_sources_ok|]. intros s []. by split.
Qed.

(** The key of an entry. *)
Definition timeline_position (k : Z * string) : Prop :=
  in_i64 k.1 = true ∧ ∃ r cs, components_of r cs ∧ k.2 = timeline_key r cs.

Lemma timeline_entries_valid e : e ∈ timeline_entries id h → timeline_position (envelope_position e).
Proof.
  intros (es & He & (s & -> & Hs)%list_elem_of_fmap)%list_elem_of_join.
  pose proof timeline_sources_ok as Hok. rewrite Forall_forall in Hok.
  destruct (Hok s Hs) as [Hr Ht _]. rewrite !Forall_forall in *.
  split; [by apply Ht|]. destruct (Hr e He) as (cs & ? & ?). eauto.
Qed.

(** What the five statements of a request with a cursor read. *)
Lemma timeline_reads after cursor limit : stands_for after cursor →
  (event_envelope <$> timeline_events id cursor (S limit) (sn_db (h 1%nat)))
  ++ (activity_env <$> timeline_activities id cursor (S limit) (sn_db (h 2%nat)))
  ++ (attempt_env <$> timeline_attempts id cursor (S limit) (sn_db (h 3%nat)))
  ++ (progress_envelope <$> timeline_progress id cursor (S limit) (sn_db (h 4%nat)))
  ++ (approval_env <$> timeline_approvals id cursor (S limit) (sn_db (h 5%nat)))
  = mjoin ((λ s, take (S limit) (listing timeline_order envelope_position
      (filter (beyond timeline_order envelope_position after) s))) <$> (timeline_sources id h).*2).
Proof.
  intros Hd. unfold timeline_sources. cbn [fmap list_fmap snd mjoin list_join]. rewrite app_nil_r.
  f_equal; [|f_equal; [|f_equal; [|f_equal]]].
  - refine (source_rows 0 ev_created_at (λ ev, [ev_id ev]) (λ ev, numeric_later (ev_id ev))
      event_envelope _ _ (λ _, eq_refl) (λ ev t, numeric_later_spec (ev_id ev) t 0)
      _ after cursor (λ ev, (ev_workflow_id ev =? id)%Z) _ _ Hd _);
      [source_order|]. intros r Hr HP. eapply events_components; [apply Hh..|]. by apply list_elem_of_filter.
  - refine (source_rows 1 ac_created_at (λ r, [ac_id r]) (λ r, numeric_later (ac_id r))
      activity_env _ _ (λ _, eq_refl) (λ r t, numeric_later_spec (ac_id r) t 1)
      _ after cursor (λ r, (ac_workflow_id r =? id)%Z) _ _ Hd _);
      [source_order|]. intros r Hr HP. eapply activities_components; [apply Hh..|]. by apply list_elem_of_filter.
  - refine (source_rows 2 att_started_at (λ r, [att_activity_id r; att_attempt_number r])
      (λ r, attempt_later (att_activity_id r) (att_attempt_number r)) attempt_env _ _ (λ _, eq_refl)
      (λ r t, attempt_later_spec (att_activity_id r) (att_attempt_number r) t 2)
      _ after cursor (λ r, activity_in _ id (att_activity_id r)) _ _ Hd _);
      [source_order|]. intros r Hr HP. eapply attempts_components; [apply Hh..|]. by apply list_elem_of_filter.
  - refine (source_rows 3 pr_created_at
      (λ r, [pr_activity_id r; pr_attempt_number r; pr_sequence r])
      (λ r, progress_later (pr_activity_id r) (pr_attempt_number r) (pr_sequence r))
      progress_envelope _ _ (λ _, eq_refl)
      (λ r t, progress_later_spec (pr_activity_id r) (pr_attempt_number r) (pr_sequence r) t 3)
      _ after cursor (λ r, activity_in _ id (pr_activity_id r)) _ _ Hd _);
      [source_order|]. intros r Hr HP. eapply reports_components; [apply Hh..|]. by apply list_elem_of_filter.
  - refine (source_rows 4 ap_requested_at (λ r, [ap_id r]) (λ r, numeric_later (ap_id r))
      approval_env _ _ (λ _, eq_refl) (λ r t, numeric_later_spec (ap_id r) t 4)
      _ after cursor (λ r, (ap_workflow_id r =? id)%Z) _ _ Hd _);
      [source_order|]. intros r Hr HP. eapply approvals_components; [apply Hh..|]. by apply list_elem_of_filter.
Qed.
End request.

Lemma timeline_scope_ok id : in_i64 id = true → cursor_scope (timeline_scope id).
Proof.
  intros Hid. unfold timeline_scope. pose proof (fmt_length id Hid). split.
  - rewrite str_len_app. change (str_len "workflow_timeline:") with 18%nat. lia.
  - unfold plain. by rewrite all_bytes_app, (fmt_plain id).
Qed.

Lemma decode_timeline_after id after : in_i64 id = true →
  (∀ k, after = Some k → timeline_position k) →
  ∃ cursor, transpose (decode_timeline_cursor (timeline_scope id)) (timeline_text id <$> after)
            = Ok cursor ∧ stands_for after cursor.
Proof.
  intros Hid Hv. destruct after as [[t tie]|]; [|by exists None].
  destruct (Hv _ eq_refl) as (Ht & r & cs & Hcs & Htie). cbn in Ht, Htie. subst tie.
  exists (Some (timeline_cursor t r cs)). split; [|by exists r, cs].
  unfold timeline_text. cbn -[decode_timeline_cursor cursor_text].
  by rewrite decode_timeline_key by (done || by apply timeline_scope_ok).
Qed.

(** A request answers with a page of the entries. *)
Lemma workflow_timeline_paged id page limit hs :
  in_i64 id = true → bounded_limit page MAX_TIMELINE_PAGE_SIZE = Ok (Z.of_nat limit) →
  (∀ i j, timeline_readable (sn_db (hs i j))) →
  (∀ i, is_Some (db_workflow (sn_db (hs i 0%nat)) !! id)) →
  PagedApi timeline_order envelope_position limit timeline_position (timeline_text id)
    (λ i, timeline_entries id (hs i)) (λ _, tev_entry)
    (requests (workflow_timeline id ∘ at_cursor page) hs).
Proof.
  intros Hid Hlimit Hdb Hwf. split.
  - by eapply bounded_limit_pos.
  - intros i. by apply timeline_entries_nodup.
  - intros i e. by apply timeline_entries_valid.
  - intros i after Hv. destruct (decode_timeline_after id after Hid Hv) as (cursor & Hc & Hd).
    destruct (Hwf i) as [w Hw].
    request. unfold workflow_timeline. answers. rewrite bounded_limit_at, Hlimit. answers.
    cbn [pg_cursor at_cursor]. rewrite Hc. answers. rewrite Hw. answers. rewrite Nat2Z.id.
    rewrite (collect_Ok _ activity_env) by (intros; apply activity_envelope_env). answers.
    rewrite (collect_Ok _ attempt_env) by (intros; apply attempt_envelope_env). answers.
    rewrite (collect_Ok _ approval_env) by (intros; apply approval_envelope_env). answers.
    rewrite (timeline_reads id (hs i) (Hdb i) after cursor limit Hd).
    unfold page_timeline. rewrite Nat2Z.id.
    destruct (merged_page (timeline_sources id (hs i)).*2 after limit
                (timeline_entries_nodup id (hs i) (Hdb i))) as [-> ->].
    rewrite (next_cursor_page timeline_order envelope_position limit _ after (timeline_text id)).
    + done.
    + intros e [_ He]%elem_of_page.
      destruct (timeline_entries_valid id (hs i) (Hdb i) e He) as (_ & r & cs & Hcs & E).
      apply encode_cursor_ok; [by apply timeline_scope_ok|]. cbn in *. rewrite E.
      by apply timeline_key_tie.
Qed.

(** C33: a client who follows the cursors of a workflow's timeline gets its
    events, activities, attempts, progress reports and approvals in the order
    of their times and keys, no entry twice, every entry that is there during
    the whole walk, and on tables at rest exactly all of them, although every
    request reads each of the five tables only after its cursor and up to its
    limit. *)
Theorem timeline_is_complete id page limit hs :
  in_i64 id = true → bounded_limit page MAX_TIMELINE_PAGE_SIZE = Ok (Z.of_nat limit) →
  (∀ i j, timeline_readable (sn_db (hs i j))) →
  (∀ i, is_Some (db_workflow (sn_db (hs i 0%nat)) !! id)) →
  entries_complete timeline_order envelope_position (λ i, timeline_entries id (hs i)) tev_entry
    (requests (workflow_timeline id ∘ at_cursor page) hs).
Proof.
  intros Hid Hlimit Hdb Hwf.
  eapply paged_api_entries; [apply _|by apply workflow_timeline_paged].
Qed.
End timeline.

(** * An example: an order whose charge has reported progress *)

Definition timeline_fits_b (d : Db) : bool :=
  forallb (λ ev, in_i64 (ev_created_at ev) && in_i64 (ev_id ev)) (db_event d)
  && forallb (λ r, in_i64 (ac_created_at r) && in_i64 (ac_id r)) (table (db_activity d))
  && forallb (λ r, in_i64 (att_started_at r) && in_i32 (att_attempt_number r)) (table (db_attempt d))
  && forallb (λ r, in_i64 (pr_created_at r) && in_i32 (pr_attempt_number r) && in_i32 (pr_sequence r))
       (db_progress d)
  && forallb (λ r, in_i64 (ap_requested_at r) && in_i64 (ap_id r)) (table (db_approval d)).

Lemma timeline_fits_b_true d : timeline_fits_b d = true → timeline_fits d.
Proof.
  unfold timeline_fits_b. rewrite !andb_true_iff, !forallb_forall. intros [[[[H1 H2] H3] H4] H5].
  split.
  - intros ev Hev%list_elem_of_In. by apply andb_true_iff, H1.
  - intros id r Hr. apply andb_true_iff, H2, list_elem_of_In, elem_of_table. eauto.
  - intros k r Hr. apply andb_true_iff, H3, list_elem_of_In, elem_of_table. eauto.
  - intros r Hr%list_elem_of_In%H4. rewrite !andb_true_iff in Hr. tauto.
  - intros id r Hr. apply andb_true_iff, H5, list_elem_of_In, elem_of_table. eauto.
Qed.

Lemma charge_reported_readable : timeline_readable charge_reported.
Proof.
  split; [apply reachable_ok, charge_reported_reachable
         |apply reachable_progress_ok, charge_reported_reachable|].
  apply timeline_fits_b_true. by vm_compute.
Qed.

Definition order_history (_ _ : nat) : Snapshot := MkSnapshot charge_reported 5600.

Lemma timeline_is_complete_witness :
  entries_complete timeline_order envelope_position (λ i, timeline_entries 1 (order_history i))
    tev_entry (requests (workflow_timeline 1 ∘ at_cursor two_a_page) order_history).
Proof.
  apply (timeline_is_complete 1 two_a_page 2 order_history); try reflexivity.
  - intros i j. exact charge_reported_readable.
  - intros i. vm_compute. eexists. reflexivity.
Defined.

Definition entry_tag (e : TimelineEntry) : Z :=
  match e with
  | EntryWorkflowEvent _ _ _ _ _ => 0
  | EntryActivity _ => 1
  | EntryActivityAttempt _ => 2
  | EntryProgress _ => 3
  | EntryApproval _ => 4
  end.

Example order_timeline_pages :
  follow entry_tag (requests (workflow_timeline 1 ∘ at_cursor two_a_page) order_history) 10 0 None
  = [[0; 0]; [1; 2]; [3]]%Z.
Proof. by vm_compute. Qed.
