(* ===== verification/MetricsExact.v ===== *)
(** The topic metrics are exact: on tables at rest the grouped statements of
    [load_topic_metrics], whatever the page of topics, give for every topic the
    counts, ages and hourly throughput that its rows define one by one. *)
From stdpp Require Import base gmap list strings.
From Stdlib Require Import ZArith Lia.
From S2P Require Import Prelude.
From S2P Require Import Errors.
From S2P Require Import Status.
From S2P Require Import Rows.
From S2P Require Import Database.
From S2P Require Import Registry.
From S2P Require Import Worker.
From S2P Require Import Health.
From S2P Require Import HealthReports.
From S2P Require Import Text.
From S2P Require Import Keyset.
From S2P Require Import Cursor.
From S2P Require Import AdminTypes.
From S2P Require Import Queries.
From S2P Require Import Metrics.
From S2P Require Import Paging.
From S2P Require Import Pages.
From S2P Require Import ExampleCursor.
From S2P Require Import Scenario.

(** * Groups *)

Lemma count_star_filter_le {A} (P : A → Prop) `{!∀ a, Decision (P a)} (l : list A) :
  (0 ≤ count_star (filter P l) ≤ count_star l)%Z.
Proof. unfold count_star. pose proof (length_filter P l). lia. Qed.

Lemma count_star_nil {A} : count_star (@nil A) = 0%Z.
Proof. done. Qed.

Lemma filter_none {A} (P : A → Prop) `{!∀ a, Decision (P a)} (l : list A) :
  (∀ a, a ∈ l → ¬ P a) → filter P l = [].
Proof.
  induction l as [|x l IH]; intros HP; [done|]. rewrite filter_cons_False by (apply HP; by left).
  apply IH. intros a Ha. apply HP. by right.
Qed.

Section groups.
Context {R K V : Type} `{EqDecision K} (key : R → K) (agg : list R → V).

Lemma group_by_keys rows : fst <$> group_by key agg rows = remove_dups (key <$> rows).
Proof. unfold group_by. rewrite <- list_fmap_compose. apply list_fmap_id. Qed.

Lemma elem_of_group_by rows k v : (k, v) ∈ group_by key agg rows ↔
  k ∈ key <$> rows ∧ v = agg (filter (λ r, key r = k) rows).
Proof.
  unfold group_by. rewrite list_elem_of_fmap. split.
  - intros (k' & E & Hk). rewrite elem_of_remove_dups in Hk. injection E as -> ->. done.
  - intros [Hk ->]. exists k. by rewrite elem_of_remove_dups.
Qed.
End groups.

(** A [HashMap] filled from rows of distinct keys. *)
Lemma insert_all_ok {A V} (f : A → Result (string * V)) (kf : A → string) (vf : A → V) l m0 :
  (∀ x, x ∈ l → f x = Ok (kf x, vf x)) → NoDup (kf <$> l) →
  ∃ m, insert_all f l m0 = Ok m ∧ (∀ x, x ∈ l → m !! kf x = Some (vf x))
    ∧ (∀ k, k ∉ kf <$> l → m !! k = m0 !! k).
Proof.
  revert m0. induction l as [|x l IH]; intros m0 Hf Hnd.
  { exists m0. split_and!; [done| |done]. by intros x ?%elem_of_nil. }
  rewrite fmap_cons in Hnd. apply NoDup_cons in Hnd as [Hx Hnd]. simpl.
  rewrite Hf by (by left). simpl.
  destruct (IH (<[kf x := vf x]> m0)) as (m & -> & Hin & Hout); [by intros; apply Hf; right|done|].
  exists m. split_and!; [done|..].
  - intros y [->|Hy]%elem_of_cons; [|by apply Hin]. by rewrite Hout, lookup_insert_eq.
  - intros k [Hne Hk]%not_elem_of_cons. by rewrite Hout, lookup_insert_ne.
Qed.

(** The lookup of a group: its aggregate, or that of no rows at all. *)
Lemma grouped {R V W} (key : R → string) (agg : list R → V) (f : string * V → Result (string * W))
    (g : V → W) (none : W) rows :
  (∀ k v, (k, v) ∈ group_by key agg rows → f (k, v) = Ok (k, g v)) → none = g (agg []) →
  ∃ m, insert_all f (group_by key agg rows) ∅ = Ok m
    ∧ ∀ k, default none (m !! k) = g (agg (filter (λ r, key r = k) rows)).
Proof.
  intros Hf Hnone. destruct (insert_all_ok f fst (λ kv, g kv.2) (group_by key agg rows) ∅)
    as (m & Hm & Hin & Hout).
  - intros [k v] Hkv. by apply Hf.
  - rewrite group_by_keys. apply NoDup_remove_dups.
  - exists m. split; [done|]. intros k. destruct (decide (k ∈ key <$> rows)) as [Hk|Hk].
    + by rewrite (Hin (k, agg (filter (λ r, key r = k) rows)))
        by (apply elem_of_group_by; done).
    + rewrite Hout, lookup_empty by (by rewrite group_by_keys, elem_of_remove_dups).
      rewrite filter_none; [done|]. intros r Hr <-. by apply Hk, list_elem_of_fmap_2.
Qed.

(** * Sums of groups *)

Fixpoint sum_counts {K} (q : K → bool) (l : list (K * Z)) : Z :=
  match l with
  | [] => 0
  | (k, c) :: rest => ((if q k then c else 0) + sum_counts q rest)%Z
  end.

Lemma count_star_split {A} (P Q : A → bool) (l : list A) :
  (∀ a, P a = true → Q a = true → False) →
  count_star (filter (λ a, P a || Q a = true) l)
  = (count_star (filter (λ a, P a = true) l) + count_star (filter (λ a, Q a = true) l))%Z.
Proof.
  intros Hd. unfold count_star. induction l as [|a l IH]; [done|].
  rewrite !filter_cons. specialize (Hd a).
  destruct (P a) eqn:EP, (Q a) eqn:EQ; simpl in *; [by destruct Hd|lia..].
Qed.

(** The counts of the groups that satisfy [q] add up to their rows. *)
Lemma sum_groups {R K} `{EqDecision K} (key : R → K) (q : K → bool) rows :
  sum_counts q (group_by key count_star rows)
  = count_star (filter (λ r, q (key r) = true) rows).
Proof.
  assert (∀ ks, NoDup ks →
    sum_counts q ((λ k, (k, count_star (filter (λ r, key r = k) rows))) <$> ks)
    = count_star (filter (λ r, bool_decide (key r ∈ ks) && q (key r) = true) rows)) as Hks.
  { induction 1 as [|k ks Hk _ IH]; [by rewrite filter_none|]. rewrite fmap_cons. simpl.
    rewrite IH. rewrite (filter_ext_in (λ r, bool_decide (key r ∈ k :: ks) && q (key r) = true)
      (λ r, (bool_decide (key r = k) && q k) || (bool_decide (key r ∈ ks) && q (key r)) = true)).
    - rewrite count_star_split.
      + f_equal. destruct (q k); [|by rewrite filter_none by (intros; by rewrite andb_false_r)].
        f_equal. apply list_filter_iff. intros r. by rewrite andb_true_r, bool_decide_eq_true.
      + intros r [H1%bool_decide_eq_true _]%andb_true_iff [H2%bool_decide_eq_true _]%andb_true_iff.
        by subst.
    - intros r _. rewrite orb_true_iff, !andb_true_iff, !bool_decide_eq_true, elem_of_cons.
      naive_solver. }
  unfold group_by. rewrite Hks by apply NoDup_remove_dups. f_equal. apply filter_ext_in.
  intros r Hr. rewrite bool_decide_true; [done|]. by apply elem_of_remove_dups, list_elem_of_fmap_2.
Qed.

(** * Slots *)

(** A group of rows that hold a slot of the topic. *)
Definition slot_group (topic : string) (k : string * ActivityStatus) : bool :=
  bool_decide (k.1 = topic) && holds_slot k.2.

Lemma nonnegative_count_ok c : (0 ≤ c ≤ u64_max)%Z → nonnegative_count c = Ok c.
Proof.
  intros Hc. unfold nonnegative_count, u64_try_from. replace (in_u64 c) with true; [done|].
  symmetry. autounfold with ranges in *. lia.
Qed.

Lemma sum_counts_nonneg {K} (q : K → bool) l : (∀ e, e ∈ l → (0 ≤ e.2)%Z) → (0 ≤ sum_counts q l)%Z.
Proof.
  induction l as [|[k c] l IH]; intros Hl; [done|]. simpl.
  pose proof (Hl (k, c) ltac:(by left)). specialize (IH ltac:(intros; apply Hl; by right)).
  simpl in *. destruct (q k); lia.
Qed.

Lemma active_counts_ok l m0 :
  (∀ e, e ∈ l → (0 ≤ e.2 ≤ u64_max)%Z) → (∀ t, (0 ≤ default 0 (m0 !! t))%Z) →
  (∀ t, default 0 (m0 !! t) + sum_counts (slot_group t) l ≤ u64_max)%Z →
  ∃ m, active_counts l m0 = Ok m
    ∧ ∀ t, default 0%Z (m !! t) = (default 0 (m0 !! t) + sum_counts (slot_group t) l)%Z.
Proof.
  revert m0. induction l as [|[[topic status] c] l IH]; intros m0 Hl H0 Hmax.
  { exists m0. split; [done|]. intros t. simpl. lia. }
  assert (0 ≤ c ≤ u64_max)%Z as Hc by apply (Hl (topic, status, c) ltac:(by left)).
  assert (∀ e, e ∈ l → (0 ≤ e.2 ≤ u64_max)%Z) as Hl' by (intros; apply Hl; by right).
  simpl active_counts. rewrite nonnegative_count_ok by done. cbn [res_bind].
  assert (∀ t, (0 ≤ sum_counts (slot_group t) l)%Z) as Hs
    by (intros t; apply sum_counts_nonneg; intros e He; by apply Hl').
  set (m1 := if holds_slot status then _ else m0).
  assert (∀ t, default 0%Z (m1 !! t)
    = (default 0 (m0 !! t) + if slot_group t (topic, status) then c else 0)%Z) as Hm1.
  { intros t. unfold m1, slot_group. cbn [fst snd]. destruct (holds_slot status) eqn:Eh;
      [|rewrite andb_false_r; lia]. destruct (decide (topic = t)) as [<-|Hne].
    - rewrite lookup_insert_eq, bool_decide_true by done. cbn. unfold u64_saturating_add, clamp.
      specialize (Hmax topic). simpl in Hmax. unfold slot_group at 1 in Hmax. cbn [fst snd] in Hmax.
      rewrite bool_decide_true, Eh in Hmax by done. cbn in Hmax.
      pose proof (Hs topic). pose proof (H0 topic). lia.
    - rewrite lookup_insert_ne, bool_decide_false by done. cbn. lia. }
  destruct (IH m1) as (m & -> & Hm); [done|..].
  - intros t. rewrite Hm1. pose proof (H0 t). destruct (slot_group _ _); lia.
  - intros t. rewrite Hm1. specialize (Hmax t). simpl in Hmax. lia.
  - exists m. split; [done|]. intros t. rewrite Hm, Hm1. simpl. lia.
Qed.

(** * Dead letters *)

Lemma dead_letter_counts_ok resolved candidates m0 t :
  default 0%Z (dead_letter_counts resolved candidates m0 !! t)
  = (default 0 (m0 !! t)
     + count_star (filter (λ r, ac_topic r = t ∧ effective_root r ∉ resolved) candidates))%Z.
Proof.
  revert m0. induction candidates as [|r l IH]; intros m0; simpl; [by rewrite Z.add_0_r|].
  rewrite filter_cons. case_bool_decide as Hr.
  - rewrite IH, decide_False by tauto. done.
  - rewrite IH. destruct (decide (ac_topic r = t)) as [<-|Hne].
    + rewrite lookup_insert_eq, decide_True by done. unfold count_star. cbn [length]. cbn. lia.
    + rewrite lookup_insert_ne, decide_False by tauto. done.
Qed.

Lemma dead_letter_counts_nonneg resolved candidates m0 t v :
  (∀ k w, m0 !! k = Some w → (0 ≤ w)%Z) →
  dead_letter_counts resolved candidates m0 !! t = Some v → (0 ≤ v)%Z.
Proof.
  revert m0. induction candidates as [|r l IH]; intros m0 H0; simpl; [by apply H0|].
  case_bool_decide; [by apply IH|]. apply IH. intros k w.
  intros [[_ <-]|[_ Hw]]%lookup_insert_Some; [|by eapply H0].
  destruct (m0 !! ac_topic r) as [x|] eqn:E; [specialize (H0 _ _ E)|]; cbn; lia.
Qed.

Lemma elem_of_chunks {A} fuel n (l : list A) x : (0 < n)%nat → (length l ≤ fuel)%nat → x ∈ l →
  ∃ c, c ∈ chunks fuel n l ∧ x ∈ c.
Proof.
  intros Hn. revert l. induction fuel as [|fuel IH]; intros [|y l] Hlen Hx; simpl in *;
    try (by apply elem_of_nil in Hx); try lia.
  rewrite <- (take_drop n (y :: l)) in Hx. apply elem_of_app in Hx as [Hx|Hx].
  - exists (take n (y :: l)). split; [by left|done].
  - destruct (IH (drop n (y :: l))) as (c & Hc & Hxc); [|done|].
    { rewrite length_drop. simpl. lia. }
    exists c. split; [by right|done].
Qed.

(** Some activity of the chain succeeded. *)
Definition chain_succeeded (d : Db) (root : ActivityId) : bool :=
  existsb (λ s, bool_decide (ac_status s = ActSucceeded) && (effective_root s =? root)%Z)
    (table (db_activity d)).

Lemma resolved_in_sound chunk d root : root ∈ resolved_in chunk d → chain_succeeded d root = true.
Proof.
  intros (s & -> & [Hs Hin]%list_elem_of_filter)%list_elem_of_fmap.
  apply andb_true_iff in Hs as [Hs _]. apply existsb_exists. exists s.
  split; [by apply list_elem_of_In|]. by rewrite Hs, Z.eqb_refl.
Qed.

Lemma resolved_in_complete chunk d root : root ∈ chunk → chain_succeeded d root = true →
  root ∈ resolved_in chunk d.
Proof.
  intros Hr (s & Hin%list_elem_of_In & [Hs Hroot%Z.eqb_eq]%andb_true_iff)%existsb_exists.
  unfold resolved_in. rewrite list_elem_of_fmap. exists s. split; [done|].
  apply list_elem_of_filter. split; [|done]. rewrite Hs. cbn. apply orb_true_iff.
  unfold effective_root in Hroot. destruct (ac_root_activity_id s); cbn in Hroot; subst;
    [left|right]; by apply bool_decide_eq_true.
Qed.

(** * At rest *)

Section rest.
Context (s : Snapshot).
Abbreviation rest := (λ _ : nat, s).
Abbreviation d := (sn_db s).

Lemma q_map_statements {A B} (f : A → Db → B) l i :
  q_map (λ x, statement (f x)) l rest i = Ok ((λ x, f x d) <$> l, (i + length l)%nat).
Proof.
  revert i. induction l as [|x l IH]; intros i; simpl; [by rewrite Nat.add_0_r|].
  unfold q_bind at 1. cbn. unfold q_bind. rewrite IH. cbn. by rewrite Nat.add_succ_r.
Qed.

Lemma answer_bind_value {A B} (m : Query A) (f : A → Query B) h i a j :
  m h i = Ok (a, j) → answer_from (q_bind m f) h i = answer_from (f a) h j.
Proof. intros E. unfold answer_from, q_bind. by rewrite E. Qed.

Lemma resolved_roots roots i : ∃ resolved j,
  load_resolved_activity_roots roots rest i = Ok (resolved, j)
  ∧ ∀ root, root ∈ roots → root ∈ resolved ↔ chain_succeeded d root = true.
Proof.
  unfold load_resolved_activity_roots. unfold q_bind. rewrite q_map_statements. cbn -[RESOLVED_ROOT_IN_CHUNK].
  eexists _, _. split; [done|]. intros root Hroot. rewrite list_elem_of_join. split.
  - intros (l & Hl & (c & -> & _)%list_elem_of_fmap). by eapply resolved_in_sound.
  - intros Hs. destruct (elem_of_chunks (length roots) RESOLVED_ROOT_IN_CHUNK roots root)
      as (c & Hc & Hin); [unfold RESOLVED_ROOT_IN_CHUNK; lia|done|done|].
    exists (resolved_in c d). split; [by apply resolved_in_complete|].
    by apply (list_elem_of_fmap_2 (λ c, resolved_in c d)).
Qed.
End rest.

(** * Hours *)

Definition buckets (start count : nat → Z) : list HourlyThroughputBucket :=
  (λ i, MkHourlyThroughputBucket (start i) (count i)) <$> seq 0 HOURLY_BUCKET_COUNT.

Lemma buckets_ext start f g : (∀ i, f i = g i) → buckets start f = buckets start g.
Proof. intros Hfg. unfold buckets. apply list_fmap_ext. intros _ i _. by rewrite Hfg. Qed.

Lemma buckets_set start f n c :
  alter (λ b, MkHourlyThroughputBucket (hb_starts_at b) c) n (buckets start f)
  = buckets start (λ i, if (i =? n)%nat then c else f i).
Proof.
  apply list_eq. intros i. unfold buckets. destruct (decide (n = i)) as [<-|Hne].
  - rewrite list_lookup_alter_eq, !list_lookup_fmap.
    destruct (seq 0 HOURLY_BUCKET_COUNT !! n) as [x|] eqn:E; [|done].
    apply lookup_seq in E as [-> _]. cbn. by rewrite Nat.eqb_refl.
  - rewrite list_lookup_alter_ne, !list_lookup_fmap by done.
    destruct (seq 0 HOURLY_BUCKET_COUNT !! i) as [x|] eqn:E; [|done].
    apply lookup_seq in E as [-> _]. cbn. by rewrite (proj2 (Nat.eqb_neq i n)) by done.
Qed.

(** One hour written into the buckets of the topics. *)
Lemma set_hour_ok index rows m :
  (∀ e, e ∈ rows → (0 ≤ e.2 ≤ u64_max)%Z) → NoDup rows.*1 →
  ∃ m', set_hour index rows m = Ok m' ∧ ∀ t bs, m !! t = Some bs →
    (∀ c, (t, c) ∈ rows →
       m' !! t = Some (alter (λ b, MkHourlyThroughputBucket (hb_starts_at b) c) index bs))
    ∧ (t ∉ rows.*1 → m' !! t = Some bs).
Proof.
  revert m. induction rows as [|[topic c] rows IH]; intros m Hc Hnd.
  { exists m. split; [done|]. intros t bs Hbs. split; [by intros c ?%elem_of_nil|done]. }
  apply NoDup_cons in Hnd as [Hnot Hnd]. cbn [fst] in Hnot.
  assert (∀ e, e ∈ rows → (0 ≤ e.2 ≤ u64_max)%Z) as Hc' by (intros; apply Hc; by right).
  simpl. destruct (m !! topic) as [bs0|] eqn:Et.
  - rewrite nonnegative_count_ok by apply (Hc (topic, c) ltac:(by left)). cbn [res_bind].
    destruct (IH (<[topic := alter (λ b, MkHourlyThroughputBucket (hb_starts_at b) c) index bs0]> m)
                Hc' Hnd) as (m' & -> & Hm'). exists m'. split; [done|]. intros t bs Hbs.
    destruct (decide (t = topic)) as [->|Hne].
    + rewrite Et in Hbs. injection Hbs as ->.
      destruct (Hm' topic _ ltac:(by rewrite lookup_insert_eq)) as [_ Hout]. split.
      * intros c' [[= ->]|Hin]%elem_of_cons; [by apply Hout|].
        by apply (list_elem_of_fmap_2 fst) in Hin.
      * by intros []%not_elem_of_cons.
    + destruct (Hm' t bs ltac:(by rewrite lookup_insert_ne)) as [Hin Hout]. split.
      * intros c' [[= -> ->]|H]%elem_of_cons; [done|by apply Hin].
      * by intros []%not_elem_of_cons; apply Hout.
  - destruct (IH m Hc' Hnd) as (m' & -> & Hm'). exists m'. split; [done|]. intros t bs Hbs.
    assert (t ≠ topic) as Hne by (intros ->; congruence).
    destruct (Hm' t bs Hbs) as [Hin Hout]. split.
    + intros c' [[= -> ->]|H]%elem_of_cons; [done|by apply Hin].
    + by intros []%not_elem_of_cons; apply Hout.
Qed.

(** All hours, each a grouped count of some rows. *)
Lemma set_hours_ok (key : ActivityRow → string) (rows : nat → list ActivityRow) start n k m :
  (∀ i, (count_star (rows i) ≤ u64_max)%Z) →
  let counts (t : string) (n : nat) := buckets start (λ i,
    if (i <? n)%nat then count_star (filter (λ r, key r = t) (rows i)) else 0%Z) in
  ∃ m', set_hours n ((λ i, group_by key count_star (rows i)) <$> seq n k) m = Ok m'
    ∧ ∀ t, m !! t = Some (counts t n) → m' !! t = Some (counts t (n + k)%nat).
Proof.
  intros Hmax counts. revert n m. induction k as [|k IH]; intros n m.
  { exists m. split; [done|]. intros t Ht. by rewrite Nat.add_0_r. }
  cbn [seq]. rewrite fmap_cons. cbn [set_hours].
  destruct (set_hour_ok n (group_by key count_star (rows n)) m) as (m1 & -> & Hm1).
  { intros [t c] [_ ->]%elem_of_group_by. cbn.
    pose proof (count_star_filter_le (λ r, key r = t) (rows n)). specialize (Hmax n). lia. }
  { rewrite group_by_keys. apply NoDup_remove_dups. }
  cbn [res_bind]. destruct (IH (S n) m1) as (m' & -> & Hm'). exists m'. split; [done|].
  intros t Ht. rewrite <- Nat.add_succ_comm. apply Hm'. destruct (Hm1 t _ Ht) as [Hin Hout].
  destruct (decide (t ∈ key <$> rows n)) as [Hk|Hk].
  - rewrite (Hin (count_star (filter (λ r, key r = t) (rows n)))) by (by apply elem_of_group_by).
    unfold counts. rewrite buckets_set. f_equal. apply buckets_ext. intros i.
    destruct (Nat.eqb_spec i n) as [Hi|Hi], (Nat.ltb_spec i (S n)); try lia; [by subst| |].
    + by rewrite (proj2 (Nat.ltb_lt i n)) by lia.
    + by rewrite (proj2 (Nat.ltb_ge i n)) by lia.
  - rewrite Hout by (by rewrite group_by_keys, elem_of_remove_dups). f_equal.
    apply buckets_ext. intros i.
    destruct (Nat.ltb_spec i n), (Nat.ltb_spec i (S n)); try (done || lia).
    replace i with n by lia. rewrite filter_none; [done|]. intros r Hr <-.
    by apply Hk, list_elem_of_fmap_2.
Qed.

(** * The metrics of a topic, row by row *)

Definition rows_of (d : Db) (topic : string) (p : ActivityRow → bool) : list ActivityRow :=
  filter (λ r, bool_decide (ac_topic r = topic) && p r = true) (table (db_activity d)).

Definition count_of (d : Db) (topic : string) (p : ActivityRow → bool) : Z :=
  count_star (rows_of d topic p).

(** A dead letter of an open workflow whose chain has no success. *)
Definition unresolved (d : Db) (r : ActivityRow) : bool :=
  dead_letter_candidate d r && negb (chain_succeeded d (effective_root r)).

Definition exact_metrics (d : Db) (now : DbMillis) (definition : TopicDefinition) : TopicMetrics :=
  let key := td_key definition in
  let persisted := tl_max_concurrency <$> db_topic_lock d !! key in
  let max_concurrency := default (td_max_concurrency definition) persisted in
  let active := count_of d key (live_slot now) in
  let hour := hour_bucket_bounds (hourly_window now) in
  MkTopicMetrics key max_concurrency (td_max_concurrency definition)
    (negb (bool_decide (persisted = Some (td_max_concurrency definition))))
    active (Z.max 0 (max_concurrency - active))
    (count_of d key (ready_activity d now)) (count_of d key (retry_scheduled d now))
    (count_of d key (unresolved d))
    (age now (min_of (ready_since <$> rows_of d key (ready_activity d now))))
    (age now (min_of (omap (λ r, att_started_at <$> current_attempt d r)
                        (rows_of d key (live_slot now)))))
    ((λ i, MkHourlyThroughputBucket (hour i).1
             (count_of d key (completed_between (hour i).1 (hour i).2)))
       <$> seq 0 HOURLY_BUCKET_COUNT) now.

(** What the tables and the registry hold is in range: at most [i64::MAX] rows
    are counted, and limits are [u32]. *)
Record metrics_fit (d : Db) (definitions : list TopicDefinition) : Prop := {
  mf_keys : NoDup (td_key <$> definitions);
  mf_rows : (count_star (table (db_activity d)) ≤ i64_max)%Z;
  mf_locks : ∀ topic row, db_topic_lock d !! topic = Some row →
    tl_topic row = topic ∧ in_u32 (tl_max_concurrency row) = true;
  mf_definitions : ∀ definition, definition ∈ definitions →
    in_u32 (td_max_concurrency definition) = true;
}.

Section exact.
Context (d : Db) (now : DbMillis) (keys : list string).
Hypothesis Hrows : (count_star (table (db_activity d)) ≤ i64_max)%Z.

Lemma topic_rows_of p k : k ∈ keys →
  filter (λ r, ac_topic r = k) (topic_rows keys p d) = rows_of d k p.
Proof.
  intros Hk. unfold topic_rows, rows_of. rewrite list_filter_filter. apply list_filter_iff.
  intros r. unfold in_topics. rewrite !andb_true_iff, !bool_decide_eq_true. naive_solver.
Qed.

Lemma topic_rows_count p : (0 ≤ count_star (topic_rows keys p d) ≤ u64_max)%Z.
Proof.
  unfold topic_rows. pose proof (count_star_filter_le
    (λ r, in_topics keys r && p r = true) (table (db_activity d))).
  autounfold with ranges in *. lia.
Qed.

(** A grouped count of the rows of the topics. *)
Lemma counted_topics {V} (agg : list ActivityRow → V) (f : V → Z) (p : ActivityRow → bool) :
  (∀ rows, f (agg rows) = count_star rows) →
  ∃ m, insert_all (λ row : string * V, counted (row.1, f row.2))
         (group_by ac_topic agg (topic_rows keys p d)) ∅ = Ok m
    ∧ ∀ k, k ∈ keys → default 0%Z (m !! k) = count_of d k p.
Proof.
  intros Hf. destruct (grouped ac_topic agg (λ row : string * V, counted (row.1, f row.2)) f 0%Z
    (topic_rows keys p d)) as (m & Hm & Hk).
  - intros k v [_ ->]%elem_of_group_by. unfold counted. cbn [fst snd]. rewrite Hf.
    rewrite nonnegative_count_ok; [done|].
    pose proof (count_star_filter_le (λ r, ac_topic r = k) (topic_rows keys p d)).
    pose proof (topic_rows_count p). lia.
  - by rewrite Hf.
  - exists m. split; [done|]. intros k Hin. by rewrite Hk, Hf, topic_rows_of.
Qed.

Lemma active_topics : ∃ m,
  active_counts (group_by (λ r, (ac_topic r, ac_status r)) count_star
                   (topic_rows keys (live_slot now) d)) ∅ = Ok m
  ∧ ∀ k, k ∈ keys → default 0%Z (m !! k) = count_of d k (live_slot now).
Proof.
  pose proof (topic_rows_count (live_slot now)) as Hmax.
  assert (∀ t, sum_counts (slot_group t) (group_by (λ r, (ac_topic r, ac_status r)) count_star
    (topic_rows keys (live_slot now) d))
    = count_star (filter (λ r, ac_topic r = t) (topic_rows keys (live_slot now) d))) as Hsum.
  { intros t. rewrite sum_groups. f_equal. apply filter_ext_in.
    intros r [Hr _]%list_elem_of_filter. unfold slot_group. cbn [fst snd].
    rewrite andb_true_iff, bool_decide_eq_true.
    unfold live_slot in Hr. rewrite !andb_true_iff in Hr. destruct Hr as (_ & Hs & _).
    unfold set_contains in Hs. destruct (ac_status r); naive_solver. }
  destruct (active_counts_ok (group_by (λ r, (ac_topic r, ac_status r)) count_star
    (topic_rows keys (live_slot now) d)) ∅) as (m & Hm & Hk).
  - intros [k c] [_ ->]%elem_of_group_by. cbn. pose proof (count_star_filter_le
      (λ r, (ac_topic r, ac_status r) = k) (topic_rows keys (live_slot now) d)). lia.
  - intros t. by rewrite lookup_empty.
  - intros t. rewrite lookup_empty, Hsum. cbn. pose proof (count_star_filter_le
      (λ r, ac_topic r = t) (topic_rows keys (live_slot now) d)). lia.
  - exists m. split; [done|]. intros k Hin. rewrite Hk, lookup_empty, Hsum, topic_rows_of by done.
    done.
Qed.

(** A minimum over the rows of a topic. *)
Lemma oldest_ready_topics (p : ActivityRow → bool) : ∃ m,
  insert_all (λ row : string * (Z * option Z), Ok (row.1, row.2.2))
    (group_by ac_topic (λ rows, (count_star rows, min_of (ready_since <$> rows)))
       (topic_rows keys p d)) ∅ = Ok m
  ∧ ∀ k, k ∈ keys → default None (m !! k) = min_of (ready_since <$> rows_of d k p).
Proof.
  destruct (grouped ac_topic (λ rows, (count_star rows, min_of (ready_since <$> rows)))
    (λ row : string * (Z * option Z), Ok (row.1, row.2.2)) snd None (topic_rows keys p d))
    as (m & Hm & Hk); [done..|].
  exists m. split; [done|]. intros k Hin. by rewrite Hk, topic_rows_of.
Qed.

Lemma omap_filter_some {A} (f : A → option Z) (l : list A) :
  omap f (filter (λ a, is_Some (f a)) l) = omap f l.
Proof.
  induction l as [|a l IH]; [done|]. rewrite filter_cons. cbn.
  destruct (f a) as [z|] eqn:E.
  - rewrite decide_True by (by eexists). cbn. by rewrite E, IH.
  - rewrite decide_False; [done|]. by intros [? ?].
Qed.

Lemma oldest_active_topics (p : ActivityRow → bool) : ∃ m,
  insert_all Ok (group_by ac_topic
    (λ rows, min_of (omap (λ r, att_started_at <$> current_attempt d r) rows))
    (filter (λ r, is_Some (current_attempt d r)) (topic_rows keys p d))) ∅ = Ok m
  ∧ ∀ k, k ∈ keys → default None (m !! k)
      = min_of (omap (λ r, att_started_at <$> current_attempt d r) (rows_of d k p)).
Proof.
  destruct (grouped ac_topic (λ rows, min_of (omap (λ r, att_started_at <$> current_attempt d r) rows))
    Ok id None (filter (λ r, is_Some (current_attempt d r)) (topic_rows keys p d)))
    as (m & Hm & Hk); [done..|].
  exists m. split; [done|]. intros k Hin. rewrite Hk. unfold id. f_equal.
  rewrite <- (topic_rows_of p k Hin), <- (omap_filter_some _ (filter _ (topic_rows keys p d))).
  f_equal. rewrite !list_filter_filter. apply list_filter_iff. intros r. rewrite fmap_is_Some. tauto.
Qed.

Lemma cap_topics : (∀ topic row, db_topic_lock d !! topic = Some row →
    tl_topic row = topic ∧ in_u32 (tl_max_concurrency row) = true) →
  ∃ m, insert_all persisted_cap (filter (λ row, tl_topic row ∈ keys) (table (db_topic_lock d))) ∅
       = Ok m
    ∧ ∀ k, k ∈ keys → m !! k = tl_max_concurrency <$> db_topic_lock d !! k.
Proof.
  intros Hl. destruct (insert_all_ok persisted_cap tl_topic tl_max_concurrency
    (filter (λ row, tl_topic row ∈ keys) (table (db_topic_lock d))) ∅) as (m & Hm & Hin & Hout).
  - intros row [_ (t & Hrow)%elem_of_table]%list_elem_of_filter. unfold persisted_cap, u32_try_from.
    by rewrite (proj2 (Hl t row Hrow)).
  - eapply NoDup_part; [|apply sublist_submseteq, sublist_filter]. unfold table.
    rewrite <- list_fmap_compose. erewrite list_fmap_ext; [apply NoDup_fst_map_to_list|].
    intros i [t row] Hi%list_elem_of_lookup_2%elem_of_map_to_list. cbn. by apply Hl.
  - exists m. split; [done|]. intros k Hk. destruct (db_topic_lock d !! k) as [row|] eqn:E.
    + destruct (Hl k row E) as [Ek _]. rewrite <- Ek at 1. apply Hin, list_elem_of_filter.
      split; [by rewrite Ek|]. apply elem_of_table. eauto.
    + rewrite Hout, lookup_empty; [done|].
      intros (row & -> & [_ (t & Ht)%elem_of_table]%list_elem_of_filter)%list_elem_of_fmap.
      destruct (Hl t row Ht) as [<- _]. congruence.
Qed.

(** The dead letters, by topic. *)
Lemma dead_letter_topics resolved : (∀ root, root ∈ effective_root <$>
    topic_rows keys (dead_letter_candidate d) d → root ∈ resolved ↔ chain_succeeded d root = true) →
  ∃ m, insert_all counted
         (map_to_list (dead_letter_counts resolved (topic_rows keys (dead_letter_candidate d) d) ∅)) ∅
       = Ok m
    ∧ ∀ k, k ∈ keys → default 0%Z (m !! k) = count_of d k (unresolved d).
Proof.
  intros Hres. set (counts := dead_letter_counts _ _ _).
  assert (∀ t, default 0%Z (counts !! t) = count_star (filter (λ r, ac_topic r = t
    ∧ effective_root r ∉ resolved) (topic_rows keys (dead_letter_candidate d) d))) as Hc.
  { intros t. unfold counts. by rewrite dead_letter_counts_ok, lookup_empty. }
  destruct (insert_all_ok counted fst snd (map_to_list counts) ∅) as (m & Hm & Hin & Hout).
  - intros [t c] Ht%elem_of_map_to_list. unfold counted. cbn [fst snd].
    rewrite nonnegative_count_ok; [done|]. specialize (Hc t). rewrite Ht in Hc. cbn in Hc. subst c.
    pose proof (count_star_filter_le (λ r, ac_topic r = t ∧ effective_root r ∉ resolved)
      (topic_rows keys (dead_letter_candidate d) d)).
    pose proof (topic_rows_count (dead_letter_candidate d)). lia.
  - apply NoDup_fst_map_to_list.
  - exists m. split; [done|]. intros k Hk. transitivity (default 0%Z (counts !! k)).
    + destruct (counts !! k) as [c|] eqn:E.
      * specialize (Hin (k, c) ltac:(by apply elem_of_map_to_list)). cbn in Hin. by rewrite Hin.
      * rewrite Hout, lookup_empty; [done|].
        intros ([t c] & -> & Ht%elem_of_map_to_list)%list_elem_of_fmap. cbn in E. congruence.
    + rewrite Hc. unfold count_of. f_equal. unfold topic_rows, rows_of in *.
      rewrite list_filter_filter. apply filter_ext_in. intros r Hr.
      unfold unresolved. rewrite !andb_true_iff, negb_true_iff, bool_decide_eq_true.
      unfold in_topics at 1. rewrite bool_decide_eq_true. split.
      * intros [[<- Hn] [_ Hd]]. split_and!; [done|done|]. apply not_true_iff_false.
        rewrite <- Hres; [done|]. apply list_elem_of_fmap_2, list_elem_of_filter.
        split; [|done]. unfold in_topics. by rewrite bool_decide_true.
      * intros (<- & Hd & Hn). split_and!; [done| |done|done]. rewrite Hres.
        { by rewrite Hn. }
        apply list_elem_of_fmap_2, list_elem_of_filter.
        split; [|done]. unfold in_topics. by rewrite bool_decide_true.
Qed.
End exact.

Lemma list_to_map_const {V} (keys : list string) (v : V) k : k ∈ keys →
  (list_to_map ((λ key, (key, v)) <$> keys) : gmap string V) !! k = Some v.
Proof.
  induction keys as [|x keys IH]; [by intros ?%elem_of_nil|]. intros Hk. rewrite fmap_cons. simpl.
  destruct (decide (x = k)) as [->|Hne]; [by rewrite lookup_insert_eq|].
  rewrite lookup_insert_ne by done. apply IH. by apply elem_of_cons in Hk as [->|].
Qed.

(** The grouped statements of the hours. *)
Definition hourly_rows (d : Db) (now : DbMillis) (keys : list string) (index : nat)
    : list (string * Z) :=
  let (starts_at, ends_at) := hour_bucket_bounds (hourly_window now) index in
  group_by ac_topic count_star (topic_rows keys (completed_between starts_at ends_at) d).

Lemma hourly_topics d now keys : (count_star (table (db_activity d)) ≤ i64_max)%Z →
  ∃ m, set_hours 0 ((λ index, hourly_rows d now keys index) <$> seq 0 HOURLY_BUCKET_COUNT)
         (list_to_map ((λ key, (key, empty_hourly_throughput (hourly_window now))) <$> keys)) = Ok m
    ∧ ∀ k, k ∈ keys → m !! k = Some (
        let hour := hour_bucket_bounds (hourly_window now) in
        (λ i, MkHourlyThroughputBucket (hour i).1
                (count_of d k (completed_between (hour i).1 (hour i).2)))
          <$> seq 0 HOURLY_BUCKET_COUNT).
Proof.
  intros Hrows. set (hour := hour_bucket_bounds (hourly_window now)).
  destruct (set_hours_ok ac_topic
    (λ i, topic_rows keys (completed_between (hour i).1 (hour i).2) d) (λ i, (hour i).1) 0
    HOURLY_BUCKET_COUNT (list_to_map ((λ key,
      (key, empty_hourly_throughput (hourly_window now))) <$> keys))) as (m & Hm & Hk).
  { intros i. by apply topic_rows_count. }
  exists m. split; [exact Hm|]. intros k Hin. rewrite (Hk k).
  - f_equal. unfold buckets. apply list_fmap_ext.
    intros i x Hx%list_elem_of_lookup_2%elem_of_seq. rewrite (proj2 (Nat.ltb_lt _ _)) by lia.
    unfold count_of. by rewrite topic_rows_of.
  - by rewrite list_to_map_const.
Qed.

(** Definitions of distinct keys get their hours out of the map. *)
Lemma topic_items_map item (g : TopicDefinition → TopicMetrics) definitions hourly :
  NoDup (td_key <$> definitions) →
  (∀ definition hourly', definition ∈ definitions →
     hourly' !! td_key definition = hourly !! td_key definition →
     item hourly' definition = g definition) →
  topic_items item definitions hourly = g <$> definitions.
Proof.
  revert hourly. induction definitions as [|x xs IH]; intros hourly Hnd Hitem; [done|].
  apply NoDup_cons in Hnd as [Hx Hnd]. rewrite fmap_cons. cbn [topic_items].
  f_equal; [by apply Hitem; [left|]|]. apply IH; [done|]. intros y hourly' Hy E.
  apply Hitem; [by right|]. rewrite E, lookup_delete_ne; [done|]. intros Exy. apply Hx.
  rewrite Exy. by apply list_elem_of_fmap_2.
Qed.

(** * The theorem *)

Section theorem.
Context `{CursorCodec}.

Lemma dead_letters_at_rest s keys i : ∃ resolved j,
  (match topic_rows keys (dead_letter_candidate (sn_db s)) (sn_db s) with
   | [] => q_ret ∅
   | _ =>
       let* resolved_roots := load_resolved_activity_roots
         (dedup (sort_by Z.leb (effective_root <$>
            topic_rows keys (dead_letter_candidate (sn_db s)) (sn_db s)))) in
       q_ret (dead_letter_counts resolved_roots
                (topic_rows keys (dead_letter_candidate (sn_db s)) (sn_db s)) ∅)
   end) (λ _, s) i
  = Ok (dead_letter_counts resolved
          (topic_rows keys (dead_letter_candidate (sn_db s)) (sn_db s)) ∅, j)
  ∧ ∀ root, root ∈ effective_root <$> topic_rows keys (dead_letter_candidate (sn_db s)) (sn_db s) →
      root ∈ resolved ↔ chain_succeeded (sn_db s) root = true.
Proof.
  set (candidates := topic_rows _ _ _).
  destruct (resolved_roots s (dedup (sort_by Z.leb (effective_root <$> candidates))) i)
    as (resolved & j & Hr & Hspec).
  destruct candidates as [|c cs] eqn:E.
  - exists resolved, i. split; [done|]. by intros root ?%elem_of_nil.
  - exists resolved, j. split; [unfold q_bind; by rewrite Hr|].
    intros root Hroot. apply Hspec. by apply elem_of_dedup, elem_of_sort_by.
Qed.

Lemma available_capacity cap active : in_u32 cap = true → (0 ≤ active)%Z →
  u32_saturating_sub cap (default u32_max (u32_try_from active)) = Z.max 0 (cap - active).
Proof.
  intros Hc Ha. unfold u32_try_from. destruct (in_u32 active) eqn:E; cbn [default from_option];
    unfold id; autounfold with ranges in *; lia.
Qed.

Lemma empty_hours now : empty_hourly_throughput (hourly_window now)
  = buckets (λ i, (hour_bucket_bounds (hourly_window now) i).1) (λ _, 0%Z).
Proof. done. Qed.

Lemma load_topic_metrics_exact s definitions now i :
  metrics_fit (sn_db s) definitions →
  answer_from (load_topic_metrics definitions now) (λ _, s) i
  = Ok (exact_metrics (sn_db s) now <$> definitions).
Proof.
  intros [Hkeys Hrows Hlocks Hdefs]. destruct definitions as [|d0 ds] eqn:Edefs; [done|].
  rewrite <- Edefs in *. set (keys := td_key <$> definitions).
  unfold load_topic_metrics. rewrite Edefs at 1. fold keys. answers.
  destruct (dead_letters_at_rest s keys (S (S (S i)))) as (resolved & j & Hdead & Hres).
  erewrite answer_bind_value by exact Hdead. answers.
  rewrite (answer_bind_value _ _ _ _ _ _ (q_map_statements s (λ index d,
    let (starts_at, ends_at) := hour_bucket_bounds (hourly_window now) index in
    group_by ac_topic count_star (topic_rows keys (completed_between starts_at ends_at) d)) _ _)).
  answers.
  destruct (cap_topics (sn_db s) keys Hlocks) as (caps & -> & Hcaps). answers.
  destruct (active_topics (sn_db s) now keys Hrows) as (active & -> & Hactive). answers.
  destruct (dead_letter_topics (sn_db s) keys Hrows resolved Hres) as (dead & -> & Hd). answers.
  destruct (counted_topics (sn_db s) keys Hrows (λ rows, (count_star rows, min_of (ready_since <$> rows)))
    fst (ready_activity (sn_db s) now) ltac:(done)) as (ready & -> & Hready). answers.
  destruct (oldest_ready_topics (sn_db s) keys (ready_activity (sn_db s) now))
    as (oldest_ready & -> & Holdest). answers.
  destruct (counted_topics (sn_db s) keys Hrows count_star id (retry_scheduled (sn_db s) now)
    ltac:(done)) as (retry & Er & Hretry).
  change (insert_all (λ row : string * Z, counted (row.1, id row.2))) with (insert_all counted) in Er.
  rewrite Er. clear Er. answers.
  destruct (oldest_active_topics (sn_db s) keys (live_slot now)) as (oldest_active & -> & Hoa). answers.
  destruct (hourly_topics (sn_db s) now keys Hrows) as (hourly & Eh & Hhourly).
  unfold hourly_rows in Eh. rewrite Eh. clear Eh. answers. f_equal.
  apply topic_items_map; [done|]. intros definition hourly' Hin Eh.
  assert (td_key definition ∈ keys) as Hk by (by apply list_elem_of_fmap_2).
  unfold topic_metrics, exact_metrics.
  rewrite Hcaps, Hactive, Hready, Hretry, Hd, Holdest, Hoa, Eh, Hhourly by done.
  rewrite available_capacity; [done| |unfold count_of, count_star; lia].
  destruct (db_topic_lock (sn_db s) !! td_key definition) as [row|] eqn:E; cbn.
  - by apply (Hlocks _ _ E).
  - by apply Hdefs.
Qed.
End theorem.

(** * The throughput of a day *)

Lemma count_between_split d k a b c : (a ≤ b ≤ c)%Z →
  count_of d k (completed_between a c)
  = (count_of d k (completed_between a b) + count_of d k (completed_between b c))%Z.
Proof.
  intros Habc. unfold count_of, rows_of.
  rewrite <- (count_star_split (λ r, bool_decide (ac_topic r = k) && completed_between a b r)
    (λ r, bool_decide (ac_topic r = k) && completed_between b c r)).
  - f_equal. apply list_filter_iff. intros r. rewrite <- andb_orb_distrib_r.
    unfold completed_between. destruct (ac_completed_at r) as [t|]; [|done].
    destruct (Z.leb_spec a t), (Z.leb_spec b t), (Z.ltb_spec t b), (Z.ltb_spec t c);
      (done || lia).
  - intros r. unfold completed_between. destruct (ac_completed_at r); rewrite !andb_true_iff;
      [lia|by intros [_ ?]].
Qed.

Definition sum_hours (hours : list HourlyThroughputBucket) : Z :=
  foldr (λ b total, (hb_completed_count b + total)%Z) 0%Z hours.

(** Consecutive intervals. *)
Lemma sum_intervals d k (start : nat → Z) n i : (∀ j, (start j ≤ start (S j))%Z) →
  sum_hours ((λ j, MkHourlyThroughputBucket (start j)
    (count_of d k (completed_between (start j) (start (S j))))) <$> seq i n)
  = count_of d k (completed_between (start i) (start (i + n)%nat)).
Proof.
  intros Hle. assert (∀ j m, (start j ≤ start (j + m)%nat)%Z) as Hmono.
  { intros j m. induction m as [|m IH]; [by rewrite Nat.add_0_r|].
    rewrite Nat.add_succ_r. specialize (Hle (j + m)%nat). lia. }
  revert i. induction n as [|n IH]; intros i.
  - cbn. rewrite Nat.add_0_r. unfold count_of, rows_of. rewrite filter_none; [done|].
    intros r _. unfold completed_between. destruct (ac_completed_at r); rewrite !andb_true_iff;
      [lia|by intros [_ ?]].
  - cbn [seq]. rewrite fmap_cons. cbn [sum_hours foldr hb_completed_count].
    fold (sum_hours ((λ j, MkHourlyThroughputBucket (start j)
      (count_of d k (completed_between (start j) (start (S j))))) <$> seq (S i) n)).
    rewrite IH, Nat.add_succ_comm. symmetry. apply count_between_split.
    specialize (Hmono (S i) n). rewrite Nat.add_succ_comm in Hmono. specialize (Hle i). lia.
Qed.

(** The bounds of the hours follow one another, the last ends after now. *)
Lemma hour_bounds now i : (0 ≤ now < i64_max)%Z → (i < HOURLY_BUCKET_COUNT)%nat →
  let start (j : nat) := Z.min (hw_first_hour (hourly_window now) + Z.of_nat j * HOUR_MILLIS)
                           (now + 1) in
  hour_bucket_bounds (hourly_window now) i = (start i, start (S i)).
Proof.
  intros Hnow Hi start. unfold start, hour_bucket_bounds, hourly_window, hour_bucket_start.
  cbn [hw_first_hour hw_exclusive_end]. unfold HOURLY_BUCKET_COUNT, HOUR_MILLIS in *.
  pose proof (Z.mul_div_le now 3600000 ltac:(lia)).
  pose proof (Z.mul_succ_div_gt now 3600000 ltac:(lia)).
  unfold i64_saturating_add, clamp. autounfold with ranges in *. f_equal; lia.
Qed.

(** The buckets of a topic partition its completions. *)
Lemma exact_hours d now definition : (0 ≤ now < i64_max)%Z →
  sum_hours (tm_hourly_throughput (exact_metrics d now definition))
  = count_of d (td_key definition)
      (completed_between (now / HOUR_MILLIS * HOUR_MILLIS - 23 * HOUR_MILLIS) (now + 1)).
Proof.
  intros Hnow.
  set (start := λ j : nat, Z.min (hw_first_hour (hourly_window now) + Z.of_nat j * HOUR_MILLIS)
                             (now + 1)).
  assert (tm_hourly_throughput (exact_metrics d now definition)
    = (λ j, MkHourlyThroughputBucket (start j)
    (count_of d (td_key definition) (completed_between (start j) (start (S j)))))
    <$> seq 0 HOURLY_BUCKET_COUNT) as ->.
  { apply list_fmap_ext. intros i j Hj%list_elem_of_lookup_2%elem_of_seq.
    by rewrite (hour_bounds now j Hnow) by lia. }
  rewrite sum_intervals.
  - f_equal. unfold start, hourly_window, hour_bucket_start, HOURLY_BUCKET_COUNT, HOUR_MILLIS.
    cbn [hw_first_hour]. pose proof (Z.mul_div_le now 3600000 ltac:(lia)).
    pose proof (Z.mul_succ_div_gt now 3600000 ltac:(lia)). f_equal; lia.
  - intros j. unfold start, HOUR_MILLIS. lia.
Qed.

(** * Properties *)

Section properties.
Context `{CursorCodec}.

(** C34: on tables at rest the metrics of a page of topics are those that each
    topic's rows define: the slots held under live leases, the activities a
    worker could claim now, the retries to come, the dead letters of open
    workflows whose chain has no success, the oldest of them, the completions
    of each of the last twenty-four hours, and the capacity left. *)
Theorem topic_metrics_are_exact s definitions now :
  metrics_fit (sn_db s) definitions →
  run_query (load_topic_metrics definitions now) (λ _, s)
  = Ok (exact_metrics (sn_db s) now <$> definitions).
Proof. apply load_topic_metrics_exact. Qed.

(** The metrics agree with the activity worker and with one another: the
    active count is what a claim counts as in flight, the ready count is the
    number of activities that a worker with their definitions may claim, and
    the twenty-four hourly buckets partition the completions of their window. *)
Theorem topic_metrics_agree s definitions now e :
  metrics_fit (sn_db s) definitions → (0 ≤ now < i64_max)%Z →
  ∃ items, run_query (load_topic_metrics definitions now) (λ _, s) = Ok items
    ∧ tm_topic <$> items = td_key <$> definitions
    ∧ ∀ m, m ∈ items →
      (transaction e (in_flight (tm_topic m) [] now) (sn_db s)).1 = Ok (tm_active_count m)
      ∧ tm_ready_count m = count_star (filter (λ r,
          candidate (sn_db s) [(ac_kind r, ac_version r)] (tm_topic m) now r = true)
          (table (db_activity (sn_db s))))
      ∧ sum_hours (tm_hourly_throughput m) = count_of (sn_db s) (tm_topic m)
          (completed_between (now / HOUR_MILLIS * HOUR_MILLIS - 23 * HOUR_MILLIS) (now + 1)).
Proof.
  intros Hfit Hnow. eexists. split; [by apply load_topic_metrics_exact|].
  split; [by rewrite <- list_fmap_compose|].
  intros m (definition & -> & Hin)%list_elem_of_fmap. split_and!.
  - unfold transaction, in_flight, select_activities. cbn. do 2 f_equal.
    unfold count_of, count_star, rows_of. do 2 f_equal. apply list_filter_iff. intros r.
    unfold slot_counted, live_slot. rewrite !andb_true_iff, orb_true_iff, !bool_decide_eq_true.
    set_solver.
  - cbn. unfold count_of, rows_of. f_equal. apply list_filter_iff. intros r.
    unfold ready_activity, candidate, awaited, parent_is, waits_on_activity.
    rewrite !andb_true_iff, !bool_decide_eq_true. set_solver.
  - by apply exact_hours.
Qed.
End properties.

(** * An example *)

Definition payments : list TopicDefinition := [MkTopicDefinition "payments" 1].

Definition locks_fit (d : Db) : bool :=
  forallb (λ kv, bool_decide (tl_topic kv.2 = kv.1) && in_u32 (tl_max_concurrency kv.2))
    (map_to_list (db_topic_lock d)).

Lemma charging_metrics_fit : metrics_fit charge_claimed payments.
Proof.
  assert (locks_fit charge_claimed = true) as Hl by (by vm_compute).
  unfold locks_fit in Hl. rewrite forallb_forall in Hl. split.
  - by apply NoDup_singleton.
  - by vm_compute.
  - intros topic row Hrow%elem_of_map_to_list%list_elem_of_In%Hl.
    by apply andb_true_iff in Hrow as [?%bool_decide_eq_true ?].
  - intros definition ->%list_elem_of_singleton. done.
Qed.

Lemma topic_metrics_are_exact_witness :
  run_query (load_topic_metrics payments 5500) (λ _, MkSnapshot charge_claimed 5500)
  = Ok [exact_metrics charge_claimed 5500 (MkTopicDefinition "payments" 1)].
Proof.
  apply (topic_metrics_are_exact (MkSnapshot charge_claimed 5500) payments 5500).
  exact charging_metrics_fit.
Defined.

Lemma topic_metrics_agree_witness :
  ∃ items, run_query (load_topic_metrics payments 5500) (λ _, MkSnapshot charge_claimed 5500)
    = Ok items ∧ tm_topic <$> items = ["payments"].
Proof.
  destruct (topic_metrics_agree (MkSnapshot charge_claimed 5500) payments 5500 (env_at 5500 "m")
    charging_metrics_fit ltac:(vm_compute; split; [discriminate|reflexivity])) as (items & H1 & H2 & _).
  exists items. split; [exact H1|exact H2].
Defined.

(** The slot of the running charge is held, and no capacity is left. *)
Example payments_are_busy :
  (λ m, (tm_active_count m, tm_available_capacity m, tm_oldest_active_age_millis m))
    (exact_metrics charge_claimed 5500 (MkTopicDefinition "payments" 1)) = (1, 0, Some 500)%Z.
Proof. by vm_compute. Qed.
