(* ===== verification/KeyedPages.v ===== *)
(** The listings by key of the admin API, of topics and of schedules: with the
    byte order in the database they are complete. With another collation the
    listing of schedules can lose one, since it merges the order of the
    database with that of Rust strings. *)
From stdpp Require Import base gmap list strings sorting.
From Stdlib Require Import ZArith Lia Ascii.
From S2P Require Import Prelude.
From S2P Require Import Errors.
From S2P Require Import Status.
From S2P Require Import Rows.
From S2P Require Import Database.
From S2P Require Import Registry.
From S2P Require Import Calendar.
From S2P Require Import Schedules.
From S2P Require Import SchedulesSteps.
From S2P Require Import Dispatch.
From S2P Require Import Text.
From S2P Require Import Keyset.
From S2P Require Import Cursor.
From S2P Require Import AdminTypes.
From S2P Require Import Queries.
From S2P Require Import Paging.
From S2P Require Import Metrics.
From S2P Require Import AdminSchedules.
From S2P Require Import Pages.
From S2P Require Import MetricsExact.
From S2P Require Import Protocol.
From S2P Require Import ExampleCursor.
From S2P Require Import ExampleCalendar.
From S2P Require Import Scenario.
From S2P Require Import ScheduleSafety.

(** * Cursors that are keys *)

Section keys.
Context `{CursorLaws}.

Definition key_cursor (scope key : string) : string :=
  cursor_text scope (MkCursorPosition 0 key).

Lemma decode_key_cursor scope key : cursor_scope scope → cursor_tie key →
  decode_string_cursor scope (key_cursor scope key) = Ok key.
Proof.
  intros Hs Hk. unfold decode_string_cursor, key_cursor.
  rewrite decode_cursor_text, String.eqb_refl by done. cbn [res_bind cp_timestamp cp_tie_breaker].
  destruct Hk as [Hlen _]. by destruct (Nat.eqb_spec (str_len key) 0); [lia|].
Qed.

Lemma decode_key_cursors scope after : cursor_scope scope →
  (∀ k, after = Some k → cursor_tie k) →
  transpose (decode_string_cursor scope) (key_cursor scope <$> after) = Ok after.
Proof.
  intros Hs Hv. destruct after as [k|]; [|done]. cbn -[decode_string_cursor key_cursor].
  by rewrite decode_key_cursor by (done || by apply Hv).
Qed.

Lemma encode_key_cursor scope key : cursor_scope scope → cursor_tie key →
  encode_string_cursor scope key = Ok (key_cursor scope key).
Proof. intros Hs Hk. by apply encode_cursor_ok. Qed.
End keys.

(** The cursor clause of the byte order. *)
Lemma key_after_beyond {R} (key : R → string) after r :
  given after (λ after, String.ltb after (key r)) = true ↔ beyond String.compare key after r.
Proof.
  destruct after as [k|]; [|done]. cbn. unfold String.ltb. by destruct (String.compare k (key r)).
Qed.

(** * Topics *)

Lemma topics_scope : cursor_scope "topics".
Proof. by vm_compute; lia. Qed.
Lemma schedules_scope : cursor_scope "schedules".
Proof. by vm_compute; lia. Qed.

Section topics.
Context `{CursorLaws}.

Lemma topic_definitions_listing topics :
  topic_definitions topics = listing String.compare td_key (table topics).
Proof. done. Qed.

Lemma metrics_fit_part d definitions part : (∀ x, x ∈ part → x ∈ definitions) →
  NoDup (td_key <$> part) → metrics_fit d definitions → metrics_fit d part.
Proof. intros Hp Hnd []. by split; auto. Qed.

Lemma list_topic_metrics_paged topics pg limit (s : nat → Snapshot) :
  bounded_limit pg MAX_ADMIN_PAGE_SIZE = Ok (Z.of_nat limit) → topics_keyed topics →
  (∀ key definition, topics !! key = Some definition → cursor_tie key) →
  (∀ i, (0 ≤ sn_now (s i))%Z ∧ metrics_fit (sn_db (s i)) (topic_definitions topics)) →
  PagedApi String.compare td_key limit cursor_tie (key_cursor "topics") (λ _, table topics)
    (λ i, exact_metrics (sn_db (s i)) (sn_now (s i)))
    (requests (list_topic_metrics topics ∘ at_cursor pg) (λ i _, s i)).
Proof.
  intros Hlimit Hkeyed Hkeys Hs.
  assert (NoDup (td_key <$> table topics)) as Hnd.
  { unfold table. rewrite <- list_fmap_compose. erewrite list_fmap_ext;
      [apply NoDup_fst_map_to_list|].
    intros i [k t] Hi%list_elem_of_lookup_2%elem_of_map_to_list. by apply Hkeyed. }
  assert (∀ r, r ∈ table topics → cursor_tie (td_key r)) as Hties.
  { intros r (k & Hr)%elem_of_table. rewrite (Hkeyed k r Hr). by eapply Hkeys. }
  split; [by eapply bounded_limit_pos|by intros _|by intros _|].
  intros i after Hv. destruct (Hs i) as [Hnow Hfit].
  request. unfold list_topic_metrics, list_topic_metrics_at, validate_now. answers.
  destruct (Z.ltb_spec (sn_now (s i)) 0); [lia|]. answers.
  rewrite bounded_limit_at, Hlimit. answers. cbn [pg_cursor at_cursor].
  rewrite decode_key_cursors by (done || apply topics_scope). answers.
  unfold page_topics. rewrite Nat2Z.id, topic_definitions_listing.
  assert (filter (λ definition, given after (λ after, String.ltb after (td_key definition)) = true)
    (listing String.compare td_key (table topics))
    = remaining String.compare td_key (table topics) after) as ->.
  { apply list_filter_iff. intros r. apply key_after_beyond. }
  fold (page String.compare td_key limit (table topics) after).
  rewrite (next_cursor_page String.compare td_key limit (table topics) after (key_cursor "topics"))
    by (intros r [_ Hr]%elem_of_page; apply encode_key_cursor; [apply topics_scope|by apply Hties]).
  answers. refine (answer_bind_last _ _ _ _ _ _).
  apply load_topic_metrics_exact, (metrics_fit_part _ (topic_definitions topics)); [| |done].
  2: exact (sorted_NoDup_key String.compare td_key _
              (page_sorted String.compare td_key limit (table topics) after Hnd)).
  intros r [_ Hr]%elem_of_page. by rewrite topic_definitions_listing, elem_of_listing.
Qed.
End topics.

(** * Schedules *)

(** The first keys of a set need only the first keys of what is merged into it. *)
Lemma take_union n (xs ys : list string) : NoDup ys →
  take n (btree_set (xs ++ take n (order_by String.compare id ys)))
  = take n (btree_set (xs ++ ys)).
Proof.
  intros Hys. unfold btree_set. set (zs := take n (order_by String.compare id ys)).
  change (order_by String.compare id) with (listing String.compare (@id string)).
  assert (∀ l : list string, NoDup (id <$> remove_dups l)) as Hnd.
  { intros l. rewrite list_fmap_id. apply NoDup_remove_dups. }
  assert (∀ x, x ∈ zs → x ∈ ys) as Hzs.
  { intros x Hx%elem_of_take_in. by apply elem_of_sort_by in Hx. }
  rewrite (listing_part String.compare id (remove_dups (xs ++ ys))); [|apply Hnd|].
  - apply take_filter_prefix. intros x Hx. rewrite list_fmap_id, elem_of_remove_dups, elem_of_app.
    destruct (decide (x ∈ xs)) as [Hxs|Hxs]; [by left|right].
    assert (x ∈ ys) as Hxy.
    { apply elem_of_take_in, elem_of_listing in Hx. rewrite elem_of_remove_dups in Hx. set_solver. }
    unfold zs. change (order_by String.compare id ys) with (listing String.compare id ys).
    rewrite (listing_part String.compare id (remove_dups (xs ++ ys)) ys); [|apply Hnd|].
    + apply take_filter_elem; [done|]. by rewrite list_fmap_id.
    + apply NoDup_submseteq; [done|]. intros y Hy. rewrite elem_of_remove_dups. set_solver.
  - apply NoDup_submseteq; [apply NoDup_remove_dups|]. intros x.
    rewrite !elem_of_remove_dups, !elem_of_app. naive_solver.
Qed.

Section schedules.
Context `{Chrono, CursorLaws, JsonText}.
#[local] Existing Instance byte_collation.

(** All schedules that a request sees: registered or stored. *)
Definition schedule_keys (schedules : ScheduleRegistry) (d : Db) : list string :=
  remove_dups ((md_key <$> schedule_definitions schedules)
               ++ (fst <$> map_to_list (db_schedule_state d))).

Definition open_workflow_of (d : Db) (key : string) (w : WorkflowRow) : bool :=
  match (run_id ← wf_schedule_run_id w; db_schedule_run d !! run_id) with
  | Some run => String.eqb (sr_schedule_key run) key && negb (set_contains TERMINAL (wf_status w))
  | None => false
  end.

Definition runs_with (d : Db) (key : string) (status : ScheduleRunStatus) : Z :=
  count_star (filter (λ r, String.eqb (sr_schedule_key r) key && bool_decide (sr_status r = status)
                           = true) (table (db_schedule_run d))).

(** The newest runs of a schedule. *)
Definition newest_runs (d : Db) (key : string) (n : nat) : list ScheduleRunSummary :=
  (λ r, schedule_run_summary r (run_workflow d r)) <$>
    take n (listing newest_first run_position
      (filter (λ r, String.eqb (sr_schedule_key r) key = true) (table (db_schedule_run d)))).

(** The summary of one schedule, from its own rows. *)
Definition exact_schedule (schedules : ScheduleRegistry) (d : Db) (recent : Z) (key : string)
    : ScheduleSummary :=
  let definition := find_by md_key key (schedule_definitions schedules) in
  let state := db_schedule_state d !! key in
  let runs := newest_runs d key (Z.to_nat recent) in
  MkScheduleSummary key (md_version <$> definition) (md_fingerprint <$> definition)
    (md_cron <$> definition) (md_timezone <$> definition) (md_misfire <$> definition)
    (md_overlap <$> definition) (md_misfire_grace_millis <$> definition)
    (schedule_state_summary <$> state)
    (count_star (filter (λ w, open_workflow_of d key w = true) (table (db_workflow d))))
    (runs_with d key RunSkipped) (runs_with d key RunCoalesced) (head runs) runs
    (schedule_health definition state).

(** The tables are small enough to be counted, and states are stored under
    their keys. *)
Record schedules_fit (d : Db) : Prop := {
  sf_workflows : (count_star (table (db_workflow d)) ≤ i64_max)%Z;
  sf_runs : (count_star (table (db_schedule_run d)) ≤ i64_max)%Z;
  sf_states : ∀ key s, db_schedule_state d !! key = Some s → ss_schedule_key s = key;
}.

Lemma count_fits {A} (P : A → Prop) `{!∀ a, Decision (P a)} (l : list A) :
  (count_star l ≤ i64_max)%Z → nonnegative_count (count_star (filter P l)) = Ok (count_star (filter P l)).
Proof.
  intros Hl. apply nonnegative_count_ok. pose proof (count_star_filter_le P l).
  autounfold with ranges in *. lia.
Qed.

(** The stored row of a key among those loaded for a page. *)
Lemma find_state d (keys : list string) key : schedules_fit d → key ∈ keys →
  find_by ss_schedule_key key
    (filter (λ row, ss_schedule_key row ∈ keys) (table (db_schedule_state d)))
  = db_schedule_state d !! key.
Proof.
  intros Hfit Hk. unfold find_by.
  destruct (list_find _ _) as [[i row]|] eqn:E; cbn.
  - apply list_find_Some in E as (Hrow & Ekey & _).
    apply list_elem_of_lookup_2, list_elem_of_filter in Hrow as [_ (k & Hrow)%elem_of_table].
    rewrite (sf_states _ Hfit k row Hrow) in Ekey. by subst.
  - apply list_find_None in E. rewrite Forall_forall in E.
    destruct (db_schedule_state d !! key) as [row|] eqn:Er; [|done].
    pose proof (sf_states _ Hfit key row Er) as Ekey.
    destruct (E row); [|done]. apply list_elem_of_filter. split; [by rewrite Ekey|].
    apply elem_of_table. eauto.
Qed.

Lemma schedule_item_exact schedules s states recent key i : schedules_fit (sn_db s) →
  find_by ss_schedule_key key states = db_schedule_state (sn_db s) !! key →
  ∃ j, schedule_item schedules states recent key (λ _, s) i
       = Ok (exact_schedule schedules (sn_db s) recent key, j).
Proof.
  intros Hfit Hstate.
  unfold schedule_item, load_schedule_runs, schedule_counts, q_bind, statement, q_lift.
  cbn -[nonnegative_count]. rewrite !count_fits by apply Hfit. cbn. rewrite Hstate.
  eexists. unfold q_ret. do 2 f_equal. unfold exact_schedule, newest_runs.
  assert (filter (λ r, String.eqb (sr_schedule_key r) key && true = true)
    (table (db_schedule_run (sn_db s)))
    = filter (λ r, String.eqb (sr_schedule_key r) key = true) (table (db_schedule_run (sn_db s))))
    as -> by (apply list_filter_iff; intros r; by rewrite andb_true_r).
  done.
Qed.

Lemma schedule_items_exact schedules s states recent keys i : schedules_fit (sn_db s) →
  (∀ key, key ∈ keys → find_by ss_schedule_key key states = db_schedule_state (sn_db s) !! key) →
  ∃ j, q_map (schedule_item schedules states recent) keys (λ _, s) i
       = Ok (exact_schedule schedules (sn_db s) recent <$> keys, j).
Proof.
  intros Hfit. revert i. induction keys as [|key keys IH]; intros i Hstates; [by exists i|].
  cbn [q_map]. unfold q_bind at 1.
  destruct (schedule_item_exact schedules s states recent key i Hfit) as [j ->];
    [by apply Hstates; left|].
  unfold q_bind at 1. destruct (IH j) as [j' ->]; [by intros; apply Hstates; right|]. by exists j'.
Qed.

(** A set of the keys after a cursor is the rest of the set. *)
Lemma btree_set_after after l :
  btree_set (filter (λ key, given after (λ after, String.ltb after key) = true) l)
  = remaining String.compare id (remove_dups l) after.
Proof.
  assert (∀ l : list string, NoDup (id <$> remove_dups l)) as Hnd.
  { intros l'. rewrite list_fmap_id. apply NoDup_remove_dups. }
  apply (sorted_unique String.compare id).
  - exact (listing_sorted String.compare id _ (Hnd _)).
  - exact (remaining_sorted String.compare id _ _ (Hnd _)).
  - intros x. unfold btree_set. rewrite elem_of_remaining.
    fold (listing String.compare (@id string)). rewrite elem_of_listing, !elem_of_remove_dups, list_elem_of_filter.
    pose proof (key_after_beyond (@id string) after x) as Hb. unfold id in Hb at 1. by rewrite Hb.
Qed.

Lemma schedule_keys_page schedules d after n :
  take n (btree_set (registered_keys schedules after ++ persisted_keys after n d))
  = take n (remaining String.compare id (schedule_keys schedules d) after).
Proof.
  unfold registered_keys, persisted_keys, collate, byte_collation, schedule_keys.
  change (λ key : string, given after (λ after, match String.compare after key with
    | Lt => true | _ => false end) = true)
    with (λ key, given after (λ after, String.ltb after key) = true).
  rewrite take_union by (apply NoDup_filter, NoDup_fst_map_to_list).
  by rewrite <- filter_app, btree_set_after.
Qed.

Lemma states_loaded s (keys : list string) i : schedules_fit (sn_db s) → ∃ states j,
  (match keys with
   | [] => q_ret []
   | _ => statement (λ d,
       filter (λ row, ss_schedule_key row ∈ keys) (table (db_schedule_state d)))
   end) (λ _, s) i = Ok (states, j)
  ∧ ∀ key, key ∈ keys → find_by ss_schedule_key key states = db_schedule_state (sn_db s) !! key.
Proof.
  intros Hfit. destruct keys as [|k keys].
  - exists [], i. split; [done|]. by intros key ?%elem_of_nil.
  - eexists _, _. split; [done|]. intros key Hk. by apply find_state.
Qed.

Lemma list_schedules_paged schedules pg recent limit (s : nat → Snapshot) :
  (1 ≤ recent ≤ MAX_RECENT_SCHEDULE_RUNS)%Z →
  bounded_limit pg MAX_ADMIN_PAGE_SIZE = Ok (Z.of_nat limit) →
  (∀ i, schedules_fit (sn_db (s i))) →
  (∀ i key, key ∈ schedule_keys schedules (sn_db (s i)) → cursor_tie key) →
  PagedApi String.compare id limit cursor_tie (key_cursor "schedules")
    (λ i, schedule_keys schedules (sn_db (s i)))
    (λ i, exact_schedule schedules (sn_db (s i)) recent)
    (requests (λ cursor, list_schedules schedules (at_cursor pg cursor) recent) (λ i _, s i)).
Proof.
  intros Hrecent Hlimit Hfit Hties. split.
  - by eapply bounded_limit_pos.
  - intros i. rewrite list_fmap_id. apply NoDup_remove_dups.
  - intros i key. apply Hties.
  - intros i after Hv. request. unfold list_schedules.
    destruct (Z.eqb_spec recent 0); [lia|].
    destruct (Z.ltb_spec MAX_RECENT_SCHEDULE_RUNS recent); [lia|]. cbn [orb]. answers.
    rewrite bounded_limit_at, Hlimit. answers. cbn [pg_cursor at_cursor].
    rewrite decode_key_cursors by (done || apply schedules_scope). answers. rewrite Nat2Z.id.
    set (keys := btree_set _).
    assert (take (S limit) keys
      = take (S limit) (remaining String.compare id (schedule_keys schedules (sn_db (s i))) after))
      as Hkeys by apply schedule_keys_page.
    rewrite <- (fetched_more limit keys), <- (fetched_take limit keys), Hkeys.
    rewrite fetched_more, fetched_take.
    fold (page String.compare id limit (schedule_keys schedules (sn_db (s i))) after).
    set (shown := page _ _ _ _ _).
    rewrite (next_cursor_page String.compare id limit (schedule_keys schedules (sn_db (s i))) after
      (key_cursor "schedules")).
    2: { intros key [_ Hk]%elem_of_page. apply encode_key_cursor; [apply schedules_scope|].
         by eapply Hties. }
    answers. destruct (states_loaded (s i) shown 1 (Hfit i)) as (states & j & Hst & Hfind).
    rewrite (answer_bind_value _ _ _ _ _ _ Hst).
    destruct (schedule_items_exact schedules (s i) states recent shown j (Hfit i) Hfind) as [j' Hi].
    rewrite (answer_bind_value _ _ _ _ _ _ Hi). by answers.
Qed.
End schedules.

(** * Properties *)

Section properties.
Context `{Chrono, CursorLaws, JsonText}.

(** C35: with the byte order in the database, a client who follows the cursors
    of the topic metrics or of the schedules gets every topic, and every
    schedule that is registered or stored during the whole walk, in the order
    of the keys and none twice; each item is what the rows of its key define
    when its page is read. *)
Theorem keyed_listings_are_complete topics schedules pg recent limit (s : nat → Snapshot) :
  bounded_limit pg MAX_ADMIN_PAGE_SIZE = Ok (Z.of_nat limit) →
  (1 ≤ recent ≤ MAX_RECENT_SCHEDULE_RUNS)%Z → topics_keyed topics →
  (∀ key definition, topics !! key = Some definition → cursor_tie key) →
  (∀ i key, key ∈ schedule_keys schedules (sn_db (s i)) → cursor_tie key) →
  (∀ i, (0 ≤ sn_now (s i))%Z ∧ metrics_fit (sn_db (s i)) (topic_definitions topics)
        ∧ schedules_fit (sn_db (s i))) →
  pages_complete String.compare td_key tm_topic (λ _, table topics)
    (λ i, exact_metrics (sn_db (s i)) (sn_now (s i)))
    (requests (list_topic_metrics topics ∘ at_cursor pg) (λ i _, s i))
  ∧ pages_complete String.compare id sksum_key (λ i, schedule_keys schedules (sn_db (s i)))
      (λ i, exact_schedule schedules (sn_db (s i)) recent)
      (requests (λ cursor, list_schedules (order := byte_collation) schedules (at_cursor pg cursor)
                              recent) (λ i _, s i)).
Proof.
  intros Hlimit Hrecent Hkeyed Htopics Hkeys Hs. split.
  - eapply paged_api_complete; [apply _|apply list_topic_metrics_paged; [done..|]|done].
    intros i. split; apply Hs.
  - eapply paged_api_complete; [apply _|apply list_schedules_paged; [done..| |done]|done].
    intros i. apply Hs.
Qed.
End properties.

(** * Examples *)

Definition sample (_ : nat) : Snapshot := MkSnapshot nightly_ticked 14500000.

Definition state_keys_fit (d : Db) : bool :=
  forallb (λ kv, bool_decide (ss_schedule_key kv.2 = kv.1)) (map_to_list (db_schedule_state d)).

Lemma state_keys_fit_true d : state_keys_fit d = true →
  ∀ key s, db_schedule_state d !! key = Some s → ss_schedule_key s = key.
Proof.
  unfold state_keys_fit. rewrite forallb_forall. intros Hd key s Hs%elem_of_map_to_list.
  apply list_elem_of_In in Hs. by apply Hd, bool_decide_eq_true in Hs.
Qed.

Definition tie_b (s : string) : bool :=
  negb (str_len s =? 0)%nat && (str_len s <=? 191)%nat && all_bytes plain_byte s.

Lemma tie_b_true s : tie_b s = true → cursor_tie s.
Proof.
  unfold tie_b. rewrite !andb_true_iff, negb_true_iff, Nat.eqb_neq, Nat.leb_le.
  intros [[? ?] ?]. split; [lia|done].
Qed.

Lemma nightly_fits : (0 ≤ sn_now (sample 0))%Z
  ∧ metrics_fit nightly_ticked (topic_definitions topics) ∧ schedules_fit nightly_ticked.
Proof.
  split_and!.
  - by vm_compute.
  - split; [by vm_compute; repeat constructor; set_solver|by vm_compute| |].
    + intros topic row Hrow%elem_of_map_to_list. by vm_compute in Hrow; apply elem_of_nil in Hrow.
    + intros definition Hd. vm_compute in Hd. by apply list_elem_of_singleton in Hd as ->.
  - split; [by vm_compute|by vm_compute|]. apply state_keys_fit_true. by vm_compute.
Qed.

Lemma keyed_listings_are_complete_witness :
  pages_complete String.compare td_key tm_topic (λ _, table topics)
    (λ _, exact_metrics nightly_ticked 14500000)
    (requests (list_topic_metrics topics ∘ at_cursor two_a_page) (λ i _, sample i))
  ∧ pages_complete String.compare id sksum_key
      (λ _, schedule_keys nightly_registry nightly_ticked)
      (λ _, exact_schedule nightly_registry nightly_ticked 3)
      (requests (λ cursor, list_schedules (order := byte_collation) nightly_registry
                              (at_cursor two_a_page cursor) 3) (λ i _, sample i)).
Proof.
  apply (keyed_listings_are_complete topics nightly_registry two_a_page 3 2 sample).
  - reflexivity.
  - unfold MAX_RECENT_SCHEDULE_RUNS. lia.
  - intros key topic Ht. apply elem_of_map_to_list in Ht. vm_compute in Ht.
    apply list_elem_of_singleton in Ht. by injection Ht as -> ->.
  - intros key topic Ht. apply elem_of_map_to_list in Ht. vm_compute in Ht.
    apply list_elem_of_singleton in Ht. injection Ht as -> _. apply tie_b_true. reflexivity.
  - intros i key Hk. vm_compute in Hk. apply list_elem_of_singleton in Hk as ->.
    apply tie_b_true. reflexivity.
  - intros i. exact nightly_fits.
Defined.

(** ** Another collation

    Natural-language collations, the default of most PostgreSQL databases,
    compare letters and digits first and punctuation only to break ties. *)
Fixpoint letters (s : string) : string :=
  match s with
  | EmptyString => EmptyString
  | String c rest => if Ascii.eqb c "_"%char then letters rest else String c (letters rest)
  end.

Definition letters_first : Collation := λ a b,
  match String.compare (letters a) (letters b) with Eq => String.compare a b | c => c end.

Definition stored_schedule (key : string) : ScheduleStateRow :=
  MkScheduleStateRow key "f" 1 "1970-01-02T00:00:00" 86400000 None None None None 1000 1000.

(** Two stored schedules that are no longer registered. *)
Definition two_schedules : Snapshot :=
  MkSnapshot (empty_db <| db_schedule_state :=
    {[ "ab" := stored_schedule "ab"; "a_c" := stored_schedule "a_c" ]} |>) 2000.

Definition one_a_page : PageRequest := MkPageRequest None (Some 1%Z).

Definition listed (order : Collation) : list (list string) :=
  follow sksum_key (requests (λ cursor, list_schedules (order := order) ∅
    (at_cursor one_a_page cursor) 1) (λ _ _, two_schedules)) 10 0 None.

Example listed_by_bytes : listed byte_collation = [["a_c"]; ["ab"]].
Proof. by vm_compute. Qed.

(** The first page ends with the key that is first as a Rust string and last in
    the database: the other schedule is on no page. *)
Example collation_loses_a_schedule : listed letters_first = [["a_c"]; []].
Proof. by vm_compute. Qed.
