(* ===== verification/DetailPages.v ===== *)
(** The detail of an activity ([get_activity]): its attempts and its progress
    reports are two paged listings in one answer, each with its own cursor,
    and both are complete. *)
From stdpp Require Import base gmap list strings sorting.
From Stdlib Require Import ZArith Lia.
From S2P Require Import Prelude.
From S2P Require Import Errors.
From S2P Require Import Status.
From S2P Require Import Rows.
From S2P Require Import Database.
From S2P Require Import Evolution.
From S2P Require Import Progress.
From S2P Require Import ProgressSteps.
From S2P Require Import Text.
From S2P Require Import Keyset.
From S2P Require Import Cursor.
From S2P Require Import AdminTypes.
From S2P Require Import Queries.
From S2P Require Import Timeline.
From S2P Require Import Paging.
From S2P Require Import Pages.
From S2P Require Import TimelinePages.
From S2P Require Import Protocol.
From S2P Require Import Scenario.
From S2P Require Import ProgressLog.
From S2P Require Import ExampleCalendar.
From S2P Require Import ExampleCursor.

Lemma in_i32_cursor z : in_i32 z = true → in_i64 z = true ∧ i32_try_from z = Some z.
Proof. intros Hz. split; [by apply in_i32_i64|]. unfold i32_try_from. by rewrite Hz. Qed.

Section detail.
Context `{CursorLaws, JsonText}.

(** The texts that are stored are JSON. *)
Definition json_ok (raw : option string) : Prop :=
  ∀ text, raw = Some text → ∃ value, json_from_str text = inl value.

(** A summary with the parsed value of the column. *)
Definition parsed (raw : option string) : JsonFieldSummary :=
  match raw with
  | Some text => MkJsonFieldSummary true (str_len text)
                   (match json_from_str text with inl value => Some value | inr _ => None end)
  | None => MkJsonFieldSummary false 0 None
  end.

Lemma from_optional_parsed raw : json_ok raw → from_optional_json raw = Ok (parsed raw).
Proof.
  intros Hraw. destruct raw as [text|]; [|done]. destruct (Hraw text eq_refl) as [value E].
  cbn. unfold from_required_json. by rewrite E.
Qed.

Definition attempt_detail_item (r : ActivityAttemptRow) : ActivityAttemptSummary :=
  MkActivityAttemptSummary (att_activity_id r) (att_attempt_number r) (att_worker_id r)
    (att_started_at r) (att_heartbeat_at r) (att_finished_at r) (as_str <$> att_outcome r)
    (att_error_category r) (att_error_message r) (parsed (att_provider_result_json r)).

Lemma attempt_detail_item_ok r : json_ok (att_provider_result_json r) →
  attempt_detail_summary r = Ok (attempt_detail_item r).
Proof. intros Hr. unfold attempt_detail_summary. by rewrite from_optional_parsed. Qed.

(** What a statement may see of an activity. *)
Record detail_readable (activity_id : ActivityId) (d : Db) : Prop := {
  dr_ok : db_ok d;
  dr_log : progress_ok d;
  dr_activity : ∃ r, db_activity d !! activity_id = Some r ∧ json_ok (Some (ac_payload_json r))
    ∧ json_ok (ac_provider_result_json r);
  dr_attempt : ∀ k r, db_attempt d !! k = Some r →
    in_i32 (att_attempt_number r) = true ∧ json_ok (att_provider_result_json r);
  dr_progress : ∀ r, r ∈ db_progress d →
    in_i32 (pr_attempt_number r) = true ∧ in_i32 (pr_sequence r) = true;
}.

Section listing.
Context (activity_id : ActivityId) (Hid : in_i64 activity_id = true).

Definition own_attempts (d : Db) : list ActivityAttemptRow :=
  filter (λ r, (att_activity_id r =? activity_id)%Z = true) (table (db_attempt d)).
Definition own_progress (d : Db) : list ProgressEventRow :=
  filter (λ r, (pr_activity_id r =? activity_id)%Z = true) (db_progress d).

Definition attempt_key (n : Z) : Prop := (0 < n)%Z ∧ in_i32 n = true.
Definition progress_key (k : Z * Z) : Prop := in_i32 k.1 = true ∧ attempt_key k.2.

Definition attempt_cursor (n : Z) : string := position_cursor (attempt_scope activity_id) (0, n)%Z.
Definition progress_cursor (k : Z * Z) : string := position_cursor (progress_scope activity_id) k.

Lemma detail_scope prefix : (str_len prefix ≤ 40)%nat → plain prefix →
  cursor_scope (prefix +:+ fmt activity_id) ∨ str_len prefix = 0%nat.
Proof.
  intros Hlen Hp. destruct (decide (str_len prefix = 0%nat)); [by right|left].
  pose proof (fmt_length activity_id Hid). split.
  - rewrite str_len_app. lia.
  - unfold plain in *. by rewrite all_bytes_app, Hp, (fmt_plain activity_id).
Qed.

Lemma attempt_scope_ok : cursor_scope (attempt_scope activity_id).
Proof. destruct (detail_scope "activity_attempts:") as [|E]; [vm_compute; lia|done|done|done]. Qed.
Lemma progress_scope_ok : cursor_scope (progress_scope activity_id).
Proof. destruct (detail_scope "activity_progress:") as [|E]; [vm_compute; lia|done|done|done]. Qed.

Lemma decode_attempts after : (∀ n, after = Some n → attempt_key n) →
  transpose (decode_attempt_cursor activity_id) (attempt_cursor <$> after) = Ok after.
Proof.
  intros Hv. destruct after as [n|]; [|done]. destruct (Hv n eq_refl) as [Hn Hi].
  destruct (in_i32_cursor n Hi) as [Hi64 Htry].
  cbn -[decode_attempt_cursor]. unfold decode_attempt_cursor, attempt_cursor.
  rewrite decode_position by (apply attempt_scope_ok || done). cbn. by rewrite Htry.
Qed.

Lemma decode_progress after : (∀ k, after = Some k → progress_key k) →
  transpose (decode_progress_cursor activity_id) (progress_cursor <$> after) = Ok after.
Proof.
  intros Hv. destruct after as [[a n]|]; [|done]. destruct (Hv _ eq_refl) as (Ha & Hn & Hi).
  destruct (in_i32_cursor a Ha) as [Ha64 Hatry], (in_i32_cursor n Hi) as [Hi64 Htry].
  cbn -[decode_progress_cursor]. unfold decode_progress_cursor, progress_cursor.
  rewrite decode_position by (apply progress_scope_ok || done). cbn in *. by rewrite Hatry, Htry.
Qed.

Lemma own_attempts_ok d : detail_readable activity_id d →
  NoDup (att_attempt_number <$> own_attempts d)
  ∧ ∀ r, r ∈ own_attempts d → attempt_key (att_attempt_number r) ∧ json_ok (att_provider_result_json r).
Proof.
  intros Hd. split.
  - unfold own_attempts. apply (NoDup_fmap_2_strong).
    + intros x y [Hx (k & Hkx)%elem_of_table]%list_elem_of_filter
        [Hy (k' & Hky)%elem_of_table]%list_elem_of_filter En.
      destruct (ok_attempt _ (dr_ok _ _ Hd) k x Hkx) as (-> & _).
      destruct (ok_attempt _ (dr_ok _ _ Hd) k' y Hky) as (-> & _).
      apply Z.eqb_eq in Hx, Hy. rewrite Hx, Hy, En in *. congruence.
    + apply NoDup_filter. unfold table. apply NoDup_fmap_2_strong; [|apply NoDup_map_to_list].
      intros [k x] [k' y] Hx%elem_of_map_to_list Hy%elem_of_map_to_list. cbn. intros ->.
      destruct (ok_attempt _ (dr_ok _ _ Hd) k y Hx) as (-> & _).
      by destruct (ok_attempt _ (dr_ok _ _ Hd) k' y Hy) as (-> & _).
  - intros r [_ (k & Hr)%elem_of_table]%list_elem_of_filter.
    destruct (ok_attempt _ (dr_ok _ _ Hd) k r Hr) as (_ & ? & _).
    by destruct (dr_attempt _ _ Hd k r Hr).
Qed.

Lemma own_progress_ok d : detail_readable activity_id d →
  NoDup (progress_position <$> own_progress d)
  ∧ ∀ r, r ∈ own_progress d → progress_key (progress_position r).
Proof.
  intros Hd. split.
  - pose proof (nodup_grouped (λ r, (pr_activity_id r, pr_attempt_number r)) pr_sequence
      (db_progress d)) as Hg.
    assert (NoDup ((λ r, (pr_activity_id r, pr_attempt_number r, pr_sequence r)) <$> own_progress d))
      as Hn.
    { eapply NoDup_part; [|apply sublist_submseteq, sublist_filter]. apply Hg.
      intros [a n]. destruct (po_sequences _ (dr_log _ _ Hd) a n) as [E _].
      erewrite (list_filter_iff _ (λ r, pr_activity_id r = a ∧ pr_attempt_number r = n));
        [|intros r; split; [by intros [= -> ->]|by intros [-> ->]]].
      unfold progress_of in E. rewrite E. apply NoDup_seqZ. }
    apply (NoDup_fmap_1 (λ k : Z * Z, (activity_id, k.1, k.2))). rewrite <- list_fmap_compose.
    erewrite list_fmap_ext; [exact Hn|].
    intros i r [Hr%Z.eqb_eq _]%list_elem_of_lookup_2%list_elem_of_filter. cbn. by rewrite Hr.
  - intros r [_ Hr]%list_elem_of_filter. destruct (dr_progress _ _ Hd r Hr) as [Ha Hs].
    split; [done|split; [|done]]. by apply (sequence_pos d (dr_log _ _ Hd)).
Qed.

(** ** The two pages of an answer *)

Lemma attempts_page d after limit : detail_readable activity_id d →
  (∀ n, after = Some n → attempt_key n) →
  page_attempts activity_id (select_attempts activity_id after (Z.of_nat limit) d) (Z.of_nat limit)
  = Ok (MkAdminPage
      (attempt_detail_item <$> page Z.compare att_attempt_number limit (own_attempts d) after)
      (attempt_cursor <$> next_key Z.compare att_attempt_number limit (own_attempts d) after)).
Proof.
  intros Hd Hv. destruct (own_attempts_ok d Hd) as [Hnd Hown].
  unfold page_attempts, select_attempts. rewrite Nat2Z.id.
  assert (take (S limit) (order_by Z.compare att_attempt_number (filter (λ r,
      (att_activity_id r =? activity_id)%Z
      && given after (λ after, (after <? att_attempt_number r)%Z) = true) (table (db_attempt d))))
    = take (S limit) (remaining Z.compare att_attempt_number (own_attempts d) after)) as ->.
  { unfold remaining. rewrite <- (listing_filter Z.compare att_attempt_number
      (beyond Z.compare att_attempt_number after) (own_attempts d) Hnd). unfold listing. do 2 f_equal.
    unfold own_attempts. rewrite list_filter_filter. apply list_filter_iff. intros r.
    rewrite andb_true_iff. enough (given after (λ after, (after <? att_attempt_number r)%Z) = true
      ↔ beyond Z.compare att_attempt_number after r) by tauto.
    destruct after as [n|]; [|done]. cbn. by rewrite Z.ltb_lt, Z.compare_lt_iff. }
  rewrite fetched_more, fetched_take.
  fold (page Z.compare att_attempt_number limit (own_attempts d) after).
  rewrite (next_cursor_page Z.compare att_attempt_number limit (own_attempts d) after attempt_cursor).
  - cbn [res_bind]. rewrite (collect_Ok _ attempt_detail_item); [done|].
    intros r [_ Hr]%elem_of_page. by apply attempt_detail_item_ok, Hown.
  - intros r [_ Hr]%elem_of_page. destruct (Hown r Hr) as [[_ Hi] _].
    apply encode_position; [apply attempt_scope_ok|by apply in_i32_cursor].
Qed.

Lemma progress_page d after limit : detail_readable activity_id d →
  (∀ k, after = Some k → progress_key k) →
  page_progress activity_id (select_progress activity_id after (Z.of_nat limit) d) (Z.of_nat limit)
  = Ok (MkAdminPage
      (progress_summary <$> page (pair_cmp Z.compare Z.compare) progress_position limit
                              (own_progress d) after)
      (progress_cursor <$> next_key (pair_cmp Z.compare Z.compare) progress_position limit
                             (own_progress d) after)).
Proof.
  intros Hd Hv. destruct (own_progress_ok d Hd) as [Hnd Hown].
  unfold page_progress, select_progress. rewrite Nat2Z.id.
  assert (take (S limit) (order_by (pair_cmp Z.compare Z.compare) progress_position (filter (λ r,
      (pr_activity_id r =? activity_id)%Z && progress_after after r = true) (db_progress d)))
    = take (S limit) (remaining (pair_cmp Z.compare Z.compare) progress_position (own_progress d) after))
    as ->.
  { unfold remaining. rewrite <- (listing_filter (pair_cmp Z.compare Z.compare) progress_position
      (beyond (pair_cmp Z.compare Z.compare) progress_position after) (own_progress d) Hnd). unfold listing. do 2 f_equal.
    unfold own_progress. rewrite list_filter_filter. apply list_filter_iff. intros r.
    rewrite andb_true_iff. enough (progress_after after r = true
      ↔ beyond (pair_cmp Z.compare Z.compare) progress_position after r) by tauto.
    destruct after as [[a n]|]; [|done]. cbn.
    unfold pair_cmp. cbn. rewrite orb_true_iff, andb_true_iff, !Z.ltb_lt, Z.eqb_eq.
    destruct (Z.compare_spec a (pr_attempt_number r)) as [->|?|?];
      [rewrite Z.compare_lt_iff; lia|split; [done|by left]|split; [lia|done]]. }
  rewrite fetched_more, fetched_take.
  fold (page (pair_cmp Z.compare Z.compare) progress_position limit (own_progress d) after).
  rewrite (next_cursor_page (pair_cmp Z.compare Z.compare) progress_position limit (own_progress d)
    after progress_cursor); [done|].
  intros r [_ Hr]%elem_of_page. destruct (Hown r Hr) as (_ & _ & Hi).
  apply encode_position; [apply progress_scope_ok|by apply in_i32_cursor].
Qed.

(** A request for the detail, with the cursors of both pages. *)
Definition detail_request (limits : nat * nat) (after : option Z) (after' : option (Z * Z))
    : ActivityDetailRequest :=
  MkActivityDetailRequest (attempt_cursor <$> after) (Some (Z.of_nat limits.1))
    (progress_cursor <$> after') (Some (Z.of_nat limits.2)).

Lemma bounded_limit_ok cursor n : (0 < n ≤ 100)%nat →
  bounded_limit (MkPageRequest cursor (Some (Z.of_nat n))) MAX_ADMIN_PAGE_SIZE = Ok (Z.of_nat n).
Proof.
  intros Hn. unfold bounded_limit, MAX_ADMIN_PAGE_SIZE. cbn [pg_limit default from_option]. unfold id.
  destruct (Z.eqb_spec (Z.of_nat n) 0), (Z.ltb_spec 100 (Z.of_nat n)); (lia || done).
Qed.

Lemma get_activity_pages limits after after' h :
  (0 < limits.1 ≤ 100)%nat → (0 < limits.2 ≤ 100)%nat →
  (∀ j, detail_readable activity_id (sn_db (h j))) →
  (∀ n, after = Some n → attempt_key n) → (∀ k, after' = Some k → progress_key k) →
  ∃ activity, run_query (get_activity activity_id (detail_request limits after after')) h
    = Ok (MkActivityDetail activity
        (MkAdminPage (attempt_detail_item <$> page Z.compare att_attempt_number limits.1
                        (own_attempts (sn_db (h 1%nat))) after)
           (attempt_cursor <$> next_key Z.compare att_attempt_number limits.1
              (own_attempts (sn_db (h 1%nat))) after))
        (MkAdminPage (progress_summary <$> page (pair_cmp Z.compare Z.compare) progress_position
                        limits.2 (own_progress (sn_db (h 2%nat))) after')
           (progress_cursor <$> next_key (pair_cmp Z.compare Z.compare) progress_position limits.2
              (own_progress (sn_db (h 2%nat))) after'))).
Proof.
  intros Hl1 Hl2 Hh Hv Hv'. destruct (dr_activity _ _ (Hh 0%nat)) as (r & Hr & Hp & Hres).
  unfold run_query, get_activity, detail_request.
  cbn [adr_attempt_cursor adr_attempt_limit adr_progress_cursor adr_progress_limit]. answers.
  rewrite !bounded_limit_ok by done. answers. rewrite decode_attempts by done. answers.
  rewrite decode_progress by done. answers. rewrite Hr. answers.
  rewrite attempts_page by done. answers. rewrite progress_page by done. answers.
  destruct (Hp _ eq_refl) as [value Ev].
  unfold activity_detail_summary, from_required_json. rewrite Ev. cbn [res_bind].
  rewrite from_optional_parsed by done. answers. by eexists.
Qed.
End listing.

(** The answers of a client who pages through the attempts, and through the
    progress reports. *)
Definition attempts_api (id : ActivityId) (limits : nat * nat) (hs : nat → nat → Snapshot)
    (i : nat) (cursor : option string) : Result (AdminPage ActivityAttemptSummary) :=
  res_map det_attempts (run_query (get_activity id
    (MkActivityDetailRequest cursor (Some (Z.of_nat limits.1)) None (Some (Z.of_nat limits.2))))
    (hs i)).

Definition progress_api (id : ActivityId) (limits : nat * nat) (hs : nat → nat → Snapshot)
    (i : nat) (cursor : option string) : Result (AdminPage ProgressSummary) :=
  res_map det_progress (run_query (get_activity id
    (MkActivityDetailRequest None (Some (Z.of_nat limits.1)) cursor (Some (Z.of_nat limits.2))))
    (hs i)).

(** A client who follows the attempt cursors, or the progress cursors, of
    an activity's detail gets its attempts by number, or its reports by attempt
    and sequence, none twice and none missing that is there during the whole
    walk; on tables at rest all of them. *)
Theorem activity_detail_is_complete id limits hs :
  in_i64 id = true → (0 < limits.1 ≤ 100)%nat → (0 < limits.2 ≤ 100)%nat →
  (∀ i j, detail_readable id (sn_db (hs i j))) →
  pages_complete Z.compare att_attempt_number atsum_attempt_number
    (λ i, own_attempts id (sn_db (hs i 1%nat))) (λ _, attempt_detail_item)
    (attempts_api id limits hs)
  ∧ pages_complete (pair_cmp Z.compare Z.compare) progress_position
      (λ p, (psum_attempt_number p, psum_sequence p))
      (λ i, own_progress id (sn_db (hs i 2%nat))) (λ _, progress_summary)
      (progress_api id limits hs).
Proof.
  intros Hid Hl1 Hl2 Hdb. split.
  - apply (paged_api_complete Z.compare att_attempt_number limits.1 attempt_key (attempt_cursor id));
      [|done].
    split; [lia|intros i; by apply own_attempts_ok|intros i r Hr; by apply (own_attempts_ok id _ (Hdb i 1%nat))|].
    intros i after Hv. unfold attempts_api.
    destruct (get_activity_pages id Hid limits after None (hs i)) as [activity E]; try done.
    unfold detail_request in E. cbn [fmap option_fmap option_map] in E. by rewrite E.
  - apply (paged_api_complete (pair_cmp Z.compare Z.compare) progress_position limits.2 progress_key
      (progress_cursor id)); [|done].
    split; [lia|intros i; by apply own_progress_ok|intros i r Hr; by apply (own_progress_ok id _ (Hdb i 2%nat))|].
    intros i after Hv. unfold progress_api.
    destruct (get_activity_pages id Hid limits None after (hs i)) as [activity E]; try done.
    unfold detail_request in E. cbn [fmap option_fmap option_map] in E. by rewrite E.
Qed.
End detail.

(** * An example *)

Lemma every_text_is_json raw : json_ok raw.
Proof. intros text _. by exists text. Qed.

Lemma charge_detail_readable : detail_readable 1 charge_reported.
Proof.
  pose proof charge_reported_readable as [Hok Hlog Hfits]. split; [done|done|..].
  - destruct (db_activity charge_reported !! 1%Z) as [r|] eqn:E.
    + exists r. split; [done|]. split; apply every_text_is_json.
    + assert (bool_decide (db_activity charge_reported !! 1%Z = None) = false) as Hb by (by vm_compute).
      by rewrite E in Hb.
  - intros k r Hr. split; [by apply (tf_attempt _ Hfits k r)|apply every_text_is_json].
  - intros r Hr. by destruct (tf_progress _ Hfits r Hr) as (_ & ? & ?).
Qed.

Lemma activity_detail_is_complete_witness :
  pages_complete Z.compare att_attempt_number atsum_attempt_number
    (λ _, own_attempts 1 charge_reported) (λ _, attempt_detail_item)
    (attempts_api 1 (2, 1)%nat order_history).
Proof.
  apply (activity_detail_is_complete 1 (2, 1)%nat order_history); try reflexivity; cbn; try lia.
  intros i j. exact charge_detail_readable.
Defined.
