(* ===== verification/Executor.v ===== *)
(** The execution of a claimed activity ([execute_claim], [heartbeat_loop] and
    [run_one] of [runtime/activity_worker.rs]): the race of the handler with
    its timeout, the shutdown of the worker and the renewals of the lease.

    The futures of one execution are polled by one task. Each turn of its loop
    is a step: it takes what the environment answers ([Poll]: the clock, the
    cancellation tokens, the timers, the samples of the heartbeat loop and what
    the handler returns) and polls the branches of the biased [select!] in
    order. What is polled and what completes is logged as [Event]s. Instants
    and durations are in nanoseconds.

    The renewals write the database. [Turn] is a [Poll] in which the answer of
    a renewal is not given but computed: its transaction runs on the tables
    that the transactions of other actors have left. [execute_claim] threads
    the tables through the turns and ends with T-W3. *)
From stdpp Require Import base gmap list strings.
From Stdlib Require Import ZArith Lia.
From S2P Require Import Prelude.
From S2P Require Import Errors.
From S2P Require Import Status.
From S2P Require Import Rows.
From S2P Require Import Database.
From S2P Require Import Policy.
From S2P Require Import Transitions.
From S2P Require Import Registry.
From S2P Require Import Worker.
From S2P Require Import Restart.
From S2P Require Import Supervisor.

(** * The worker *)

(** [ActivityWorker::new]: the checks of its bounds. *)
Definition activity_worker_new (worker_id : string) (config : WorkerConfig)
    : Result WorkerConfig :=
  if bool_decide (worker_id = "") || (wc_heartbeat_interval config =? 0)
     || (wc_shutdown_grace config =? 0)
  then Err (InvalidDefinition "activity worker identity and bounds must be non-zero")
  else Ok config.

(** [ActivityClaim::attempt_number]. *)
Definition claim_attempt_number (claim : ActivityClaim) : Result Z :=
  ok_or (u32_try_from (acl_attempt_number claim)) (InvalidState "negative activity attempt").

(** The period of the heartbeat: a third of the lease at most, and never
    zero. *)
Definition heartbeat_interval (config : WorkerConfig) (lease_duration : Millis) : Duration :=
  Z.min (wc_heartbeat_interval config)
        (Z.max (lease_duration * NANOS_PER_MILLI / 3) NANOS_PER_MILLI).

(** * The heartbeat loop *)

Inductive HeartbeatEnd :=
  | HeartbeatStopped
  | HeartbeatRevoked (lease_deadline : MonoInstant).

Inductive HeartbeatFailure :=
  | LeaseLost (lease_deadline : MonoInstant)
  | Unconfirmed (error : DurableError) (lease_deadline : MonoInstant).

Definition from_renewal_error (error : DurableError) (lease_deadline : MonoInstant)
    : HeartbeatFailure :=
  match error with
  | FencedWrite => LeaseLost lease_deadline
  | error => Unconfirmed error lease_deadline
  end.

Definition failure_into_error (failure : HeartbeatFailure) : DurableError :=
  match failure with
  | LeaseLost _ => FencedWrite
  | Unconfirmed error _ => error
  end.

Abbreviation HeartbeatResult := (HeartbeatEnd + HeartbeatFailure)%type (only parsing).

(** Where the future of the loop is suspended: before the tick, or inside
    [heartbeat_once]; or it has completed. Each holds the last confirmed local
    deadline of the lease. *)
Inductive Heartbeat :=
  | HbWaiting (lease_deadline : MonoInstant)
  | HbRenewing (lease_deadline : MonoInstant)
  | HbDone (lease_deadline : MonoInstant).

Definition hb_deadline (h : Heartbeat) : MonoInstant :=
  match h with HbWaiting d | HbRenewing d | HbDone d => d end.

(** What the loop meets at one await point: the clock, whether the interval
    has ticked, and what [heartbeat_once] has returned. *)
Record Sample := MkSample {
  sm_now : MonoInstant;
  sm_tick : bool;
  sm_renewal : option (Result Renewed);
}.

Definition idle_sample (now : MonoInstant) : Sample := MkSample now false None.

(** [wait_for_lease_deadline] reads the clock each time it is polled, so a
    timer that lags does not delay it. *)
Definition deadline_passed (now deadline : MonoInstant) : bool := deadline <=? now.

Inductive HeartbeatStep :=
  | HbPending
  | HbAgain (h : Heartbeat)
  | HbEnded (h : Heartbeat) (result : HeartbeatResult).

(** One await point of [heartbeat_loop]; a completed future is not polled
    again ([None]: it would panic). *)
Definition heartbeat_step (stop : bool) (h : Heartbeat) (s : Sample)
    : option HeartbeatStep :=
  match h with
  | HbWaiting d =>
      Some (if stop then HbEnded (HbDone d) (inl HeartbeatStopped)
            else if deadline_passed (sm_now s) d then HbEnded (HbDone d) (inr (LeaseLost d))
            else if sm_tick s then HbAgain (HbRenewing d)
            else HbPending)
  | HbRenewing d =>
      Some (match (if deadline_passed (sm_now s) d then Some (Err FencedWrite)
                   else sm_renewal s) with
            | None => HbPending
            | Some (Ok (Held d')) => HbAgain (HbWaiting d')
            | Some (Ok (Revoked d')) => HbEnded (HbDone d') (inl (HeartbeatRevoked d'))
            | Some (Err error) => HbEnded (HbDone d) (inr (from_renewal_error error d))
            end)
  | HbDone _ => None
  end.

Inductive HeartbeatPoll :=
  | PollPending (h : Heartbeat)
  | PollReady (h : Heartbeat) (result : HeartbeatResult)
  | PollPanic.

(** One poll of the loop's future runs until an await point is not ready.
    [samples] are what it meets on the way (one that finds nothing ready
    changes nothing); at instant [now] nothing more is ready. *)
Fixpoint heartbeat_poll (stop : bool) (now : MonoInstant) (samples : list Sample)
    (h : Heartbeat) : HeartbeatPoll :=
  match samples with
  | [] =>
      match heartbeat_step stop h (idle_sample now) with
      | None => PollPanic
      | Some HbPending => PollPending h
      | Some (HbAgain h) => PollPending h
      | Some (HbEnded h result) => PollReady h result
      end
  | s :: rest =>
      match heartbeat_step stop h s with
      | None => PollPanic
      | Some HbPending => heartbeat_poll stop now rest h
      | Some (HbAgain h) => heartbeat_poll stop now rest h
      | Some (HbEnded h result) => PollReady h result
      end
  end.

(** * One execution *)

(** The locals of [execute_claim] that its loop changes, with the state of
    the two futures it owns. *)
Record Execution := MkExecution {
  ex_heartbeat : Heartbeat;
  ex_handler_done : bool;
  ex_child_cancelled : bool;
  ex_heartbeat_stop : bool;
  ex_shutdown_deadline : MonoInstant;
  ex_shutdown_requested : bool;
  ex_forced_shutdown_requested : bool;
  ex_heartbeat_stopped : bool;
  ex_execution_finished : bool;
  ex_timeout_cleanup_pending : bool;
  ex_requested_outcome : option ExecutionOutcome;
}.

#[export] Instance set_ex_heartbeat : FieldSet ex_heartbeat := λ v x,
  MkExecution v (ex_handler_done x) (ex_child_cancelled x) (ex_heartbeat_stop x)
    (ex_shutdown_deadline x) (ex_shutdown_requested x) (ex_forced_shutdown_requested x)
    (ex_heartbeat_stopped x) (ex_execution_finished x) (ex_timeout_cleanup_pending x)
    (ex_requested_outcome x).
#[export] Instance set_ex_handler_done : FieldSet ex_handler_done := λ v x,
  MkExecution (ex_heartbeat x) v (ex_child_cancelled x) (ex_heartbeat_stop x)
    (ex_shutdown_deadline x) (ex_shutdown_requested x) (ex_forced_shutdown_requested x)
    (ex_heartbeat_stopped x) (ex_execution_finished x) (ex_timeout_cleanup_pending x)
    (ex_requested_outcome x).
#[export] Instance set_ex_child_cancelled : FieldSet ex_child_cancelled := λ v x,
  MkExecution (ex_heartbeat x) (ex_handler_done x) v (ex_heartbeat_stop x)
    (ex_shutdown_deadline x) (ex_shutdown_requested x) (ex_forced_shutdown_requested x)
    (ex_heartbeat_stopped x) (ex_execution_finished x) (ex_timeout_cleanup_pending x)
    (ex_requested_outcome x).
#[export] Instance set_ex_heartbeat_stop : FieldSet ex_heartbeat_stop := λ v x,
  MkExecution (ex_heartbeat x) (ex_handler_done x) (ex_child_cancelled x) v
    (ex_shutdown_deadline x) (ex_shutdown_requested x) (ex_forced_shutdown_requested x)
    (ex_heartbeat_stopped x) (ex_execution_finished x) (ex_timeout_cleanup_pending x)
    (ex_requested_outcome x).
#[export] Instance set_ex_shutdown_deadline : FieldSet ex_shutdown_deadline := λ v x,
  MkExecution (ex_heartbeat x) (ex_handler_done x) (ex_child_cancelled x)
    (ex_heartbeat_stop x) v (ex_shutdown_requested x) (ex_forced_shutdown_requested x)
    (ex_heartbeat_stopped x) (ex_execution_finished x) (ex_timeout_cleanup_pending x)
    (ex_requested_outcome x).
#[export] Instance set_ex_shutdown_requested : FieldSet ex_shutdown_requested := λ v x,
  MkExecution (ex_heartbeat x) (ex_handler_done x) (ex_child_cancelled x)
    (ex_heartbeat_stop x) (ex_shutdown_deadline x) v (ex_forced_shutdown_requested x)
    (ex_heartbeat_stopped x) (ex_execution_finished x) (ex_timeout_cleanup_pending x)
    (ex_requested_outcome x).
#[export] Instance set_ex_forced_shutdown_requested : FieldSet ex_forced_shutdown_requested := λ v x,
  MkExecution (ex_heartbeat x) (ex_handler_done x) (ex_child_cancelled x)
    (ex_heartbeat_stop x) (ex_shutdown_deadline x) (ex_shutdown_requested x) v
    (ex_heartbeat_stopped x) (ex_execution_finished x) (ex_timeout_cleanup_pending x)
    (ex_requested_outcome x).
#[export] Instance set_ex_heartbeat_stopped : FieldSet ex_heartbeat_stopped := λ v x,
  MkExecution (ex_heartbeat x) (ex_handler_done x) (ex_child_cancelled x)
    (ex_heartbeat_stop x) (ex_shutdown_deadline x) (ex_shutdown_requested x)
    (ex_forced_shutdown_requested x) v (ex_execution_finished x)
    (ex_timeout_cleanup_pending x) (ex_requested_outcome x).
#[export] Instance set_ex_execution_finished : FieldSet ex_execution_finished := λ v x,
  MkExecution (ex_heartbeat x) (ex_handler_done x) (ex_child_cancelled x)
    (ex_heartbeat_stop x) (ex_shutdown_deadline x) (ex_shutdown_requested x)
    (ex_forced_shutdown_requested x) (ex_heartbeat_stopped x) v
    (ex_timeout_cleanup_pending x) (ex_requested_outcome x).
#[export] Instance set_ex_timeout_cleanup_pending : FieldSet ex_timeout_cleanup_pending := λ v x,
  MkExecution (ex_heartbeat x) (ex_handler_done x) (ex_child_cancelled x)
    (ex_heartbeat_stop x) (ex_shutdown_deadline x) (ex_shutdown_requested x)
    (ex_forced_shutdown_requested x) (ex_heartbeat_stopped x) (ex_execution_finished x) v
    (ex_requested_outcome x).
#[export] Instance set_ex_requested_outcome : FieldSet ex_requested_outcome := λ v x,
  MkExecution (ex_heartbeat x) (ex_handler_done x) (ex_child_cancelled x)
    (ex_heartbeat_stop x) (ex_shutdown_deadline x) (ex_shutdown_requested x)
    (ex_forced_shutdown_requested x) (ex_heartbeat_stopped x) (ex_execution_finished x)
    (ex_timeout_cleanup_pending x) v.

(** What the environment answers to one turn of the loop. [po_now] is the clock
    when the futures of the branches are polled; the body of a branch reads it
    again: [po_branch] to reset the shutdown deadline or to test an unconfirmed
    lease, [po_grace] to bound a cleanup and [po_check] before it. [po_handler]
    is what the handler's future returns if it is polled. *)
Record Poll := MkPoll {
  po_now : MonoInstant;
  po_branch : MonoInstant;
  po_grace : MonoInstant;
  po_check : MonoInstant;
  po_forced_cancelled : bool;
  po_cancelled : bool;
  po_shutdown_timer : bool;
  po_timeout_timer : bool;
  po_heartbeat : list Sample;
  po_handler : option (string + ActivityDispatchError);
}.

#[export] Instance set_po_heartbeat : FieldSet po_heartbeat := λ v p,
  MkPoll (po_now p) (po_branch p) (po_grace p) (po_check p) (po_forced_cancelled p)
    (po_cancelled p) (po_shutdown_timer p) (po_timeout_timer p) v (po_handler p).

(** The branches of the loop's [select!] that fired, that of the heartbeat with
    the clock its body read, and each poll of the handler with the clock and
    the last confirmed deadline of the lease. *)
Inductive Event :=
  | ForcedShutdown
  | ShutdownRequested
  | GraceElapsed
  | TimedOut
  | HeartbeatReturned (now : MonoInstant) (result : HeartbeatResult)
  | HandlerPolled (now lease_deadline : MonoInstant)
  | HandlerReturned (result : string + ActivityDispatchError).

(** Where [execute_claim] is: in its loop, in one of the two cleanups inside
    the heartbeat branch, or out of it. [Stopped] is a [handler::Stopped]: the
    handler's future is dropped and the outcome is ready for T-W3. *)
Inductive Executor :=
  | Selecting (x : Execution)
  | RevokedCleanup (x : Execution) (deadline : MonoInstant)
  | FailedCleanup (x : Execution) (failure : HeartbeatFailure) (deadline : MonoInstant)
  | Returned (result : Result unit)
  | Stopped (outcome : ExecutionOutcome)
  | Panicked.

Definition shutdown_grace_elapsed : ExecutionOutcome :=
  ExRetryable (retryable "cancelled" "activity worker shutdown grace elapsed").

Definition execution_timed_out : ExecutionOutcome :=
  ExRetryable (retryable "timeout" "activity execution exceeded its configured timeout").

(** The head of the loop. *)
Definition loop_head (x : Execution) : option Executor :=
  if ex_heartbeat_stopped x then
    if ex_forced_shutdown_requested x then Some (Returned (Ok tt))
    else if negb (ex_timeout_cleanup_pending x) then Stopped <$> ex_requested_outcome x
    else None
  else None.

(** The handler's future is polled; one that has completed would panic. *)
Definition poll_handler (p : Poll) (x : Execution)
    (pending : Executor) (ready : string + ActivityDispatchError → Executor)
    : list Event * Executor :=
  if ex_handler_done x then ([], Panicked)
  else
    let polled := HandlerPolled (po_now p) (hb_deadline (ex_heartbeat x)) in
    match po_handler p with
    | None => ([polled], pending)
    | Some result => ([polled; HandlerReturned result], ready result)
    end.

Definition on_handler (x : Execution) (result : string + ActivityDispatchError) : Executor :=
  let x := x <| ex_handler_done := true |> <| ex_execution_finished := true |>
             <| ex_heartbeat_stop := true |> <| ex_timeout_cleanup_pending := false |> in
  Selecting (if is_none (ex_requested_outcome x) && negb (ex_forced_shutdown_requested x)
             then x <| ex_requested_outcome := Some (dispatch_outcome result) |> else x).

Definition select_handler (p : Poll) (x : Execution) : list Event * Executor :=
  if ex_execution_finished x then ([], Selecting x)
  else poll_handler p x (Selecting x) (on_handler x).

(** How long a handler may clean up after a revoke or a failed renewal:
    within the shutdown grace and the lease. *)
Definition cleanup_deadline (config : WorkerConfig) (now : MonoInstant) (x : Execution)
    (lease_deadline : MonoInstant) : MonoInstant :=
  Z.min (if ex_shutdown_requested x then ex_shutdown_deadline x
         else now + wc_shutdown_grace config) lease_deadline.

Definition settle_as_revoked (x : Execution) : Executor :=
  Selecting (x <| ex_requested_outcome := Some ExRevoked |>).

Definition on_revoked (config : WorkerConfig) (p : Poll) (lease_deadline : MonoInstant)
    (x : Execution) : Executor :=
  let x := x <| ex_child_cancelled := true |> <| ex_heartbeat_stopped := true |>
             <| ex_timeout_cleanup_pending := false |> in
  let deadline := cleanup_deadline config (po_grace p) x lease_deadline in
  if negb (ex_execution_finished x) && (po_check p <? deadline) then RevokedCleanup x deadline
  else settle_as_revoked x.

Definition on_failed (config : WorkerConfig) (p : Poll) (failure : HeartbeatFailure)
    (lease_deadline : MonoInstant) (x : Execution) : Executor :=
  let x := x <| ex_child_cancelled := true |> <| ex_heartbeat_stop := true |> in
  let deadline := cleanup_deadline config (po_grace p) x lease_deadline in
  if negb (ex_execution_finished x) && (po_check p <? deadline)
  then FailedCleanup x failure deadline
  else Returned (Err (failure_into_error failure)).

(** The body of the heartbeat branch. *)
Definition on_heartbeat (config : WorkerConfig) (p : Poll) (result : HeartbeatResult)
    (x : Execution) : Executor :=
  match result with
  | inl (HeartbeatRevoked lease_deadline) => on_revoked config p lease_deadline x
  | inr (LeaseLost lease_deadline as failure) => on_failed config p failure lease_deadline x
  | inr (Unconfirmed _ lease_deadline as failure) =>
      if ex_execution_finished x && (po_branch p <? lease_deadline)
      then Selecting (x <| ex_heartbeat_stopped := true |>)
      else on_failed config p failure lease_deadline x
  | inl HeartbeatStopped => Selecting (x <| ex_heartbeat_stopped := true |>)
  end.

Definition select_heartbeat (config : WorkerConfig) (p : Poll) (x : Execution)
    : list Event * Executor :=
  if ex_heartbeat_stopped x then select_handler p x
  else match heartbeat_poll (ex_heartbeat_stop x) (po_now p) (po_heartbeat p)
               (ex_heartbeat x) with
       | PollPanic => ([], Panicked)
       | PollPending h => select_handler p (x <| ex_heartbeat := h |>)
       | PollReady h result =>
           ([HeartbeatReturned (po_branch p) result],
            on_heartbeat config p result (x <| ex_heartbeat := h |>))
       end.

Definition on_forced (x : Execution) : Execution :=
  x <| ex_child_cancelled := true |> <| ex_heartbeat_stop := true |>
    <| ex_forced_shutdown_requested := true |>.

Definition begin_shutdown (config : WorkerConfig) (now : MonoInstant) (x : Execution)
    : Execution :=
  x <| ex_shutdown_deadline := now + wc_shutdown_grace config |>
    <| ex_shutdown_requested := true |>.

Definition on_cancelled (config : WorkerConfig) (now : MonoInstant) (x : Execution)
    : Execution :=
  begin_shutdown config now (x <| ex_child_cancelled := true |>).

Definition on_grace_elapsed (x : Execution) : Execution :=
  let x := x <| ex_heartbeat_stop := true |> <| ex_timeout_cleanup_pending := false |> in
  if is_none (ex_requested_outcome x)
  then x <| ex_requested_outcome := Some shutdown_grace_elapsed |> else x.

Definition on_timeout (config : WorkerConfig) (now : MonoInstant) (x : Execution)
    : Execution :=
  let x := x <| ex_child_cancelled := true |> in
  let x := if ex_shutdown_requested x then x else begin_shutdown config now x in
  x <| ex_timeout_cleanup_pending := true |>
    <| ex_requested_outcome := Some execution_timed_out |>.

(** The guards of the [select!]; with every branch disabled it panics. *)
Definition grace_guard (x : Execution) : bool :=
  (ex_shutdown_requested x && is_none (ex_requested_outcome x))
  || ex_timeout_cleanup_pending x.

Definition some_branch_enabled (x : Execution) : bool :=
  negb (ex_forced_shutdown_requested x) || negb (ex_shutdown_requested x) || grace_guard x
  || is_none (ex_requested_outcome x) || negb (ex_heartbeat_stopped x)
  || negb (ex_execution_finished x).

Definition select (config : WorkerConfig) (p : Poll) (x : Execution) : list Event * Executor :=
  if negb (some_branch_enabled x) then ([], Panicked)
  else if negb (ex_forced_shutdown_requested x) && po_forced_cancelled p
  then ([ForcedShutdown], Selecting (on_forced x))
  else if negb (ex_shutdown_requested x) && po_cancelled p
  then ([ShutdownRequested], Selecting (on_cancelled config (po_branch p) x))
  else if grace_guard x && po_shutdown_timer p
  then ([GraceElapsed], Selecting (on_grace_elapsed x))
  else if is_none (ex_requested_outcome x) && po_timeout_timer p
  then ([TimedOut], Selecting (on_timeout config (po_branch p) x))
  else select_heartbeat config p x.

(** A turn of the inner [select!] of a cleanup. *)
Definition revoked_cleanup (p : Poll) (x : Execution) (deadline : MonoInstant)
    : list Event * Executor :=
  if po_forced_cancelled p
  then ([ForcedShutdown], settle_as_revoked (x <| ex_forced_shutdown_requested := true |>))
  else if deadline_passed (po_now p) deadline then ([], settle_as_revoked x)
  else poll_handler p x (RevokedCleanup x deadline)
         (λ _, settle_as_revoked (x <| ex_handler_done := true |>
                                    <| ex_execution_finished := true |>)).

Definition failed_cleanup (p : Poll) (x : Execution) (failure : HeartbeatFailure)
    (deadline : MonoInstant) : list Event * Executor :=
  if po_forced_cancelled p then ([ForcedShutdown], Returned (Err (failure_into_error failure)))
  else if deadline_passed (po_now p) deadline then ([], Returned (Err (failure_into_error failure)))
  else poll_handler p x (FailedCleanup x failure deadline)
         (λ _, Returned (Err (failure_into_error failure))).

(** One turn. *)
Definition executor_step (config : WorkerConfig) (p : Poll) (s : Executor)
    : list Event * Executor :=
  match s with
  | Selecting x =>
      match loop_head x with Some s => ([], s) | None => select config p x end
  | RevokedCleanup x deadline => revoked_cleanup p x deadline
  | FailedCleanup x failure deadline => failed_cleanup p x failure deadline
  | Returned _ | Stopped _ | Panicked => ([], s)
  end.

Fixpoint executor_run (config : WorkerConfig) (polls : list Poll) (s : Executor)
    : list Event * Executor :=
  match polls with
  | [] => ([], s)
  | p :: rest =>
      let (events, s) := executor_step config p s in
      let (later, s) := executor_run config rest s in
      (events ++ later, s)
  end.

(** The entry of [execute_claim], up to its loop. [now] is the clock; the first
    shutdown deadline is reset before anything reads it. *)
Definition begin_execution (config : WorkerConfig) (claim : ActivityClaim)
    (now : MonoInstant) : Executor :=
  let lease_deadline := acl_lease_deadline claim in
  if lease_deadline <=? now then Returned (Err FencedWrite)
  else match (let? _ := duration_from_millis (ac_lease_duration_millis (acl_row claim)) in
              let? _ := claim_attempt_number claim in
              duration_from_millis (ac_timeout_millis (acl_row claim))) with
       | Err e => Returned (Err e)
       | Ok _ =>
           Selecting
             {| ex_heartbeat := HbWaiting lease_deadline;
                ex_handler_done := false;
                ex_child_cancelled := false;
                ex_heartbeat_stop := false;
                ex_shutdown_deadline := now + wc_shutdown_grace config;
                ex_shutdown_requested := false;
                ex_forced_shutdown_requested := false;
                ex_heartbeat_stopped := false;
                ex_execution_finished := false;
                ex_timeout_cleanup_pending := false;
                ex_requested_outcome := None |}
       end.

Definition execution (config : WorkerConfig) (claim : ActivityClaim) (now : MonoInstant)
    (polls : list Poll) : list Event * Executor :=
  executor_run config polls (begin_execution config claim now).

Section worker.
Context `{Codec}.

(** ** The database *)

(** A transaction of another actor. *)
Record OtherTx := MkOtherTx { ot_result : Type; ot_tx : Tx ot_result; ot_env : Env }.

Definition run_others (others : list OtherTx) (d : Db) : Db :=
  foldl (λ d o, (transaction (ot_env o) (ot_tx o) d).2) d others.

(** What the loop meets at one await point, in the world: the clock, the tick,
    and of a renewal in flight whether its transaction reached the server (with
    the instant sampled before it) and what came back: nothing yet, the answer
    of the transaction, or an error of the pool or the connection. Other actors
    commit before and after. *)
Inductive Answer := NoAnswer | OwnAnswer | LostAnswer (error : DurableError).

Record WorldSample := MkWorldSample {
  ws_now : MonoInstant;
  ws_tick : bool;
  ws_before : list OtherTx;
  ws_sent : option (Env * Instant);
  ws_answer : Answer;
  ws_after : list OtherTx;
}.

(** The transaction of a renewal in flight: it commits, if at all, by the time
    the renewal is answered or abandoned at the deadline. *)
Definition renew (claim : ActivityClaim) (h : Heartbeat) (w : WorldSample) (d : Db)
    : option (Result Renewed) * Db :=
  match h with
  | HbRenewing deadline =>
      match ws_answer w, ws_sent w with
      | OwnAnswer, Some (e, started) =>
          let (result, d') := transaction e (heartbeat_once claim started) d in
          (Some result, d')
      | LostAnswer error, Some (e, started) =>
          (Some (Err error), (transaction e (heartbeat_once claim started) d).2)
      | LostAnswer error, None => (Some (Err error), d)
      | NoAnswer, Some (e, started) =>
          if deadline_passed (ws_now w) deadline
          then (None, (transaction e (heartbeat_once claim started) d).2)
          else (None, d)
      | OwnAnswer, None | NoAnswer, None => (None, d)
      end
  | HbWaiting _ | HbDone _ => (None, d)
  end.

Definition world_sample (claim : ActivityClaim) (h : Heartbeat) (w : WorldSample) (d : Db)
    : Sample * Db :=
  let (renewal, d) := renew claim h w (run_others (ws_before w) d) in
  (MkSample (ws_now w) (ws_tick w) renewal, run_others (ws_after w) d).

(** The samples of one poll of the heartbeat loop, up to its end. *)
Fixpoint world_samples (claim : ActivityClaim) (stop : bool) (h : Heartbeat)
    (ws : list WorldSample) (d : Db) : list Sample * Db :=
  match ws with
  | [] => ([], d)
  | w :: rest =>
      let (s, d) := world_sample claim h w d in
      match heartbeat_step stop h s with
      | Some HbPending =>
          let (samples, d) := world_samples claim stop h rest d in (s :: samples, d)
      | Some (HbAgain h) =>
          let (samples, d) := world_samples claim stop h rest d in (s :: samples, d)
      | Some (HbEnded _ _) | None => ([s], d)
      end
  end.

(** One turn in the world; its poll has no samples of the heartbeat of its own.
    The heartbeat is polled only when no earlier branch fires. *)
Record Turn := MkTurn { tn_others : list OtherTx; tn_poll : Poll; tn_heartbeat : list WorldSample }.

Definition heartbeat_polled (p : Poll) (s : Executor) : option Execution :=
  match s with
  | Selecting x =>
      if is_none (loop_head x) && some_branch_enabled x
         && negb (negb (ex_forced_shutdown_requested x) && po_forced_cancelled p)
         && negb (negb (ex_shutdown_requested x) && po_cancelled p)
         && negb (grace_guard x && po_shutdown_timer p)
         && negb (is_none (ex_requested_outcome x) && po_timeout_timer p)
         && negb (ex_heartbeat_stopped x)
      then Some x else None
  | _ => None
  end.

Definition world_turn (claim : ActivityClaim) (t : Turn) (s : Executor) (d : Db) : Poll * Db :=
  let d := run_others (tn_others t) d in
  match heartbeat_polled (tn_poll t) s with
  | Some x =>
      let (samples, d) := world_samples claim (ex_heartbeat_stop x) (ex_heartbeat x)
                            (tn_heartbeat t) d in
      ((tn_poll t) <| po_heartbeat := samples |>, d)
  | None => ((tn_poll t) <| po_heartbeat := [] |>, d)
  end.

Fixpoint world_run (config : WorkerConfig) (claim : ActivityClaim) (turns : list Turn)
    (s : Executor) (d : Db) : list Poll * Db :=
  match turns with
  | [] => ([], d)
  | t :: rest =>
      let (p, d) := world_turn claim t s d in
      let (polls, d) := world_run config claim rest (executor_step config p s).2 d in
      (p :: polls, d)
  end.

(** The polls of an execution in the world, and the tables when it ends. *)
Definition world_polls (config : WorkerConfig) (claim : ActivityClaim) (now : MonoInstant)
    (turns : list Turn) (d : Db) : list Poll * Db :=
  world_run config claim turns (begin_execution config claim now) d.

(** [execute_claim]: the execution, with the transactions of its renewals, then
    T-W3 if the handler has stopped with an outcome; [None] while it runs (or
    after a panic). *)
Definition execute_claim (config : WorkerConfig) (claim : ActivityClaim)
    (now : MonoInstant) (turns : list Turn) (e : Env) (d : Db) : option (Result unit * Db) :=
  let (polls, d) := world_polls config claim now turns d in
  match (execution config claim now polls).2 with
  | Returned result => Some (result, d)
  | Stopped outcome => Some (finish_claim e claim outcome d)
  | Selecting _ | RevokedCleanup _ _ | FailedCleanup _ _ _ | Panicked => None
  end.

(** [heartbeat], the renewal an embedder makes itself. *)
Definition heartbeat (e : Env) (claim : ActivityClaim) (lease_sample_started : Instant)
    (d : Db) : Result unit * Db :=
  match transaction e (heartbeat_once claim lease_sample_started) d with
  | (Ok (Held _), d') => (Ok tt, d')
  | (Ok (Revoked _), d') => (Err FencedWrite, d')
  | (Err error, d') => (Err error, d')
  end.

End worker.
