(* ===== verification/Executions.v ===== *)
(** What an execution of a claimed activity guarantees, whatever the order in
    which its futures, timers and tokens become ready: the handler is polled
    only inside a confirmed lease, T-W3 is run only by an execution that still
    has its authority and with the outcome that came first, nothing panics,
    and the execution ends. *)
From stdpp Require Import base gmap list strings.
From Stdlib Require Import ZArith Lia.
From S2P Require Import Prelude.
From S2P Require Import Errors.
From S2P Require Import Status.
From S2P Require Import Rows.
From S2P Require Import Database.
From S2P Require Import Policy.
From S2P Require Import Transitions.
From S2P Require Import Worker.
From S2P Require Import Restart.
From S2P Require Import Supervisor.
From S2P Require Import Executor.
From S2P Require Import TxLogic.
From S2P Require Import Lifecycle.
From S2P Require Import Reads.
From S2P Require Import Effects.
From S2P Require Import Scenario.

(** * The heartbeat *)

Definition hb_running (h : Heartbeat) : Prop :=
  match h with HbDone _ => False | HbWaiting _ | HbRenewing _ => True end.

(** A deadline that a renewal among [samples] has confirmed. *)
Definition renewed_in (samples : list Sample) (deadline : MonoInstant) : Prop :=
  ∃ s, s ∈ samples
    ∧ (sm_renewal s = Some (Ok (Held deadline)) ∨ sm_renewal s = Some (Ok (Revoked deadline))).

Definition confirmed_by (samples : list Sample) (old deadline : MonoInstant) : Prop :=
  deadline = old ∨ renewed_in samples deadline.

(** What a completed loop reports, with the deadline it ended at. *)
Definition reports (stop : bool) (deadline : MonoInstant) (result : HeartbeatResult) : Prop :=
  match result with
  | inl HeartbeatStopped => stop = true
  | inl (HeartbeatRevoked d) | inr (LeaseLost d) | inr (Unconfirmed _ d) => d = deadline
  end.

Lemma renewed_in_app l l' d : renewed_in l d → renewed_in (l ++ l') d.
Proof. intros (s & Hs & Hd). exists s. set_solver. Qed.

Lemma renewed_in_app_r l l' d : renewed_in l' d → renewed_in (l ++ l') d.
Proof. intros (s & Hs & Hd). exists s. set_solver. Qed.

Lemma confirmed_by_app l l' a b c :
  confirmed_by l a b → confirmed_by l' b c → confirmed_by (l ++ l') a c.
Proof.
  intros H [->|H']; [|right; by apply renewed_in_app_r].
  destruct H as [->|H]; [by left|right; by apply renewed_in_app].
Qed.

Lemma reports_renewal_error stop error d : reports stop d (inr (from_renewal_error error d)).
Proof. by destruct error. Qed.

(** One await point. *)
Lemma heartbeat_step_spec stop h s :
  hb_running h →
  match heartbeat_step stop h s with
  | None => False
  | Some HbPending => sm_now s < hb_deadline h ∧ (stop = true → ∃ d, h = HbRenewing d)
  | Some (HbAgain h') => hb_running h' ∧ confirmed_by [s] (hb_deadline h) (hb_deadline h')
  | Some (HbEnded h' r) => ∃ d, h' = HbDone d ∧ confirmed_by [s] (hb_deadline h) d ∧ reports stop d r
  end.
Proof.
  destruct h as [d|d|]; [..|done]; intros _; unfold heartbeat_step, deadline_passed; simpl.
  - destruct stop; [exists d; repeat split; by left|].
    destruct (d <=? sm_now s) eqn:E; [exists d; repeat split; by left|].
    destruct (sm_tick s); [split; [done|by left]|]. split; [lia|done].
  - destruct (d <=? sm_now s) eqn:E; [exists d; repeat split; by left|].
    destruct (sm_renewal s) as [[[d'|d']|e]|] eqn:Er.
    + split; [done|]. right. exists s. set_solver.
    + exists d'. repeat split. right. exists s. set_solver.
    + exists d. repeat split; [by left|apply reports_renewal_error].
    + split; [lia|]. intros _. by exists d.
Qed.

(** What one poll of the loop guarantees. *)
Definition polled_well (stop : bool) (now : MonoInstant) (samples : list Sample)
    (old : MonoInstant) (r : HeartbeatPoll) : Prop :=
  match r with
  | PollPanic => False
  | PollPending h => hb_running h ∧ now < hb_deadline h ∧ confirmed_by samples old (hb_deadline h)
  | PollReady h result => ∃ d, h = HbDone d ∧ confirmed_by samples old d ∧ reports stop d result
  end.

Lemma polled_well_cons stop now s rest old mid r :
  confirmed_by [s] old mid → polled_well stop now rest mid r →
  polled_well stop now (s :: rest) old r.
Proof.
  intros Hc. change (s :: rest) with ([s] ++ rest).
  destruct r; cbn [polled_well]; [intros (?&?&?)|intros (d&->&?&?); exists d|done];
    repeat split; eauto using confirmed_by_app.
Qed.

Lemma heartbeat_poll_spec stop now samples h :
  hb_running h → polled_well stop now samples (hb_deadline h) (heartbeat_poll stop now samples h).
Proof.
  revert h. induction samples as [|s rest IH]; intros h Hh; cbn [heartbeat_poll].
  - destruct h as [d|d|]; [..|done]; cbn; unfold deadline_passed;
      destruct stop, (d <=? now) eqn:E; cbn; try (exists d; repeat split; by left);
      repeat split; (lia || by left).
  - pose proof (heartbeat_step_spec stop h s Hh) as Hs.
    destruct (heartbeat_step stop h s) as [[|h'|h' r]|]; [..|done].
    + eapply polled_well_cons; [by left|by apply IH].
    + destruct Hs as [Hr Hc]. eapply polled_well_cons; [done|by apply IH].
    + destruct Hs as (d & -> & Hc & Hr). exists d. repeat split; [|done].
      change (s :: rest) with ([s] ++ rest). eapply confirmed_by_app; [done|by left].
Qed.

(** * Runs *)

Lemma executor_run_cons config p rest s :
  executor_run config (p :: rest) s =
  ((executor_step config p s).1 ++ (executor_run config rest (executor_step config p s).2).1,
   (executor_run config rest (executor_step config p s).2).2).
Proof.
  cbn. destruct (executor_step config p s) as [events s']. cbn.
  by destruct (executor_run config rest s').
Qed.

(** * The invariant of an execution *)

(** The loop has what it needs to end: a forced shutdown, or an outcome with
    no cleanup to wait for. *)
Definition decided (x : Execution) : Prop :=
  ex_forced_shutdown_requested x = true
  ∨ (ex_requested_outcome x ≠ None ∧ ex_timeout_cleanup_pending x = false).

(** The events that decide an outcome, and what they decide. *)
Definition decision (event : Event) : option ExecutionOutcome :=
  match event with
  | TimedOut => Some execution_timed_out
  | GraceElapsed => Some shutdown_grace_elapsed
  | HandlerReturned result => Some (dispatch_outcome result)
  | ForcedShutdown | ShutdownRequested | HeartbeatReturned _ _ | HandlerPolled _ _ => None
  end.

Definition first_decision (tr : list Event) : option ExecutionOutcome :=
  head (omap decision tr).

Definition revoked_in (tr : list Event) : bool :=
  existsb (λ e, match e with HeartbeatReturned _ (inl (HeartbeatRevoked _)) => true | _ => false end) tr.

(** The outcome of an execution: a revoke, else what was decided first. *)
Definition decided_outcome (tr : list Event) : option ExecutionOutcome :=
  if revoked_in tr then Some ExRevoked else first_decision tr.

Section invariant.
(** The deadline of the claim, in nanoseconds. *)
Variable claimed : MonoInstant.

(** The heartbeats that ended without costing the lease: a renewal that failed
    without an answer of the fence, after the handler had returned, at an
    instant before the last confirmed deadline. *)
Definition lease_kept (seen : list Sample) (tr : list Event) : Prop :=
  ∀ i at_ failure, tr !! i = Some (HeartbeatReturned at_ (inr failure)) →
    ∃ error d, failure = Unconfirmed error d ∧ at_ < d ∧ confirmed_by seen claimed d
      ∧ ∃ j r, (j < i)%nat ∧ tr !! j = Some (HandlerReturned r).

(** Every poll of the handler is inside the lease that was last confirmed. *)
Definition polls_ok (seen : list Sample) (tr : list Event) : Prop :=
  ∀ now d, HandlerPolled now d ∈ tr → now < d ∧ confirmed_by seen claimed d.

Record loop_ok (seen : list Sample) (tr : list Event) (x : Execution) : Prop := {
  lo_lease : confirmed_by seen claimed (hb_deadline (ex_heartbeat x));
  lo_stop : ex_heartbeat_stop x = true → decided x;
  lo_stopped : ex_heartbeat_stopped x = true → decided x;
  lo_finished : ex_execution_finished x = true →
    decided x ∧ ∃ r, HandlerReturned r ∈ tr;
  lo_done : ex_handler_done x = true → ex_execution_finished x = true;
  lo_running : ex_heartbeat_stopped x = false → hb_running (ex_heartbeat x);
  lo_cleanup : ex_timeout_cleanup_pending x = true → ex_requested_outcome x ≠ None;
  lo_outcome : ex_forced_shutdown_requested x = false →
    ex_requested_outcome x = decided_outcome tr;
  lo_heartbeat : ex_heartbeat_stopped x = true ↔ ∃ at_ r, HeartbeatReturned at_ r ∈ tr;
  lo_kept : lease_kept seen tr;
  lo_forced : ex_forced_shutdown_requested x = true ↔ ForcedShutdown ∈ tr;
}.

(** During the cleanup of a revoked attempt. *)
Record revoked_ok (seen : list Sample) (tr : list Event) (x : Execution)
    (deadline : MonoInstant) : Prop := {
  rv_lease : confirmed_by seen claimed (hb_deadline (ex_heartbeat x));
  rv_deadline : deadline ≤ hb_deadline (ex_heartbeat x);
  rv_stopped : ex_heartbeat_stopped x = true;
  rv_running : ex_execution_finished x = false ∧ ex_handler_done x = false;
  rv_cleanup : ex_timeout_cleanup_pending x = false;
  rv_revoked : (∃ at_ r, HeartbeatReturned at_ r ∈ tr) ∧ revoked_in tr = true;
  rv_kept : lease_kept seen tr;
  rv_forced : ex_forced_shutdown_requested x = true ↔ ForcedShutdown ∈ tr;
}.

Definition executor_ok (seen : list Sample) (tr : list Event) (s : Executor) : Prop :=
  polls_ok seen tr ∧
  match s with
  | Selecting x => loop_ok seen tr x
  | RevokedCleanup x deadline => revoked_ok seen tr x deadline
  | FailedCleanup x failure deadline =>
      confirmed_by seen claimed (hb_deadline (ex_heartbeat x))
      ∧ deadline ≤ hb_deadline (ex_heartbeat x)
      ∧ ex_handler_done x = false
      ∧ (∃ at_, HeartbeatReturned at_ (inr failure) ∈ tr)
  | Returned (Ok _) => ForcedShutdown ∈ tr
  | Returned (Err e) =>
      tr = [] ∨ ∃ at_ failure, HeartbeatReturned at_ (inr failure) ∈ tr ∧ e = failure_into_error failure
  | Stopped o =>
      (ForcedShutdown ∉ tr) ∧ (∃ at_ r, HeartbeatReturned at_ r ∈ tr) ∧ lease_kept seen tr
      ∧ decided_outcome tr = Some o
  | Panicked => False
  end.

(** ** Weakening *)

Lemma confirmed_by_more seen more d :
  confirmed_by seen claimed d → confirmed_by (seen ++ more) claimed d.
Proof. intros H. eapply confirmed_by_app; [done|by left]. Qed.

Lemma revoked_in_app tr more : revoked_in (tr ++ more) = revoked_in tr || revoked_in more.
Proof. apply existsb_app. Qed.

Lemma revoked_in_false tr : (∀ at_ r, HeartbeatReturned at_ r ∉ tr) → revoked_in tr = false.
Proof.
  induction tr as [|e tr IH]; [done|]. intros H.
  change (e :: tr) with ([e] ++ tr). rewrite revoked_in_app.
  rewrite IH, orb_false_r by (intros at_ r Hr; apply (H at_ r); by right).
  destruct e as [| | | |at_ [[]|]| |]; try done. exfalso. eapply H. by apply elem_of_cons; left.
Qed.

Lemma first_decision_app tr more :
  first_decision (tr ++ more)
  = match first_decision tr with Some o => Some o | None => first_decision more end.
Proof. unfold first_decision. rewrite omap_app. by destruct (omap decision tr). Qed.

Lemma lease_kept_more seen samples tr more :
  (∀ at_ r, HeartbeatReturned at_ r ∉ more) → lease_kept seen tr →
  lease_kept (seen ++ samples) (tr ++ more).
Proof.
  intros Hm H i at_ failure [Hi|[_ Hi]]%lookup_app_Some.
  - destruct (H i at_ failure Hi) as (error & d & ? & ? & ? & j & r & Hj & Hr).
    exists error, d. split_and!; [done|done|by apply confirmed_by_more|].
    exists j, r. split; [done|]. by apply lookup_app_l_Some.
  - apply list_elem_of_lookup_2 in Hi. by destruct (Hm at_ (inr failure)).
Qed.

Lemma lease_kept_seen seen samples tr : lease_kept seen tr → lease_kept (seen ++ samples) tr.
Proof.
  intros H. rewrite <-(app_nil_r tr). apply lease_kept_more; [|done].
  intros at_ r. apply not_elem_of_nil.
Qed.

Lemma polls_ok_more seen tr samples more :
  (∀ now d, HandlerPolled now d ∈ more → now < d ∧ confirmed_by (seen ++ samples) claimed d) →
  polls_ok seen tr → polls_ok (seen ++ samples) (tr ++ more).
Proof.
  intros Hm H now d [Hin|Hin]%elem_of_app; [|by apply Hm].
  destruct (H now d Hin). auto using confirmed_by_more.
Qed.

Lemma loop_head_None seen tr x :
  loop_ok seen tr x → loop_head x = None → ex_heartbeat_stopped x = false.
Proof.
  intros H. unfold loop_head. destruct (ex_heartbeat_stopped x) eqn:E; [|done].
  destruct (lo_stopped _ _ _ H E) as [->|[Ho ->]]; [done|].
  by destruct (ex_forced_shutdown_requested x), (ex_requested_outcome x).
Qed.

Lemma loop_head_Some seen tr x s :
  polls_ok seen tr → loop_ok seen tr x → loop_head x = Some s → executor_ok seen tr s.
Proof.
  intros Hp H. unfold loop_head. destruct (ex_heartbeat_stopped x) eqn:E; [|done].
  destruct (ex_forced_shutdown_requested x) eqn:Ef.
  { intros [= <-]. split; [done|]. by apply (lo_forced _ _ _ H). }
  destruct (ex_timeout_cleanup_pending x); [done|].
  destruct (ex_requested_outcome x) as [o|] eqn:Eo; [|done]. intros [= <-].
  split; [done|]. split_and!.
  - by rewrite <-(lo_forced _ _ _ H), Ef.
  - by apply (lo_heartbeat _ _ _ H).
  - by apply (lo_kept _ _ _ H).
  - by rewrite <-(lo_outcome _ _ _ H Ef).
Qed.

(** ** The steps *)

(** The facts of [loop_ok] at a state whose heartbeat still runs. *)
Lemma loop_ok_live seen tr x :
  loop_ok seen tr x → ex_heartbeat_stopped x = false →
  hb_running (ex_heartbeat x) ∧ (∀ at_ r, HeartbeatReturned at_ r ∉ tr).
Proof.
  intros H E. split; [by apply (lo_running _ _ _ H)|]. intros at_ r Hr.
  assert (ex_heartbeat_stopped x = true) by (apply (lo_heartbeat _ _ _ H); eauto). congruence.
Qed.

Definition no_heartbeat (more : list Event) : bool :=
  forallb (λ e, match e with HeartbeatReturned _ _ => false | _ => true end) more.

Definition has_forced (more : list Event) : bool :=
  existsb (λ e, match e with ForcedShutdown => true | _ => false end) more.

Lemma no_heartbeat_spec more at_ r : no_heartbeat more = true → HeartbeatReturned at_ r ∉ more.
Proof. induction more as [|[] more IH]; cbn; [set_solver|..]; (done || set_solver). Qed.

Lemma has_forced_spec more : has_forced more = true ↔ ForcedShutdown ∈ more.
Proof. induction more as [|[] more IH]; cbn; [set_solver|..]; rewrite ?IH; set_solver. Qed.

(** A step that leaves the heartbeat running. *)
Lemma loop_ok_update seen samples tr more x y :
  loop_ok seen tr x → ex_heartbeat_stopped x = false → no_heartbeat more = true →
  ex_heartbeat_stopped y = false → hb_running (ex_heartbeat y) →
  confirmed_by (seen ++ samples) claimed (hb_deadline (ex_heartbeat y)) →
  ex_forced_shutdown_requested y = ex_forced_shutdown_requested x || has_forced more →
  (ex_forced_shutdown_requested y = false →
     ex_requested_outcome y = match ex_requested_outcome x with
                              | Some o => Some o
                              | None => first_decision more
                              end) →
  (ex_handler_done y = true → ex_execution_finished y = true) →
  (ex_heartbeat_stop y = true → decided y) →
  (ex_execution_finished y = true →
     decided y ∧ (ex_execution_finished x = true ∨ ∃ r, HandlerReturned r ∈ more)) →
  (ex_timeout_cleanup_pending y = true → ex_requested_outcome y ≠ None) →
  loop_ok (seen ++ samples) (tr ++ more) y.
Proof.
  intros H E Hq Ey Hrun Hl Hf Hout Hdone Hstop Hfin Hclean.
  destruct (loop_ok_live _ _ _ H E) as [_ Hlive].
  assert (Hnone : ∀ at_ r, HeartbeatReturned at_ r ∉ tr ++ more).
  { intros at_ r [Hr|Hr]%elem_of_app; [by apply (Hlive at_ r)|by apply (no_heartbeat_spec _ at_ r Hq)]. }
  constructor; try done.
  - by rewrite Ey.
  - intros Hy. destruct (Hfin Hy) as [? [Hx|[r Hr]]]; (split; [done|]).
    + destruct (lo_finished _ _ _ H Hx) as [_ [r Hr]]. exists r. apply elem_of_app. by left.
    + exists r. apply elem_of_app. by right.
  - intros Hy. rewrite (Hout Hy), (lo_outcome _ _ _ H).
    + unfold decided_outcome. rewrite !revoked_in_false by done. by rewrite first_decision_app.
    + rewrite Hf in Hy. by apply orb_false_iff in Hy as [? _].
  - split; [by rewrite Ey|]. intros (at_ & r & Hr). by destruct (Hnone at_ r).
  - intros i at_ f Hfl%list_elem_of_lookup_2. by destruct (Hnone at_ (inr f)).
  - rewrite Hf, orb_true_iff, elem_of_app, (lo_forced _ _ _ H), has_forced_spec. done.
Qed.

(** The bookkeeping of such a step: every fact left is one about the flags. *)
Ltac flags H E :=
  pose proof (lo_stop _ _ _ H) as Hstop; pose proof (lo_finished _ _ _ H) as Hfin;
  pose proof (lo_done _ _ _ H) as Hdone; pose proof (lo_running _ _ _ H E) as Hrun;
  pose proof (lo_cleanup _ _ _ H) as Hclean; pose proof (lo_lease _ _ _ H) as Hlease;
  eapply loop_ok_update;
  [exact H|exact E|reflexivity|done|try done|try (by apply confirmed_by_more)
  |cbn; rewrite ?orb_true_r, ?orb_false_r; try done|..]; clear H E;
  match goal with x : Execution |- _ => destruct x end;
  unfold decided in *; cbn in *; subst; try solve [intuition congruence | intros; by case_match].

Lemma forced_ok seen tr x samples :
  loop_ok seen tr x → ex_heartbeat_stopped x = false →
  loop_ok (seen ++ samples) (tr ++ [ForcedShutdown]) (on_forced x).
Proof. intros H E. flags H E. Qed.

Lemma cancelled_ok config now seen tr x samples :
  loop_ok seen tr x → ex_heartbeat_stopped x = false →
  loop_ok (seen ++ samples) (tr ++ [ShutdownRequested]) (on_cancelled config now x).
Proof. intros H E. flags H E. Qed.

Lemma last_event (tr : list Event) e : e ∈ tr ++ [e].
Proof. apply elem_of_app. right. by apply list_elem_of_singleton. Qed.

Lemma grace_elapsed_ok seen tr x samples :
  loop_ok seen tr x → ex_heartbeat_stopped x = false →
  loop_ok (seen ++ samples) (tr ++ [GraceElapsed]) (on_grace_elapsed x).
Proof.
  intros H E. unfold on_grace_elapsed. cbn.
  destruct (ex_requested_outcome x) as [o|] eqn:Eo; cbn; flags H E.
Qed.

Lemma timeout_ok config now seen tr x samples :
  loop_ok seen tr x → ex_heartbeat_stopped x = false → ex_requested_outcome x = None →
  loop_ok (seen ++ samples) (tr ++ [TimedOut]) (on_timeout config now x).
Proof.
  intros H E Eo. unfold on_timeout. cbn. destruct (ex_shutdown_requested x) eqn:Es; cbn;
    flags H E.
Qed.

(** A poll of the heartbeat that is not ready. *)
Lemma pending_ok seen tr x samples h :
  loop_ok seen tr x → ex_heartbeat_stopped x = false → hb_running h →
  confirmed_by (seen ++ samples) claimed (hb_deadline h) →
  loop_ok (seen ++ samples) (tr ++ []) (x <| ex_heartbeat := h |>).
Proof. intros H E Hh Hc. flags H E. Qed.

Lemma handler_ok seen tr x now d r :
  loop_ok seen tr x → ex_heartbeat_stopped x = false →
  match on_handler x r with
  | Selecting y => loop_ok (seen ++ []) (tr ++ [HandlerPolled now d; HandlerReturned r]) y
  | _ => False
  end.
Proof.
  intros H E. unfold on_handler. cbn.
  assert (Hr : ∃ r', HandlerReturned r' ∈ [HandlerPolled now d; HandlerReturned r])
    by (exists r; set_solver).
  destruct (ex_requested_outcome x) as [o|] eqn:Eo; cbn;
    [|destruct (ex_forced_shutdown_requested x) eqn:Ef; cbn]; flags H E.
Qed.

(** A poll of the handler from the loop, after a heartbeat that is pending. *)
Lemma select_handler_ok p seen tr x :
  polls_ok seen tr → loop_ok seen tr x → ex_heartbeat_stopped x = false →
  po_now p < hb_deadline (ex_heartbeat x) →
  executor_ok seen (tr ++ (select_handler p x).1) (select_handler p x).2.
Proof.
  intros Hp H E Hnow. unfold select_handler.
  destruct (ex_execution_finished x) eqn:Ef; [cbn; by rewrite app_nil_r|].
  unfold poll_handler.
  destruct (ex_handler_done x) eqn:Ed; [pose proof (lo_done _ _ _ H Ed); congruence|].
  assert (Hpolls : ∀ more, (∀ now d, HandlerPolled now d ∈ more →
              now = po_now p ∧ d = hb_deadline (ex_heartbeat x)) → polls_ok seen (tr ++ more)).
  { intros more Hm. rewrite <-(app_nil_r seen). apply polls_ok_more; [|done].
    intros now d [-> ->]%Hm. split; [done|]. rewrite app_nil_r. apply (lo_lease _ _ _ H). }
  destruct (po_handler p) as [r|]; cbn [fst snd].
  - split; [apply Hpolls; set_solver|].
    pose proof (handler_ok _ _ _ (po_now p) (hb_deadline (ex_heartbeat x)) r H E) as Hh.
    destruct (on_handler x r); try done. by rewrite app_nil_r in Hh.
  - split; [apply Hpolls; set_solver|]. rewrite <-(app_nil_r seen). flags H E.
Qed.

(** ** The end of the heartbeat *)

Lemma lease_kept_end seen tr at_ r :
  (∀ at_ r, HeartbeatReturned at_ r ∉ tr) →
  (∀ f, r = inr f → ∃ error d, f = Unconfirmed error d ∧ at_ < d ∧ confirmed_by seen claimed d
     ∧ ∃ r, HandlerReturned r ∈ tr) →
  lease_kept seen (tr ++ [HeartbeatReturned at_ r]).
Proof.
  intros Hn Hr i at' f [Hf|[Hi Hf]]%lookup_app_Some.
  { apply list_elem_of_lookup_2 in Hf. by destruct (Hn at' (inr f)). }
  apply list_lookup_singleton_Some in Hf as [_ [= -> ->]].
  destruct (Hr f eq_refl) as (error & d & ? & ? & ? & r' & [j Hj]%list_elem_of_lookup_1).
  exists error, d. split_and!; [done..|]. exists j, r'. apply lookup_lt_Some in Hj as Hlt.
  split; [lia|]. by apply lookup_app_l_Some.
Qed.

(** The loop after a heartbeat that did not revoke. *)
Lemma ended_ok seen tr x at_ r :
  loop_ok seen tr x → ex_heartbeat_stopped x = false → decided x →
  (∀ d, r ≠ inl (HeartbeatRevoked d)) →
  ∀ h samples, confirmed_by (seen ++ samples) claimed (hb_deadline h) →
  (∀ f, r = inr f → ∃ error, f = Unconfirmed error (hb_deadline h) ∧ at_ < hb_deadline h
     ∧ ex_execution_finished x = true) →
  loop_ok (seen ++ samples) (tr ++ [HeartbeatReturned at_ r])
    (x <| ex_heartbeat := h |> <| ex_heartbeat_stopped := true |>).
Proof.
  intros H E Hdec Hnr h samples Hh Hf. destruct (loop_ok_live _ _ _ H E) as [_ Hlive].
  constructor; cbn; try done.
  - intros Hfin. destruct (lo_finished _ _ _ H Hfin) as [_ [r' Hr']]. split; [done|].
    exists r'. apply elem_of_app. by left.
  - apply (lo_done _ _ _ H).
  - apply (lo_cleanup _ _ _ H).
  - intros Hf'. rewrite (lo_outcome _ _ _ H Hf'). unfold decided_outcome.
    rewrite revoked_in_app, first_decision_app, revoked_in_false by done.
    destruct r as [[|d]|]; [|by destruct (Hnr d)|]; by destruct (first_decision tr).
  - split; [|done]. intros _. exists at_, r. apply last_event.
  - apply lease_kept_end; [done|]. intros f Hr. destruct (Hf f Hr) as (error & ? & ? & Hfin).
    exists error, (hb_deadline h). split_and!; [done..|]. apply (lo_finished _ _ _ H Hfin).
  - rewrite elem_of_app, (lo_forced _ _ _ H). set_solver.
Qed.

Lemma cleanup_deadline_le config now x d : cleanup_deadline config now x d ≤ d.
Proof. unfold cleanup_deadline. lia. Qed.

(** The loop once a revoked attempt has nothing left to clean up. *)
Lemma settle_ok seen tr y :
  confirmed_by seen claimed (hb_deadline (ex_heartbeat y)) →
  ex_heartbeat_stopped y = true → ex_timeout_cleanup_pending y = false →
  (ex_handler_done y = true → ex_execution_finished y = true) →
  (ex_execution_finished y = true → ∃ r, HandlerReturned r ∈ tr) →
  (∃ at_ r, HeartbeatReturned at_ r ∈ tr) → revoked_in tr = true → lease_kept seen tr →
  (ex_forced_shutdown_requested y = true ↔ ForcedShutdown ∈ tr) →
  loop_ok seen tr (y <| ex_requested_outcome := Some ExRevoked |>).
Proof.
  intros Hl Hst Hc Hd Hfin Hr Hv Hk Hf. constructor; unfold decided; cbn; try done; try by auto.
  - by rewrite Hst.
  - intros _. unfold decided_outcome. by rewrite Hv.
Qed.

Lemma polls_ok_quiet seen tr samples more :
  (∀ now d, HandlerPolled now d ∉ more) → polls_ok seen tr → polls_ok (seen ++ samples) (tr ++ more).
Proof. intros Hq. apply polls_ok_more. intros now d Hin. by destruct (Hq now d). Qed.

Lemma revoked_branch_ok config p seen tr x samples d :
  polls_ok seen tr → loop_ok seen tr x → ex_heartbeat_stopped x = false →
  confirmed_by (seen ++ samples) claimed d →
  executor_ok (seen ++ samples) (tr ++ [HeartbeatReturned (po_branch p) (inl (HeartbeatRevoked d))])
    (on_revoked config p d (x <| ex_heartbeat := HbDone d |>)).
Proof.
  intros Hp H E Hc. destruct (loop_ok_live _ _ _ H E) as [_ Hlive].
  assert (Hk : lease_kept (seen ++ samples) (tr ++ [HeartbeatReturned (po_branch p) (inl (HeartbeatRevoked d))]))
    by (by apply lease_kept_end).
  assert (Hf : ex_forced_shutdown_requested x = true ↔
            ForcedShutdown ∈ tr ++ [HeartbeatReturned (po_branch p) (inl (HeartbeatRevoked d))]).
  { rewrite elem_of_app, list_elem_of_singleton, (lo_forced _ _ _ H). naive_solver. }
  assert (Hr : ∃ at_ r, HeartbeatReturned at_ r ∈ tr ++ [HeartbeatReturned (po_branch p) (inl (HeartbeatRevoked d))])
    by (do 2 eexists; apply last_event).
  assert (Hv : revoked_in (tr ++ [HeartbeatReturned (po_branch p) (inl (HeartbeatRevoked d))]) = true)
    by (rewrite revoked_in_app; apply orb_true_r).
  split; [apply polls_ok_quiet; [set_solver|done]|]. unfold on_revoked. cbn.
  destruct (ex_execution_finished x) eqn:Ef; cbn.
  { apply settle_ok; cbn; try done. intros _.
    destruct (lo_finished _ _ _ H Ef) as [_ [r Hin]]. exists r. apply elem_of_app. by left. }
  assert (Ed : ex_handler_done x = false).
  { destruct (ex_handler_done x) eqn:Ed; [|done]. pose proof (lo_done _ _ _ H Ed). congruence. }
  destruct (po_check p <? cleanup_deadline _ _ _ _) eqn:En.
  - constructor; cbn; try done. apply cleanup_deadline_le.
  - apply settle_ok; cbn; try done; congruence.
Qed.

Lemma failed_branch_ok config p seen tr x samples d f :
  polls_ok seen tr → loop_ok seen tr x → ex_heartbeat_stopped x = false →
  confirmed_by (seen ++ samples) claimed d →
  executor_ok (seen ++ samples) (tr ++ [HeartbeatReturned (po_branch p) (inr f)])
    (on_failed config p f d (x <| ex_heartbeat := HbDone d |>)).
Proof.
  intros Hp H E Hc. split; [apply polls_ok_quiet; [set_solver|done]|]. unfold on_failed. cbn.
  assert (Hin : HeartbeatReturned (po_branch p) (inr f) ∈ tr ++ [HeartbeatReturned (po_branch p) (inr f)])
    by apply last_event.
  destruct (ex_execution_finished x) eqn:Ef; cbn; [right; eauto|].
  destruct (po_check p <? cleanup_deadline _ _ _ _) eqn:En; [|right; eauto].
  split_and!; cbn; try done; [apply cleanup_deadline_le| |by eexists].
  destruct (ex_handler_done x) eqn:Ed; [|done]. pose proof (lo_done _ _ _ H Ed). congruence.
Qed.

Lemma on_heartbeat_ok config p seen tr x samples d r :
  polls_ok seen tr → loop_ok seen tr x → ex_heartbeat_stopped x = false →
  confirmed_by (seen ++ samples) claimed d → reports (ex_heartbeat_stop x) d r →
  executor_ok (seen ++ samples) (tr ++ [HeartbeatReturned (po_branch p) r])
    (on_heartbeat config p r (x <| ex_heartbeat := HbDone d |>)).
Proof.
  intros Hp H E Hc Hr. destruct r as [[|d']|[d'|e d']]; cbn in Hr; subst.
  - split; [apply polls_ok_quiet; [set_solver|done]|].
    apply ended_ok; try done. by apply (lo_stop _ _ _ H).
  - by apply revoked_branch_ok.
  - by apply failed_branch_ok.
  - unfold on_heartbeat. cbn. destruct (ex_execution_finished x) eqn:Ef; cbn;
      [destruct (po_branch p <? d) eqn:En|]; try by apply failed_branch_ok.
    split; [apply polls_ok_quiet; [set_solver|done]|].
    apply ended_ok; try done; [by apply (lo_finished _ _ _ H)|]. intros f [= <-]. cbn.
    exists e. split_and!; [done|lia|done].
Qed.

Lemma select_heartbeat_ok config p seen tr x :
  polls_ok seen tr → loop_ok seen tr x → ex_heartbeat_stopped x = false →
  executor_ok (seen ++ po_heartbeat p) (tr ++ (select_heartbeat config p x).1)
    (select_heartbeat config p x).2.
Proof.
  intros Hp H E. unfold select_heartbeat. rewrite E.
  pose proof (heartbeat_poll_spec (ex_heartbeat_stop x) (po_now p) (po_heartbeat p) _
                (lo_running _ _ _ H E)) as Hb.
  destruct (heartbeat_poll _ _ _ _) as [h|h r|]; cbn in Hb |- *; [..|done].
  - destruct Hb as (Hh & Hnow & Hc). apply select_handler_ok; [|..|done|done].
    + rewrite <-(app_nil_r tr). apply polls_ok_quiet; [set_solver|done].
    + rewrite <-(app_nil_r tr). apply pending_ok; [done..|].
      eapply confirmed_by_app; [apply (lo_lease _ _ _ H)|done].
  - destruct Hb as (d & -> & Hc & Hr). apply on_heartbeat_ok; try done.
    eapply confirmed_by_app; [apply (lo_lease _ _ _ H)|done].
Qed.

Lemma select_ok config p seen tr x :
  polls_ok seen tr → loop_ok seen tr x → ex_heartbeat_stopped x = false →
  executor_ok (seen ++ po_heartbeat p) (tr ++ (select config p x).1) (select config p x).2.
Proof.
  intros Hp H E. unfold select.
  assert (some_branch_enabled x = true) as ->.
  { unfold some_branch_enabled. rewrite E. cbn. by rewrite orb_true_r. }
  assert (Hq : ∀ e, (∀ now d, e ≠ HandlerPolled now d) →
            polls_ok (seen ++ po_heartbeat p) (tr ++ [e])).
  { intros e He. apply polls_ok_quiet; [|done]. intros now d Hin%list_elem_of_singleton.
    by apply (He now d). }
  cbn [negb]. case_match; [split; [by apply Hq|by apply forced_ok]|].
  case_match; [split; [by apply Hq|by apply cancelled_ok]|].
  case_match; [split; [by apply Hq|by apply grace_elapsed_ok]|].
  case_match eqn:Et; [|by apply select_heartbeat_ok].
  split; [by apply Hq|]. apply timeout_ok; try done.
  by destruct (ex_requested_outcome x).
Qed.

(** ** The cleanups *)

Lemma cleanup_poll_ok p seen tr x deadline more :
  polls_ok seen tr → confirmed_by seen claimed (hb_deadline (ex_heartbeat x)) →
  deadline ≤ hb_deadline (ex_heartbeat x) → deadline_passed (po_now p) deadline = false →
  (∀ now d, HandlerPolled now d ∈ more → now = po_now p ∧ d = hb_deadline (ex_heartbeat x)) →
  polls_ok (seen ++ po_heartbeat p) (tr ++ more).
Proof.
  intros Hp Hl Hd Hpass%Z.leb_gt Hm. apply polls_ok_more; [|done].
  intros now d [-> ->]%Hm. split; [lia|]. by apply confirmed_by_more.
Qed.

(** The facts of a revoked attempt that later events do not change. *)
Lemma revoked_ok_more seen samples tr more x deadline :
  no_heartbeat more = true → revoked_ok seen tr x deadline →
  (∃ at_ r, HeartbeatReturned at_ r ∈ tr ++ more) ∧ revoked_in (tr ++ more) = true
  ∧ lease_kept (seen ++ samples) (tr ++ more)
  ∧ confirmed_by (seen ++ samples) claimed (hb_deadline (ex_heartbeat x)).
Proof.
  intros Hq [Hl Hd Hst [Hfin Hdone] Hc [(at_ & r & Hr) Hv] Hk Hf]. split_and!.
  - exists at_, r. apply elem_of_app. by left.
  - by rewrite revoked_in_app, Hv.
  - apply lease_kept_more; [|done]. intros at' r'. by apply no_heartbeat_spec.
  - by apply confirmed_by_more.
Qed.

Lemma forced_iff tr more (b : bool) :
  (b = true ↔ ForcedShutdown ∈ tr) → has_forced more = false →
  b = true ↔ ForcedShutdown ∈ tr ++ more.
Proof. intros H Hm. rewrite elem_of_app, <-(has_forced_spec more), Hm, H. naive_solver. Qed.

Lemma revoked_cleanup_ok p seen tr x deadline :
  polls_ok seen tr → revoked_ok seen tr x deadline →
  executor_ok (seen ++ po_heartbeat p) (tr ++ (revoked_cleanup p x deadline).1)
    (revoked_cleanup p x deadline).2.
Proof.
  intros Hp H. pose proof H as [Hl Hd Hst [Hfin Hdone] Hc _ _ Hf].
  unfold revoked_cleanup. destruct (po_forced_cancelled p); cbn [fst snd].
  { destruct (revoked_ok_more _ (po_heartbeat p) _ [ForcedShutdown] _ _ eq_refl H) as (?&?&?&?).
    split; [apply polls_ok_quiet; [set_solver|done]|].
    apply settle_ok; cbn; try done; try congruence.
    split; [|done]. intros _. apply last_event. }
  destruct (deadline_passed (po_now p) deadline) eqn:Epass; cbn [fst snd].
  { destruct (revoked_ok_more _ (po_heartbeat p) _ [] _ _ eq_refl H) as (?&?&?&?).
    split; [apply polls_ok_quiet; [set_solver|done]|].
    apply settle_ok; cbn; try done; try congruence. by apply forced_iff. }
  unfold poll_handler. rewrite Hdone.
  destruct (po_handler p) as [r|]; cbn [fst snd];
    (split; [eapply cleanup_poll_ok; [done..|set_solver]|]).
  - edestruct (revoked_ok_more _ (po_heartbeat p) tr
                 [HandlerPolled (po_now p) (hb_deadline (ex_heartbeat x)); HandlerReturned r]
                 _ _ eq_refl H) as (?&?&?&?).
    apply settle_ok; cbn; try done; [|by apply forced_iff].
    intros _. exists r. set_solver.
  - edestruct (revoked_ok_more _ (po_heartbeat p) tr
                 [HandlerPolled (po_now p) (hb_deadline (ex_heartbeat x))]
                 _ _ eq_refl H) as (?&?&?&?).
    constructor; try done. by apply forced_iff.
Qed.

Lemma failed_cleanup_ok p seen tr x f deadline :
  executor_ok seen tr (FailedCleanup x f deadline) →
  executor_ok (seen ++ po_heartbeat p) (tr ++ (failed_cleanup p x f deadline).1)
    (failed_cleanup p x f deadline).2.
Proof.
  intros (Hp & Hl & Hd & Hdone & at_ & Hin).
  assert (Hret : ∀ more, tr ++ more = [] ∨ ∃ at_ failure,
            HeartbeatReturned at_ (inr failure) ∈ tr ++ more ∧ failure_into_error f = failure_into_error failure).
  { intros more. right. exists at_, f. split; [|done]. apply elem_of_app. by left. }
  unfold failed_cleanup. destruct (po_forced_cancelled p); cbn [fst snd].
  { split; [apply polls_ok_quiet; [set_solver|done]|apply Hret]. }
  destruct (deadline_passed (po_now p) deadline) eqn:Epass; cbn [fst snd].
  { split; [apply polls_ok_quiet; [set_solver|done]|apply Hret]. }
  unfold poll_handler. rewrite Hdone.
  destruct (po_handler p) as [r|]; cbn [fst snd];
    (split; [eapply cleanup_poll_ok; [done..|set_solver]|]); [apply Hret|].
  split_and!; try done; [by apply confirmed_by_more|]. exists at_. apply elem_of_app. by left.
Qed.

(** ** Every turn *)

Lemma executor_ok_idle seen tr s samples :
  executor_ok seen tr s → executor_ok (seen ++ samples) (tr ++ []) s.
Proof.
  rewrite app_nil_r. intros [Hp Hs]. split.
  { rewrite <-(app_nil_r tr). by apply polls_ok_quiet; [set_solver|]. }
  destruct s as [x|x d|x f d|[]|o|]; try done.
  - destruct Hs. constructor; try done; [by apply confirmed_by_more|by apply lease_kept_seen].
  - destruct Hs. constructor; try done; [by apply confirmed_by_more|by apply lease_kept_seen].
  - destruct Hs as (? & ? & ? & ?). split_and!; try done. by apply confirmed_by_more.
  - destruct Hs as (? & ? & ? & ?). split_and!; try done. by apply lease_kept_seen.
Qed.

Lemma executor_step_ok config p seen tr s :
  executor_ok seen tr s →
  executor_ok (seen ++ po_heartbeat p) (tr ++ (executor_step config p s).1)
    (executor_step config p s).2.
Proof.
  intros H. destruct s as [x|x d|x f d|r|o|]; cbn [executor_step];
    try by apply executor_ok_idle.
  - destruct H as [Hp Hx]. destruct (loop_head x) as [s|] eqn:Eh.
    + by apply executor_ok_idle, (loop_head_Some _ _ x).
    + apply select_ok; try done. by eapply loop_head_None.
  - destruct H. by apply revoked_cleanup_ok.
  - by apply failed_cleanup_ok.
Qed.

Definition samples_of (polls : list Poll) : list Sample := polls ≫= po_heartbeat.

Lemma executor_run_ok config polls seen tr s :
  executor_ok seen tr s →
  executor_ok (seen ++ samples_of polls) (tr ++ (executor_run config polls s).1)
    (executor_run config polls s).2.
Proof.
  revert seen tr s. induction polls as [|p rest IH]; intros seen tr s H.
  { by apply executor_ok_idle. }
  change (samples_of (p :: rest)) with (po_heartbeat p ++ samples_of rest).
  rewrite executor_run_cons. cbn [fst snd]. rewrite !(assoc_L app).
  by apply IH, executor_step_ok.
Qed.

End invariant.

Lemma begin_execution_ok config claim now :
  executor_ok (acl_lease_deadline claim) [] [] (begin_execution config claim now).
Proof.
  unfold begin_execution. split; [intros ?? []%not_elem_of_nil|].
  destruct (_ <=? now); [by left|]. destruct (res_bind _ _); [|by left].
  constructor; unfold decided; cbn; try done; [by left|..].
  - split; [done|]. by intros (? & ? & []%not_elem_of_nil).
  - split; [done|]. intros []%not_elem_of_nil.
Qed.

Lemma execution_ok config claim now polls :
  executor_ok (acl_lease_deadline claim) (samples_of polls)
    (execution config claim now polls).1 (execution config claim now polls).2.
Proof.
  apply (executor_run_ok _ config polls [] []), begin_execution_ok.
Qed.

(** * Executions end *)

Definition ended (s : Executor) : bool :=
  match s with
  | Returned _ | Stopped _ => true
  | Selecting _ | RevokedCleanup _ _ | FailedCleanup _ _ _ | Panicked => false
  end.

(** The last confirmed deadline of an execution that has not ended. *)
Definition lease_of (s : Executor) : option MonoInstant :=
  match s with
  | Selecting x | RevokedCleanup x _ | FailedCleanup x _ _ => Some (hb_deadline (ex_heartbeat x))
  | Returned _ | Stopped _ | Panicked => None
  end.

(** Every reading of the clock in a turn is at or after [deadline]. *)
Definition late_poll (deadline : MonoInstant) (p : Poll) : Prop :=
  deadline ≤ po_now p ∧ deadline ≤ po_branch p ∧ deadline ≤ po_grace p ∧ deadline ≤ po_check p
  ∧ Forall (λ s, deadline ≤ sm_now s) (po_heartbeat p).

(** The heartbeat was told to stop between two renewals, or has ended. *)
Definition draining (s : Executor) : Prop :=
  match s with
  | Selecting x =>
      ex_heartbeat_stopped x = true
      ∨ (ex_heartbeat_stop x = true ∧ ∃ d, ex_heartbeat x = HbWaiting d)
  | RevokedCleanup _ _ | FailedCleanup _ _ _ => False
  | Returned _ | Stopped _ | Panicked => True
  end.

(** A bound on the turns left once the heartbeat must end: each of the first
    four branches fires once at most. *)
Definition turns_left (s : Executor) : nat :=
  match s with
  | Selecting x =>
      if ex_heartbeat_stopped x then 1
      else 2 + (if ex_forced_shutdown_requested x then 0 else 1)
             + (if ex_shutdown_requested x then 0 else 1)
             + (if is_none (ex_requested_outcome x) then 2
                else if ex_timeout_cleanup_pending x then 1 else 0)
  | RevokedCleanup _ _ => 2
  | FailedCleanup _ _ _ => 1
  | Returned _ | Stopped _ | Panicked => 0
  end%nat.

Lemma heartbeat_poll_late stop now samples h :
  hb_running h → hb_deadline h ≤ now → Forall (λ s, hb_deadline h ≤ sm_now s) samples →
  ∃ r, heartbeat_poll stop now samples h = PollReady (HbDone (hb_deadline h)) r
    ∧ (r = inl HeartbeatStopped ∨ r = inr (LeaseLost (hb_deadline h))).
Proof.
  intros Hh Hnow Hs. destruct h as [d|d|]; [..|done]; cbn in *;
    (destruct Hs as [|s rest Hs _]; cbn; unfold deadline_passed; cbn;
     [rewrite (proj2 (Z.leb_le d now) Hnow)|rewrite (proj2 (Z.leb_le d (sm_now s)) Hs)]);
    try destruct stop; eauto.
Qed.

Lemma heartbeat_poll_draining now samples d :
  heartbeat_poll true now samples (HbWaiting d) = PollReady (HbDone d) (inl HeartbeatStopped).
Proof. by destruct samples. Qed.

(** The heartbeat must end when the loop polls it. *)
Definition must_end (p : Poll) (s : Executor) : Prop :=
  draining s ∨ ∃ d, lease_of s = Some d ∧ late_poll d p.

Lemma select_heartbeat_ends config p seen tr x claimed :
  loop_ok claimed seen tr x → ex_heartbeat_stopped x = false → must_end p (Selecting x) →
  let s := (select_heartbeat config p x).2 in
  (turns_left s < 2)%nat ∧ draining s.
Proof.
  intros H E Hm. unfold select_heartbeat. rewrite E.
  pose proof (lo_running _ _ _ _ H E) as Hrun.
  destruct Hm as [[Hs|[Hs [d Hd]]]|(d & [= <-] & Hnow & _ & _ & Hcheck & Hl)]; [congruence|..].
  { rewrite Hs, Hd, heartbeat_poll_draining. cbn. split; [lia|by left]. }
  destruct (heartbeat_poll_late (ex_heartbeat_stop x) _ _ _ Hrun Hnow Hl) as (r & -> & [-> | ->]);
    cbn; [split; [lia|by left]|].
  unfold on_failed. cbn. rewrite (proj2 (Z.ltb_ge _ _)), andb_false_r; [cbn; split; [lia|done]|].
  etrans; [apply cleanup_deadline_le|done].
Qed.

(** What a turn of the loop does before it polls the heartbeat. *)
Inductive early_branch (config : WorkerConfig) (now : MonoInstant) (x : Execution)
    : Execution → Prop :=
  | early_forced : ex_forced_shutdown_requested x = false →
      early_branch config now x (on_forced x)
  | early_cancelled : ex_shutdown_requested x = false →
      early_branch config now x (on_cancelled config now x)
  | early_grace : ex_requested_outcome x = None ∨ ex_timeout_cleanup_pending x = true →
      early_branch config now x (on_grace_elapsed x)
  | early_timeout : ex_requested_outcome x = None →
      early_branch config now x (on_timeout config now x).

Lemma select_cases config p x :
  ex_heartbeat_stopped x = false →
  (∃ y, (select config p x).2 = Selecting y ∧ early_branch config (po_branch p) x y)
  ∨ select config p x = select_heartbeat config p x.
Proof.
  intros E. unfold select.
  assert (some_branch_enabled x = true) as ->.
  { unfold some_branch_enabled. rewrite E. cbn. by rewrite orb_true_r. }
  cbn [negb]. case_match eqn:E1.
  { left. eexists. split; [done|]. constructor. by destruct (ex_forced_shutdown_requested x). }
  case_match eqn:E2.
  { left. eexists. split; [done|]. constructor. by destruct (ex_shutdown_requested x). }
  case_match eqn:E3.
  { left. eexists. split; [done|]. constructor. unfold grace_guard in E3.
    destruct (ex_timeout_cleanup_pending x); [by right|left].
    destruct (ex_requested_outcome x); [|done]. by destruct (ex_shutdown_requested x). }
  case_match eqn:E4; [|by right].
  left. eexists. split; [done|]. constructor. by destruct (ex_requested_outcome x).
Qed.

(** Such a branch fires at most once, and does not touch the heartbeat. *)
Lemma early_branch_spec config now x y seen tr claimed :
  loop_ok claimed seen tr x → ex_heartbeat_stopped x = false → early_branch config now x y →
  ex_heartbeat y = ex_heartbeat x ∧ ex_heartbeat_stopped y = false
  ∧ (ex_heartbeat_stop x = true → ex_heartbeat_stop y = true)
  ∧ (turns_left (Selecting y) < turns_left (Selecting x))%nat.
Proof.
  intros H E Hb. pose proof (lo_cleanup _ _ _ _ H) as Hc. clear H.
  destruct Hb as [Ef|Es|Eo|Eo]; unfold on_grace_elapsed, on_timeout; cbn; rewrite E.
  - rewrite Ef. split_and!; try done. repeat case_match; lia.
  - rewrite Es. split_and!; try done. repeat case_match; lia.
  - destruct (ex_requested_outcome x) eqn:Eq; cbn; rewrite ?E, ?Eq; cbn; split_and!; try done.
    + destruct Eo as [|Eo]; [done|]. rewrite Eo. repeat case_match; lia.
    + repeat case_match; lia.
  - rewrite Eo. destruct (ex_shutdown_requested x) eqn:Es; cbn; rewrite ?E, ?Es; cbn;
      split_and!; try done; repeat case_match; lia.
Qed.

(** A turn brings an execution whose heartbeat must end closer to its end,
    and does not move the deadline. *)
Lemma executor_step_ends config p seen tr s claimed :
  executor_ok claimed seen tr s → must_end p s → ended s = false →
  let s' := (executor_step config p s).2 in
  (turns_left s' < turns_left s)%nat
  ∧ (draining s' ∨ (¬ draining s ∧ lease_of s' = lease_of s)).
Proof.
  intros [_ Hs] Hm He. destruct s as [x|x d|x f d|r|o|]; cbn [executor_step]; try done.
  - destruct (loop_head x) as [s'|] eqn:Eh.
    { unfold loop_head in Eh. cbn. destruct (ex_heartbeat_stopped x); [|done].
      destruct (ex_forced_shutdown_requested x), (ex_timeout_cleanup_pending x);
        simplify_eq/=; try (split; [lia|by left]).
      destruct (ex_requested_outcome x); simplify_eq/=. split; [lia|by left]. }
    pose proof (loop_head_None _ _ _ _ Hs Eh) as E.
    destruct (select_cases config p x E) as [(y & -> & Hb)|Hsel].
    + destruct (early_branch_spec _ _ _ _ _ _ _ Hs E Hb) as (Hhb & Hst & Hstop & Hlt).
      split; [done|]. cbn. rewrite Hhb, Hst, E.
      destruct (ex_heartbeat_stop x), (ex_heartbeat x); naive_solver.
    + destruct (select_heartbeat_ends config p _ _ x _ Hs E Hm) as [Hlt Hd]. rewrite Hsel.
      split; [|by left]. cbn [turns_left] in *. rewrite E. lia.
  - destruct Hm as [[]|(d' & [= <-] & Hnow & _)]. destruct Hs as [_ Hle Hst _ _ _ _ _].
    unfold revoked_cleanup, deadline_passed. rewrite (proj2 (Z.leb_le _ _)) by lia.
    destruct (po_forced_cancelled p); cbn; rewrite Hst; (split; [lia|by left; left]).
  - destruct Hm as [[]|(d' & [= <-] & Hnow & _)]. destruct Hs as (_ & Hle & _).
    unfold failed_cleanup, deadline_passed. rewrite (proj2 (Z.leb_le _ _)) by lia.
    destruct (po_forced_cancelled p); cbn; (split; [lia|by left]).
Qed.

Lemma executor_run_ended config polls s :
  ended s = true → (executor_run config polls s).2 = s.
Proof.
  intros He. induction polls as [|p rest IH]; [done|]. rewrite executor_run_cons. cbn [snd].
  by destruct s; cbn in *.
Qed.

Lemma executor_run_ends config polls seen tr s claimed :
  executor_ok claimed seen tr s →
  draining s ∨ (∃ d, lease_of s = Some d ∧ Forall (late_poll d) polls) →
  (turns_left s ≤ length polls)%nat → ended (executor_run config polls s).2 = true.
Proof.
  revert seen tr s. induction polls as [|p rest IH]; intros seen tr s H Hm Hlen.
  { cbn in *. destruct H as [_ H]. destruct s as [x| | | | |]; try done; [|cbn in Hlen; lia..].
    cbn in Hlen. case_match; lia. }
  destruct (ended s) eqn:He; [by rewrite executor_run_ended|].
  rewrite executor_run_cons. cbn [snd].
  assert (Hp : must_end p s).
  { destruct Hm as [|(d & Hd & Hl)]; [by left|]. right. exists d. by inv Hl. }
  destruct (executor_step_ends config p _ _ s _ H Hp He) as [Hlt Hnext].
  eapply IH; [by apply executor_step_ok| |cbn in Hlen; lia].
  destruct Hnext as [|[Hnd Hl]]; [by left|]. right. rewrite Hl.
  destruct Hm as [|(d & Hd & Hf)]; [done|]. exists d. by inv Hf.
Qed.

Lemma turns_left_bound s : (turns_left s ≤ 6)%nat.
Proof. destruct s; cbn; repeat case_match; lia. Qed.

(** * Properties *)

(** C10: a handler runs only under a lease. Whatever the order in which the
    tokens, the timers, the renewals and the handler become ready, every poll
    of the handler, the cleanup after a revoke or a failed renewal included,
    comes at an instant before the last confirmed local deadline, which is
    that of the claim or of a renewal that was committed. *)
Theorem handler_runs_inside_the_lease config claim now polls at_instant deadline :
  HandlerPolled at_instant deadline ∈ (execution config claim now polls).1 →
  at_instant < deadline
  ∧ confirmed_by (samples_of polls) (acl_lease_deadline claim) deadline.
Proof. apply (proj1 (execution_ok config claim now polls)). Qed.

(** The database clock is [offset] nanoseconds from the local one and gives
    whole milliseconds. *)
Definition database_clock (offset : Z) (local : Instant) : DbMillis :=
  (local + offset) / NANOS_PER_MILLI.

(** From the sample on and before the deadline, the lease has not expired on the
    database clock, wherever between [started] and the answer the clock was
    read. *)
Definition inside_lease (started : Instant) (now expires_at : DbMillis) (deadline : Instant)
    : Prop :=
  ∀ offset sampled, started ≤ sampled → now = database_clock offset sampled →
  ∀ t, started ≤ t < deadline → database_clock offset t < expires_at.

(** The row a committed renewal leaves, and the local deadline it returns. *)
Definition renewal_recorded (claim : ActivityClaim) (started : Instant) (e : Env)
    (renewed : Renewed) (d' : Db) : Prop :=
  ∃ r' expires_at,
    db_activity d' !! ac_id (acl_row claim) = Some r'
    ∧ ac_lease_token r' = Some (acl_lease_token claim)
    ∧ ac_attempt_count r' = acl_attempt_number claim
    ∧ ac_lease_expires_at r' = Some expires_at
    ∧ expires_at = env_clock e 0 + ac_lease_duration_millis (acl_row claim)
    ∧ match renewed with
      | Held deadline => ac_status r' = ActRunning
          ∧ inside_lease started (env_clock e 0) expires_at deadline
      | Revoked deadline => ac_status r' = ActCancelling
          ∧ inside_lease started (env_clock e 0) expires_at deadline
      end.

Lemma local_deadline_inside started now duration expires_at deadline :
  checked_plus_millis now duration = Some expires_at →
  lease_deadline_from_sample started duration = Ok deadline →
  inside_lease started now expires_at deadline.
Proof.
  intros [-> _]%i64_checked_add_Some (n & Hn%ok_or_Ok & Hd%ok_or_Ok)%res_bind_Ok.
  assert (n = duration ∧ 0 ≤ n) as [-> Hpos] by (revert Hn; ranges). unfold instant_checked_add in Hd.
  destruct (_ <? _); [|done]. injection Hd as <-.
  intros offset sampled Hs -> t Ht. unfold database_clock, NANOS_PER_MILLI in *.
  pose proof (Z.mod_pos_bound (sampled + offset) 1000000).
  pose proof (Z.div_mod (sampled + offset) 1000000).
  apply Z.div_lt_upper_bound; lia.
Qed.

(** A transaction that begins with a sample of the clock. *)
Lemma wp_sampled {A} Ψ (k : DbMillis → Tx A) (e : Env) d d' a Φ :
  wp Ψ (k (env_clock e 0)) e d Φ →
  transaction e (let! now := database_now_millis in k now) d = (Ok a, d') → Φ a d'.
Proof.
  intros Hk. specialize (Hk 1%nat 0%nat). unfold transaction, tx_bind, database_now_millis. cbn.
  destruct (k _ _ _) as [[b s]|]; [|done]. by intros [= <- <-].
Qed.

(** C13: the local deadline of a renewal is inside the persisted lease. When a
    heartbeat commits, the row holds the claim's lease until the database
    clock's [now] plus the lease duration, [Held] says that the attempt is
    running and [Revoked] that it is cancelling; and at every local instant
    from the sample on and before the returned deadline, the database clock,
    which is any fixed offset from the local one, gives whole milliseconds and
    was read at or after the sample, is before the persisted expiry. *)
Theorem renewal_is_conservative claim started (e : Env) (d d' : Db) renewed :
  transaction e (heartbeat_once claim started) d = (Ok renewed, d') →
  renewal_recorded claim started e renewed d'.
Proof.
  unfold heartbeat_once. apply (wp_sampled any_error). repeat run_step;
    match goal with
    | Hd : lease_deadline_from_sample _ _ = Ok _, He : checked_plus_millis _ _ = Some _,
      Hl : leased_activity _ _ = true |- _ =>
        pose proof (local_deadline_inside _ _ _ _ _ He Hd);
        apply i64_checked_add_Some in He as [-> _];
        apply andb_true_iff in Hl as [_ [Hattempt Htoken]%bool_decide_eq_true]
    end;
    do 2 eexists; cbn; rewrite lookup_insert_eq; split_and!; done.
Qed.

(** ** The writes of an execution *)

(** A transaction that ran while the execution did: of another actor, or of a
    renewal of the claim. *)
Inductive Write :=
  | OtherWrite (other : OtherTx)
  | RenewalWrite (e : Env) (started : Instant).

Definition run_write (claim : ActivityClaim) (d : Db) (w : Write) : Db :=
  match w with
  | OtherWrite other => (transaction (ot_env other) (ot_tx other) d).2
  | RenewalWrite e started => (transaction e (heartbeat_once claim started) d).2
  end.

Definition other_write (w : Write) : option OtherTx :=
  match w with OtherWrite other => Some other | RenewalWrite _ _ => None end.
Definition renewal_write (w : Write) : option (Env * Instant) :=
  match w with OtherWrite _ => None | RenewalWrite e started => Some (e, started) end.

(** From [d] to [d'] only transactions of [others], in their order, and renewals
    of the claim, each of those [sent] once at most. *)
Definition written_by (claim : ActivityClaim) (others : list OtherTx) (sent : list (Env * Instant))
    (d d' : Db) : Prop :=
  ∃ writes, d' = foldl (run_write claim) d writes
    ∧ omap other_write writes `sublist_of` others
    ∧ omap renewal_write writes `sublist_of` sent.

(** The answer of a renewal is that of a transaction that committed. *)
Definition answered (claim : ActivityClaim) (s : Sample) : Prop :=
  ∀ renewed, sm_renewal s = Some (Ok renewed) →
    ∃ e started d d', transaction e (heartbeat_once claim started) d = (Ok renewed, d').

Lemma written_refl claim others sent d : written_by claim others sent d d.
Proof. exists []. split_and!; [done|apply sublist_nil_l..]. Qed.

Lemma written_app claim o1 o2 s1 s2 d1 d2 d3 :
  written_by claim o1 s1 d1 d2 → written_by claim o2 s2 d2 d3 →
  written_by claim (o1 ++ o2) (s1 ++ s2) d1 d3.
Proof.
  intros (w1 & -> & ? & ?) (w2 & -> & ? & ?). exists (w1 ++ w2).
  rewrite foldl_app, !omap_app. split_and!; [done|by apply sublist_app..].
Qed.

Lemma written_others claim others d : written_by claim others [] d (run_others others d).
Proof.
  exists (OtherWrite <$> others). unfold run_others. split_and!.
  - revert d. induction others as [|o others IH]; intros d; [done|]. cbn. apply IH.
  - clear. induction others as [|o others IH]; [done|]. cbn. by apply sublist_skip.
  - clear. by induction others.
Qed.

Lemma written_renewal claim e started d :
  written_by claim [] [(e, started)] d (transaction e (heartbeat_once claim started) d).2.
Proof. exists [RenewalWrite e started]. by split_and!. Qed.

Lemma renew_writes claim h w d :
  written_by claim [] (option_list (ws_sent w)) d (renew claim h w d).2
  ∧ answered claim (MkSample (ws_now w) (ws_tick w) (renew claim h w d).1).
Proof.
  unfold renew, answered. destruct h; [split; [apply written_refl|done]| |split; [apply written_refl|done]].
  destruct (ws_answer w), (ws_sent w) as [[e started]|]; cbn; try (split; [apply written_refl|done]).
  - case_match; (split; [|done]); [apply written_renewal|apply written_refl].
  - pose proof (written_renewal claim e started d) as Hw.
    destruct (transaction e _ d) as [result d'] eqn:E. split; [done|]. cbn.
    intros renewed [= ->]. eauto 6.
  - split; [apply written_renewal|done].
Qed.

Lemma world_sample_writes claim h w d :
  written_by claim (ws_before w ++ ws_after w) (option_list (ws_sent w)) d
    (world_sample claim h w d).2
  ∧ answered claim (world_sample claim h w d).1.
Proof.
  unfold world_sample. pose proof (renew_writes claim h w (run_others (ws_before w) d)) as [Hr Ha].
  destruct (renew _ _ _ _) as [renewal d1]; cbn in *. split; [|done].
  rewrite <-(app_nil_r (option_list _)). eapply written_app; [|apply written_others].
  rewrite <-(app_nil_r (ws_before w)). rewrite <-(app_nil_l (option_list _)).
  by eapply written_app; [apply written_others|].
Qed.

Definition sample_others (w : WorldSample) : list OtherTx := ws_before w ++ ws_after w.
Definition sample_sent (w : WorldSample) : list (Env * Instant) := option_list (ws_sent w).

Lemma world_samples_writes claim stop h ws d :
  written_by claim (ws ≫= sample_others) (ws ≫= sample_sent) d (world_samples claim stop h ws d).2
  ∧ Forall (answered claim) (world_samples claim stop h ws d).1.
Proof.
  revert h d. induction ws as [|w ws IH]; intros h d; cbn [world_samples].
  { split; [apply written_refl|constructor]. }
  pose proof (world_sample_writes claim h w d) as [Hw Ha].
  destruct (world_sample claim h w d) as [s d1]; cbn [fst snd] in *.
  rewrite !bind_cons.
  assert (∀ h', let r := world_samples claim stop h' ws d1 in
    written_by claim (sample_others w ++ (ws ≫= sample_others))
      (sample_sent w ++ (ws ≫= sample_sent)) d r.2 ∧ Forall (answered claim) (s :: r.1)) as Hrest.
  { intros h' r. destruct (IH h' d1) as [Hs Hf]. split; [by eapply written_app|by constructor]. }
  destruct (heartbeat_step stop h s) as [[|h'|]|].
  - specialize (Hrest h). by destruct (world_samples claim stop h ws d1).
  - specialize (Hrest h'). by destruct (world_samples claim stop h' ws d1).
  - split; [by eapply written_app; [|apply written_refl]|by constructor].
  - split; [by eapply written_app; [|apply written_refl]|by constructor].
Qed.

Definition turn_others (t : Turn) : list OtherTx :=
  tn_others t ++ (tn_heartbeat t ≫= sample_others).
Definition turn_sent (t : Turn) : list (Env * Instant) := tn_heartbeat t ≫= sample_sent.

Lemma world_turn_writes claim t s d :
  written_by claim (turn_others t) (turn_sent t) d (world_turn claim t s d).2
  ∧ Forall (answered claim) (po_heartbeat (world_turn claim t s d).1).
Proof.
  unfold world_turn, turn_others, turn_sent. set (d1 := run_others (tn_others t) d).
  assert (∀ d2, written_by claim (tn_heartbeat t ≫= sample_others) (tn_heartbeat t ≫= sample_sent)
    d1 d2 → written_by claim (tn_others t ++ (tn_heartbeat t ≫= sample_others))
      (tn_heartbeat t ≫= sample_sent) d d2) as Hall.
  { intros d2 H2. rewrite <-(app_nil_l (tn_heartbeat t ≫= sample_sent)).
    eapply written_app; [apply written_others|done]. }
  destruct (heartbeat_polled _ _) as [x|]; cbn.
  - destruct (world_samples_writes claim (ex_heartbeat_stop x) (ex_heartbeat x) (tn_heartbeat t) d1)
      as [Hw Ha].
    destruct (world_samples _ _ _ _ _) as [samples d2]. cbn in *. auto.
  - split; [apply Hall, written_refl|constructor].
Qed.

Lemma world_run_writes config claim turns s d :
  written_by claim (turns ≫= turn_others) (turns ≫= turn_sent) d
    (world_run config claim turns s d).2
  ∧ Forall (answered claim) (samples_of (world_run config claim turns s d).1).
Proof.
  revert s d. induction turns as [|t turns IH]; intros s d; cbn [world_run].
  { split; [apply written_refl|constructor]. }
  destruct (world_turn_writes claim t s d) as [Hw Ha].
  destruct (world_turn claim t s d) as [p d1]; cbn [fst snd] in *. rewrite !bind_cons.
  destruct (IH (executor_step config p s).2 d1) as [Hr Hf].
  destruct (world_run _ _ turns _ d1) as [polls d2]; cbn [fst snd] in *.
  split; [by eapply written_app|]. unfold samples_of. rewrite bind_cons. by apply Forall_app.
Qed.

(** The turns of the world poll the heartbeat exactly when the machine does: a
    step that does not poll it does not depend on its samples. *)
Lemma heartbeat_polled_spec config p s samples :
  match heartbeat_polled p s with
  | Some x => s = Selecting x ∧ executor_step config p s = select_heartbeat config p x
  | None => executor_step config (p <| po_heartbeat := samples |>) s = executor_step config p s
  end.
Proof.
  destruct s as [x| | | | |]; cbn [heartbeat_polled executor_step]; try done.
  destruct (loop_head x) as [s|]; cbn [is_none andb]; [done|]. unfold select.
  destruct (some_branch_enabled x); cbn [negb andb]; [|done].
  cbn [po_forced_cancelled po_cancelled po_shutdown_timer po_timeout_timer po_branch
       set_po_heartbeat fset].
  destruct (negb _ && po_forced_cancelled p); [done|].
  destruct (negb _ && po_cancelled p); [done|].
  destruct (grace_guard x && _); [done|].
  destruct (is_none _ && po_timeout_timer p); [done|]. cbn [negb andb].
  destruct (ex_heartbeat_stopped x) eqn:E; cbn [negb]; [|done].
  unfold select_heartbeat. by rewrite E.
Qed.

(** C11: T-W3 needs authority. While an execution runs, other actors commit
    their transactions, and its own are renewals of its claim, each one sent
    committed once at most; every deadline it holds on to is the claim's or the
    answer of a renewal that committed. Then it finishes the claim at most
    once, and only if no forced shutdown was seen, its heartbeat has ended, no
    renewal was refused, a renewal that failed otherwise came after the handler
    had returned and was met at an instant before the last confirmed deadline,
    and the outcome is the revoke if a renewal reported one, else that of
    whichever came first: the timeout, the elapsed shutdown grace or the return
    of the handler. It returns [Ok] without a finish only after a forced
    shutdown, and an error of its own only if it could not begin or its
    heartbeat failed. *)
Theorem finish_needs_authority `{Codec} config claim now turns (e : Env) (d d' : Db) result :
  execute_claim config claim now turns e d = Some (result, d') →
  let polls := (world_polls config claim now turns d).1 in
  let tr := (execution config claim now polls).1 in
  Forall (answered claim) (samples_of polls) ∧
  ∃ d1, written_by claim (turns ≫= turn_others) (turns ≫= turn_sent) d d1 ∧
  ((∃ outcome, finish_claim e claim outcome d1 = (result, d')
      ∧ (ForcedShutdown ∉ tr) ∧ (∃ at_ r, HeartbeatReturned at_ r ∈ tr)
      ∧ lease_kept (acl_lease_deadline claim) (samples_of polls) tr
      ∧ decided_outcome tr = Some outcome)
   ∨ (d' = d1 ∧ result = Ok tt ∧ ForcedShutdown ∈ tr)
   ∨ (d' = d1 ∧ ∃ error, result = Err error
        ∧ (tr = [] ∨ ∃ at_ failure, HeartbeatReturned at_ (inr failure) ∈ tr
                      ∧ error = failure_into_error failure))).
Proof.
  intros He polls tr.
  destruct (world_run_writes config claim turns (begin_execution config claim now) d) as [Hw Ha].
  fold (world_polls config claim now turns d) in Hw, Ha. fold polls in Ha. split; [done|].
  exists (world_polls config claim now turns d).2. split; [done|].
  pose proof (proj2 (execution_ok config claim now polls)) as H'.
  unfold execute_claim in He. subst tr polls.
  destruct (world_polls config claim now turns d) as [polls d1]; cbn [fst snd] in *.
  destruct (execution config claim now polls).2 as [| | |[[]|err]|o|]; simplify_eq.
  - right. left. done.
  - right. right. eauto.
  - left. exists o. done.
Qed.


(** C12: an execution ends. Nothing it polls panics: no future is polled
    again after it completed, and some branch of the loop is always enabled.
    And six turns end it once every reading of the clock is at or past the
    last confirmed deadline, whatever the handler, the renewals and the timers
    do; or once its heartbeat was told to stop between two renewals, which the
    return of the handler, the elapsed grace and a forced shutdown do. *)
Theorem executions_end config claim now polls :
  let s := (execution config claim now polls).2 in
  s ≠ Panicked
  ∧ ∀ late, (6 ≤ length late)%nat →
      draining s ∨ (∃ deadline, lease_of s = Some deadline ∧ Forall (late_poll deadline) late) →
      ended (executor_run config late s).2 = true.
Proof.
  intros s. pose proof (execution_ok config claim now polls) as H. fold s in H. split.
  - intros Hs. rewrite Hs in H. by destruct H.
  - intros late Hlen Hm. eapply executor_run_ends; [done|done|].
    pose proof (turns_left_bound s). lia.
Qed.

(** The period of the heartbeat leaves two more renewals inside a lease of at
    least three milliseconds, and is never zero, which [interval_at] would
    reject with a panic. *)
Lemma heartbeat_interval_bounds worker_id config config' lease_duration :
  activity_worker_new worker_id config = Ok config' → 0 ≤ wc_heartbeat_interval config →
  0 ≤ lease_duration →
  0 < heartbeat_interval config' lease_duration ≤ wc_heartbeat_interval config
  ∧ (3 ≤ lease_duration →
     3 * heartbeat_interval config' lease_duration ≤ lease_duration * NANOS_PER_MILLI).
Proof.
  unfold activity_worker_new, heartbeat_interval, NANOS_PER_MILLI.
  case_match eqn:E; [done|]. intros [= <-] Hi Hl.
  apply orb_false_iff in E as [[_ E%Z.eqb_neq]%orb_false_iff _].
  pose proof (Z.div_mod (lease_duration * 1000000) 3 ltac:(lia)).
  pose proof (Z.mod_pos_bound (lease_duration * 1000000) 3 ltac:(lia)). lia.
Qed.

(** * Witnesses: the charge of the example *)

Definition at_millis (now : Z) (samples : list Sample)
    (handler : option (string + ActivityDispatchError)) : Poll :=
  let now := now * NANOS_PER_MILLI in
  MkPoll now now now now false false false false samples handler.

(** The tick of the interval and the answer of the renewal it starts. *)
Definition renewal_at (now : Z) (renewed : Renewed) : list Sample :=
  [MkSample (now * NANOS_PER_MILLI) true None;
   MkSample (now * NANOS_PER_MILLI) false (Some (Ok renewed))].

(** The handler is polled, the lease renewed, and the handler returns. *)
Definition charge_polls : list Poll :=
  [at_millis 1 [] None; at_millis 2000 (renewal_at 2000 (Held 6999000000)) None;
   at_millis 2500 [] (Some (inl "paid")); at_millis 2501 [] None; at_millis 2502 [] None].

Definition charge_execution : list Event * Executor :=
  execution default_worker_config charge_claim 0 charge_polls.

Example charge_execution_finishes : charge_execution.2 = Stopped (ExSucceeded "paid").
Proof. vm_compute. reflexivity. Qed.

Lemma handler_runs_inside_the_lease_witness :
  2000000000 < 6999000000
  ∧ confirmed_by (samples_of charge_polls) (acl_lease_deadline charge_claim) 6999000000.
Proof.
  apply (handler_runs_inside_the_lease default_worker_config charge_claim 0 charge_polls).
  apply list_elem_of_In. vm_compute. tauto.
Defined.

Lemma renewal_is_conservative_witness :
  renewal_recorded charge_claim 0 (env_at 5500 "x") (Held 4999000000)
    (transaction (env_at 5500 "x") (heartbeat_once charge_claim 0) charge_claimed).2.
Proof.
  apply (renewal_is_conservative charge_claim 0 (env_at 5500 "x") charge_claimed).
  vm_compute. reflexivity.
Defined.

(** The same execution in the world: the renewal commits at 5500 on the database
    clock, sampled two seconds into the execution. *)
Definition charge_turns : list Turn :=
  let turn now ws handler := MkTurn [] (at_millis now [] handler) ws in
  let at_two := 2000 * NANOS_PER_MILLI in
  [turn 1 [] None;
   turn 2000 [MkWorldSample at_two true [] None NoAnswer [];
              MkWorldSample at_two false [] (Some (env_at 5500 "x", at_two)) OwnAnswer []] None;
   turn 2500 [] (Some (inl "paid")); turn 2501 [] None; turn 2502 [] None].

Example charge_turns_poll :
  (world_polls default_worker_config charge_claim 0 charge_turns charge_claimed).1 = charge_polls.
Proof. vm_compute. reflexivity. Qed.

Definition charge_renewed : Db :=
  (transaction (env_at 5500 "x") (heartbeat_once charge_claim 2000000000) charge_claimed).2.

Lemma finish_needs_authority_witness :
  ∃ d', execute_claim default_worker_config charge_claim 0 charge_turns (env_at 6000 "f")
          charge_claimed = Some (Ok tt, d')
  ∧ Forall (answered charge_claim)
      (samples_of (world_polls default_worker_config charge_claim 0 charge_turns charge_claimed).1)
  ∧ ∃ d1, written_by charge_claim (charge_turns ≫= turn_others) (charge_turns ≫= turn_sent)
            charge_claimed d1.
Proof.
  eexists. split; [vm_compute; reflexivity|].
  destruct (finish_needs_authority default_worker_config charge_claim 0 charge_turns
    (env_at 6000 "f") charge_claimed _ _ ltac:(vm_compute; reflexivity)) as (Ha & d1 & Hw & _).
  split; [exact Ha|]. exists d1. exact Hw.
Defined.

(** The handler hangs and no renewal is answered. *)
Lemma executions_end_witness :
  ended (executor_run default_worker_config (replicate 6 (at_millis 5000 [] None))
           (execution default_worker_config charge_claim 0 [at_millis 1 [] None]).2).2 = true.
Proof.
  apply (proj2 (executions_end default_worker_config charge_claim 0 [at_millis 1 [] None])).
  - vm_compute. lia.
  - right. exists 4999000000. split; [vm_compute; reflexivity|].
    apply Forall_replicate. split_and!; [vm_compute; discriminate..|apply Forall_nil; exact I].
Defined.
