(* ===== verification/Tasks.v ===== *)
(** The tasks of a runtime ([run_task] of [runtime/supervisor.rs]), its start
    ([DurableRuntime::spawn]) and its stop ([RuntimeHandle::shutdown]).

    Each task but the manager is a loop. A turn is one iteration: it looks at
    the cancellation token, does one piece of work on the database and says
    whether the task returns, goes on or waits. The text of an error, which
    only the logs show, is the parameter [error_text]. *)
From stdpp Require Import base gmap list strings.
From Stdlib Require Import ZArith Lia.
From S2P Require Import Prelude.
From S2P Require Import Errors.
From S2P Require Import Status.
From S2P Require Import Rows.
From S2P Require Import Database.
From S2P Require Import TxLogic.
From S2P Require Import Lifecycle.
From S2P Require Import Evolution.
From S2P Require Import Policy.
From S2P Require Import Transitions.
From S2P Require Import Registry.
From S2P Require Import Calendar.
From S2P Require Import Coordinator.
From S2P Require Import Worker.
From S2P Require Import Temporal.
From S2P Require Import Schedules.
From S2P Require Import Restart.
From S2P Require Import Health.
From S2P Require Import Supervisor.
From S2P Require Import Reads.
From S2P Require Import Protocol.
From S2P Require Import Safety.
From S2P Require Import Walks.
From S2P Require Import Claims.
From S2P Require Import Dispatch.
From S2P Require Import Deliveries.
From S2P Require Import HealthReports.
From S2P Require Import Stored.
From S2P Require Import Scenario.
From S2P Require Import ExampleCalendar.

Inductive Turn :=
  | TaskReturned (failure : option RuntimeTaskFailure)
  | TaskContinues
  | TaskWaits (delay : Duration)
  | TaskWaitsForChange (idle_delay : option Duration).

(** * One turn of each task *)

Section tasks.
Context `{Codec, Chrono}.
Variable error_text : DurableError → string.

(** The [?] of a task. *)
Definition task_fails (error : DurableError) : Turn :=
  TaskReturned (Some (failure_of_error (error_text error) error)).

(** A loop that waits when there is nothing to do. *)
Definition polling_turn {A} (cancelled : bool) (idle_delay : Duration)
    (work : Db → Result (option A) * Db) (d : Db) : Turn * Db :=
  if cancelled then (TaskReturned None, d)
  else match work d with
       | (Err error, d') => (task_fails error, d')
       | (Ok None, d') => (TaskWaits idle_delay, d')
       | (Ok (Some _), d') => (TaskContinues, d')
       end.

Definition coordinator_turn (config : RuntimeConfig) (workflows : WorkflowRegistry)
    (activities : ActivityRegistry) (runtime_id : string) (cancelled : bool)
    (e0 e1 e2 : Env) : Db → Turn * Db :=
  polling_turn cancelled (rc_idle_delay config)
    (activate_one workflows activities (rc_coordinator config)
       (runtime_id +:+ ":coordinator") e0 e1 e2).

(** [materialize_next]: [now] is the database clock, read first. *)
Definition materialize_next (now : DbMillis) (e : Env) (d : Db) : Result (option WorkflowId) * Db :=
  transaction e (materialize_timer now) d.

Definition timer_turn (config : RuntimeConfig) (cancelled : bool) (now : DbMillis) (e : Env)
    : Db → Turn * Db :=
  polling_turn cancelled (rc_timer_poll_interval config) (materialize_next now e).

Definition expire_next (now : DbMillis) (e : Env) (d : Db) : Result (option ApprovalId) * Db :=
  materialize_approval_expiry now e d.

Definition approval_expiry_turn (config : RuntimeConfig) (cancelled : bool) (now : DbMillis)
    (e : Env) : Db → Turn * Db :=
  polling_turn cancelled (rc_approval_expiry_poll_interval config) (expire_next now e).

(** The alert of a failed tick needs the definition. *)
Definition schedule_turn (config : RuntimeConfig) (schedules : ScheduleRegistry) (key : string)
    (cancelled : bool) (now : DbMillis) (e1 e2 : Env) (d : Db) : Turn * Db :=
  if cancelled then (TaskReturned None, d)
  else match materialize_schedule schedules key now e1 e2 d with
       | (Ok report, d') =>
           (if (rp_inspected report =? 0) && (rp_started report =? 0) && (rp_queued report =? 0)
            then TaskWaits (rc_schedule_poll_interval config) else TaskContinues, d')
       | (Err error, d') =>
           (match schedules !! key with
            | None => task_fails (NotFound "schedule definition" key)
            | Some _ =>
                if schedule_error_is_retryable error then task_fails error
                else TaskWaits (rc_schedule_poll_interval config)
            end, d')
       end.

(** The health task: the alerts of the scan, then the one of the activation
    counters. A panic of the sink is caught. *)
Definition health_turn (config : RuntimeConfig) (workflows : WorkflowRegistry)
    (activities : ActivityRegistry) (topics : TopicRegistry) (cancelled : bool)
    (captured_at : DbMillis) (transient_alert : option HealthAlert) (e : Env) (d : Db)
    : Turn * list HealthAlert * Db :=
  if cancelled then (TaskReturned None, [], d)
  else match transaction e (scan_once workflows activities topics
               (rc_health_stale_after config / 1000000)
               (Z.to_nat (rc_max_health_alerts_per_kind config)) captured_at) d with
       | (Err error, d') => (task_fails error, [], d')
       | (Ok alerts, d') =>
           (TaskWaits (rc_health_scan_interval config),
            alerts ++ option_list transient_alert, d')
       end.

(** ** The dispatcher *)

Definition idle_delays : list Duration := [secs 1; secs 2; secs 5; secs 10].

(** The delay of an empty sweep, before its jitter. *)
Definition sweep_delay (empty_sweeps : nat) : Duration :=
  default (secs 10) (idle_delays !! Nat.min empty_sweeps (length idle_delays - 1)).

(** The spawns. Before each the manager may have collected executions and
    heard of the shutdown ([settle]), after which it refuses it. *)
Fixpoint spawn_each (c : Collector) (generation : Z)
    (claims : list ((Collector → Collector) * TaskId * ActivityClaim)) : Turn * Collector :=
  match claims with
  | [] => (TaskContinues, c)
  | (settle, task_id, claim) :: rest =>
      if co_shutting_down (settle c)
      then (TaskReturned (Some (fault "activity execution manager is shutting down")), settle c)
      else spawn_each (spawn_execution (settle c) task_id (ac_topic (acl_row claim)) generation)
             generation rest
  end.

(** A sweep. [c0] is the manager when the failure is taken and the snapshot
    made, and [joins] gives for each spawn what the manager does before it and
    the id of the new task. [cancelled] and [cancelled'] are the
    token at the head of the loop and at the snapshot. *)
Definition dispatcher_turn (config : RuntimeConfig) (activities : ActivityRegistry)
    (topics : TopicRegistry) (overrides : gmap string Z) (runtime_id : string)
    (generation : Z) (cancelled cancelled' : bool) (empty_sweeps : nat) (started : Instant)
    (c0 : Collector) (joins : nat → (Collector → Collector) * TaskId) (e : Env) (d : Db)
    : Turn * nat * Collector * Db :=
  if cancelled then (TaskReturned None, empty_sweeps, c0, d)
  else match take_activity_execution_failure (co_failures c0) with
  | Some failure => (TaskReturned (Some failure), empty_sweeps, with_failures [] c0, d)
  | None =>
      if cancelled' then (TaskReturned None, empty_sweeps, c0, d)
      else
        let available := dispatch_available topics config overrides (co_snapshot c0) in
        if (available =? 0)%nat then (TaskWaitsForChange None, empty_sweeps, c0, d)
        else
          let result := transaction e (claim_batch activities topics
            (runtime_id +:+ ":dispatcher") available
            (local_topic_capacity topics config overrides (co_snapshot c0)) started) d in
          let swept := match result with
            | (Ok claims, d') => inl (claims, d')
            | (Err error, d') => if is_transient error then inl ([], d') else inr (error, d')
            end in
          match swept with
          | inr (error, d') => (task_fails error, empty_sweeps, c0, d')
          | inl ([], d') =>
              (TaskWaitsForChange (Some (sweep_delay empty_sweeps)), S empty_sweeps, c0, d')
          | inl (claims, d') =>
              let (turn, c) := spawn_each c0 generation (imap (λ i claim, (joins i, claim)) claims) in
              (turn, 0%nat, c, d')
          end
  end.
End tasks.

(** * Starting and stopping *)

(** [DurableRuntime::spawn], up to the spawn of the supervisor: every schedule
    is reconciled, the topic locks are seeded, and the definitions that stored
    work needs must be there. The environments are those of its
    transactions, one per schedule. *)
Section start.
Context `{Chrono}.

Fixpoint reconcile_all (schedules : ScheduleRegistry) (keys : list (string * Env))
    (deployed_at : DbMillis) (d : Db) : Result unit * Db :=
  match keys with
  | [] => (Ok tt, d)
  | (key, e) :: rest =>
      match transaction e (reconcile_state schedules key deployed_at) d with
      | (Ok _, d') => reconcile_all schedules rest deployed_at d'
      | (Err error, d') => (Err error, d')
      end
  end.

Definition runtime_spawn (schedules : ScheduleRegistry) (keys : list (string * Env))
    (workflows : WorkflowRegistry) (activities : ActivityRegistry) (topics : TopicRegistry)
    (deployed_at : DbMillis) (e1 e2 e3 e4 : Env) (d : Db) : Result unit * Db :=
  match reconcile_all schedules keys deployed_at d with
  | (Err error, d') => (Err error, d')
  | (Ok _, d') =>
      match seed_locks_once topics e1 e2 e3 d' with
      | (Err error, d'') => (Err error, d'')
      | (Ok _, d'') =>
          match transaction e4 (readiness_query workflows activities topics) d'' with
          | (Err error, d3) => (Err error, d3)
          | (Ok readiness, d3) => (ensure_ready readiness, d3)
          end
      end
  end.
End start.

(** What the join of the supervisor gives before its deadline: its errors, how
    it ended without returning, or neither. *)
Inductive Joining :=
  | JoinedErrors (errors : list RuntimeTaskError)
  | JoinFailed (error : JoinError)
  | JoinElapsed.

Definition deadline_error (deadline : string) : RuntimeTaskError :=
  MkRuntimeTaskError "supervisor" ("shutdown deadline elapsed after " +:+ deadline) false.

Definition forced_error (timeout : string) : RuntimeTaskError :=
  MkRuntimeTaskError "supervisor"
    ("forced shutdown did not reach a safe point after " +:+ timeout) false.

(** The errors of [RuntimeHandle::shutdown], whether it cancelled the forced
    token and whether it aborted the supervisor. [Ok] is an empty list. *)
Definition runtime_shutdown (deadline timeout : string) (first second : Joining)
    : list RuntimeTaskError * bool * bool :=
  match first with
  | JoinedErrors errors => (errors, false, false)
  | JoinFailed error => ([join_error "supervisor" error], false, false)
  | JoinElapsed =>
      match second with
      | JoinedErrors errors => (errors ++ [deadline_error deadline], true, false)
      | JoinFailed error => ([deadline_error deadline; join_error "supervisor" error], true, false)
      | JoinElapsed => ([deadline_error deadline; forced_error timeout], true, true)
      end
  end.

(** * What a waiting task knows *)

Section waiting.
Context `{CodecLaws, Chrono}.
Variable error_text : DurableError → string.

Lemma polling_waits {A} idle (work : Db → Result (option A) * Db) cancelled d delay d' :
  polling_turn error_text cancelled idle work d = (TaskWaits delay, d') →
  work d = (Ok None, d') ∧ delay = idle.
Proof.
  unfold polling_turn. destruct cancelled; [done|].
  destruct (work d) as [[[a|]|error] d1]; intros [= ]; by subst.
Qed.

(** An expiry that finds its candidate does not end in [None]. *)
Lemma wp_expire_candidate_found now (e : Env) (d : Db) a :
  db_approval d !! ap_id a = Some a → expiring_approval now a = true →
  wp any_error (expire_candidate now (ap_id a) (ap_workflow_id a)) e d (λ o _, o ≠ None).
Proof.
  intros Ha Hx. unfold expire_candidate, append_delivery_event, clear_wait.
  repeat run_step; simplify_eq; try done; try congruence.
Qed.

Lemma approval_waits now (e : Env) (d d' : Db) :
  db_ok d → expire_next now e d = (Ok None, d') →
  d' = d ∧ ∀ id a, db_approval d !! id = Some a → expiring_approval now a = false.
Proof.
  intros Hok. unfold expire_next, materialize_approval_expiry.
  set (rows := filter _ _).
  destruct (head (sort_by approval_expiry_le rows)) as [a|] eqn:Eh.
  - intros Ht. exfalso.
    assert (a ∈ rows) as [Hx [[id a'] [-> Hin%elem_of_map_to_list]]%list_elem_of_fmap]%list_elem_of_filter.
    { apply (elem_of_sort_by approval_expiry_le).
      destruct (sort_by approval_expiry_le rows); [done|]. injection Eh as ->. by left. }
    cbn in *. assert (Hid : ap_id a' = id) by apply (ok_approval _ Hok _ _ Hin).
    rewrite <-Hid in Hin.
    by apply (wp_committed _ _ _ _ _ _ _ (wp_expire_candidate_found now e d a' Hin Hx) Ht).
  - intros [= <-]. split; [done|]. intros id a Ha. apply not_true_iff_false. intros Hx.
    assert (Hin : a ∈ sort_by approval_expiry_le rows).
    { apply elem_of_sort_by, list_elem_of_filter. split; [done|]. apply list_elem_of_fmap.
      exists (id, a). by rewrite elem_of_map_to_list. }
    destruct (sort_by approval_expiry_le rows); [|done]. by apply not_elem_of_nil in Hin.
Qed.

(** C30: a task waits only when nothing is due. In tables the engine reaches,
    whose event sequences and leases fit their columns and whose workflow rows
    no other transaction holds: the timer task waits, and leaves the tables as
    they are, only if no sleeping workflow that waits on a timer has reached
    its wake time; the approval task only if no pending approval has reached
    its expiry; and the coordinator only if no workflow of its definitions is
    ready and due at the database's time, before or after the one lease
    recovery that is all it then does. *)
Theorem waiting_tasks_have_no_work config workflows activities runtime_id cancelled now
    (e e1 e2 : Env) (d d' : Db) delay :
  reachable d → sequences_fit d → lease_fits (rc_coordinator config) e →
  (∀ id, env_locked_workflow e id = false) →
  (timer_turn error_text config cancelled now e d = (TaskWaits delay, d') →
     d' = d ∧ ∀ id r, db_workflow d !! id = Some r → wf_status r = WfSleeping →
       wf_wait_kind r = Some KindTimer → (now < wf_available_at r)%Z)
  ∧ (approval_expiry_turn error_text config cancelled now e d = (TaskWaits delay, d') →
     d' = d ∧ ∀ id a expiry, db_approval d !! id = Some a → ap_status a = ApprPending →
       ap_expires_at a = Some expiry → (now < expiry)%Z)
  ∧ (coordinator_turn error_text config workflows activities runtime_id cancelled e e1 e2 d
       = (TaskWaits delay, d') →
     ∃ i, lease_recovery (env_clock e i) d d'
       ∧ ∀ id r, db_workflow d !! id = Some r ∨ db_workflow d' !! id = Some r →
           (wf_kind r, wf_version r) ∈ definition_keys workflows → wf_status r = WfReady →
           (env_clock e i < wf_available_at r)%Z).
Proof.
  intros Hd Hfit Hlease Hfree. pose proof (reachable_ok _ Hd) as Hok. split_and!.
  - intros [Ht _]%polling_waits.
    pose proof (wp_committed _ _ _ _ _ _ _ (wp_materialize_timer e d now Hok) Ht) as [-> Hnone].
    split; [done|]. intros id r Hr Hs Hk. specialize (Hnone id r Hr). unfold due_free in Hnone.
    rewrite Hfree, andb_true_r in Hnone. unfold due_timer in Hnone.
    rewrite bool_decide_true in Hnone by done. by apply Z.leb_gt in Hnone.
  - intros [Ht _]%polling_waits. destruct (approval_waits now e d d' Hok Ht) as [-> Hnone].
    split; [done|]. intros id a expiry Ha Hs Hx. specialize (Hnone id a Ha).
    unfold expiring_approval in Hnone. rewrite bool_decide_true, Hx in Hnone by done.
    by apply Z.leb_gt in Hnone.
  - intros [Ht _]%polling_waits. unfold activate_one in Ht.
    destruct (wp_total _ _ _ _ (wp_claim_row (rc_coordinator config)
      (runtime_id +:+ ":coordinator") (definition_keys workflows) e d Hd Hfit Hlease Hfree))
      as (result & d1 & E & i & d2 & Hrec & Hc). rewrite E in Ht.
    destruct result as [claim|].
    { destruct (activate_claim_inner _ _ _ _ _ _ _) as [[|error] d3]; [done|].
      by destruct (benign_activation_kind error). }
    destruct Hc as [-> Hnone]. injection Ht as <-. exists i. split; [done|].
    intros id r Hr Hkey Hready. apply Z.nle_gt. intros Hdue.
    apply (Hnone id r); [|done]. destruct Hr as [Hr|Hr]; [|done].
    by eapply recovery_keeps_startable.
Qed.
End waiting.

(** * Starting and stopping *)

(** A runtime that starts has every definition and topic that stored work
    needs, and the lock row of every topic has its registered limit. *)
Theorem runtime_starts_ready `{Chrono} schedules keys workflows activities topics deployed_at
    (e1 e2 e3 e4 : Env) (d d' : Db) :
  runtime_spawn schedules keys workflows activities topics deployed_at e1 e2 e3 e4 d = (Ok tt, d') →
  all_registered workflows activities topics d'
  ∧ ∀ definition, definition ∈ topic_definitions topics → lock_agrees definition d'.
Proof.
  unfold runtime_spawn. destruct (reconcile_all _ _ _ _) as [[|] d1]; [|done].
  destruct (seed_locks_once topics e1 e2 e3 d1) as [[[]|] d2] eqn:Es; [|done].
  destruct (wp_total_read _ _ _ _ (wp_readiness workflows activities topics e4 d2))
    as (report & -> & Hready).
  intros [= Hr <-]. split; [by apply Hready|].
  by apply (seed_agrees _ _ _ _ _ _ _ Es).
Qed.

(** A shutdown reports no error exactly when the supervisor returned none
    before the deadline; a deadline that elapsed is always reported, and the
    supervisor is aborted only after the forced shutdown elapsed too. *)
Theorem shutdown_is_clean deadline timeout first second errors forced aborted :
  runtime_shutdown deadline timeout first second = (errors, forced, aborted) →
  (errors = [] ↔ first = JoinedErrors [])
  ∧ (forced = true ↔ first = JoinElapsed)
  ∧ (forced = true → deadline_error deadline ∈ errors)
  ∧ (aborted = true ↔ first = JoinElapsed ∧ second = JoinElapsed).
Proof.
  unfold runtime_shutdown. intros [= ].
  destruct first as [l| |], second as [l'| |]; simplify_eq/=; split_and!; try naive_solver.
  all: try (split; [intros [_ ?]%app_nil|]; done).
  all: intros _; set_solver.
Qed.

(** * The theorem on the scenario *)

(** Before its approval expires the order waits, and no task has work. *)
Lemma waiting_tasks_have_no_work_witness :
  let e := env_at 8500 "w" in
  let text := λ _ : DurableError, "" in
  (timer_turn text default_runtime_config false 8500 e asking = (TaskWaits (secs 10), asking)
   ∧ ∀ id r, db_workflow asking !! id = Some r → wf_status r = WfSleeping →
       wf_wait_kind r = Some KindTimer → (8500 < wf_available_at r)%Z)
  ∧ (approval_expiry_turn text default_runtime_config false 8500 e asking
       = (TaskWaits (secs 10), asking)
     ∧ ∀ id a expiry, db_approval asking !! id = Some a → ap_status a = ApprPending →
         ap_expires_at a = Some expiry → (8500 < expiry)%Z)
  ∧ (coordinator_turn text default_runtime_config workflows activities "rt" false e e e asking
       = (TaskWaits (secs 2), asking)
     ∧ ∃ i, ∀ id r, db_workflow asking !! id = Some r →
         (wf_kind r, wf_version r) ∈ definition_keys workflows → wf_status r = WfReady →
         (env_clock e i < wf_available_at r)%Z).
Proof.
  cbv zeta.
  pose proof (λ delay, waiting_tasks_have_no_work (λ _, "") default_runtime_config workflows
    activities "rt" false 8500 (env_at 8500 "w") (env_at 8500 "w") (env_at 8500 "w") asking asking
    delay (asking_reachable) ltac:(apply sequences_fit_test; vm_compute; reflexivity)
    ltac:(split; [vm_compute; split; discriminate|intros i; vm_compute; split; discriminate])
    (λ _, eq_refl)) as Hwait.
  split_and!; [vm_compute; reflexivity| |vm_compute; reflexivity| |vm_compute; reflexivity|].
  - apply (Hwait (secs 10)). vm_compute. reflexivity.
  - apply (Hwait (secs 10)). vm_compute. reflexivity.
  - destruct (Hwait (secs 2)) as (_ & _ & Hcoordinator).
    destruct Hcoordinator as (i & _ & Hnone); [vm_compute; reflexivity|].
    exists i. intros id r Hr. apply (Hnone id r). by left.
Defined.
