(* ===== verification/Mysql.v ===== *)
(** The MySQL dialect ([dialect/mysql.rs]) and its agreement with the
    PostgreSQL one, which the rest of the development uses ([Database]).

    MySQL has no [RETURNING] and cannot name the key of a conflict. An insert
    tells by the session's [LAST_INSERT_ID()] what it did: the duplicate branch
    sets it to zero. [INSERT IGNORE] skips a row that violates a key or a check.
    [Dialect] is the interface of both: the inserts the engine calls. *)
From stdpp Require Import base gmap list strings.
From Stdlib Require Import ZArith Lia Ascii.
From S2P Require Import Prelude.
From S2P Require Import Errors.
From S2P Require Import Status.
From S2P Require Import Rows.
From S2P Require Import Database.
From S2P Require Import TxLogic.
From S2P Require Import Lifecycle.
From S2P Require Import Evolution.
From S2P Require Import Policy.
From S2P Require Import Transitions.
From S2P Require Import Registry.
From S2P Require Import Calendar.
From S2P Require Import Store.
From S2P Require Import Schedules.
From S2P Require Import Protocol.
From S2P Require Import Scenario.
From S2P Require Import Safety.

(** * The interface *)



(** * The statements of MySQL *)

(** [INSERT ... ON DUPLICATE KEY UPDATE id = id + LAST_INSERT_ID(0)] with the
    [LAST_INSERT_ID()] it leaves: the new id, or zero when any unique key
    collided, which leaves the row that is there as it was. *)
Definition insert_workflow_on_duplicate (new_row : WorkflowId → WorkflowRow) : Tx Z :=
  let! d := tx_get in
  let row := new_row (db_next_workflow d) in
  let rows := snd <$> map_to_list (db_workflow d) in
  if (wf_version row <=? 0)%Z || (wf_state_version row <=? 0)%Z
  then db_fail CheckViolation "durable_workflow_check"
  else if (bool_decide (is_Some (wf_deduplication_key row))
           && existsb (λ r, bool_decide (wf_kind r = wf_kind row
                              ∧ wf_deduplication_key r = wf_deduplication_key row)) rows)
          || (bool_decide (is_Some (wf_restarted_from_workflow_id row))
              && existsb (λ r, bool_decide (wf_restarted_from_workflow_id r
                                            = wf_restarted_from_workflow_id row)) rows)
  then tx_ret 0%Z
  else if references_missing d (wf_root_workflow_id row)
          || references_missing d (wf_restarted_from_workflow_id row)
          || references_missing d (wf_parent_workflow_id row)
  then db_fail ForeignKeyViolation "fk_durable_workflow"
  else do! tx_put (d <| db_workflow := <[wf_id row := row]> (db_workflow d) |>
                     <| db_next_workflow := (db_next_workflow d + 1)%Z |>) in
       tx_ret (wf_id row).

Definition mysql_insert_workflow (new_row : WorkflowId → WorkflowRow) : Tx WorkflowInsert :=
  let! last_id := insert_workflow_on_duplicate new_row in
  if (0 <? last_id)%Z
  then let! id := tx_lift (new_id last_id) in tx_ret (WorkflowInserted id)
  else if bool_decide (is_Some (wf_deduplication_key (new_row 0%Z)))
  then tx_ret DeduplicationConflict
  else tx_fail (restart_conflict (wf_restarted_from_workflow_id (new_row 0%Z))).

(** ** Plain inserts

    The server numbers the row from the counter of the table, which
    [LAST_INSERT_ID()] then returns. It tests the checks first; a foreign key is
    tested before the row enters the index the key uses, which for the keys of
    a command and of an occurrence is their unique index. Its messages name
    what was violated in its own words. *)












(** ** Errors *)

Definition ROLLED_BACK_PREFIXES : list string :=
  ["Deadlock found when trying to get lock"; "Lock wait timeout exceeded"].

Definition UNAVAILABLE_MARKERS : list string :=
  ["connection to the server is closed"; "server shutdown in progress"; "normal shutdown";
   "is running with the --read-only option"; "is running with the --super-read-only option";
   "server has gone away"; "lost connection to mysql server"; "primary is not serving";
   "code = unavailable"; "connection refused"].

(** [str::contains]. *)
Fixpoint str_contains (needle s : string) : bool :=
  starts_with needle s || match s with
                          | EmptyString => false
                          | String _ rest => str_contains needle rest
                          end.

(** [to_ascii_lowercase]. *)
Definition ascii_lower (c : ascii) : ascii :=
  let n := nat_of_ascii c in
  if (65 <=? n)%nat && (n <=? 90)%nat then ascii_of_nat (n + 32) else c.

Fixpoint to_ascii_lowercase (s : string) : string :=
  match s with
  | EmptyString => EmptyString
  | String c rest => String (ascii_lower c) (to_ascii_lowercase rest)
  end.

Definition mysql_error_transience (kind : DatabaseErrorKind) (message : string)
    : option Transience :=
  match kind with
  | SerializationFailure => Some RolledBack
  | ClosedConnection | UnableToSendCommand | ReadOnlyTransaction => Some Unavailable
  | _ =>
      if existsb (λ prefix, starts_with prefix message) ROLLED_BACK_PREFIXES
      then Some RolledBack
      else
        let io_error := starts_with "Input/output error: " message
                        && negb (str_contains "TLS error" message) in
        let lowercase := to_ascii_lowercase message in
        then_some (io_error || existsb (λ marker, str_contains marker lowercase)
                                 UNAVAILABLE_MARKERS) Unavailable
  end.


(** The messages of the tests of the file. *)
Example mysql_transience_tests :
  (mysql_error_transience UnknownKind <$>
     ["Lock wait timeout exceeded; try restarting transaction";
      "MySQL server has gone away";
      "Input/output error: Input/output error: Connection refused (os error 111)";
      "Input/output error: TLS error: `invalid peer certificate'";
      "Unknown column 'nope' in 'field list'"])
  = [Some RolledBack; Some Unavailable; Some Unavailable; None; None].
Proof. vm_compute. reflexivity. Qed.

(** * Agreement *)



(** The same result and tables, or an error of the same kind: the servers word
    their messages differently. *)
Definition same_failure (a b : DurableError) : Prop :=
  match a, b with
  | Database (DatabaseError kind _), Database (DatabaseError kind' _) => kind = kind'
  | _, _ => a = b
  end.

Definition same_outcome {A} (r r' : Result A) : Prop :=
  match r, r' with
  | Ok a, Ok b => a = b
  | Err a, Err b => same_failure a b
  | _, _ => False
  end.

#[export] Instance same_failure_refl : Reflexive same_failure.
Proof. intros a. destruct a; cbn; try done. by case_match. Qed.
#[export] Instance same_outcome_refl {A} : Reflexive (@same_outcome A).
Proof. intros [|]; [done|]. apply same_failure_refl. Qed.









(** The rows the engine makes have to be of one lineage: on a row with both
    keys, of which only the restart key collides, PostgreSQL reports the
    successor and MySQL a duplicate start. *)
Definition both_keys (id : WorkflowId) : WorkflowRow :=
  let r := new_started_row "order" 1 "" "" (restarted default_options 1 1) 3000 id in
  MkWorkflowRow (wf_id r) (wf_kind r) (wf_version r) (wf_input_json r) (wf_state_json r)
    (wf_state_version r) (wf_status r) (wf_result_json r) (wf_error_category r)
    (wf_error_message r) (wf_wait_kind r) (wf_wait_reference_id r) (wf_available_at r)
    (wf_activation_attempts r) (wf_max_activation_attempts r)
    (wf_consecutive_continuations r) (wf_lease_owner r) (wf_lease_token r)
    (wf_lease_expires_at r) (Some "k") (wf_schedule_run_id r)
    (wf_root_workflow_id r) (wf_restarted_from_workflow_id r) (wf_parent_workflow_id r)
    (wf_parent_command_sequence r) (wf_command_sequence r)
    (wf_delivered_event_sequence r) (wf_created_at r) (wf_updated_at r)
    (wf_completed_at r).

Definition restart_twice (insert : (WorkflowId → WorkflowRow) → Tx WorkflowInsert)
    : Result WorkflowInsert :=
  (transaction (env_at 3000 "m")
     (let! _ := insert (new_started_row "order" 1 "" "" (restarted default_options 1 1) 3000) in
      insert both_keys) claimed).1.

Example dialects_need_one_lineage :
  restart_twice mysql_insert_workflow = Ok DeduplicationConflict
  ∧ restart_twice insert_workflow = Err (restart_conflict (Some 1%Z)).
Proof. split; vm_compute; reflexivity. Qed.

(** * The theorem on the scenario *)

