(* ===== verification/Macros.v ===== *)
(** The derive and attribute macros ([durable-workflows-macros]): the metadata
    they read, the checks they make while the application is compiled, and
    what they expand to.

    Reading tokens is code of the crate [syn]: the class [SynParser] has its
    parsers, which answer a value or an error; the texts of [syn]'s own errors
    are theirs. The spans of errors are not represented. The syntax of a flow's
    function is what the macro looks at; code it only copies (bodies,
    attributes, patterns) is text. *)
From stdpp Require Import base list strings.
From Stdlib Require Import ZArith Lia Ascii.
From S2P Require Import Prelude.
From S2P Require Import Errors.
From S2P Require Import Policy.
From S2P Require Import Transitions.
From S2P Require Import Registry.
From S2P Require Import Calendar.
From S2P Require Import Schedules.
From S2P Require Import Text.

(** * [syn] *)

(** [syn::Result]: a value or the text of an error. *)
Inductive SynResult (A : Type) : Type :=
  | Accept (a : A)
  | Reject (message : string).
Arguments Accept {A} a.
Arguments Reject {A} message.

Definition syn_bind {A B} (r : SynResult A) (f : A → SynResult B) : SynResult B :=
  match r with Accept a => f a | Reject message => Reject message end.

Declare Scope syn_scope.
Notation "'let&' x ':=' r 'in' k" := (syn_bind r (λ x, k))
  (at level 10, x binder, r at level 100, k at level 200) : syn_scope.
Open Scope syn_scope.

Definition accept_or {A} (o : option A) (message : string) : SynResult A :=
  match o with Some a => Accept a | None => Reject message end.

(** What a loop reads from a token stream: its items in order, and the error
    of [syn] that ends it, if any. *)
Record TokenItems (A : Type) := MkTokenItems { ti_items : list A; ti_error : option string }.
Arguments MkTokenItems {A}.
Arguments ti_items {A}.
Arguments ti_error {A}.

(** A literal [LitInt] is the integer it denotes; [syn] reads a minus before
    it as its sign. Each parser reads a value up to the comma after it. *)
Class SynParser := {
  Tokens : Type;
  parse_lit_str : Tokens → SynResult string;
  parse_lit_int : Tokens → SynResult Z;
  parse_ident : Tokens → SynResult string;
  (** The segments of a path. *)
  parse_path : Tokens → SynResult (list string);
  (** An identifier and the fields [ident = LitInt] in parentheses after it. *)
  parse_call : Tokens → SynResult (string * TokenItems (string * Z));
  (** The error of an integer that is not in the range of its type. *)
  base10_error : Z → string;
}.

(** Folds [f] over the items of a stream, as a loop with [?] does. *)
Fixpoint try_fold {A S} (f : S → A → SynResult S) (items : list A) (s : S) : SynResult S :=
  match items with
  | [] => Accept s
  | item :: rest => let& s' := f s item in try_fold f rest s'
  end.

Definition fold_items {A S} (f : S → A → SynResult S) (stream : TokenItems A) (s : S)
    : SynResult S :=
  let& s' := try_fold f (ti_items stream) s in
  match ti_error stream with Some message => Reject message | None => Accept s' end.

(** What an expansion is: the code of an [impl], or a compile error. *)
Inductive Expansion (I : Type) : Type :=
  | Expands (name : string) (impl : I)
  | CompileError (message : string).
Arguments Expands {I} name impl.
Arguments CompileError {I} message.

Section macros.
Context `{SynParser}.

(** [LitInt::base10_parse]. *)
Definition base10_parse (in_range : Z → bool) (value : Z) : SynResult Z :=
  if in_range value then Accept value else Reject (base10_error value).

Definition in_u8 (z : Z) : bool := (0 <=? z)%Z && (z <=? 255)%Z.

Definition lit_i32 (tokens : Tokens) : SynResult Z :=
  let& literal := parse_lit_int tokens in base10_parse in_i32 literal.
Definition lit_u32 (tokens : Tokens) : SynResult Z :=
  let& literal := parse_lit_int tokens in base10_parse in_u32 literal.
Definition lit_u64 (tokens : Tokens) : SynResult Z :=
  let& literal := parse_lit_int tokens in base10_parse in_u64 literal.

(** One [name = value] of an attribute; a path that is not an identifier has
    no name. *)
Record Meta := MkMeta { meta_path : option string; meta_value : SynResult Tokens }.

Definition is_ident (path : option string) (name : string) : bool := bool_decide (path = Some name).

Record Attribute := MkAttribute { at_path : option string; at_metas : TokenItems Meta }.

Record DeriveInput := MkDeriveInput { di_ident : string; di_attrs : list Attribute }.

(** * Backoff ([BackoffMetadata]) *)

Inductive BackoffMetadata :=
  | BmFixed (delay_secs : Z)
  | BmExponential (initial_secs max_secs jitter_percent : Z).

Record BackoffFields := MkBackoffFields {
  bf_delay_secs : option Z;
  bf_initial_secs : option Z;
  bf_max_secs : option Z;
  bf_jitter_percent : option Z;
}.

Definition backoff_field (s : BackoffFields) (field : string * Z) : SynResult BackoffFields :=
  let '(name, value) := field in
  let '(MkBackoffFields delay initial max jitter) := s in
  if String.eqb name "delay_secs" && is_none delay
  then let& v := base10_parse in_u64 value in Accept (MkBackoffFields (Some v) initial max jitter)
  else if String.eqb name "initial_secs" && is_none initial
  then let& v := base10_parse in_u64 value in Accept (MkBackoffFields delay (Some v) max jitter)
  else if String.eqb name "max_secs" && is_none max
  then let& v := base10_parse in_u64 value in Accept (MkBackoffFields delay initial (Some v) jitter)
  else if String.eqb name "jitter_percent" && is_none jitter
  then let& v := base10_parse in_u8 value in Accept (MkBackoffFields delay initial max (Some v))
  else if bool_decide (name ∈ ["delay_secs"; "initial_secs"; "max_secs"; "jitter_percent"])
  then Reject "duplicate backoff metadata"
  else Reject "unsupported backoff metadata".

(** [MAX_RETRY_DELAY_SECS] of the macro crate, its own copy. *)
Definition MACRO_MAX_RETRY_DELAY_SECS : Z := i64_max / 2000.

Definition check_fixed (s : BackoffFields) : SynResult BackoffMetadata :=
  let '(MkBackoffFields delay initial max jitter) := s in
  if negb (is_none initial && is_none max && is_none jitter)
  then Reject "fixed backoff accepts only delay_secs"
  else
    let& delay_secs := accept_or delay "fixed backoff needs delay_secs" in
    if (delay_secs =? 0)%Z
    then Reject "fixed backoff delay_secs must be greater than zero"
    else if (MACRO_MAX_RETRY_DELAY_SECS <? delay_secs)%Z
    then Reject ("fixed backoff delay_secs cannot exceed "
                 +:+ fmt MACRO_MAX_RETRY_DELAY_SECS +:+ " seconds")
    else Accept (BmFixed delay_secs).

Definition check_exponential (s : BackoffFields) : SynResult BackoffMetadata :=
  let '(MkBackoffFields delay initial max jitter) := s in
  if negb (is_none delay)
  then Reject "exponential backoff does not accept delay_secs"
  else
    let& initial_secs := accept_or initial "exponential backoff needs initial_secs" in
    let& max_secs := accept_or max "exponential backoff needs max_secs" in
    let& jitter_percent := accept_or jitter "exponential backoff needs jitter_percent" in
    if (initial_secs =? 0)%Z
    then Reject "exponential backoff initial_secs must be greater than zero"
    else if (max_secs <? initial_secs)%Z
    then Reject "exponential backoff max_secs must be at least initial_secs"
    else if (MACRO_MAX_RETRY_DELAY_SECS <? max_secs)%Z
    then Reject ("exponential backoff max_secs cannot exceed "
                 +:+ fmt MACRO_MAX_RETRY_DELAY_SECS +:+ " seconds")
    else if (100 <? jitter_percent)%Z
    then Reject "exponential backoff jitter_percent must be at most 100"
    else Accept (BmExponential initial_secs max_secs jitter_percent).

(** [BackoffMetadata::parse], after the identifier and the parentheses. *)
Definition backoff_of_call (call : string * TokenItems (string * Z)) : SynResult BackoffMetadata :=
  let '(kind, content) := call in
  let& s := fold_items backoff_field content (MkBackoffFields None None None None) in
  if String.eqb kind "fixed" then check_fixed s
  else if String.eqb kind "exponential" then check_exponential s
  else Reject "backoff must be fixed(...) or exponential(...)".

Definition parse_backoff (tokens : Tokens) : SynResult BackoffMetadata :=
  let& call := parse_call tokens in backoff_of_call call.

(** * The attributes of a derive *)

Definition quoted (name : string) : string := "`" +:+ name +:+ "`".

(** A metadata that may be given once. *)
Definition assign_meta {A S} (target : option A) (name : string) (parse : Tokens → SynResult A)
    (meta : Meta) (set : A → S) : SynResult S :=
  match target with
  | Some _ => Reject ("duplicate " +:+ quoted name +:+ " metadata")
  | None => let& tokens := meta_value meta in let& value := parse tokens in Accept (set value)
  end.

(** The loop over the attributes: the one called [name] is read by [logic]
    ([parse_nested_meta]), the others belong to other macros. *)
Fixpoint parse_attributes {S} (name : string) (logic : S → Meta → SynResult S)
    (attributes : list Attribute) (found_attribute : bool) (s : S) : SynResult (bool * S) :=
  match attributes with
  | [] => Accept (found_attribute, s)
  | attribute :: rest =>
      if negb (is_ident (at_path attribute) name)
      then parse_attributes name logic rest found_attribute s
      else if found_attribute
      then Reject ("duplicate " +:+ quoted name +:+ " attribute")
      else let& s' := fold_items logic (at_metas attribute) s in
           parse_attributes name logic rest true s'
  end.

Definition read_attribute {S} (name : string) (logic : S → Meta → SynResult S)
    (input : DeriveInput) (s : S) : SynResult S :=
  let& read := parse_attributes name logic (di_attrs input) false s in
  if negb read.1 then Reject ("missing " +:+ quoted name +:+ " attribute") else Accept read.2.

Definition required {A} (value : option A) (name : string) : SynResult A :=
  accept_or value ("missing " +:+ quoted name +:+ " metadata").

Definition is_lower_snake_case (value : string) : bool :=
  let bytes := String.list_ascii_of_string value in
  negb (str_len value =? 0)%nat
  && negb (bool_decide (head bytes = Some "_"%char))
  && negb (bool_decide (last bytes = Some "_"%char))
  && negb (contains_double_underscore bytes)
  && forallb is_schedule_key_char bytes.

(** * Workflows *)

Record WorkflowMetadata := MkWorkflowMetadata { wm_kind : string; wm_version : Z }.

Record WorkflowFields := MkWorkflowFields { wmf_kind : option string; wmf_version : option Z }.

Definition workflow_meta (s : WorkflowFields) (meta : Meta) : SynResult WorkflowFields :=
  let '(MkWorkflowFields kind version) := s in
  if is_ident (meta_path meta) "kind"
  then assign_meta kind "kind" parse_lit_str meta (λ v, MkWorkflowFields (Some v) version)
  else if is_ident (meta_path meta) "version"
  then assign_meta version "version" lit_i32 meta (λ v, MkWorkflowFields kind (Some v))
  else Reject "unsupported workflow metadata".

Definition parse_workflow (input : DeriveInput) : SynResult WorkflowMetadata :=
  let& s := read_attribute "workflow" workflow_meta input (MkWorkflowFields None None) in
  let& kind := required (wmf_kind s) "kind" in
  if negb (is_lower_snake_case kind)
  then Reject "workflow kind must be lower snake_case"
  else
    let& version := required (wmf_version s) "version" in
    if (version =? 0)%Z
    then Reject "workflow version must be greater than zero"
    else Accept (MkWorkflowMetadata kind version).

(** The constants of [impl DurableWorkflow]. *)
Record WorkflowImpl := MkWorkflowImpl { wi_kind : string; wi_version : Z }.

Definition derive_workflow (input : DeriveInput) : Expansion WorkflowImpl :=
  match parse_workflow input with
  | Accept md => Expands (di_ident input) (MkWorkflowImpl (wm_kind md) (wm_version md))
  | Reject message => CompileError message
  end.

(** * Activities *)

Record ActivityMetadata := MkActivityMetadata {
  am_kind : string;
  am_version : Z;
  am_topic : list string;
  am_max_attempts : Z;
  am_timeout_secs : Z;
  am_lease_secs : Z;
  am_backoff : BackoffMetadata;
}.

Record ActivityFields := MkActivityFields {
  amf_kind : option string;
  amf_version : option Z;
  amf_topic : option (list string);
  amf_max_attempts : option Z;
  amf_timeout_secs : option Z;
  amf_lease_secs : option Z;
  amf_backoff : option BackoffMetadata;
}.

Definition activity_meta (s : ActivityFields) (meta : Meta) : SynResult ActivityFields :=
  let '(MkActivityFields kind version topic attempts timeout lease backoff) := s in
  let named := is_ident (meta_path meta) in
  if named "kind"
  then assign_meta kind "kind" parse_lit_str meta
         (λ v, MkActivityFields (Some v) version topic attempts timeout lease backoff)
  else if named "version"
  then assign_meta version "version" lit_i32 meta
         (λ v, MkActivityFields kind (Some v) topic attempts timeout lease backoff)
  else if named "topic"
  then assign_meta topic "topic" parse_path meta
         (λ v, MkActivityFields kind version (Some v) attempts timeout lease backoff)
  else if named "max_attempts"
  then assign_meta attempts "max_attempts" lit_u32 meta
         (λ v, MkActivityFields kind version topic (Some v) timeout lease backoff)
  else if named "timeout_secs"
  then assign_meta timeout "timeout_secs" lit_u64 meta
         (λ v, MkActivityFields kind version topic attempts (Some v) lease backoff)
  else if named "lease_secs"
  then assign_meta lease "lease_secs" lit_u64 meta
         (λ v, MkActivityFields kind version topic attempts timeout (Some v) backoff)
  else if named "backoff"
  then assign_meta backoff "backoff" parse_backoff meta
         (λ v, MkActivityFields kind version topic attempts timeout lease (Some v))
  else Reject "unsupported activity metadata".

Definition parse_activity (input : DeriveInput) : SynResult ActivityMetadata :=
  let& s := read_attribute "activity" activity_meta input
              (MkActivityFields None None None None None None None) in
  let& kind := required (amf_kind s) "kind" in
  if negb (is_lower_snake_case kind) then Reject "activity kind must be lower snake_case"
  else
  let& version := required (amf_version s) "version" in
  if (version =? 0)%Z then Reject "activity version must be greater than zero"
  else
  let& topic := required (amf_topic s) "topic" in
  if (length topic <? 2)%nat
  then Reject "activity topic must be a qualified enum variant such as Topics::ExternalApi"
  else
  let& max_attempts := required (amf_max_attempts s) "max_attempts" in
  if (max_attempts =? 0)%Z then Reject "activity max_attempts must be greater than zero"
  else
  let& timeout_secs := required (amf_timeout_secs s) "timeout_secs" in
  if (timeout_secs =? 0)%Z then Reject "activity timeout_secs must be greater than zero"
  else
  let& lease_secs := required (amf_lease_secs s) "lease_secs" in
  if (lease_secs <=? timeout_secs)%Z
  then Reject "activity lease_secs must be greater than timeout_secs"
  else
  let& backoff := required (amf_backoff s) "backoff" in
  Accept (MkActivityMetadata kind version topic max_attempts timeout_secs lease_secs backoff).

(** The items of [impl DurableActivity]; the retry policy is the argument of
    the [from_checked] in its [const] block. *)
Record ActivityImpl := MkActivityImpl {
  ai_topic_type : list string;
  ai_kind : string;
  ai_version : Z;
  ai_max_attempts : Z;
  ai_timeout_secs : Z;
  ai_lease_secs : Z;
  ai_topic : list string;
  ai_backoff : BackoffPolicy;
}.

Definition backoff_tokens (backoff : BackoffMetadata) : BackoffPolicy :=
  match backoff with
  | BmFixed delay_secs => Fixed delay_secs
  | BmExponential initial_secs max_secs jitter_percent =>
      Exponential initial_secs max_secs jitter_percent
  end.

Definition derive_activity (input : DeriveInput) : Expansion ActivityImpl :=
  match parse_activity input with
  | Accept md =>
      Expands (di_ident input)
        (MkActivityImpl (removelast (am_topic md)) (am_kind md) (am_version md)
           (am_max_attempts md) (am_timeout_secs md) (am_lease_secs md) (am_topic md)
           (backoff_tokens (am_backoff md)))
  | Reject message => CompileError message
  end.

(** * Schedules *)

Record ScheduleMetadata := MkScheduleMetadata {
  sm_key : string;
  sm_version : Z;
  sm_cron : string;
  sm_timezone : string;
  sm_misfire : string;
  sm_catch_up_limit : option Z;
  sm_overlap : string;
  sm_misfire_grace_secs : Z;
}.

Record ScheduleFields := MkScheduleFields {
  smf_key : option string;
  smf_version : option Z;
  smf_cron : option string;
  smf_timezone : option string;
  smf_misfire : option string;
  smf_catch_up_limit : option Z;
  smf_overlap : option string;
  smf_misfire_grace_secs : option Z;
}.

Definition schedule_meta (s : ScheduleFields) (meta : Meta) : SynResult ScheduleFields :=
  let '(MkScheduleFields key version cron timezone misfire limit overlap grace) := s in
  let named := is_ident (meta_path meta) in
  if named "key"
  then assign_meta key "key" parse_lit_str meta
         (λ v, MkScheduleFields (Some v) version cron timezone misfire limit overlap grace)
  else if named "version"
  then assign_meta version "version" lit_i32 meta
         (λ v, MkScheduleFields key (Some v) cron timezone misfire limit overlap grace)
  else if named "cron"
  then assign_meta cron "cron" parse_lit_str meta
         (λ v, MkScheduleFields key version (Some v) timezone misfire limit overlap grace)
  else if named "timezone"
  then assign_meta timezone "timezone" parse_lit_str meta
         (λ v, MkScheduleFields key version cron (Some v) misfire limit overlap grace)
  else if named "misfire"
  then assign_meta misfire "misfire" parse_ident meta
         (λ v, MkScheduleFields key version cron timezone (Some v) limit overlap grace)
  else if named "catch_up_limit"
  then assign_meta limit "catch_up_limit" lit_u32 meta
         (λ v, MkScheduleFields key version cron timezone misfire (Some v) overlap grace)
  else if named "overlap"
  then assign_meta overlap "overlap" parse_ident meta
         (λ v, MkScheduleFields key version cron timezone misfire limit (Some v) grace)
  else if named "misfire_grace_secs"
  then assign_meta grace "misfire_grace_secs" lit_u64 meta
         (λ v, MkScheduleFields key version cron timezone misfire limit overlap (Some v))
  else Reject "unsupported schedule metadata".

(** The [match] on the misfire policy and its limit. *)
Definition check_misfire (misfire : string) (catch_up_limit : option Z) : SynResult unit :=
  if String.eqb misfire "Skip" || String.eqb misfire "RunLatest"
  then match catch_up_limit with
       | None => Accept tt
       | Some _ => Reject "catch_up_limit is only valid with CatchUp"
       end
  else if String.eqb misfire "CatchUp"
  then match catch_up_limit with
       | Some limit =>
           if (1 <=? limit)%Z && (limit <=? 100)%Z then Accept tt
           else Reject "CatchUp requires catch_up_limit from 1 through 100"
       | None => Reject "CatchUp requires catch_up_limit from 1 through 100"
       end
  else Reject "misfire must be Skip, RunLatest, or CatchUp".

Definition parse_schedule (input : DeriveInput) : SynResult ScheduleMetadata :=
  let& s := read_attribute "schedule" schedule_meta input
              (MkScheduleFields None None None None None None None None) in
  let& key := required (smf_key s) "key" in
  if negb (is_lower_snake_case key) then Reject "schedule key must be lower snake_case"
  else
  let& version := required (smf_version s) "version" in
  if (version <=? 0)%Z then Reject "schedule version must be greater than zero"
  else
  let& cron := required (smf_cron s) "cron" in
  let& timezone := required (smf_timezone s) "timezone" in
  let& misfire := required (smf_misfire s) "misfire" in
  let& _ := check_misfire misfire (smf_catch_up_limit s) in
  let& overlap := required (smf_overlap s) "overlap" in
  if negb (bool_decide (overlap ∈ ["Allow"; "SkipIfActive"; "QueueOne"]))
  then Reject "overlap must be Allow, SkipIfActive, or QueueOne"
  else
  let& grace := required (smf_misfire_grace_secs s) "misfire_grace_secs" in
  if (grace =? 0)%Z then Reject "misfire_grace_secs must be greater than zero"
  else Accept (MkScheduleMetadata key version cron timezone misfire (smf_catch_up_limit s)
                 overlap grace).

(** The tokens of a [MisfirePolicy]. *)
Inductive MisfireTokens :=
  | MtVariant (variant : string)
  | MtCatchUp (max_occurrences : Z).

(** The constants of [impl DurableSchedule]. *)
Record ScheduleImpl := MkScheduleImpl {
  si_key : string;
  si_version : Z;
  si_cron : string;
  si_timezone : string;
  si_misfire : MisfireTokens;
  si_overlap : string;
  si_misfire_grace_secs : Z;
}.

(** A panic of the macro is a compile error with its message. *)
Definition derive_schedule (input : DeriveInput) : Expansion ScheduleImpl :=
  match parse_schedule input with
  | Accept md =>
      let impl misfire :=
        Expands (di_ident input)
          (MkScheduleImpl (sm_key md) (sm_version md) (sm_cron md) (sm_timezone md) misfire
             (sm_overlap md) (sm_misfire_grace_secs md)) in
      if String.eqb (sm_misfire md) "CatchUp"
      then match sm_catch_up_limit md with
           | Some max_occurrences => impl (MtCatchUp max_occurrences)
           | None => CompileError "validated CatchUp metadata has a limit"
           end
      else impl (MtVariant (sm_misfire md))
  | Reject message => CompileError message
  end.
End macros.

(** * The flow macro *)

(** * Syntax *)

(** [syn::Type], with [GenericArgument] and [PathArguments]. *)
Inductive Ty :=
  | TyReference (mutability : bool) (elem : Ty)
  | TyPath (segments : list (string * PathArguments))
  | TyOther (tokens : string)
with PathArguments :=
  | PaNone
  | PaAngleBracketed (args : list GenericArgument)
  | PaParenthesized (tokens : string)
with GenericArgument :=
  | GaType (ty : Ty)
  | GaOther (tokens : string).

Inductive Pat := PatIdent (ident : string) (tokens : string) | PatOther (tokens : string).

Definition pat_tokens (pat : Pat) : string :=
  match pat with PatIdent _ tokens | PatOther tokens => tokens end.

Inductive FnArg :=
  | Receiver
  | Typed (attrs : list string) (pat : Pat) (ty : Ty).

Inductive ReturnType := ReturnDefault | ReturnTy (ty : Ty).

Record ItemFn := MkItemFn {
  fn_attrs : list string;
  fn_vis : string;
  fn_ident : string;
  fn_asyncness : bool;
  fn_generics : list string;
  fn_inputs : list FnArg;
  fn_output : ReturnType;
  fn_block : string;
}.

(** * Metadata *)

Record FlowMetadata := MkFlowMetadata { fm_kind : string; fm_version : Z }.

Record FlowFields := MkFlowFields { fmf_kind : option string; fmf_version : option Z }.

Section flow.
Context `{SynParser}.

(** One turn of the loop, after the identifier and the equals sign. *)
Definition flow_field (s : FlowFields) (field : string * Tokens) : SynResult FlowFields :=
  let '(name, value) := field in
  let '(MkFlowFields kind version) := s in
  if String.eqb name "kind" && is_none kind
  then let& v := parse_lit_str value in Accept (MkFlowFields (Some v) version)
  else if String.eqb name "version" && is_none version
  then let& v := lit_i32 value in Accept (MkFlowFields kind (Some v))
  else if String.eqb name "kind" || String.eqb name "version"
  then Reject "duplicate flow metadata"
  else Reject "unsupported flow metadata".

(** [FlowMetadata::parse]. *)
Definition parse_flow_metadata (input : TokenItems (string * Tokens)) : SynResult FlowMetadata :=
  let& s := fold_items flow_field input (MkFlowFields None None) in
  let& kind := accept_or (fmf_kind s) "missing `kind` metadata" in
  if negb (is_lower_snake_case kind) then Reject "flow kind must be lower snake_case"
  else
    let& version := accept_or (fmf_version s) "missing `version` metadata" in
    if (version <=? 0)%Z then Reject "flow version must be greater than zero"
    else Accept (MkFlowMetadata kind version).
End flow.

(** * Expansion *)

Definition find_type (arguments : list GenericArgument) : option Ty :=
  head (omap (λ argument, match argument with GaType ty => Some ty | GaOther _ => None end)
          arguments).

(** The first type argument of a path that ends in [name]. *)
Definition path_argument (name : string) (segments : list (string * PathArguments)) : option Ty :=
  match last segments with
  | Some (ident, PaAngleBracketed arguments) =>
      if String.eqb ident name then find_type arguments else None
  | _ => None
  end.

Definition wfctx_context_type (ty : Ty) : option Ty :=
  match ty with
  | TyReference true (TyPath segments) => path_argument "WfCtx" segments
  | _ => None
  end.

Definition result_output_type (output : ReturnType) : option Ty :=
  match output with
  | ReturnTy (TyPath segments) => path_argument "Result" segments
  | _ => None
  end.

Definition to_ascii_uppercase (c : ascii) : ascii :=
  let b := nat_of_ascii c in
  if (97 <=? b)%nat && (b <=? 122)%nat then ascii_of_nat (b - 32) else c.

(** [pascal_case]. The first byte of a character that is not ASCII is left as
    it is, like the character. *)
Definition pascal_case (value : string) : string :=
  fold_right String.append ""
    (map (λ segment, match segment with
                     | EmptyString => EmptyString
                     | String c rest => String (to_ascii_uppercase c) rest
                     end)
       (List.filter (λ segment, negb (String.eqb segment "")) (split_on "_"%char value))).

(** One field of the input struct. *)
Record FlowField := MkFlowField { ff_attrs : list string; ff_name : string; ff_type : Ty }.

Definition flow_input (fields : list FlowField) (input : FnArg) : SynResult (list FlowField) :=
  match input with
  | Receiver => Reject "unsupported flow parameter"
  | Typed attrs (PatIdent name _) ty => Accept (fields ++ [MkFlowField attrs name ty])
  | Typed _ (PatOther _) _ => Reject "flow parameters must be plain identifiers"
  end.

(** What the macro emits: the input struct, its [DurableWorkflow] and its
    [DurableFlow], whose [run] binds the fields and then is the body. *)
Record FlowExpansion := MkFlowExpansion {
  fe_attributes : list string;
  fe_visibility : string;
  fe_struct : string;
  fe_fields : list FlowField;
  fe_kind : string;
  fe_version : Z;
  fe_context : Ty;
  fe_output : Ty;
  fe_ctx_pat : string;
  fe_ctx_type : Ty;
  fe_return_type : ReturnType;
  fe_bindings : list string;
  fe_body : string;
}.

Definition WFCTX_MESSAGE : string :=
  "a durable flow's first parameter must be `ctx: &mut WfCtx<'_, Context>`".

Definition try_expand_flow (md : FlowMetadata) (function : ItemFn) : SynResult FlowExpansion :=
  if negb (fn_asyncness function) then Reject "a durable flow must be an `async fn`"
  else if negb (length (fn_generics function) =? 0)%nat
  then Reject "a durable flow cannot have generic parameters"
  else
    match fn_inputs function with
    | Typed _ ctx_pat ctx_type :: inputs =>
        let& context := accept_or (wfctx_context_type ctx_type) WFCTX_MESSAGE in
        let& fields := try_fold flow_input inputs [] in
        let& output := accept_or (result_output_type (fn_output function))
              "a durable flow must return `Result<Output, WfError>`" in
        Accept (MkFlowExpansion (fn_attrs function) (fn_vis function)
                  (pascal_case (fn_ident function)) fields (fm_kind md) (fm_version md)
                  context output (pat_tokens ctx_pat) ctx_type (fn_output function)
                  (map ff_name fields) (fn_block function))
    | _ => Reject WFCTX_MESSAGE
    end.

Definition expand_flow (md : FlowMetadata) (function : ItemFn) : Expansion FlowExpansion :=
  match try_expand_flow md function with
  | Accept x => Expands (fe_struct x) x
  | Reject message => CompileError message
  end.

(** The cases of the tests of the macro. *)
Example pascal_case_of_names :
  map pascal_case ["lab_order_release_v2"; "release_lab"; "single"; "_a__b_"]
  = ["LabOrderReleaseV2"; "ReleaseLab"; "Single"; "AB"].
Proof. reflexivity. Qed.
