(* ===== verification/MacroChecks.v ===== *)
(** What the macros accept ([Macros]): they take every metadata
    literally and once, and what they accept is what the library accepts when
    the definition is registered and used. *)
From stdpp Require Import base list strings.
From Stdlib Require Import ZArith Lia Ascii.
From S2P Require Import Prelude.
From S2P Require Import Errors.
From S2P Require Import Policy.
From S2P Require Import Transitions.
From S2P Require Import Registry.
From S2P Require Import Calendar.
From S2P Require Import Schedules.
From S2P Require Import ExampleCalendar.
From S2P Require Import Macros.

(** * Accepted results *)

Lemma syn_bind_Accept {A B} (r : SynResult A) (f : A → SynResult B) b :
  syn_bind r f = Accept b ↔ ∃ a, r = Accept a ∧ f a = Accept b.
Proof. destruct r; simpl; naive_solver. Qed.

Lemma accept_or_Accept {A} (o : option A) message a : accept_or o message = Accept a ↔ o = Some a.
Proof. destruct o; simpl; naive_solver. Qed.

(** Splits a chain of [let&] and guards that ended in [Accept]. *)
Ltac accepted :=
  repeat match goal with
  | H : syn_bind _ _ = Accept _ |- _ => apply syn_bind_Accept in H as (? & ? & ?)
  | H : required _ _ = Accept _ |- _ => unfold required in H
  | H : accept_or _ _ = Accept _ |- _ => apply accept_or_Accept in H
  | H : (if ?b then _ else _) = Accept _ |- _ => destruct b eqn:?; try discriminate H
  | H : Reject _ = Accept _ |- _ => discriminate H
  | H : Accept _ = Accept _ |- _ => injection H as H
  end; subst; simpl in *.

Section literal.
Context `{SynParser}.

(** The value a metadata gives, read as the type of its key. *)
Definition meta_reads {A} (parse : Tokens → SynResult A) (meta : Meta) (value : option A) : Prop :=
  ∃ tokens v, meta_value meta = Accept tokens ∧ parse tokens = Accept v ∧ value = Some v.

(** A closure of [parse_nested_meta] that takes each key once: it adds the
    key of the metadata to those present, reads its value, and keeps what it
    read before. *)
Definition reads_one {S} (present : S → list string) (reads : S → Meta → Prop)
    (s : S) (meta : Meta) (s' : S) : Prop :=
  ∃ key, meta_path meta = Some key ∧ key ∉ present s ∧ present s' ≡ₚ key :: present s
    ∧ reads s' meta ∧ ∀ meta', reads s meta' → reads s' meta'.

Class ReadsOnce {S} (logic : S → Meta → SynResult S) := {
  present : S → list string;
  reads : S → Meta → Prop;
  reads_step s meta s' : logic s meta = Accept s' → reads_one present reads s meta s';
}.

Lemma try_fold_reads {St} {logic : St → Meta → SynResult St} `{!ReadsOnce logic} metas s s' :
  try_fold logic metas s = Accept s' →
  map meta_path metas ++ map Some (present s) ≡ₚ map Some (present s')
  ∧ Forall (reads s') metas ∧ ∀ meta, reads s meta → reads s' meta.
Proof.
  revert s. induction metas as [|meta metas IH]; intros s Hf; simpl in *; accepted; [done|].
  destruct (reads_step _ _ _ ltac:(eassumption)) as (key & Hkey & _ & Hperm & Hread & Hkeep).
  destruct (IH _ ltac:(eassumption)) as (Hp & Hr & Hk). split_and!; auto.
  rewrite <- Hp, Hperm, Hkey. simpl. apply Permutation_middle.
Qed.

Lemma parse_attributes_found {S} name (logic : S → Meta → SynResult S) attributes s s' b :
  parse_attributes name logic attributes true s = Accept (b, s') →
  b = true ∧ s' = s ∧ filter (λ a, at_path a = Some name) attributes = [].
Proof.
  induction attributes as [|a rest IH]; simpl; [naive_solver|]. unfold is_ident.
  case_bool_decide as Ea; simpl; [done|]. intros Hp. rewrite filter_cons_False by done. auto.
Qed.

Lemma parse_attributes_one {S} name (logic : S → Meta → SynResult S) attributes s s' :
  parse_attributes name logic attributes false s = Accept (true, s') →
  ∃ a, filter (λ a, at_path a = Some name) attributes = [a]
    ∧ fold_items logic (at_metas a) s = Accept s'.
Proof.
  induction attributes as [|a rest IH]; simpl; [done|]. unfold is_ident.
  case_bool_decide as Ea; simpl; intros Hp.
  - accepted. apply parse_attributes_found in H1 as (_ & -> & Hrest). exists a.
    by rewrite filter_cons_True, Hrest.
  - rewrite filter_cons_False by done. auto.
Qed.

(** The one attribute of its name that an accepted input has, with its
    metadata: the keys are those present at the end, each once, and each was
    read. *)
Lemma read_attribute_reads {St} {logic : St → Meta → SynResult St} `{!ReadsOnce logic} name input s s' :
  read_attribute name logic input s = Accept s' → present s = [] →
  ∃ a, filter (λ a, at_path a = Some name) (di_attrs input) = [a] ∧ ti_error (at_metas a) = None
    ∧ map meta_path (ti_items (at_metas a)) ≡ₚ map Some (present s')
    ∧ Forall (reads s') (ti_items (at_metas a)).
Proof.
  unfold read_attribute, fold_items. intros Hr Hs. accepted. destruct x as [[] x]; simpl in *; [|done].
  destruct (parse_attributes_one _ _ _ _ _ ltac:(eassumption)) as (a & Ha & Hf).
  unfold fold_items in Hf. accepted. exists a. destruct (ti_error _); [done|]. accepted.
  destruct (try_fold_reads _ _ _ ltac:(eassumption)) as (Hp & Hall & _).
  rewrite Hs, app_nil_r in Hp. done.
Qed.

(** The key of a field that was set. *)
Definition key_if {A} (field : option A) (key : string) : list string :=
  if is_none field then [] else [key].

Lemma elem_of_key_if {A} (field : option A) key k :
  k ∈ key_if field key → k = key ∧ field ≠ None.
Proof. destruct field; unfold key_if; simpl; [by intros ->%list_elem_of_singleton|by intros ?%elem_of_nil]. Qed.

(** A step of such a closure that sets the field of [key]. *)
Ltac reads_field field key :=
  unfold assign_meta in *; destruct field; [done|]; accepted; exists key;
  refine (conj _ (conj _ (conj _ (conj _ _))));
  [assumption
  |rewrite ?elem_of_app; intros Hin;
     repeat match goal with H : _ ∨ _ |- _ => destruct H end;
     match goal with H : _ ∈ key_if _ _ |- _ => apply elem_of_key_if in H as [? ?] end; congruence
  |unfold key_if; simpl; solve_Permutation
  |split_and!; intros ?; first [congruence|unfold meta_reads; eauto]
  |intros meta' Hr; split_and!; intros Hk; first
     [by apply Hr|apply Hr in Hk as (? & ? & _ & _ & ?); discriminate]].

Definition workflow_present (s : WorkflowFields) : list string :=
  key_if (wmf_kind s) "kind"
  ++ key_if (wmf_version s) "version".

Definition workflow_reads (s : WorkflowFields) (meta : Meta) : Prop :=
  (meta_path meta = Some "kind" → meta_reads parse_lit_str meta (wmf_kind s))
  ∧ (meta_path meta = Some "version" → meta_reads lit_i32 meta (wmf_version s)).

Lemma workflow_meta_step s meta s' : workflow_meta s meta = Accept s' → reads_one workflow_present workflow_reads s meta s'.
Proof.
  destruct s as [f0 f1]. unfold workflow_meta, is_ident, reads_one, workflow_present, workflow_reads. intros Hl.
  case_bool_decide; [reads_field f0 "kind"|].
  case_bool_decide; [reads_field f1 "version"|].
  done.
Qed.

#[export] Instance workflow_reads_once : ReadsOnce workflow_meta :=
  {| present := workflow_present; reads := workflow_reads; reads_step := workflow_meta_step |}.

Definition activity_present (s : ActivityFields) : list string :=
  key_if (amf_kind s) "kind"
  ++ key_if (amf_version s) "version"
  ++ key_if (amf_topic s) "topic"
  ++ key_if (amf_max_attempts s) "max_attempts"
  ++ key_if (amf_timeout_secs s) "timeout_secs"
  ++ key_if (amf_lease_secs s) "lease_secs"
  ++ key_if (amf_backoff s) "backoff".

Definition activity_reads (s : ActivityFields) (meta : Meta) : Prop :=
  (meta_path meta = Some "kind" → meta_reads parse_lit_str meta (amf_kind s))
  ∧ (meta_path meta = Some "version" → meta_reads lit_i32 meta (amf_version s))
  ∧ (meta_path meta = Some "topic" → meta_reads parse_path meta (amf_topic s))
  ∧ (meta_path meta = Some "max_attempts" → meta_reads lit_u32 meta (amf_max_attempts s))
  ∧ (meta_path meta = Some "timeout_secs" → meta_reads lit_u64 meta (amf_timeout_secs s))
  ∧ (meta_path meta = Some "lease_secs" → meta_reads lit_u64 meta (amf_lease_secs s))
  ∧ (meta_path meta = Some "backoff" → meta_reads parse_backoff meta (amf_backoff s)).

Lemma activity_meta_step s meta s' : activity_meta s meta = Accept s' → reads_one activity_present activity_reads s meta s'.
Proof.
  destruct s as [f0 f1 f2 f3 f4 f5 f6]. unfold activity_meta, is_ident, reads_one, activity_present, activity_reads. intros Hl.
  case_bool_decide; [reads_field f0 "kind"|].
  case_bool_decide; [reads_field f1 "version"|].
  case_bool_decide; [reads_field f2 "topic"|].
  case_bool_decide; [reads_field f3 "max_attempts"|].
  case_bool_decide; [reads_field f4 "timeout_secs"|].
  case_bool_decide; [reads_field f5 "lease_secs"|].
  case_bool_decide; [reads_field f6 "backoff"|].
  done.
Qed.

#[export] Instance activity_reads_once : ReadsOnce activity_meta :=
  {| present := activity_present; reads := activity_reads; reads_step := activity_meta_step |}.

Definition schedule_present (s : ScheduleFields) : list string :=
  key_if (smf_key s) "key"
  ++ key_if (smf_version s) "version"
  ++ key_if (smf_cron s) "cron"
  ++ key_if (smf_timezone s) "timezone"
  ++ key_if (smf_misfire s) "misfire"
  ++ key_if (smf_catch_up_limit s) "catch_up_limit"
  ++ key_if (smf_overlap s) "overlap"
  ++ key_if (smf_misfire_grace_secs s) "misfire_grace_secs".

Definition schedule_reads (s : ScheduleFields) (meta : Meta) : Prop :=
  (meta_path meta = Some "key" → meta_reads parse_lit_str meta (smf_key s))
  ∧ (meta_path meta = Some "version" → meta_reads lit_i32 meta (smf_version s))
  ∧ (meta_path meta = Some "cron" → meta_reads parse_lit_str meta (smf_cron s))
  ∧ (meta_path meta = Some "timezone" → meta_reads parse_lit_str meta (smf_timezone s))
  ∧ (meta_path meta = Some "misfire" → meta_reads parse_ident meta (smf_misfire s))
  ∧ (meta_path meta = Some "catch_up_limit" → meta_reads lit_u32 meta (smf_catch_up_limit s))
  ∧ (meta_path meta = Some "overlap" → meta_reads parse_ident meta (smf_overlap s))
  ∧ (meta_path meta = Some "misfire_grace_secs" → meta_reads lit_u64 meta (smf_misfire_grace_secs s)).

Lemma schedule_meta_step s meta s' : schedule_meta s meta = Accept s' → reads_one schedule_present schedule_reads s meta s'.
Proof.
  destruct s as [f0 f1 f2 f3 f4 f5 f6 f7]. unfold schedule_meta, is_ident, reads_one, schedule_present, schedule_reads. intros Hl.
  case_bool_decide; [reads_field f0 "key"|].
  case_bool_decide; [reads_field f1 "version"|].
  case_bool_decide; [reads_field f2 "cron"|].
  case_bool_decide; [reads_field f3 "timezone"|].
  case_bool_decide; [reads_field f4 "misfire"|].
  case_bool_decide; [reads_field f5 "catch_up_limit"|].
  case_bool_decide; [reads_field f6 "overlap"|].
  case_bool_decide; [reads_field f7 "misfire_grace_secs"|].
  done.
Qed.

#[export] Instance schedule_reads_once : ReadsOnce schedule_meta :=
  {| present := schedule_present; reads := schedule_reads; reads_step := schedule_meta_step |}.
End literal.

(** * The expanded code *)

(** The activity type that the expansion declares: [topic_key] is the [key]
    of a variant of the application's topics, and the [const] block of the
    retry policy is evaluated by the compiler, where a panic is an error. *)
Definition activity_type (topic_key : list string → string) (i : ActivityImpl)
    : ActivityType + string :=
  match from_checked (ai_backoff i) with
  | inl policy =>
      inl (MkActivityType (ai_kind i) (ai_version i) (topic_key (ai_topic i)) (ai_max_attempts i)
             (ai_timeout_secs i * 1000) (ai_lease_secs i * 1000) policy)
  | inr panic => inr panic
  end.

(** The variants of [MisfirePolicy] and [OverlapPolicy] that the compiler
    finds under the emitted names. *)
Definition misfire_of_tokens (tokens : MisfireTokens) : option MisfirePolicy :=
  match tokens with
  | MtCatchUp max_occurrences => Some (CatchUp max_occurrences)
  | MtVariant "Skip" => Some MisfireSkip
  | MtVariant "RunLatest" => Some RunLatest
  | MtVariant _ => None
  end.

Definition overlap_of_ident (ident : string) : option OverlapPolicy :=
  match ident with
  | "Allow" => Some Allow
  | "SkipIfActive" => Some SkipIfActive
  | "QueueOne" => Some QueueOne
  | _ => None
  end.

Definition schedule_of_impl (i : ScheduleImpl) : option DurableSchedule :=
  match misfire_of_tokens (si_misfire i), overlap_of_ident (si_overlap i) with
  | Some misfire, Some overlap =>
      Some (MkDurableSchedule (si_key i) (si_version i) (si_cron i) (si_timezone i) misfire overlap
              (si_misfire_grace_secs i * 1000000000))
  | _, _ => None
  end.

(** The tokens that give a backoff policy, as an application writes them. *)
Definition backoff_call (b : BackoffPolicy) : string * TokenItems (string * Z) :=
  match b with
  | Fixed delay => ("fixed", MkTokenItems [("delay_secs", delay)] None)
  | Exponential initial max jitter =>
      ("exponential", MkTokenItems [("initial_secs", initial); ("max_secs", max);
                                    ("jitter_percent", jitter)] None)
  end.

(** * What is accepted *)

Section accepted.
Context `{SynParser}.

Lemma base10_parse_Accept in_range z v :
  base10_parse in_range z = Accept v ↔ v = z ∧ in_range z = true.
Proof. unfold base10_parse. destruct (in_range z); naive_solver. Qed.

Lemma snake_case_nonempty s : is_lower_snake_case s = true → str_len s ≠ 0%nat.
Proof. unfold is_lower_snake_case. destruct (str_len s =? 0)%nat eqn:E; [done|]. intros _. by apply Nat.eqb_neq. Qed.

Lemma snake_case_key s :
  is_lower_snake_case s = true → valid_schedule_key s = (str_len s <=? MAX_SCHEDULE_KEY_BYTES)%nat.
Proof.
  unfold is_lower_snake_case, valid_schedule_key. rewrite !andb_true_iff.
  intros ((((-> & ->) & ->) & ->) & ->). by rewrite !andb_true_r.
Qed.

Lemma validate_snake_case kind version :
  is_lower_snake_case kind = true → is_ok (validate_definition kind version) = (0 <? version)%Z.
Proof.
  intros Hk%snake_case_nonempty%Nat.eqb_neq. unfold validate_definition. rewrite Hk.
  destruct (version <=? 0)%Z eqn:E; simpl; symmetry; [apply Z.ltb_ge|apply Z.ltb_lt]; lia.
Qed.

Lemma parse_workflow_spec input md :
  parse_workflow input = Accept md →
  read_attribute "workflow" workflow_meta input (MkWorkflowFields None None)
    = Accept (MkWorkflowFields (Some (wm_kind md)) (Some (wm_version md)))
  ∧ is_lower_snake_case (wm_kind md) = true ∧ wm_version md ≠ 0%Z.
Proof.
  unfold parse_workflow. intros Hp. accepted. destruct x as [kind version]; simpl in *; subst.
  by rewrite negb_false_iff, Z.eqb_neq in *.
Qed.

Lemma parse_activity_spec input md :
  parse_activity input = Accept md →
  read_attribute "activity" activity_meta input (MkActivityFields None None None None None None None)
    = Accept (MkActivityFields (Some (am_kind md)) (Some (am_version md)) (Some (am_topic md))
        (Some (am_max_attempts md)) (Some (am_timeout_secs md)) (Some (am_lease_secs md))
        (Some (am_backoff md)))
  ∧ is_lower_snake_case (am_kind md) = true ∧ am_version md ≠ 0%Z
  ∧ (2 ≤ length (am_topic md))%nat ∧ am_max_attempts md ≠ 0%Z ∧ am_timeout_secs md ≠ 0%Z
  ∧ (am_timeout_secs md < am_lease_secs md)%Z.
Proof.
  unfold parse_activity. intros Hp. accepted. destruct x; simpl in *; subst.
  rewrite negb_false_iff, ?Z.eqb_neq, Nat.ltb_ge, Z.leb_gt in *. done.
Qed.

Lemma parse_schedule_spec input md :
  parse_schedule input = Accept md →
  read_attribute "schedule" schedule_meta input
      (MkScheduleFields None None None None None None None None)
    = Accept (MkScheduleFields (Some (sm_key md)) (Some (sm_version md)) (Some (sm_cron md))
        (Some (sm_timezone md)) (Some (sm_misfire md)) (sm_catch_up_limit md)
        (Some (sm_overlap md)) (Some (sm_misfire_grace_secs md)))
  ∧ is_lower_snake_case (sm_key md) = true ∧ (0 < sm_version md)%Z
  ∧ check_misfire (sm_misfire md) (sm_catch_up_limit md) = Accept tt
  ∧ sm_overlap md ∈ ["Allow"; "SkipIfActive"; "QueueOne"] ∧ sm_misfire_grace_secs md ≠ 0%Z.
Proof.
  unfold parse_schedule. intros Hp. accepted. destruct x; simpl in *; subst.
  rewrite negb_false_iff, ?Z.eqb_neq, Z.leb_gt in *.
  match goal with u : unit |- _ => destruct u end.
  match goal with H : bool_decide _ = true |- _ => apply bool_decide_eq_true in H end. done.
Qed.

(** ** Ranges of the numbers read *)

Lemma try_fold_invariant {A S} (P : S → Prop) (f : S → A → SynResult S) items s s' :
  (∀ s item s', P s → f s item = Accept s' → P s') → P s → try_fold f items s = Accept s' → P s'.
Proof.
  intros Hf. revert s. induction items as [|item items IH]; intros s Hs Ht; simpl in Ht; accepted; eauto.
Qed.

Lemma fold_items_invariant {A S} (P : S → Prop) (f : S → A → SynResult S) stream s s' :
  (∀ s item s', P s → f s item = Accept s' → P s') → P s → fold_items f stream s = Accept s' → P s'.
Proof.
  unfold fold_items. intros Hf Hs Ht. accepted. destruct (ti_error stream); [done|]. accepted.
  by eapply try_fold_invariant.
Qed.

Lemma read_attribute_invariant {S} (P : S → Prop) name (logic : S → Meta → SynResult S) input s s' :
  (∀ s meta s', P s → logic s meta = Accept s' → P s') → P s →
  read_attribute name logic input s = Accept s' → P s'.
Proof.
  intros Hf Hs. unfold read_attribute. intros Hr. accepted. destruct x as [[] x]; simpl in *; [|done].
  destruct (parse_attributes_one _ _ _ _ _ ltac:(eassumption)) as (a & _ & Hfold).
  by eapply fold_items_invariant.
Qed.

Definition in_field (in_range : Z → bool) (field : option Z) : Prop :=
  ∀ v, field = Some v → in_range v = true.

Definition backoff_fields_typed (s : BackoffFields) : Prop :=
  in_field in_u64 (bf_delay_secs s) ∧ in_field in_u64 (bf_initial_secs s)
  ∧ in_field in_u64 (bf_max_secs s) ∧ in_field in_u8 (bf_jitter_percent s).

Lemma backoff_field_typed s field s' :
  backoff_fields_typed s → backoff_field s field = Accept s' → backoff_fields_typed s'.
Proof.
  destruct s, field as [name value]. unfold backoff_field, backoff_fields_typed, in_field. intros Hs Hf.
  accepted; repeat match goal with
  | H : base10_parse _ _ = Accept _ |- _ => apply base10_parse_Accept in H as [-> ?]
  end; naive_solver.
Qed.

(** What the macro accepts as a backoff is a valid policy, with its fields in
    their widths. *)
Lemma backoff_of_call_valid call m :
  backoff_of_call call = Accept m → backoff_wf (backoff_tokens m).
Proof.
  destruct call as [kind content]. unfold backoff_of_call. intros Hc. apply syn_bind_Accept in Hc as (s & Hs & Hc).
  apply (fold_items_invariant backoff_fields_typed _ _ _ _ backoff_field_typed) in Hs; [|done].
  destruct s as [delay initial max jitter], Hs as (H1 & H2 & H3 & H4).
  unfold check_fixed, check_exponential in Hc. simpl in *.
  unfold in_field, in_u64, in_u8 in *. destruct (String.eqb kind "fixed"); [|destruct (String.eqb kind _)];
    accepted; repeat match goal with H : ∀ v, Some _ = Some v → _ |- _ => specialize (H _ eq_refl) end;
    unfold MACRO_MAX_RETRY_DELAY_SECS, MAX_RETRY_DELAY_SECS in *; lia.
Qed.

(** And every valid policy of the library is accepted. *)
Lemma backoff_call_accepted b :
  backoff_typed b → backoff_wf b →
  ∃ m, backoff_of_call (backoff_call b) = Accept m ∧ backoff_tokens m = b.
Proof.
  assert (∀ z, (0 ≤ z ≤ u64_max)%Z → base10_parse in_u64 z = Accept z) as H64.
  { intros z Hz. apply base10_parse_Accept. unfold in_u64. split; [done|lia]. }
  assert (∀ z, (0 ≤ z ≤ 255)%Z → base10_parse in_u8 z = Accept z) as H8.
  { intros z Hz. apply base10_parse_Accept. unfold in_u8. split; [done|lia]. }
  unfold backoff_of_call, fold_items. destruct b as [delay|initial max jitter]; intros Ht Hw; cbn in Ht.
  - exists (BmFixed delay). split; [|done]. cbn -[base10_parse check_fixed in_u64 in_u8]. rewrite H64 by done. simpl.
    destruct Hw. rewrite (proj2 (Z.eqb_neq delay 0)), (proj2 (Z.ltb_ge _ delay)) by done || lia. done.
  - exists (BmExponential initial max jitter). split; [|done]. destruct Ht as (? & ? & ?), Hw as (? & ? & ?).
    cbn -[base10_parse check_exponential in_u64 in_u8]. rewrite H64 by done. cbn -[base10_parse check_exponential].
    rewrite H64 by done. cbn -[base10_parse check_exponential in_u64 in_u8]. rewrite H8 by done. simpl.
    rewrite (proj2 (Z.eqb_neq initial 0)), (proj2 (Z.ltb_ge max initial)), (proj2 (Z.ltb_ge _ max)),
      (proj2 (Z.ltb_ge 100 jitter)) by done || lia. done.
Qed.

Definition activity_fields_typed (s : ActivityFields) : Prop :=
  in_field in_u64 (amf_timeout_secs s) ∧ in_field in_u64 (amf_lease_secs s)
  ∧ ∀ m, amf_backoff s = Some m → backoff_wf (backoff_tokens m).

Lemma lit_u64_range tokens v : lit_u64 tokens = Accept v → in_u64 v = true.
Proof. unfold lit_u64. intros Hp. accepted. by apply base10_parse_Accept in H1 as [-> ?]. Qed.

Lemma activity_meta_typed s meta s' :
  activity_fields_typed s → activity_meta s meta = Accept s' → activity_fields_typed s'.
Proof.
  destruct s. unfold activity_meta, activity_fields_typed, in_field, assign_meta. intros Hs Hm.
  repeat match type of Hm with
  | (if ?b then _ else _) = _ => destruct b
  | match ?o with _ => _ end = _ => destruct o
  end; accepted; try naive_solver; simpl; split_and!; try apply Hs; intros v [= <-].
  - by eapply lit_u64_range.
  - by eapply lit_u64_range.
  - unfold parse_backoff in *. accepted. by eapply backoff_of_call_valid.
Qed.

Lemma from_checked_wf b : backoff_wf b → from_checked b = inl {| backoff := b |}.
Proof.
  intros Hw. unfold from_checked. destruct (bound_check_spec b) as [_ Hb].
  { destruct b; cbn -[MAX_RETRY_DELAY_SECS] in *; change MAX_RETRY_DELAY_SECS with 4611686018427387%Z in *;
      unfold u64_max; lia. }
  destruct (Hb Hw) as [b' E]. rewrite E. by rewrite (bound_check_id _ _ E).
Qed.

Lemma command_of_derived A payload :
  (0 ≤ aty_timeout A < aty_lease_duration A)%Z → aty_max_attempts A ≠ 0%Z →
  (str_len payload ≤ MAX_INPUT_STATE_PAYLOAD_BYTES)%nat →
  is_ok (new_activity_command A payload None) = (aty_lease_duration A <=? u64_max)%Z.
Proof.
  intros Ht Ha Hp. unfold new_activity_command, ensure_size, duration_millis_u64, u64_try_from, in_u64.
  rewrite (proj2 (Nat.ltb_ge _ _) Hp). cbn [res_bind].
  rewrite (proj2 (Z.leb_le 0 (aty_timeout A))), (proj2 (Z.leb_le 0 (aty_lease_duration A))) by lia.
  destruct (aty_lease_duration A <=? u64_max)%Z eqn:El; simpl.
  - rewrite (proj2 (Z.leb_le (aty_timeout A) u64_max)) by (apply Z.leb_le in El; lia). simpl.
    rewrite (proj2 (Z.leb_gt _ _)) by lia. by rewrite (proj2 (Z.eqb_neq _ _) Ha).
  - by destruct (aty_timeout A <=? u64_max)%Z.
Qed.

Lemma derived_activity_valid input name i topic_key :
  derive_activity input = Expands name i →
  ∃ A, activity_type topic_key i = inl A
    ∧ is_ok (validate_definition (aty_kind A) (aty_version A)) = (0 <? aty_version A)%Z
    ∧ ∀ payload, (str_len payload ≤ MAX_INPUT_STATE_PAYLOAD_BYTES)%nat →
        is_ok (new_activity_command A payload None) = (ai_lease_secs i * 1000 <=? u64_max)%Z.
Proof.
  unfold derive_activity. destruct (parse_activity input) as [md|] eqn:Ep; [|done]. intros [= <- <-].
  destruct (parse_activity_spec _ _ Ep) as (Hread & Hk & _ & _ & Hm & _ & Hlt).
  apply (read_attribute_invariant activity_fields_typed _ _ _ _ _ activity_meta_typed) in Hread
    as (Ht & _ & Hb); [|unfold activity_fields_typed, in_field; naive_solver].
  specialize (Ht _ eq_refl). specialize (Hb _ eq_refl). unfold in_u64 in Ht.
  unfold activity_type. simpl. rewrite from_checked_wf by done. eexists. split; [done|]. simpl.
  split; [by apply validate_snake_case|]. intros payload Hp.
  apply command_of_derived; simpl; [lia|done|done].
Qed.

Lemma check_misfire_cases misfire limit :
  check_misfire misfire limit = Accept tt →
  misfire = "Skip" ∨ misfire = "RunLatest"
  ∨ misfire = "CatchUp"
    ∧ ∃ n, limit = Some n ∧ (1 <=? n)%Z && (n <=? MAX_CATCH_UP_OCCURRENCES)%Z = true.
Proof.
  unfold check_misfire.
  destruct (String.eqb_spec misfire "Skip") as [->|]; [auto|].
  destruct (String.eqb_spec misfire "RunLatest") as [->|]; [auto|]. simpl.
  destruct (String.eqb_spec misfire "CatchUp") as [->|]; [|done].
  destruct limit as [k|]; [|done]. destruct (_ && _) eqn:E; [|done]. intros _. eauto 6.
Qed.

Lemma schedule_meta_typed s meta s' :
  in_field in_u64 (smf_misfire_grace_secs s) → schedule_meta s meta = Accept s' →
  in_field in_u64 (smf_misfire_grace_secs s').
Proof.
  destruct s. unfold schedule_meta, in_field, assign_meta. intros Hs Hm.
  repeat match type of Hm with
  | (if ?b then _ else _) = _ => destruct b
  | match ?o with _ => _ end = _ => destruct o
  end; accepted; simpl in *; try naive_solver. intros v [= <-]. by eapply lit_u64_range.
Qed.

(** The schedule an accepted input defines, with the values it wrote. *)
Lemma derived_schedule_valid input name i :
  derive_schedule input = Expands name i →
  ∃ s, schedule_of_impl i = Some s
    ∧ is_ok (validate_schedule s) = (str_len (si_key i) <=? MAX_SCHEDULE_KEY_BYTES)%nat
    ∧ ds_key s = si_key i ∧ ds_cron s = si_cron i ∧ ds_timezone s = si_timezone i
    ∧ ds_misfire_grace s = (si_misfire_grace_secs i * 1000000000)%Z
    ∧ (0 < si_misfire_grace_secs i)%Z.
Proof.
  unfold derive_schedule. destruct (parse_schedule input) as [md|] eqn:Ep; [|done].
  destruct (parse_schedule_spec _ _ Ep) as (Hread & Hk & Hv & Hm & Ho & Hg).
  apply (read_attribute_invariant _ _ _ _ _ _ schedule_meta_typed) in Hread; [|done].
  specialize (Hread _ eq_refl). unfold in_u64 in Hread.
  apply check_misfire_cases in Hm.
  assert (∃ o, overlap_of_ident (sm_overlap md) = Some o) as [o Eo].
  { repeat (apply elem_of_cons in Ho as [->|Ho]; [by eexists|]). by apply elem_of_nil in Ho. }
  assert (∀ misfire m, misfire_of_tokens misfire = Some m →
    match m with CatchUp n => (1 <=? n)%Z && (n <=? MAX_CATCH_UP_OCCURRENCES)%Z = true | _ => True end →
    ∃ s, schedule_of_impl (MkScheduleImpl (sm_key md) (sm_version md) (sm_cron md) (sm_timezone md)
           misfire (sm_overlap md) (sm_misfire_grace_secs md)) = Some s
      ∧ is_ok (validate_schedule s) = (str_len (sm_key md) <=? MAX_SCHEDULE_KEY_BYTES)%nat
      ∧ ds_key s = sm_key md ∧ ds_cron s = sm_cron md ∧ ds_timezone s = sm_timezone md
      ∧ ds_misfire_grace s = (sm_misfire_grace_secs md * 1000000000)%Z
      ∧ (0 < sm_misfire_grace_secs md)%Z) as Hok.
  { intros misfire m Em Hc. unfold schedule_of_impl. simpl. rewrite Em, Eo. eexists. split; [done|].
    split; [|split_and!; (done || lia)].
    unfold validate_schedule. simpl. rewrite (snake_case_key _ Hk), (proj2 (Z.leb_gt _ 0) Hv).
    rewrite (proj2 (Z.eqb_neq _ 0)) by lia. destruct (str_len _ <=? _)%nat; [|done]. simpl.
    destruct m; [done..|]. by rewrite Hc. }
  destruct Hm as [->|[->|(-> & n & -> & Hn)]]; simpl; intros [= <- <-].
  - by apply (Hok _ MisfireSkip).
  - by apply (Hok _ RunLatest).
  - by apply (Hok _ (CatchUp n)).
Qed.

(** What the macro leaves to the registry of the schedules: the length of the
    key and its first use, the cron expression, the time zone and the width of
    the grace. *)
Definition registrable `{Chrono} (registry : ScheduleRegistry) (i : ScheduleImpl) : Prop :=
  (str_len (si_key i) ≤ MAX_SCHEDULE_KEY_BYTES)%nat ∧ registry !! si_key i = None
  ∧ (∃ schedule, cron_from_str (si_cron i) = inl schedule)
  ∧ is_Some (tz_from_str (si_timezone i))
  ∧ (si_misfire_grace_secs i * 1000 ≤ i64_max)%Z.

Lemma derived_schedule_registers `{Chrono} registry handler input name i :
  derive_schedule input = Expands name i →
  ∃ s, schedule_of_impl i = Some s
    ∧ (is_ok (register_schedule registry s handler) = true ↔ registrable registry i).
Proof.
  intros (s & Hs & Hval & Ek & Ec & Etz & Eg & Hpos)%derived_schedule_valid.
  exists s. split; [done|]. unfold registrable, register_schedule, calendar_new, metadata.
  rewrite Ek, Ec, Etz, Eg.
  replace (si_misfire_grace_secs i * 1000000000 / 1000000)%Z with (si_misfire_grace_secs i * 1000)%Z
    by (rewrite <- (Z.div_mul (si_misfire_grace_secs i * 1000) 1000000) by done; f_equal; lia).
  destruct (validate_schedule s) as [[]|]; cbn [is_ok res_bind] in *; [|split; [done|]].
  2: { intros (Hlen & _). apply Nat.leb_le in Hlen. congruence. }
  symmetry in Hval. apply Nat.leb_le in Hval.
  destruct (registry !! si_key i); [rewrite bool_decide_true by done; naive_solver|].
  rewrite bool_decide_false by (by intros [? ?]).
  destruct (cron_from_str _); cbn [res_bind]; [|naive_solver].
  destruct (tz_from_str _) as [tz|]; cbn [res_bind].
  2: { split; [done|]. by intros (_ & _ & _ & [? ?] & _). }
  unfold i64_try_from, in_i64. destruct (_ && _) eqn:Ei; cbn [ok_or res_bind is_ok].
  - split; [|done]. intros _. apply andb_true_iff in Ei as [_ Ei%Z.leb_le].
    split_and!; [done|done|by eexists|by eexists|done].
  - split; [done|]. intros (_ & _ & _ & _ & Hle). apply andb_false_iff in Ei.
    unfold i64_min in Ei. rewrite !Z.leb_gt in Ei. lia.
Qed.

Lemma parse_flow_valid tokens md :
  parse_flow_metadata tokens = Accept md → validate_definition (fm_kind md) (fm_version md) = Ok tt.
Proof.
  unfold parse_flow_metadata. intros Hp. accepted. rewrite negb_false_iff, Z.leb_gt in *.
  unfold validate_definition.
  match goal with H : is_lower_snake_case _ = true |- _ =>
    apply snake_case_nonempty, Nat.eqb_neq in H as -> end.
  by rewrite (proj2 (Z.leb_gt _ 0)).
Qed.

(** The one attribute of an accepted input. *)
Definition only_attribute (name : string) (input : DeriveInput) (metas : list Meta) : Prop :=
  ∃ attribute, filter (λ a, at_path a = Some name) (di_attrs input) = [attribute]
    ∧ at_metas attribute = MkTokenItems metas None.

Lemma read_attribute_literal {St} {logic : St → Meta → SynResult St} `{!ReadsOnce logic} name input s s' :
  read_attribute name logic input s = Accept s' → present s = [] →
  ∃ metas, only_attribute name input metas ∧ map meta_path metas ≡ₚ map Some (present s')
    ∧ Forall (reads s') metas.
Proof.
  intros Hr Hs. destruct (read_attribute_reads _ _ _ _ Hr Hs) as (a & Ha & He & Hp & Hall).
  exists (ti_items (at_metas a)). split_and!; [|done..]. exists a. split; [done|].
  destruct (at_metas a); simpl in *; congruence.
Qed.

(** A derive takes its metadata literally. An accepted input has exactly one
    attribute of the macro, which lists every required key once, in any
    order, the optional [catch_up_limit] at most once, and nothing else; and
    each value of the definition is the one written under its key. *)
Theorem derived_metadata_is_literal (input : DeriveInput) :
  (∀ md, parse_workflow input = Accept md →
     ∃ metas, only_attribute "workflow" input metas
       ∧ map meta_path metas ≡ₚ map Some ["kind"; "version"]
       ∧ Forall (workflow_reads (MkWorkflowFields (Some (wm_kind md)) (Some (wm_version md)))) metas)
  ∧ (∀ md, parse_activity input = Accept md →
       ∃ metas, only_attribute "activity" input metas
         ∧ map meta_path metas ≡ₚ map Some ["kind"; "version"; "topic"; "max_attempts";
                                            "timeout_secs"; "lease_secs"; "backoff"]
         ∧ Forall (activity_reads (MkActivityFields (Some (am_kind md)) (Some (am_version md))
             (Some (am_topic md)) (Some (am_max_attempts md)) (Some (am_timeout_secs md))
             (Some (am_lease_secs md)) (Some (am_backoff md)))) metas)
  ∧ ∀ md, parse_schedule input = Accept md →
      ∃ metas, only_attribute "schedule" input metas
        ∧ map meta_path metas ≡ₚ map Some (["key"; "version"; "cron"; "timezone"; "misfire"]
            ++ key_if (sm_catch_up_limit md) "catch_up_limit" ++ ["overlap"; "misfire_grace_secs"])
        ∧ Forall (schedule_reads (MkScheduleFields (Some (sm_key md)) (Some (sm_version md))
            (Some (sm_cron md)) (Some (sm_timezone md)) (Some (sm_misfire md)) (sm_catch_up_limit md)
            (Some (sm_overlap md)) (Some (sm_misfire_grace_secs md)))) metas.
Proof.
  split_and!; intros md Hp.
  - destruct (parse_workflow_spec _ _ Hp) as [Hr _]. exact (read_attribute_literal _ _ _ _ Hr eq_refl).
  - destruct (parse_activity_spec _ _ Hp) as [Hr _]. exact (read_attribute_literal _ _ _ _ Hr eq_refl).
  - destruct (parse_schedule_spec _ _ Hp) as [Hr _]. exact (read_attribute_literal _ _ _ _ Hr eq_refl).
Qed.

(** C40: What the macros accept at compile time is what the library accepts at
    run time. A derived workflow or activity passes the checks of its registry
    exactly when its version is positive; the [const] block of an activity's
    retry policy never panics, and its commands pass the checks of
    [ActivityCommand::new] exactly when its lease fits in [u64]
    milliseconds; a derived schedule names existing variants, and its
    registration succeeds exactly when its key is at most 191 bytes and not
    registered yet, its cron expression and its time zone are read by their
    libraries, and its grace fits in [i64] milliseconds: the macro checks none
    of these; flow metadata passes always. The backoffs the macro accepts are
    exactly the policies within the bounds of the library. *)
Theorem derived_definitions_are_valid :
  (∀ input name i, derive_workflow input = Expands name i →
     is_ok (validate_definition (wi_kind i) (wi_version i)) = (0 <? wi_version i)%Z)
  ∧ (∀ input name i topic_key, derive_activity input = Expands name i →
       ∃ A, activity_type topic_key i = inl A
         ∧ is_ok (validate_definition (aty_kind A) (aty_version A)) = (0 <? aty_version A)%Z
         ∧ ∀ payload, (str_len payload ≤ MAX_INPUT_STATE_PAYLOAD_BYTES)%nat →
             is_ok (new_activity_command A payload None) = (ai_lease_secs i * 1000 <=? u64_max)%Z)
  ∧ (∀ (HC : Chrono) registry handler input name i, derive_schedule input = Expands name i →
       ∃ s, schedule_of_impl i = Some s
         ∧ (is_ok (register_schedule registry s handler) = true ↔
            (str_len (si_key i) ≤ MAX_SCHEDULE_KEY_BYTES)%nat ∧ registry !! si_key i = None
            ∧ (∃ schedule, cron_from_str (si_cron i) = inl schedule)
            ∧ is_Some (tz_from_str (si_timezone i))
            ∧ (si_misfire_grace_secs i * 1000 ≤ i64_max)%Z))
  ∧ (∀ tokens md, parse_flow_metadata tokens = Accept md →
       validate_definition (fm_kind md) (fm_version md) = Ok tt)
  ∧ ∀ b, backoff_typed b →
      (∃ m, backoff_of_call (backoff_call b) = Accept m ∧ backoff_tokens m = b)
      ↔ ∃ b', bound_check b = inl b'.
Proof.
  split_and!.
  - intros input name i. unfold derive_workflow.
    destruct (parse_workflow input) as [md|] eqn:Ep; [|done]. intros [= <- <-].
    by apply validate_snake_case, (parse_workflow_spec _ _ Ep).
  - intros input name i topic_key. apply derived_activity_valid.
  - intros HC. apply @derived_schedule_registers.
  - apply parse_flow_valid.
  - intros b Hb. rewrite bound_check_spec by done. split; [|by apply backoff_call_accepted].
    intros (m & Hm & <-). by eapply backoff_of_call_valid.
Qed.
End accepted.

(** * Examples *)

(** Values as an application writes them. *)
Inductive ExampleTokens :=
  | ExStr (s : string)
  | ExInt (z : Z)
  | ExPath (segments : list string)
  | ExCall (kind : string) (fields : list (string * Z)).

#[export] Instance example_parser : SynParser := {|
  Tokens := ExampleTokens;
  parse_lit_str t := match t with ExStr s => Accept s | _ => Reject "expected string literal" end;
  parse_lit_int t := match t with ExInt z => Accept z | _ => Reject "expected integer literal" end;
  parse_ident t := match t with ExPath [i] => Accept i | _ => Reject "expected identifier" end;
  parse_path t := match t with ExPath p => Accept p | _ => Reject "expected identifier" end;
  parse_call t := match t with
                  | ExCall kind fields => Accept (kind, MkTokenItems fields None)
                  | _ => Reject "expected identifier"
                  end;
  base10_error _ := "number too large to fit in target type";
|}.

Definition given (name : string) (value : ExampleTokens) : Meta :=
  MkMeta (Some name) (Accept value).

Definition submit_fax (backoff : ExampleTokens) : DeriveInput :=
  MkDeriveInput "SubmitFax" [MkAttribute (Some "doc") (MkTokenItems [] None);
    MkAttribute (Some "activity") (MkTokenItems
      [given "kind" (ExStr "submit_fax"); given "version" (ExInt 1);
       given "topic" (ExPath ["Topics"; "Fax"]); given "max_attempts" (ExInt 3);
       given "timeout_secs" (ExInt 30); given "lease_secs" (ExInt 60); given "backoff" backoff] None)].

Definition nightly_report (cron : string) : DeriveInput :=
  MkDeriveInput "NightlyReport" [MkAttribute (Some "schedule") (MkTokenItems
    [given "key" (ExStr "nightly_report"); given "version" (ExInt 1); given "cron" (ExStr cron);
     given "timezone" (ExStr "Etc/UTC"); given "misfire" (ExPath ["Skip"]);
     given "overlap" (ExPath ["Allow"]); given "misfire_grace_secs" (ExInt 60)] None)].

(** The activity of the documentation; and of two schedules the macro accepts,
    the registry refuses the one whose cron expression is not one. *)
Lemma derived_definitions_are_valid_witness :
  ∃ i A, derive_activity (submit_fax (ExCall "fixed" [("delay_secs", 5%Z)])) = Expands "SubmitFax" i
    ∧ activity_type (λ _, "fax") i = inl A
    ∧ is_ok (validate_definition (aty_kind A) (aty_version A)) = true
    ∧ is_ok (new_activity_command A "{}" None) = true
    ∧ ∀ handler, ∃ s s',
        derive_schedule (nightly_report "@hourly")
          = Expands "NightlyReport" (MkScheduleImpl "nightly_report" 1 "@hourly" "Etc/UTC"
              (MtVariant "Skip") "Allow" 60)
        ∧ is_ok (register_schedule ∅ s handler) = true
        ∧ schedule_of_impl (MkScheduleImpl "nightly_report" 1 "bad" "Etc/UTC"
              (MtVariant "Skip") "Allow" 60) = Some s'
        ∧ is_ok (register_schedule ∅ s' handler) ≠ true.
Proof.
  destruct derived_definitions_are_valid as (_ & Ha & Hsched & _).
  pose (i := MkActivityImpl ["Topics"] "submit_fax" 1 3 30 60 ["Topics"; "Fax"] (Fixed 5)).
  assert (derive_activity (submit_fax (ExCall "fixed" [("delay_secs", 5%Z)])) = Expands "SubmitFax" i)
    as Hi by (vm_compute; reflexivity).
  destruct (Ha _ _ i (λ _, "fax") Hi) as (A & HA & Hv & Hc).
  exists i, A. split; [exact Hi|]. split; [exact HA|].
  assert (aty_version A = 1%Z) as E by (vm_compute in HA; injection HA as <-; reflexivity).
  split; [rewrite Hv, E; reflexivity|].
  split; [rewrite Hc; [reflexivity|]; apply Nat.leb_le; vm_compute; reflexivity|].
  intros handler. pose (good := MkScheduleImpl "nightly_report" 1 "@hourly" "Etc/UTC"
    (MtVariant "Skip") "Allow" 60). pose (bad := MkScheduleImpl "nightly_report" 1 "bad" "Etc/UTC"
    (MtVariant "Skip") "Allow" 60).
  assert (derive_schedule (nightly_report "@hourly") = Expands "NightlyReport" good) as Hg
    by (vm_compute; reflexivity).
  destruct (Hsched _ ∅ handler _ _ good Hg) as (s & _ & Hreg).
  destruct (Hsched _ ∅ handler (nightly_report "bad") "NightlyReport" bad eq_refl)
    as (s' & Hs' & Hreg').
  exists s, s'. split; [exact Hg|]. split; [apply Hreg|split; [exact Hs'|]].
  - split; [apply Nat.leb_le; vm_compute; reflexivity|]. split; [reflexivity|].
    split; [eexists; vm_compute; reflexivity|]. split; [eexists; vm_compute; reflexivity|].
    vm_compute. discriminate.
  - intros H. apply Hreg' in H as (_ & _ & [? Hcron] & _). vm_compute in Hcron. discriminate.
Defined.

(** The cases of the tests of the macro crate. *)
Example invalid_backoff_is_rejected :
  parse_activity (submit_fax (ExCall "exponential"
    [("initial_secs", 30%Z); ("max_secs", 5%Z); ("jitter_percent", 20%Z)]))
  = Reject "exponential backoff max_secs must be at least initial_secs".
Proof. reflexivity. Qed.

(** A workflow with a negative version expands, though its message asks for
    more than zero; the registry refuses it when the application starts. *)
Definition negative_version : DeriveInput :=
  MkDeriveInput "Order" [MkAttribute (Some "workflow") (MkTokenItems
    [given "kind" (ExStr "order"); given "version" (ExInt (-1))] None)].

Lemma negative_version_expands :
  derive_workflow negative_version = Expands "Order" (MkWorkflowImpl "order" (-1))
  ∧ is_ok (validate_definition "order" (-1)) = false.
Proof. split; reflexivity. Qed.
